(* ===== verification/_CoqProject ===== *)
-Q . S2P
Prelude.v
CxxText.v
Message.v
PeerManager.v
PeerFile.v
PeerThreads.v
Network.v
NetworkFacts.v
Isolation.v
Handshake.v
Cli.v
CliFacts.v
DisplayThread.v
StopRace.v
Crypto.v
CryptoFacts.v
Main.v
Process.v
ProcessInv.v
ProcessFacts.v
Session.v
SessionFacts.v
SessionLife.v
