(* ===== verification/Prelude.v ===== *)
(** * A verification of the peer-to-peer chat system

    The program (sources under [src/]) is a chat client in C++23. [Main.cpp] makes a
    key pair and a peer id ([Crypto.cpp]), loads the known peers ([PeerManager.cpp]),
    starts a network manager over ZeroMQ ([Network.cpp]), runs a command line
    interface ([CliInterface.cpp]) in a thread, and saves the peers at the end.
    Messages have a binary format ([Message.cpp]). A second network manager, over
    Asio coroutines ([Network_coroutines_wip.cpp]), is not part of the build.

    ** How the code is modelled

    A member function is a function of type [stM S A]: from the state [S] of its object
    to an [outcome] (a value, an exception, or an undefined behaviour with its cause)
    and the state it leaves; the state survives an exception. Locks are modelled: a
    [lock_guard] taken by a thread that holds the mutex is [Undefined
    RelockOwnedMutex]. Integers are [Z] with the C++ width written at each operation;
    bytes are [Byte.byte]; [std::string] is [string]; an [unordered_map] is a [gmap],
    and what iterates over one takes its order as an argument of class
    [UnorderedIter]. Clock readings are arguments. An uninitialised scalar is an
    option, [None] when indeterminate: copying one is allowed, using it is undefined.

    ** The files

    - [Prelude] (this file): results, the state monad, locks, unordered iteration,
      clocks, machine integers, the big-endian codec, and their lemmas.
    - [CxxText]: [getline], [>>] into a string, [stoul], [stoi], [to_string],
      hexadecimal output, [find], as [PeerManager.cpp], [CliInterface.cpp],
      [Crypto.cpp] and [Network.cpp] use them, in the C locale.
    - [Message]: [Message.cpp] and [Message.hpp]: the record, [Serialize],
      [Deserialize], the factories, and the reader of handshake payloads that three
      other files repeat. Round trips both ways, equivalence with a reference
      decoder, the inputs that throw and those that are undefined, and what a receiver
      reads out of the message of each factory.
    - [PeerManager]: [PeerManager.cpp] and [PeerManager.hpp], the peer file included:
      the operations, an invariant of the reachable registries, and the refinement of
      a specification by histories. [PeerFile]: saving and loading: round trip of
      the storable peers, definedness, what a malformed line does, and the peers that
      an id with line feeds brings into the file.
    - [PeerThreads]: the registry called from several threads: each member function as
      its statements, the locking and unlocking of the mutex among them, interleaved.
      Linearizability, the data races there are, completion of all calls, and what
      the unlocked [GetLocalPeer] can read.
    - [Network]: [Network.cpp] and [Network.hpp]: the state of [NetworkManager::Impl]
      and every member function, one pass of each worker loop at a time.
      [NetworkFacts]: life cycle, the self-deadlocks of connecting and broadcasting,
      the invariant of the reachable managers, and that [SendMessage] never sends.
      [Isolation]: systems of any number of programs: no frame is ever received.
      [Handshake]: received frames against a reference, one and in a loop, the
      exchange of two managers, the uninitialised port of incoming peers, the
      containment of exceptions. It defines the interface [Client], what the network
      manager needs of the handlers its client installs, against which its theorems
      are proved.
    - [Cli]: [CliInterface.cpp] and [CliInterface.hpp]: the table, the parser and all
      commands, the handlers and the loop of [Run], and what each displayed line
      prints. [CliFacts]: an instance of [Client]; each input line against a
      reference; the end of the loop; a text message from the wire to the screen.
    - [DisplayThread]: the display thread of [CliInterface.cpp], its condition variable
      and [Stop], as a step relation: order and completeness, progress, the lost
      wake-up. [StopRace]: [NetworkManager::Stop] against the router thread, as a
      step relation: the race for the router socket.
    - [Crypto]: [Crypto.cpp] and [Crypto.hpp] over a ledger of OpenSSL objects.
      [CryptoFacts]: a weakest precondition over the ledger; balance of every
      operation, round trips, the peer id, the derived secret.
    - [Main]: [Main.cpp] in sequence: a whole run, the next start, and two ways of
      failing. [Process]: the same [main] from the wait on, with the input thread,
      the signal handler, the workers, the display thread of [DisplayThread] and the
      user, as a step relation; a join waits for the thread it joins, and an undefined
      pass of a worker ends the process. [ProcessInv]: the invariant of its reachable
      states. [ProcessFacts]: what holds at the exit, progress towards it up to the
      lost wake-up, why a signal does not suffice and [connect] prevents it, and that
      [Main] is one of the schedules.
    - [Session]: [Network_coroutines_wip.cpp]. [SessionFacts]: framing, termination,
      identification of sessions. [SessionLife]: the invariant of the reachable
      managers, a session from its first byte to its last, and what two coroutines
      that write to the same socket do to the session at the other end.

    ** Parameters and assumptions

    Code outside [src/] is a parameter. ZeroMQ: the record [Zmq] says what each call
    returns, and the frames it accepts are logged in [wire]. OpenSSL: the record
    [OpenSSL] says what each call returns; the class [OpenSSL_documented] states the
    size bounds of its manual pages. Rang's escape sequences, the local time text,
    Boost's option parser, Asio's streams and what each of its
    partial writes transfers are arguments. The platform is assumed
    to have 64-bit [long] and a [system_clock] that counts nanoseconds in 64 bits.
    A file is its contents. A [Zmq] record gives the results for the one operation it
    is passed to, so that different calls may fare differently.

    ** Fuel and termination

    [Session_Run] takes fuel; [Session_Run_ends] shows that one unit for each 13 bytes
    of the stream and one more are enough, and that the result is then independent of
    it. The worker loops and the display thread, which run as long as the program,
    appear as single passes or steps, and [RouteMessages_loop] as the list of its
    passes. The step relations come with a measure of the program's own steps where
    they end ([work] in [PeerThreads], [disp_rank] in [DisplayThread], [rank] in
    [ProcessFacts]). Every other function is total.

    ** What is not modelled

    Data races below the step granularity said in [PeerThreads], [DisplayThread],
    [StopRace] and [Process] (two threads in one ZeroMQ socket, for instance); memory
    exhaustion; line editing; the text of [--help]; lifetimes of references captured
    by the coroutines; the library initialisation of OpenSSL; the tests and build
    scripts. *)

From stdpp Require Export base option list strings gmap fin_maps sorting.
From Stdlib Require Export ZArith Lia.
From Stdlib Require Strings.Byte.

#[global] Open Scope Z_scope.

Abbreviation byte := Init.Byte.byte.

(** ** Results of running a piece of C++ *)

(** The exceptions the program throws or catches; all derive from
    [std::exception], so a [catch (const std::exception&)] takes each of them
    and a [catch (const zmq::error_t&)] only [zmq_error]. *)
Inductive exn :=
  | runtime_error (what : string)
  | invalid_argument
  | out_of_range
  | zmq_error (what : string)
  | system_error (what : string).

(** The undefined or fatal behaviours the model tracks, by cause. *)
Inductive ub :=
  | ReadPastEnd          (** a range beyond [end()] is read *)
  | SignedOverflow       (** signed integer overflow *)
  | UninitialisedRead    (** the value of an uninitialised scalar is used *)
  | RelockOwnedMutex     (** a [std::mutex] is locked by the thread that owns it *)
  | NullDereference      (** an empty [unique_ptr] is dereferenced *)
  | ThreadOverwritten    (** a joinable [std::thread] is assigned to: [std::terminate] *)
  | InvalidFree          (** a resource is released that is not held *)
  | WritePastEnd.        (** a range beyond [end()] is written *)

Inductive outcome (A : Type) :=
  | Ok (a : A)
  | Throw (e : exn)
  | Undefined (u : ub).
Arguments Ok {_} _.
Arguments Throw {_} _.
Arguments Undefined {_} _.

#[export] Instance exn_eq_dec : EqDecision exn.
Proof. solve_decision. Defined.
#[export] Instance ub_eq_dec : EqDecision ub.
Proof. solve_decision. Defined.
#[export] Instance outcome_eq_dec `{EqDecision A} : EqDecision (outcome A).
Proof. solve_decision. Defined.

Definition outcome_bind {A B} (f : A → outcome B) (m : outcome A) : outcome B :=
  match m with Ok a => f a | Throw e => Throw e | Undefined u => Undefined u end.

#[export] Instance outcome_ret : MRet outcome := @Ok.
#[export] Instance outcome_mbind : MBind outcome := @outcome_bind.
#[export] Instance outcome_throw : MThrow exn outcome := @Throw.

Definition is_Undefined {A} (r : outcome A) : bool :=
  match r with Undefined _ => true | _ => false end.

(** ** Stateful code

    A member function is a function from the object's state to its outcome and
    the state it leaves. The state survives an exception, as it does in C++. *)
Definition stM (S A : Type) : Type := S → outcome A * S.

Section StateMonad.
Context {S : Type}.

Definition st_ret {A} (a : A) : stM S A := λ s, (Ok a, s).
Definition st_bind {A B} (f : A → stM S B) (m : stM S A) : stM S B := λ s,
  match m s with
  | (Ok a, s') => f a s'
  | (Throw e, s') => (Throw e, s')
  | (Undefined u, s') => (Undefined u, s')
  end.
Definition st_throw {A} (e : exn) : stM S A := λ s, (Throw e, s).
Definition st_lift {A} (r : outcome A) : stM S A := λ s, (r, s).
Definition st_gets {A} (f : S → A) : stM S A := λ s, (Ok (f s), s).
Definition st_modify (f : S → S) : stM S unit := λ s, (Ok tt, f s).

(** [try { m } catch (E&) { h }], where [h e] is [None] when the handler's
    type does not match [e]. *)
Definition st_catch {A} (m : stM S A) (h : exn → option (stM S A)) : stM S A := λ s,
  match m s with
  | (Throw e, s') => match h e with Some k => k s' | None => (Throw e, s') end
  | res => res
  end.

(** [for (const auto& x : xs) f(x);] *)
Fixpoint st_for {X} (xs : list X) (f : X → stM S unit) : stM S unit :=
  match xs with
  | [] => st_ret tt
  | x :: xs => st_bind (λ _, st_for xs f) (f x)
  end.
End StateMonad.

#[export] Instance stM_ret {S} : MRet (stM S) := @st_ret S.
#[export] Instance stM_bind {S} : MBind (stM S) := @st_bind S.
#[export] Instance stM_throw {S} : MThrow exn (stM S) := @st_throw S.

Definition catch_all {S A} (h : exn → stM S A) (e : exn) : option (stM S A) := Some (h e).
Definition catch_zmq {S A} (h : exn → stM S A) (e : exn) : option (stM S A) :=
  match e with zmq_error _ => Some (h e) | _ => None end.

(** Running the code of a sub-object inside the object that refers to it. *)
Definition zoom {S T A} (get : S → T) (put : T → S → S) (m : stM T A) : stM S A := λ s,
  let '(r, t) := m (get s) in (r, put t s).

(** ** Mutexes

    What [std::lock_guard] needs of the object that holds a [std::mutex]: a flag
    that says whether the running thread owns it. Locking an owned
    [std::mutex] again is undefined behaviour (a self-deadlock in practice). *)
Class Mutex (S : Type) := {
  locked : S → bool;
  set_locked : bool → S → S;
  locked_set_locked b s : locked (set_locked b s) = b;
  set_locked_set_locked b b' s : set_locked b (set_locked b' s) = set_locked b s;
  set_locked_locked s : set_locked (locked s) s = s
}.

Definition lock_guard {S A} `{Mutex S} (m : stM S A) : stM S A := λ s,
  if locked s then (Undefined RelockOwnedMutex, s)
  else match m (set_locked true s) with
       | (Undefined u, s') => (Undefined u, s')
       | (r, s') => (r, set_locked false s')
       end.

(** ** Unordered containers

    [std::unordered_map] promises an iteration that visits each entry once, in
    an order of the library's choosing. *)
Class UnorderedIter := {
  iter : ∀ {A : Type}, gmap string A → list (string * A);
  iter_perm : ∀ {A : Type} (m : gmap string A), iter m ≡ₚ map_to_list m
}.

(** Two concrete orders, for evaluation. *)
Definition tree_order : UnorderedIter :=
  {| iter := λ A m, map_to_list m; iter_perm := λ A m, Permutation_refl _ |}.
Definition reverse_order : UnorderedIter :=
  {| iter := λ A m, reverse (map_to_list m);
     iter_perm := λ A m, reverse_Permutation (map_to_list m) |}.

(** ** Clocks

    The successive readings of [std::chrono::system_clock::now()] an operation
    makes, as signed 64-bit nanosecond counts. *)
Definition Clock : Type := nat → Z.
Definition later (n : nat) (now : Clock) : Clock := λ i, now (n + i)%nat.

(** ** Machine integers *)
Definition u8 (z : Z) : Z := z mod 2 ^ 8.
Definition u16 (z : Z) : Z := z mod 2 ^ 16.
Definition u32 (z : Z) : Z := z mod 2 ^ 32.
Definition u64 (z : Z) : Z := z mod 2 ^ 64.
Definition i64 (z : Z) : Z := (z + 2 ^ 63) mod 2 ^ 64 - 2 ^ 63.
Definition fits_i64 (z : Z) : bool := (- 2 ^ 63 <=? z) && (z <? 2 ^ 63).

Definition Z_of_byte (b : byte) : Z := Z.of_N (Byte.to_N b).
Definition byte_of_Z (z : Z) : byte :=
  default Byte.x00 (Byte.of_N (Z.to_N (u8 z))).

Abbreviation bytes_of_string := String.list_byte_of_string.
Abbreviation string_of_bytes := String.string_of_list_byte.

(** ** Big-endian reference codec *)
Fixpoint be_encode (n : nat) (z : Z) : list byte :=
  match n with
  | O => []
  | S n => byte_of_Z (z / 2 ^ (8 * Z.of_nat n)) :: be_encode n z
  end.
Definition be_decode (l : list byte) : Z :=
  foldl (λ acc b, acc * 256 + Z_of_byte b) 0 l.

(** * Lemmas *)

Create HintDb cxx.
Create Rewrite HintDb cxx.

(** Unfolds the combinators, so that a block of straight-line code reduces. *)
Ltac st_simpl :=
  unfold mbind, mret, mthrow, stM_bind, stM_ret, stM_throw, st_bind, st_ret, st_throw,
    st_gets, st_modify, st_lift, outcome_mbind, outcome_ret, outcome_bind;
  cbn.

(** ** The state monad *)

Lemma st_bind_Ok {S A B} (f : A → stM S B) (m : stM S A) s a s' :
  m s = (Ok a, s') → st_bind f m s = f a s'.
Proof. intros E. unfold st_bind. by rewrite E. Qed.

Lemma st_bind_Throw {S A B} (f : A → stM S B) (m : stM S A) s e s' :
  m s = (Throw e, s') → st_bind f m s = (Throw e, s').
Proof. intros E. unfold st_bind. by rewrite E. Qed.

Lemma st_bind_Undefined {S A B} (f : A → stM S B) (m : stM S A) s u s' :
  m s = (Undefined u, s') → st_bind f m s = (Undefined u, s').
Proof. intros E. unfold st_bind. by rewrite E. Qed.

Lemma st_for_app {S X} (xs ys : list X) (f : X → stM S unit) s :
  st_for (xs ++ ys) f s = st_bind (λ _, st_for ys f) (st_for xs f) s.
Proof.
  revert s. induction xs as [|x xs IH]; intros s; [done|].
  simpl. unfold st_bind at 1 2 3.
  destruct (f x s) as [[[]| |] s']; [|done..]. rewrite IH. done.
Qed.

(** A loop whose body always completes folds the body's effect. *)
Lemma st_for_pure {S X} (xs : list X) (f : X → stM S unit) (g : X → S → S) (P : S → Prop) s :
  (∀ x s, x ∈ xs → P s → f x s = (Ok tt, g x s) ∧ P (g x s)) → P s →
  st_for xs f s = (Ok tt, foldl (λ s x, g x s) s xs) ∧ P (foldl (λ s x, g x s) s xs).
Proof.
  revert s. induction xs as [|x xs IH]; intros s Hf HP; simpl; [done|].
  destruct (Hf x s) as [E HP']; [apply elem_of_cons; by left|done|].
  erewrite st_bind_Ok by exact E.
  apply IH; [|done]. intros y t Hy. apply Hf. apply elem_of_cons. by right.
Qed.

(** An assertion every iteration keeps holds when the loop stops, however it stops. *)
Lemma st_for_inv {S X} (xs : list X) (f : X → stM S unit) (P : S → Prop) s :
  (∀ x s, x ∈ xs → P s → P (f x s).2) → P s → P (st_for xs f s).2.
Proof.
  revert s. induction xs as [|x xs IH]; intros s Hf HP; simpl; [done|].
  unfold st_bind. pose proof (Hf x s) as Hx.
  destruct (f x s) as [[[]| |] s']; simpl in *;
    [|apply Hx; [apply elem_of_cons; by left|done]..].
  apply IH; [|apply Hx; [apply elem_of_cons; by left|done]].
  intros y t Hy. apply Hf. apply elem_of_cons. by right.
Qed.

(** ** Locks *)

Section LockGuard.
Context {S : Type} `{Mutex S}.

Lemma lock_guard_run {A} (m : stM S A) s r s' :
  locked s = false → m (set_locked true s) = (r, s') → is_Undefined r = false →
  lock_guard m s = (r, set_locked false s').
Proof. intros Hs E Hr. unfold lock_guard. rewrite Hs, E. by destruct r. Qed.

Lemma lock_guard_owned {A} (m : stM S A) s :
  locked s = true → lock_guard m s = (Undefined RelockOwnedMutex, s).
Proof. intros Hs. unfold lock_guard. by rewrite Hs. Qed.

(** A guard taken inside a guard on the same object is a relock, provided the
    code before it keeps the lock. *)
Lemma lock_guard_nested {A B} (m : stM S A) (k : A → stM S B) s a s' :
  locked s = false → m (set_locked true s) = (Ok a, s') → locked s' = true →
  lock_guard (st_bind (λ a, lock_guard (k a)) m) s = (Undefined RelockOwnedMutex, s').
Proof.
  intros Hs E Hl. unfold lock_guard at 1. rewrite Hs.
  erewrite st_bind_Ok by exact E. by rewrite lock_guard_owned.
Qed.

(** RAII: unless the body is undefined, the lock is free afterwards. *)
Lemma lock_guard_releases {A} (m : stM S A) s r s' :
  lock_guard m s = (r, s') → is_Undefined r = false → locked s' = false.
Proof.
  unfold lock_guard. destruct (locked s); [by intros [= <- <-]|].
  destruct (m (set_locked true s)) as [[] ?]; intros [= <- <-]; simpl;
    intros; try done; apply locked_set_locked.
Qed.
End LockGuard.

(** ** Unordered iteration *)

Section Iter.
Context `{UnorderedIter} {A : Type}.
Implicit Types m : gmap string A.

Lemma iter_elem m k x : (k, x) ∈ iter m ↔ m !! k = Some x.
Proof. rewrite iter_perm. apply elem_of_map_to_list. Qed.

Lemma iter_empty m : iter m = [] ↔ m = ∅.
Proof.
  split; [|intros ->].
  - intros E. pose proof (iter_perm m) as P. rewrite E in P.
    apply Permutation.Permutation_nil in P. by apply map_to_list_empty_iff.
  - apply Permutation.Permutation_nil. symmetry.
    rewrite iter_perm. by rewrite map_to_list_empty.
Qed.

Lemma iter_NoDup_keys m : NoDup (iter m).*1.
Proof. rewrite iter_perm. apply NoDup_fst_map_to_list. Qed.

Lemma iter_length m : length (iter m) = size m.
Proof. rewrite iter_perm. apply length_map_to_list. Qed.
End Iter.

(** ** Integers and bytes *)

Lemma Z_of_byte_range b : 0 <= Z_of_byte b < 256.
Proof.
  unfold Z_of_byte. pose proof (Byte.to_N_bounded b). lia.
Qed.

Lemma u8_range z : 0 <= u8 z < 256.
Proof. unfold u8. apply Z.mod_pos_bound. lia. Qed.

Lemma Z_of_byte_of_Z z : Z_of_byte (byte_of_Z z) = u8 z.
Proof.
  unfold byte_of_Z, Z_of_byte. pose proof (u8_range z) as Hz.
  destruct (Byte.of_N (Z.to_N (u8 z))) as [b|] eqn:E; simpl.
  - apply Byte.to_of_N in E. rewrite E. lia.
  - apply Byte.of_N_None_iff in E. lia.
Qed.

Lemma byte_of_Z_of_byte b : byte_of_Z (Z_of_byte b) = b.
Proof.
  unfold byte_of_Z. pose proof (Z_of_byte_range b).
  unfold u8. rewrite Z.mod_small by lia. unfold Z_of_byte.
  by rewrite N2Z.id, Byte.of_to_N.
Qed.

#[export] Instance Z_of_byte_inj : Inj (=) (=) Z_of_byte.
Proof. intros a b E. by rewrite <- (byte_of_Z_of_byte a), E, byte_of_Z_of_byte. Qed.

#[export] Instance byte_eq_dec : EqDecision byte.
Proof. intros a b. destruct (decide (Z_of_byte a = Z_of_byte b)) as [E|E].
  - left. by apply (inj Z_of_byte).
  - right. intros ->. done.
Defined.

(** [x & 0xFF] stored into a [uint8_t] is [x] modulo 256. *)
Lemma byte_of_Z_land z : byte_of_Z (Z.land z 255) = byte_of_Z z.
Proof.
  unfold byte_of_Z, u8. change 255 with (Z.ones 8).
  rewrite Z.land_ones by lia. by rewrite Zmod_mod.
Qed.

Lemma byte_of_Z_mod z : byte_of_Z (u8 z) = byte_of_Z z.
Proof. unfold byte_of_Z, u8. by rewrite Zmod_mod. Qed.

Lemma byte_of_Z_congr a b : a mod 2 ^ 8 = b mod 2 ^ 8 → byte_of_Z a = byte_of_Z b.
Proof. intros E. by rewrite <- byte_of_Z_mod, <- (byte_of_Z_mod b); unfold u8; rewrite E. Qed.

(** Shifting left and or-ing a small value in is a multiply-and-add. *)
Lemma lor_shiftl_add a b n :
  0 <= n → 0 <= b < 2 ^ n → Z.lor (Z.shiftl a n) b = a * 2 ^ n + b.
Proof.
  intros Hn Hb. rewrite <- Z.shiftl_mul_pow2 by done.
  assert (Z.land (Z.shiftl a n) b = 0) as Hland.
  { apply Z.bits_inj'. intros i Hi. rewrite Z.land_spec, Z.bits_0.
    destruct (decide (i < n)) as [Hlt|Hge].
    - by rewrite Z.shiftl_spec_low.
    - rewrite <- (Z.mod_small b (2 ^ n)) by done.
      rewrite (Z.mod_pow2_bits_high b n i) by lia. apply andb_false_r. }
  rewrite Z.add_nocarry_lxor by done. symmetry. by apply Z.lxor_lor.
Qed.

Lemma lor_shiftl_byte a b : Z.lor (Z.shiftl a 8) (Z_of_byte b) = a * 256 + Z_of_byte b.
Proof. apply lor_shiftl_add; [done|apply Z_of_byte_range]. Qed.

Lemma fits_i64_spec z : fits_i64 z = true ↔ - 2 ^ 63 <= z < 2 ^ 63.
Proof. unfold fits_i64. rewrite andb_true_iff, Z.leb_le, Z.ltb_lt. lia. Qed.

Lemma i64_small z : - 2 ^ 63 <= z < 2 ^ 63 → i64 z = z.
Proof. intros. unfold i64. rewrite Z.mod_small; lia. Qed.

Lemma i64_range z : - 2 ^ 63 <= i64 z < 2 ^ 63.
Proof. unfold i64. pose proof (Z.mod_pos_bound (z + 2 ^ 63) (2 ^ 64)). lia. Qed.

Lemma i64_congr a b : a mod 2 ^ 64 = b mod 2 ^ 64 → i64 a = i64 b.
Proof. intros E. unfold i64. rewrite (Zplus_mod a), E, <- Zplus_mod. done. Qed.

Lemma i64_mod z : i64 z mod 2 ^ 64 = z mod 2 ^ 64.
Proof.
  unfold i64. rewrite Zminus_mod_idemp_l. f_equal. lia.
Qed.

#[export] Hint Resolve Z_of_byte_range u8_range i64_range : cxx.
#[export] Hint Rewrite Z_of_byte_of_Z byte_of_Z_of_byte byte_of_Z_land : cxx.

(** ** The big-endian codec *)

Lemma be_encode_length n z : length (be_encode n z) = n.
Proof. induction n; simpl; lia. Qed.

Lemma be_decode_snoc l b : be_decode (l ++ [b]) = be_decode l * 256 + Z_of_byte b.
Proof. unfold be_decode. by rewrite foldl_app. Qed.

Lemma be_decode_cons b l :
  be_decode (b :: l) = Z_of_byte b * 2 ^ (8 * Z.of_nat (length l)) + be_decode l.
Proof.
  induction l as [|c l IH] using rev_ind; [unfold be_decode; simpl; lia|].
  rewrite app_comm_cons, be_decode_snoc, IH, be_decode_snoc, length_app. simpl.
  replace (8 * Z.of_nat (length l + 1)) with (8 * Z.of_nat (length l) + 8) by lia.
  rewrite Z.pow_add_r by lia. lia.
Qed.

Lemma be_decode_range l : 0 <= be_decode l < 2 ^ (8 * Z.of_nat (length l)).
Proof.
  induction l as [|b l IH] using rev_ind; [unfold be_decode; simpl; lia|].
  rewrite be_decode_snoc, length_app. simpl. pose proof (Z_of_byte_range b).
  replace (8 * Z.of_nat (length l + 1)) with (8 * Z.of_nat (length l) + 8) by lia.
  rewrite Z.pow_add_r by lia. change (2 ^ 8) with 256. lia.
Qed.

Lemma be_decode_encode n z : be_decode (be_encode n z) = z mod 2 ^ (8 * Z.of_nat n).
Proof.
  induction n as [|n IH]; [simpl; by rewrite Z.mod_1_r|].
  cbn [be_encode]. rewrite be_decode_cons, be_encode_length, Z_of_byte_of_Z, IH.
  replace (8 * Z.of_nat (S n)) with (8 * Z.of_nat n + 8) by lia.
  rewrite Z.pow_add_r by lia. rewrite Z.rem_mul_r by lia. unfold u8. lia.
Qed.

Lemma be_encode_decode l : be_encode (length l) (be_decode l) = l.
Proof.
  assert (∀ n a z, be_encode n (a * 2 ^ (8 * Z.of_nat n) + z) = be_encode n z) as Hskip.
  { induction n as [|n IH]; intros a z; [done|]. cbn [be_encode].
    replace (8 * Z.of_nat (S n)) with (8 + 8 * Z.of_nat n) by lia.
    rewrite Z.pow_add_r by lia. rewrite Z.mul_assoc. f_equal; [|apply IH].
    rewrite Z.div_add_l by lia. apply byte_of_Z_congr.
    rewrite Z.add_comm. apply Z_mod_plus_full. }
  induction l as [|b l IH]; [done|].
  rewrite be_decode_cons. cbn [be_encode length]. rewrite Hskip, IH. f_equal.
  rewrite Z.div_add_l by lia.
  pose proof (be_decode_range l). rewrite Z.div_small by lia.
  rewrite Z.add_0_r. apply byte_of_Z_of_byte.
Qed.

(** ** Strings and byte vectors *)

Lemma bytes_of_string_of_bytes l : bytes_of_string (string_of_bytes l) = l.
Proof. apply String.list_byte_of_string_of_list_byte. Qed.

Lemma string_of_bytes_of_string s : string_of_bytes (bytes_of_string s) = s.
Proof. apply String.string_of_list_byte_of_string. Qed.

Lemma string_app_assoc (a b c : string) : (a +:+ b) +:+ c = a +:+ (b +:+ c).
Proof. induction a as [|x a IH]; [done|]. change (String x ((a +:+ b) +:+ c) = String x (a +:+ (b +:+ c))). by f_equal. Qed.

Lemma string_app_nil_r (a : string) : a +:+ "" = a.
Proof. induction a as [|x a IH]; [done|]. change (String x (a +:+ "") = String x a). by f_equal. Qed.

#[export] Hint Rewrite bytes_of_string_of_bytes string_of_bytes_of_string string_app_nil_r : cxx.
