(* ===== verification/CxxText.v ===== *)
(** The text operations of the C++ standard library that the program uses:
    [std::getline] with a delimiter, [operator>>] into a string, [std::stoul],
    [std::stoi], [std::to_string] and the hexadecimal output manipulators, in the
    "C" locale and on an LP64 platform (64-bit [unsigned long], 32-bit [int]).
    The lemmas state the round trips the peer file and the CLI rely on. *)

From Stdlib Require Import Strings.Ascii.
From S2P Require Import Prelude.

(** ** Characters *)

Definition char_code (c : Ascii.ascii) : Z := Z.of_N (Ascii.N_of_ascii c).

(** [isspace] in the "C" locale: space, and [\t \n \v \f \r]. *)
Definition isspace (c : Ascii.ascii) : bool :=
  let n := char_code c in (n =? 32) || ((9 <=? n) && (n <=? 13)).

Definition newline : Ascii.ascii := Ascii.ascii_of_N 10.
Definition bar : Ascii.ascii := "|"%char.
Definition colon : Ascii.ascii := ":"%char.

(** The value of a digit in [base], letters in either case. *)
Definition digit_value (base : Z) (c : Ascii.ascii) : option Z :=
  let n := char_code c in
  let v := if (48 <=? n) && (n <=? 57) then n - 48
           else if (97 <=? n) && (n <=? 122) then n - 87
           else if (65 <=? n) && (n <=? 90) then n - 55
           else base in
  if v <? base then Some v else None.

Definition digit_char (d : Z) : Ascii.ascii :=
  Ascii.ascii_of_N (Z.to_N (if d <? 10 then 48 + d else 87 + d)).

(** ** Streams *)

(** [std::getline(stream, token, delim)] on the unread text: the token and what is
    left, [None] when the stream has nothing left and the call fails. *)
Fixpoint getline (delim : Ascii.ascii) (s : string) : option (string * string) :=
  match s with
  | EmptyString => None
  | String c s' =>
    if decide (c = delim) then Some ("", s')
    else match getline delim s' with
         | None => Some (String c "", "")
         | Some (t, r) => Some (String c t, r)
         end
  end.

(** The tokens of [while (std::getline(stream, token, delim))]. *)
Fixpoint getlines (delim : Ascii.ascii) (s : string) : list string :=
  match s with
  | EmptyString => []
  | String c s' =>
    if decide (c = delim) then "" :: getlines delim s'
    else match getlines delim s' with
         | [] => [String c ""]
         | t :: ts => String c t :: ts
         end
  end.

(** The words of [while (stream >> word)]. *)
Fixpoint words (s : string) : list string :=
  match s with
  | EmptyString => []
  | String c s' =>
    if isspace c then words s'
    else match s' with
         | EmptyString => [String c ""]
         | String c' _ =>
           if isspace c' then String c "" :: words s'
           else match words s' with [] => [String c ""] | w :: ws => String c w :: ws end
         end
  end.

(** ** Numbers from text *)

Fixpoint skip_ws (s : string) : string :=
  match s with
  | String c s' => if isspace c then skip_ws s' else s
  | EmptyString => ""
  end.

Definition read_sign (s : string) : bool * string :=
  match s with
  | String c s' =>
    if decide (c = "-"%char) then (true, s')
    else if decide (c = "+"%char) then (false, s') else (false, s)
  | EmptyString => (false, s)
  end.

(** In base 16, [strtoul] skips a "0x" that a hexadecimal digit follows. *)
Definition skip_0x (base : Z) (s : string) : string :=
  match s with
  | String z (String x (String d s')) =>
    if (base =? 16) && bool_decide (z = "0"%char)
       && (bool_decide (x = "x"%char) || bool_decide (x = "X"%char))
       && bool_decide (is_Some (digit_value 16 d))
    then String d s' else s
  | _ => s
  end.

Fixpoint digits_prefix (base : Z) (s : string) : list Z :=
  match s with
  | String c s' =>
    match digit_value base c with Some d => d :: digits_prefix base s' | None => [] end
  | EmptyString => []
  end.

Definition digits_value (base : Z) (ds : list Z) : Z :=
  foldl (λ acc d, acc * base + d) 0 ds.

(** The subject sequence of [strtol] and [strtoul]: sign and magnitude, [None]
    when there is no digit. *)
Definition strto (base : Z) (s : string) : option (bool * Z) :=
  let '(neg, s) := read_sign (skip_ws s) in
  match digits_prefix base (skip_0x base s) with
  | [] => None
  | ds => Some (neg, digits_value base ds)
  end.

(** [std::stoul(s, nullptr, base)]: a negative number wraps modulo 2^64. *)
Definition stoul (base : Z) (s : string) : outcome Z :=
  match strto base s with
  | None => Throw invalid_argument
  | Some (neg, v) =>
    if 2 ^ 64 - 1 <? v then Throw out_of_range
    else Ok (if neg then u64 (- v) else v)
  end.

(** [std::stoi(s)]. *)
Definition stoi (s : string) : outcome Z :=
  match strto 10 s with
  | None => Throw invalid_argument
  | Some (neg, v) =>
    let v := if neg then - v else v in
    if (- 2 ^ 31 <=? v) && (v <? 2 ^ 31) then Ok v else Throw out_of_range
  end.

(** ** Text from numbers *)

Fixpoint digits_of (fuel : nat) (base n : Z) (acc : list Z) : list Z :=
  match fuel with
  | O => acc
  | S fuel => if n <? base then n :: acc else digits_of fuel base (n / base) (n mod base :: acc)
  end.

Fixpoint string_of_digits (ds : list Z) : string :=
  match ds with [] => "" | d :: ds => String (digit_char d) (string_of_digits ds) end.

(** The digits of a nonnegative integer; a number has at most [log2 n + 1] of them. *)
Definition print_base (base n : Z) : string :=
  string_of_digits (digits_of (S (Z.to_nat (Z.log2 n))) base n []).

(** [std::to_string(n)], and [os << std::dec << n], of an unsigned integer. *)
Definition to_string (n : Z) : string := print_base 10 n.

(** [os << std::hex << std::setw(2) << std::setfill('0') << int(b)]. *)
Definition hex2 (b : byte) : string :=
  let s := print_base 16 (Z_of_byte b) in
  if (String.length s <? 2)%nat then "0" +:+ s else s.

Definition hex_string (l : list byte) : string :=
  foldr (λ b s, hex2 b +:+ s) "" l.

(** ** Searching *)

(** [s.find(c)], as the text before and after the first occurrence. *)
Fixpoint split_at (c : Ascii.ascii) (s : string) : option (string * string) :=
  match s with
  | EmptyString => None
  | String x s' =>
    if decide (x = c) then Some ("", s')
    else match split_at c s' with Some (a, b) => Some (String x a, b) | None => None end
  end.

Fixpoint string_has (c : Ascii.ascii) (s : string) : bool :=
  match s with EmptyString => false | String x s' => bool_decide (x = c) || string_has c s' end.

Example stoul_test : stoul 10 "  +8080junk" = Ok 8080 ∧ stoul 10 "-1" = Ok (2 ^ 64 - 1)
  ∧ stoul 10 "port" = Throw invalid_argument ∧ stoul 16 "fF" = Ok 255
  ∧ stoul 10 "18446744073709551616" = Throw out_of_range ∧ stoi "2147483648" = Throw out_of_range.
Proof. vm_compute. done. Qed.
Example text_test : to_string 65535 = "65535" ∧ to_string 0 = "0" ∧ hex2 Byte.x0a = "0a"
  ∧ words "  send  p1 hi " = ["send"; "p1"; "hi"] ∧ getlines bar "a||b|" = ["a"; ""; "b"].
Proof. vm_compute. done. Qed.

#[global] Arguments print_base : simpl never.
#[global] Arguments to_string : simpl never.
#[global] Arguments stoul : simpl never.
#[global] Arguments stoi : simpl never.
#[global] Arguments hex2 : simpl never.

(** * Lemmas *)

(** ** Streams *)

(** [getlines] is the loop on [getline]. *)
Lemma getlines_loop d s :
  getlines d s = match getline d s with None => [] | Some (t, r) => t :: getlines d r end.
Proof.
  induction s as [|c s IH]; [done|]. cbn [getlines getline].
  case_decide; [done|]. rewrite IH. destruct (getline d s) as [[t r]|]; done.
Qed.

Lemma string_has_app c a b : string_has c (a +:+ b) = string_has c a || string_has c b.
Proof.
  induction a as [|x a IH]; [done|].
  change (String x a +:+ b) with (String x (a +:+ b)). simpl. by rewrite IH, orb_assoc.
Qed.

Lemma getline_token d t r :
  string_has d t = false → getline d (t +:+ String d r) = Some (t, r).
Proof.
  induction t as [|c t IH]; intros Ht.
  { change ("" +:+ String d r) with (String d r). simpl. by rewrite decide_True. }
  change (String c t +:+ String d r) with (String c (t +:+ String d r)).
  simpl in *. apply orb_false_iff in Ht as [Hc%bool_decide_eq_false Ht].
  rewrite decide_False, IH by done. done.
Qed.

Lemma getline_last d t :
  string_has d t = false → t ≠ "" → getline d t = Some (t, "").
Proof.
  induction t as [|c t IH]; intros Ht Hne; [done|].
  simpl in *. apply orb_false_iff in Ht as [Hc%bool_decide_eq_false Ht].
  rewrite decide_False by done. destruct t as [|c' t]; [done|]. by rewrite IH.
Qed.

Lemma getlines_cons d t r :
  string_has d t = false → getlines d (t +:+ String d r) = t :: getlines d r.
Proof. intros Ht. by rewrite getlines_loop, getline_token. Qed.

Lemma split_at_app c a b :
  string_has c a = false → split_at c (a +:+ String c b) = Some (a, b).
Proof.
  induction a as [|x a IH]; intros Ha.
  { change ("" +:+ String c b) with (String c b). simpl. by rewrite decide_True. }
  change (String x a +:+ String c b) with (String x (a +:+ String c b)).
  simpl in *. apply orb_false_iff in Ha as [Hc%bool_decide_eq_false Ha].
  by rewrite decide_False, IH.
Qed.

Lemma split_at_None c a : split_at c a = None ↔ string_has c a = false.
Proof.
  induction a as [|x a IH]; simpl; [done|]. case_decide.
  - by rewrite bool_decide_eq_true_2.
  - rewrite bool_decide_eq_false_2 by done. simpl. rewrite <- IH.
    by destruct (split_at c a) as [[]|].
Qed.

Lemma split_at_Some c s a b :
  split_at c s = Some (a, b) → s = a +:+ String c b ∧ string_has c a = false.
Proof.
  revert a. induction s as [|x s IH]; intros a; simpl; [done|]. case_decide.
  - intros [= <- <-]. by subst.
  - destruct (split_at c s) as [[a' b']|]; [|done]. intros [= <- <-].
    destruct (IH a') as [-> Ha]; [done|]. simpl. by rewrite bool_decide_eq_false_2.
Qed.

(** ** Words *)

Fixpoint no_space (s : string) : bool :=
  match s with EmptyString => true | String c s => negb (isspace c) && no_space s end.
Definition is_word (s : string) : bool := negb (bool_decide (s = "")) && no_space s.

(** The words of a line are not empty and hold no white space. *)
Lemma words_are_words s : Forall (λ w, is_word w = true) (words s).
Proof.
  induction s as [|c s IH]; [constructor|]. cbn [words].
  destruct (isspace c) eqn:Hc; [done|].
  assert (is_word (String c "") = true) as H1 by (unfold is_word; simpl; by rewrite Hc).
  destruct s as [|c' s']; [by constructor|].
  destruct (isspace c'); [by constructor|].
  destruct (words (String c' s')) as [|w ws]; [by constructor|].
  inversion_clear IH as [|? ? Hw Hws]. constructor; [|done].
  unfold is_word in *. simpl. rewrite Hc. by apply andb_true_iff in Hw as [_ ->].
Qed.

Fixpoint join (ws : list string) : string :=
  match ws with [] => "" | [w] => w | w :: ws => w +:+ " " +:+ join ws end.

Lemma words_word_app w s :
  is_word w = true → words (w +:+ String " " s) = w :: words s.
Proof.
  unfold is_word. rewrite andb_true_iff. intros [Hne Hns].
  apply negb_true_iff, bool_decide_eq_false in Hne.
  induction w as [|c w IH]; [done|]. simpl in Hns.
  apply andb_true_iff in Hns as [Hc%negb_true_iff Hns].
  change (String c w +:+ String " " s) with (String c (w +:+ String " " s)).
  cbn [words]. rewrite Hc. destruct w as [|c' w]; [done|].
  rewrite IH by done.
  change (String c' w +:+ String " " s) with (String c' (w +:+ String " " s)).
  simpl in Hns. apply andb_true_iff in Hns as [->%negb_true_iff _]. done.
Qed.

Lemma words_word w : is_word w = true → words w = [w].
Proof.
  unfold is_word. rewrite andb_true_iff. intros [Hne Hns].
  apply negb_true_iff, bool_decide_eq_false in Hne.
  induction w as [|c w IH]; [done|]. simpl in Hns.
  apply andb_true_iff in Hns as [Hc%negb_true_iff Hns].
  cbn [words]. rewrite Hc. destruct w as [|c' w]; [done|].
  rewrite IH by done. simpl in Hns. by apply andb_true_iff in Hns as [->%negb_true_iff _].
Qed.

(** Splitting a line of words separated by single spaces gives the words. *)
Lemma words_join ws : Forall (λ w, is_word w = true) ws → words (join ws) = ws.
Proof.
  induction 1 as [|w ws Hw Hws IH]; [done|]. destruct ws as [|w' ws].
  { by apply words_word. }
  change (words (w +:+ String " " (join (w' :: ws))) = w :: w' :: ws).
  by rewrite words_word_app, IH.
Qed.

(** ** Numbers *)

Definition is_digit (base d : Z) : Prop := 0 <= d < base.

Lemma digits_of_value fuel base n acc :
  2 <= base → 0 <= n < base ^ Z.of_nat fuel → (0 < fuel)%nat →
  digits_value base (digits_of fuel base n acc) = foldl (λ a d, a * base + d) n acc.
Proof.
  intros Hb. revert n acc. induction fuel as [|fuel IH]; intros n acc Hn Hf; [lia|].
  cbn [digits_of]. destruct (Z.ltb_spec n base) as [Hlt|Hge].
  { done. }
  destruct fuel as [|fuel].
  { change (Z.of_nat 1) with 1 in Hn. rewrite Z.pow_1_r in Hn. lia. }
  rewrite IH; [|split|lia].
  - cbn [foldl]. f_equal. rewrite (Z.div_mod n base) at 3 by lia. lia.
  - apply Z.div_pos; lia.
  - apply Z.div_lt_upper_bound; [lia|].
    rewrite <- Z.pow_succ_r, <- Nat2Z.inj_succ by lia. lia.
Qed.

Lemma digits_of_digits fuel base n acc :
  2 <= base → 0 <= n → Forall (is_digit base) acc →
  Forall (is_digit base) (digits_of fuel base n acc).
Proof.
  intros Hb. revert n acc. induction fuel as [|fuel IH]; intros n acc Hn Hacc; [done|].
  cbn [digits_of]. destruct (Z.ltb_spec n base).
  - constructor; [done|]. done.
  - apply IH; [apply Z.div_pos; lia|]. constructor; [|done]. apply Z.mod_pos_bound. lia.
Qed.

Lemma digits_of_nonempty fuel base n acc :
  (0 < fuel)%nat → digits_of fuel base n acc ≠ [].
Proof.
  revert n acc. induction fuel as [|fuel IH]; intros n acc Hf; [lia|].
  cbn [digits_of]. destruct (n <? base); [done|]. destruct fuel; [done|]. apply IH. lia.
Qed.

Lemma log2_fuel base n : 2 <= base → 0 <= n → n < base ^ Z.of_nat (S (Z.to_nat (Z.log2 n))).
Proof.
  intros Hb Hn. pose proof (Z.log2_nonneg n).
  rewrite Nat2Z.inj_succ, Z2Nat.id by done.
  apply Z.lt_le_trans with (2 ^ Z.succ (Z.log2 n)); [|apply Z.pow_le_mono_l; lia].
  destruct (decide (n = 0)) as [->|]; [done|]. apply Z.log2_spec. lia.
Qed.

(** A digit of base at most 16 is read back from its character, which is neither
    white space, nor a sign, nor one of the file's separators. *)
Lemma digit_char_spec d :
  is_digit 16 d →
  digit_value 16 (digit_char d) = Some d ∧ isspace (digit_char d) = false ∧
  digit_char d ≠ "-"%char ∧ digit_char d ≠ "+"%char ∧
  digit_char d ≠ bar ∧ digit_char d ≠ newline ∧ digit_char d ≠ colon.
Proof.
  intros [H0 H1].
  assert (d ∈ [0;1;2;3;4;5;6;7;8;9;10;11;12;13;14;15]) as Hd.
  { rewrite !elem_of_cons. lia. }
  repeat (apply elem_of_cons in Hd as [->|Hd]; [by vm_compute|]). by apply elem_of_nil in Hd.
Qed.

Lemma digit_value_lower base c v :
  base <= 16 → digit_value 16 c = Some v → v < base → digit_value base c = Some v.
Proof.
  unfold digit_value. intros Hb.
  destruct ((48 <=? char_code c) && (char_code c <=? 57));
    [|destruct ((97 <=? char_code c) && (char_code c <=? 122));
      [|destruct ((65 <=? char_code c) && (char_code c <=? 90))]];
    match goal with |- context [if ?a then _ else _] => destruct a eqn:Hlt end;
    intros [= <-] Hv; first [by rewrite (proj2 (Z.ltb_lt _ _)) by done | exfalso; lia].
Qed.

Section Print.
Context (base : Z) (Hbase : 2 <= base <= 16).

Lemma is_digit_16 d : is_digit base d → is_digit 16 d.
Proof. unfold is_digit. lia. Qed.

Lemma digits_prefix_string ds :
  Forall (is_digit base) ds → digits_prefix base (string_of_digits ds) = ds.
Proof.
  induction 1 as [|d ds Hd _ IH]; [done|]. simpl.
  destruct (digit_char_spec d) as [E _]; [by apply is_digit_16|].
  rewrite (digit_value_lower base _ d); [by rewrite IH|lia|done|apply Hd].
Qed.

Lemma print_base_digits n :
  0 <= n →
  ∃ d ds, print_base base n = string_of_digits (d :: ds) ∧
          Forall (is_digit base) (d :: ds) ∧ digits_value base (d :: ds) = n.
Proof.
  intros Hn. unfold print_base.
  pose proof (digits_of_nonempty (S (Z.to_nat (Z.log2 n))) base n []) as Hne.
  pose proof (digits_of_digits (S (Z.to_nat (Z.log2 n))) base n []) as Hds.
  pose proof (digits_of_value (S (Z.to_nat (Z.log2 n))) base n []) as Hv.
  destruct (digits_of _ _ _ _) as [|d ds]; [by destruct Hne; [lia|]|].
  exists d, ds. split_and!; [done|apply Hds; [lia|done|constructor]|].
  apply Hv; [lia| |lia]. split; [done|]. apply log2_fuel; lia.
Qed.

Lemma string_of_digits_has c ds :
  Forall (is_digit base) ds → (∀ d, is_digit 16 d → digit_char d ≠ c) →
  string_has c (string_of_digits ds) = false.
Proof.
  intros Hds Hc. induction Hds as [|d ds Hd _ IH]; [done|]. simpl.
  rewrite bool_decide_eq_false_2, IH; [done|]. by apply Hc, is_digit_16.
Qed.

Lemma print_base_has n c :
  0 <= n → (∀ d, is_digit 16 d → digit_char d ≠ c) → string_has c (print_base base n) = false.
Proof.
  intros Hn Hc. destruct (print_base_digits n Hn) as (d & ds & -> & Hds & _).
  by apply string_of_digits_has.
Qed.
End Print.

(** Printing in decimal and reading back. *)
Lemma strto_to_string n : 0 <= n → strto 10 (to_string n) = Some (false, n).
Proof.
  intros Hn. unfold to_string, strto.
  destruct (print_base_digits 10 ltac:(lia) n Hn) as (d & ds & -> & Hds & Hv).
  pose proof (digits_prefix_string 10 ltac:(lia) _ Hds) as Hp.
  inversion_clear Hds as [|? ? Hd _].
  destruct (digit_char_spec d) as (_ & Hsp & Hm & Hpl & _); [by apply (is_digit_16 10)|].
  cbn [string_of_digits] in *. cbn [skip_ws]. rewrite Hsp. cbn [read_sign].
  rewrite !decide_False by done.
  replace (skip_0x 10 (String (digit_char d) (string_of_digits ds)))
    with (String (digit_char d) (string_of_digits ds)); [by rewrite Hp, Hv|].
  unfold skip_0x. destruct (string_of_digits ds) as [|? [|? ?]]; done.
Qed.

Lemma stoul_to_string n : 0 <= n < 2 ^ 64 → stoul 10 (to_string n) = Ok n.
Proof.
  intros Hn. unfold stoul. rewrite strto_to_string by lia.
  by rewrite (proj2 (Z.ltb_ge _ _)) by lia.
Qed.

Lemma stoi_to_string n : 0 <= n < 2 ^ 31 → stoi (to_string n) = Ok n.
Proof.
  intros Hn. unfold stoi. rewrite strto_to_string by lia.
  rewrite (proj2 (Z.leb_le _ _)), (proj2 (Z.ltb_lt _ _)) by lia. done.
Qed.

Lemma to_string_has n c :
  0 <= n → c ∈ [bar; newline; colon] → string_has c (to_string n) = false.
Proof.
  intros Hn Hc. apply print_base_has; [lia|done|]. intros d Hd.
  destruct (digit_char_spec d Hd) as (_ & _ & _ & _ & Hb & Hl & Hcol).
  rewrite !elem_of_cons, elem_of_nil in Hc. by destruct Hc as [->|[->|[->|[]]]].
Qed.

(** A byte printed in hexadecimal is two characters that read back as the byte. *)
Lemma hex2_spec b :
  String.length (hex2 b) = 2%nat ∧ stoul 16 (hex2 b) = Ok (Z_of_byte b) ∧
  string_has bar (hex2 b) = false ∧ string_has newline (hex2 b) = false.
Proof. destruct b; vm_compute; done. Qed.

Lemma hex_string_has l :
  string_has bar (hex_string l) = false ∧ string_has newline (hex_string l) = false.
Proof.
  induction l as [|b l [IH1 IH2]]; [done|]. cbn [hex_string foldr].
  destruct (hex2_spec b) as (_ & _ & H1 & H2).
  by rewrite !string_has_app, H1, H2.
Qed.

Lemma hex_string_colon l : string_has colon (hex_string l) = false.
Proof.
  induction l as [|b l IH]; [done|]. cbn [hex_string foldr]. rewrite string_has_app.
  apply orb_false_iff. split; [|done]. destruct b; vm_compute; done.
Qed.

Lemma hex_string_length l : String.length (hex_string l) = (2 * length l)%nat.
Proof.
  induction l as [|b l IH]; [done|]. cbn [hex_string foldr length].
  assert (∀ a b, String.length (a +:+ b) = (String.length a + String.length b)%nat) as ->.
  { intros a c. induction a as [|x a IHa]; [done|].
    change (S (String.length (a +:+ c)) = S (String.length a + String.length c)). by rewrite IHa. }
  destruct (hex2_spec b) as [-> _]. fold (hex_string l). lia.
Qed.

#[export] Instance hex_string_inj : Inj (=) (=) hex_string.
Proof.
  intros l. induction l as [|b l IH]; intros [|c l'] E; [done|..].
  - apply (f_equal String.length) in E. rewrite !hex_string_length in E. cbn in E. lia.
  - apply (f_equal String.length) in E. rewrite !hex_string_length in E. cbn in E. lia.
  - change (hex2 b +:+ hex_string l = hex2 c +:+ hex_string l') in E.
    assert (∀ x s, String.substring 0 2 (hex2 x +:+ s) = hex2 x) as Hsub.
    { intros x s. destruct x; vm_compute; by destruct s. }
    assert (hex2 b = hex2 c) as Ebc by (by rewrite <- (Hsub b (hex_string l)), E, Hsub).
    destruct (hex2_spec b) as (_ & Hb & _), (hex2_spec c) as (_ & Hc & _).
    rewrite Ebc, Hc in Hb. injection Hb as Hz. apply Z_of_byte_inj in Hz as ->.
    f_equal. apply IH. by apply (inj _) in E.
Qed.

Lemma digit_value_range base c d : 0 < base → digit_value base c = Some d → 0 <= d < base.
Proof.
  unfold digit_value. intros Hb.
  destruct ((48 <=? char_code c) && (char_code c <=? 57)) eqn:E1;
    [|destruct ((97 <=? char_code c) && (char_code c <=? 122)) eqn:E2;
      [|destruct ((65 <=? char_code c) && (char_code c <=? 90)) eqn:E3]];
    match goal with |- context [if ?a then _ else _] => destruct a eqn:Hlt end;
    intros [= <-]; lia.
Qed.

Lemma digits_prefix_nonneg base s : 0 < base → Forall (λ d, 0 <= d) (digits_prefix base s).
Proof.
  intros Hb. induction s as [|c s IH]; simpl; [constructor|].
  destruct (digit_value base c) as [d|] eqn:E; [|constructor].
  constructor; [|done]. by apply digit_value_range in E as [? _].
Qed.

Lemma digits_value_nonneg base ds :
  0 < base → Forall (λ d, 0 <= d) ds → 0 <= digits_value base ds.
Proof.
  intros Hb Hds. unfold digits_value.
  cut (∀ a, 0 <= a → 0 <= foldl (λ acc d, acc * base + d) a ds); [intros Hall; by apply Hall|].
  induction Hds as [|d ds Hd _ IH]; intros a Ha; simpl; [done|]. apply IH. nia.
Qed.

(** What [stoul] can give: an unsigned 64-bit number. *)
Lemma stoul_range base s v : 0 < base → stoul base s = Ok v → 0 <= v < 2 ^ 64.
Proof.
  intros Hb. unfold stoul. destruct (strto base s) as [[neg w]|] eqn:E; [|done].
  destruct (Z.ltb_spec (2 ^ 64 - 1) w); [done|]. intros [= <-].
  destruct neg; [apply Z.mod_pos_bound; lia|]. split; [|lia].
  unfold strto in E. destruct (read_sign (skip_ws s)) as [neg s'].
  set (ds := digits_prefix base (skip_0x base s')) in E.
  assert (0 <= digits_value base ds) as Hpos by (by apply digits_value_nonneg, digits_prefix_nonneg).
  destruct ds; [done|]. by simplify_eq.
Qed.
