(* ===== verification/Message.v ===== *)
(** The wire protocol: [Include/Message.hpp] and [Source/Message.cpp].

    Data model, the serialiser and the deserialiser with the machine arithmetic
    they use, the message factories, and the decoding of a handshake payload
    that [Network.cpp] and [CliInterface.cpp] repeat. The theorems give the
    round trips, the exact conditions of each error, and the inputs on which
    the deserialiser's behaviour is undefined. *)

From S2P Require Import Prelude.

(** ** Data *)

(** [enum class MessageType : uint8_t]. The underlying type is fixed, so a cast
    from a byte may give a value with no name: [OTHER_TYPE]. *)
Inductive MessageType :=
  | TEXT | HANDSHAKE | PEER_LIST | PING | PONG | FILE_CHUNK | KEY_EXCHANGE
  | OTHER_TYPE (v : Z).

#[export] Instance MessageType_eq_dec : EqDecision MessageType.
Proof. solve_decision. Defined.

Definition type_to_u8 (t : MessageType) : Z :=
  match t with
  | TEXT => 0 | HANDSHAKE => 1 | PEER_LIST => 2 | PING => 3 | PONG => 4
  | FILE_CHUNK => 5 | KEY_EXCHANGE => 6 | OTHER_TYPE v => v
  end.

Definition type_of_u8 (v : Z) : MessageType :=
  if v =? 0 then TEXT else if v =? 1 then HANDSHAKE else if v =? 2 then PEER_LIST
  else if v =? 3 then PING else if v =? 4 then PONG else if v =? 5 then FILE_CHUNK
  else if v =? 6 then KEY_EXCHANGE else OTHER_TYPE v.

(** [timestamp_] is the nanosecond count of the [time_point]. *)
Record Message := mkMessage {
  type_ : MessageType;
  payload_ : list byte;
  timestamp_ : Z
}.

#[export] Instance Message_eq_dec : EqDecision Message.
Proof. solve_decision. Defined.

(** The constructor; [now] is what the member initialiser of [timestamp_] reads. *)
Definition Message_new (now : Z) (type : MessageType) (payload : list byte) : Message :=
  mkMessage type payload now.

(** The invariant of a [Message] object: its fields have their C++ widths. *)
Definition type_wf (t : MessageType) : bool :=
  match t with OTHER_TYPE v => (7 <=? v) && (v <? 256) | _ => true end.
Definition Message_wf (m : Message) : bool :=
  type_wf (type_ m) && fits_i64 (timestamp_ m).

(** ** [Message::Serialize] *)

Definition ns_per_ms : Z := 1000000.

(** [duration_cast<milliseconds>] of a nanosecond count truncates toward zero. *)
Definition to_ms (ns : Z) : Z := Z.quot ns ns_per_ms.

Definition push_u8 (v : Z) : byte := byte_of_Z v.

Definition Serialize (m : Message) : list byte :=
  let payloadSize := u32 (Z.of_nat (length (payload_ m))) in
  let timestamp := to_ms (timestamp_ m) in
  [push_u8 (type_to_u8 (type_ m));
   push_u8 (Z.land (Z.shiftr payloadSize 24) 255);
   push_u8 (Z.land (Z.shiftr payloadSize 16) 255);
   push_u8 (Z.land (Z.shiftr payloadSize 8) 255);
   push_u8 (Z.land payloadSize 255)]
  ++ map (λ i, push_u8 (Z.land (Z.shiftr timestamp (i * 8)) 255)) [7; 6; 5; 4; 3; 2; 1; 0]
  ++ payload_ m.

(** ** [Message::Deserialize] *)

(** [data[i]], for an index the length check has covered. *)
Definition at8 (data : list byte) (i : nat) : Z := from_option Z_of_byte 0 (data !! i).

(** [vector::assign(begin + first, begin + last)] from [data]. *)
Definition vec_range (data : list byte) (first last : Z) : outcome (list byte) :=
  if last <=? Z.of_nat (length data)
  then Ok (take (Z.to_nat (last - first)) (drop (Z.to_nat first) data))
  else Undefined ReadPastEnd.

(** [system_clock::time_point(milliseconds(ms))]: the conversion multiplies two
    signed 64-bit integers. *)
Definition ms_to_time_point (ms : Z) : outcome Z :=
  if fits_i64 (ms * ns_per_ms) then Ok (ms * ns_per_ms) else Undefined SignedOverflow.

Definition read_payload_size (data : list byte) : Z :=
  Z.lor (Z.lor (Z.lor (Z.shiftl (at8 data 1) 24) (Z.shiftl (at8 data 2) 16))
               (Z.shiftl (at8 data 3) 8))
        (at8 data 4).

Definition read_timestamp (data : list byte) : Z :=
  foldl (λ timestamp i, i64 (Z.lor (Z.shiftl timestamp 8) (at8 data (5 + i))))
        0 (seq 0 8).

Definition Deserialize (data : list byte) : outcome Message :=
  if Z.of_nat (length data) <? 13 then
    Throw (runtime_error "Invalid message: too short")
  else
    let type := type_of_u8 (at8 data 0) in
    let payloadSize := read_payload_size data in
    if Z.of_nat (length data) <? u32 (13 + payloadSize) then
      Throw (runtime_error "Invalid message: payload size mismatch")
    else
      timestamp ← ms_to_time_point (read_timestamp data);
      payload ← vec_range data 13 (13 + payloadSize);
      Ok (mkMessage type payload timestamp).

(** ** The factories *)

Definition CreateTextMessage (now : Z) (text : string) : Message :=
  Message_new now TEXT (bytes_of_string text).

(** A 16-bit length, most significant byte first. *)
Definition push_u16 (v : Z) : list byte :=
  [push_u8 (Z.land (Z.shiftr v 8) 255); push_u8 (Z.land v 255)].

Definition CreateHandshakeMessage (now : Z) (peerId : string) (publicKey : list byte) : Message :=
  let idLen := u16 (Z.of_nat (length (bytes_of_string peerId))) in
  Message_new now HANDSHAKE (push_u16 idLen ++ bytes_of_string peerId ++ publicKey).

Definition CreatePeerListMessage (now : Z) (peers : list string) : Message :=
  let peerCount := u16 (Z.of_nat (length peers)) in
  let payload := foldl (λ payload peer,
      payload ++ push_u16 (u16 (Z.of_nat (length (bytes_of_string peer))))
              ++ bytes_of_string peer)
    (push_u16 peerCount) peers in
  Message_new now PEER_LIST payload.

Definition CreatePingMessage (now : Z) : Message := Message_new now PING [].
Definition CreatePongMessage (now : Z) : Message := Message_new now PONG [].

Definition SetType (type : MessageType) (m : Message) : Message := mkMessage type (payload_ m) (timestamp_ m).
Definition SetPayload (payload : list byte) (m : Message) : Message := mkMessage (type_ m) payload (timestamp_ m).

(** The receiver's reading of a handshake payload: the claimed peer id and its
    public key, [None] when one of the two length checks fails. *)
Definition parse_handshake (payload : list byte) : option (string * list byte) :=
  if 2 <=? Z.of_nat (length payload) then
    let idLen := u16 (Z.lor (Z.shiftl (at8 payload 0) 8) (at8 payload 1)) in
    if 2 + idLen <=? Z.of_nat (length payload) then
      Some (string_of_bytes (take (Z.to_nat idLen) (drop 2 payload)),
            drop (2 + Z.to_nat idLen) payload)
    else None
  else None.

(** The sanity of the model on the inputs of [Tests/TestMessage.cpp]. *)
Example serialize_test :
  Deserialize (Serialize (Message_new 1700000000123456789 TEXT (bytes_of_string "Test")))
  = Ok (mkMessage TEXT (bytes_of_string "Test") 1700000000123000000).
Proof. vm_compute. reflexivity. Qed.
Example deserialize_out_of_range_type_test :
  Deserialize (byte_of_Z 99 :: repeat Byte.x00 12) = Ok (mkMessage (OTHER_TYPE 99) [] 0).
Proof. vm_compute. reflexivity. Qed.
Example deserialize_negative_time_test :
  Deserialize (Serialize (mkMessage PING [] (-1500000))) = Ok (mkMessage PING [] (-1000000)).
Proof. vm_compute. reflexivity. Qed.

(** * Lemmas *)

Lemma type_of_to_u8 t : type_wf t = true → type_of_u8 (type_to_u8 t) = t.
Proof.
  destruct t as [| | | | | | |v]; try done. simpl. rewrite andb_true_iff, Z.leb_le.
  intros [Hv _]. unfold type_of_u8.
  by repeat (rewrite (proj2 (Z.eqb_neq v _)) by lia).
Qed.

Lemma type_to_of_u8 v : type_to_u8 (type_of_u8 v) = v.
Proof.
  unfold type_of_u8.
  repeat match goal with |- context [?a =? ?b] => destruct (Z.eqb_spec a b) end;
    simpl; congruence.
Qed.

Lemma type_of_u8_wf v : 0 <= v < 256 → type_wf (type_of_u8 v) = true.
Proof.
  intros Hv. unfold type_of_u8.
  repeat match goal with |- context [?a =? ?b] => destruct (Z.eqb_spec a b) end;
    try done; simpl.
  rewrite andb_true_iff, Z.leb_le, Z.ltb_lt. lia.
Qed.

Lemma type_to_u8_range t : type_wf t = true → 0 <= type_to_u8 t < 256.
Proof.
  destruct t; simpl; lia.
Qed.

Lemma push_u8_shift v k :
  0 <= k → push_u8 (Z.land (Z.shiftr v k) 255) = byte_of_Z (v / 2 ^ k).
Proof. intros Hk. unfold push_u8. by rewrite byte_of_Z_land, Z.shiftr_div_pow2. Qed.

Lemma push_u16_be v : push_u16 v = be_encode 2 v.
Proof.
  unfold push_u16. rewrite push_u8_shift by done. cbn [be_encode].
  unfold push_u8. rewrite byte_of_Z_land. simpl. by rewrite Z.div_1_r.
Qed.

(** The serialised form is the documented layout
    [Type(1) | PayloadSize(4) | Timestamp(8) | Payload], big-endian. *)
Lemma Serialize_layout m :
  Serialize m =
    byte_of_Z (type_to_u8 (type_ m))
    :: be_encode 4 (u32 (Z.of_nat (length (payload_ m))))
    ++ be_encode 8 (to_ms (timestamp_ m))
    ++ payload_ m.
Proof.
  unfold Serialize. cbn [map]. rewrite !push_u8_shift by lia.
  unfold push_u8 at 1 2. rewrite byte_of_Z_land. cbn [be_encode app].
  simpl (2 ^ _). by rewrite !Z.div_1_r.
Qed.

Lemma Serialize_length m : length (Serialize m) = (13 + length (payload_ m))%nat.
Proof. rewrite Serialize_layout. cbn [length]. rewrite !length_app, !be_encode_length. lia. Qed.

Lemma read_payload_size_be b0 b1 b2 b3 b4 rest :
  read_payload_size (b0 :: b1 :: b2 :: b3 :: b4 :: rest) = be_decode [b1; b2; b3; b4].
Proof.
  unfold read_payload_size, at8. cbn [lookup list_lookup from_option].
  replace (Z.shiftl (Z_of_byte b1) 24) with (Z.shiftl (Z.shiftl (Z_of_byte b1) 8) 16)
    by (by rewrite Z.shiftl_shiftl by lia).
  rewrite <- Z.shiftl_lor, lor_shiftl_byte.
  replace (Z.shiftl (Z_of_byte b1 * 256 + Z_of_byte b2) 16)
    with (Z.shiftl (Z.shiftl (Z_of_byte b1 * 256 + Z_of_byte b2) 8) 8)
    by (by rewrite Z.shiftl_shiftl by lia).
  rewrite <- Z.shiftl_lor, !lor_shiftl_byte. unfold be_decode. simpl. lia.
Qed.

(** Accumulating bytes in a wrapping signed 64-bit integer. *)
Lemma i64_accumulate l a :
  foldl (λ t b, i64 (Z.lor (Z.shiftl t 8) (Z_of_byte b))) (i64 a) l
  = i64 (foldl (λ acc b, acc * 256 + Z_of_byte b) a l).
Proof.
  revert a. induction l as [|b l IH]; intros a; [done|].
  simpl. rewrite <- IH. f_equal.
  rewrite lor_shiftl_byte. apply i64_congr.
  rewrite (Zplus_mod (i64 a * 256)), Zmult_mod, i64_mod, <- Zmult_mod, <- Zplus_mod. done.
Qed.

Lemma read_timestamp_be b0 b1 b2 b3 b4 t0 t1 t2 t3 t4 t5 t6 t7 rest :
  read_timestamp (b0 :: b1 :: b2 :: b3 :: b4 :: t0 :: t1 :: t2 :: t3 :: t4 :: t5 :: t6 :: t7 :: rest)
  = i64 (be_decode [t0; t1; t2; t3; t4; t5; t6; t7]).
Proof.
  unfold read_timestamp, be_decode. rewrite <- i64_accumulate.
  replace (i64 0) with 0 by done.
  cbn [seq foldl Nat.add at8 lookup list_lookup from_option]. unfold at8.
  by cbn [lookup list_lookup from_option].
Qed.

Lemma list_13 {A} (l : list A) :
  13 <= Z.of_nat (length l) →
  ∃ b0 b1 b2 b3 b4 t0 t1 t2 t3 t4 t5 t6 t7 rest,
    l = b0 :: b1 :: b2 :: b3 :: b4 :: t0 :: t1 :: t2 :: t3 :: t4 :: t5 :: t6 :: t7 :: rest.
Proof.
  intros Hl. do 13 (destruct l as [|? l]; [simpl in Hl; lia|]). by repeat eexists.
Qed.

(** A reference decoder, by pattern matching on the header. *)
Definition decode_reference (data : list byte) : outcome Message :=
  match data with
  | b0 :: b1 :: b2 :: b3 :: b4 :: t0 :: t1 :: t2 :: t3 :: t4 :: t5 :: t6 :: t7 :: rest =>
    let n := be_decode [b1; b2; b3; b4] in
    let ms := i64 (be_decode [t0; t1; t2; t3; t4; t5; t6; t7]) in
    if (n <? 2 ^ 32 - 13) && (Z.of_nat (length rest) <? n)
    then Throw (runtime_error "Invalid message: payload size mismatch")
    else if negb (fits_i64 (ms * ns_per_ms)) then Undefined SignedOverflow
    else if Z.of_nat (length rest) <? n then Undefined ReadPastEnd
    else Ok (mkMessage (type_of_u8 (Z_of_byte b0)) (take (Z.to_nat n) rest) (ms * ns_per_ms))
  | _ => Throw (runtime_error "Invalid message: too short")
  end.

Lemma vec_range_13 (h rest : list byte) n :
  length h = 13%nat → 0 <= n →
  vec_range (h ++ rest) 13 (13 + n) =
    if Z.of_nat (length rest) <? n then Undefined ReadPastEnd
    else Ok (take (Z.to_nat n) rest).
Proof.
  intros Hh Hn. unfold vec_range. rewrite length_app, Hh.
  replace (13 + n - 13) with n by lia. change (Z.to_nat 13) with 13%nat.
  assert (drop 13 (h ++ rest) = rest) as -> by (rewrite <- Hh; apply drop_app_length).
  destruct (Z.ltb_spec (Z.of_nat (length rest)) n);
    destruct (Z.leb_spec (13 + n) (Z.of_nat (13 + length rest))); done || lia.
Qed.

Lemma u32_wraps n r :
  0 <= n < 2 ^ 32 → 0 <= r →
  (13 + r <? u32 (13 + n)) = (n <? 2 ^ 32 - 13) && (r <? n).
Proof.
  intros Hn Hr. unfold u32. destruct (Z.ltb_spec n (2 ^ 32 - 13)) as [Hlt|Hge]; simpl.
  - rewrite Z.mod_small by lia.
    destruct (Z.ltb_spec r n), (Z.ltb_spec (13 + r) (13 + n)); done || lia.
  - replace (13 + n) with (n - (2 ^ 32 - 13) + 1 * 2 ^ 32) by lia.
    rewrite Z_mod_plus_full, Z.mod_small by lia. apply Z.ltb_ge. lia.
Qed.

Definition header_type (data : list byte) : MessageType := type_of_u8 (at8 data 0).

Lemma Deserialize_decode data : Deserialize data = decode_reference data.
Proof.
  unfold Deserialize.
  destruct (Z.ltb_spec (Z.of_nat (length data)) 13) as [Hlt|Hge].
  { do 13 (destruct data as [|? data]; [done|]). simpl in Hlt. lia. }
  apply list_13 in Hge as (b0 & b1 & b2 & b3 & b4 & t0 & t1 & t2 & t3 & t4 & t5 & t6 & t7 & rest & ->).
  rewrite read_payload_size_be, read_timestamp_be.
  pose proof (be_decode_range [b1; b2; b3; b4]) as Hn. change (8 * _) with 32 in Hn.
  unfold decode_reference.
  set (n := be_decode [b1; b2; b3; b4]) in *.
  set (ms := i64 _). clearbody ms n.
  replace (Z.of_nat (length _)) with (13 + Z.of_nat (length rest)) by (cbn [length]; lia).
  rewrite u32_wraps by lia.
  destruct ((n <? 2 ^ 32 - 13) && (Z.of_nat (length rest) <? n)); [done|].
  unfold ms_to_time_point. destruct (fits_i64 (ms * ns_per_ms)); [|done].
  cbn [negb mbind outcome_mbind outcome_bind].
  pose proof (vec_range_13 [b0; b1; b2; b3; b4; t0; t1; t2; t3; t4; t5; t6; t7] rest n) as E.
  cbn [app] in E. rewrite E by (done || lia).
  by destruct (Z.of_nat (length rest) <? n).
Qed.

(** C32. [Deserialize] computes exactly the reference decoder on every byte string:
    same message, same exception, same undefined behaviour. The wrap-around of
    the 32-bit size check is explicit in the reference: a payload size of
    2^32 - 13 or more is never rejected as a mismatch. *)
Theorem Deserialize_reference data : Deserialize data = decode_reference data.
Proof. apply Deserialize_decode. Qed.

(** ** Round trips *)

(** Truncation to milliseconds keeps a time stamp inside the 64-bit range. *)
Lemma to_ms_bounds ns :
  - 2 ^ 63 <= ns < 2 ^ 63 →
  - 2 ^ 63 <= to_ms ns < 2 ^ 63 ∧ - 2 ^ 63 <= to_ms ns * ns_per_ms < 2 ^ 63.
Proof. unfold to_ms, ns_per_ms. intros. Z.to_euclidean_division_equations. lia. Qed.

Lemma to_ms_exact ms : to_ms (ms * ns_per_ms) = ms.
Proof. unfold to_ms, ns_per_ms. by apply Z.quot_mul. Qed.

Lemma decode_reference_fields b0 b4s b8s rest :
  length b4s = 4%nat → length b8s = 8%nat →
  be_decode b4s <= Z.of_nat (length rest) →
  fits_i64 (i64 (be_decode b8s) * ns_per_ms) = true →
  decode_reference (b0 :: b4s ++ b8s ++ rest) =
    Ok (mkMessage (type_of_u8 (Z_of_byte b0)) (take (Z.to_nat (be_decode b4s)) rest)
                  (i64 (be_decode b8s) * ns_per_ms)).
Proof.
  intros H4 H8 Hn Hts.
  do 4 (destruct b4s as [|? b4s]; [done|]). destruct b4s; [|done].
  do 8 (destruct b8s as [|? b8s]; [done|]). destruct b8s; [|done].
  cbn [app decode_reference]. rewrite Hts.
  replace (Z.of_nat (length rest) <? _) with false by (symmetry; by apply Z.ltb_ge).
  by rewrite andb_false_r.
Qed.

(** The whole domain: the size field holds the length modulo 2^32. *)
Lemma decode_encode_cut m extra :
  Message_wf m = true →
  Deserialize (Serialize m ++ extra) =
    Ok (mkMessage (type_ m) (take (Z.to_nat (u32 (Z.of_nat (length (payload_ m))))) (payload_ m))
          (to_ms (timestamp_ m) * ns_per_ms)).
Proof.
  unfold Message_wf. rewrite andb_true_iff, fits_i64_spec. intros [Ht Hts].
  apply to_ms_bounds in Hts as [Hms Hns].
  rewrite Deserialize_decode, Serialize_layout.
  rewrite <- app_comm_cons, <- !app_assoc.
  set (n := u32 (Z.of_nat (length (payload_ m)))).
  assert (0 <= n <= Z.of_nat (length (payload_ m))) as Hn.
  { unfold n, u32. pose proof (Z.mod_le (Z.of_nat (length (payload_ m))) (2 ^ 32)).
    pose proof (Z.mod_pos_bound (Z.of_nat (length (payload_ m))) (2 ^ 32)). lia. }
  assert (be_decode (be_encode 4 n) = n) as E4.
  { rewrite be_decode_encode. unfold n, u32. change (8 * Z.of_nat 4) with 32. by rewrite Zmod_mod. }
  assert (i64 (be_decode (be_encode 8 (to_ms (timestamp_ m)))) = to_ms (timestamp_ m)) as E8.
  { rewrite be_decode_encode. rewrite <- (i64_small (to_ms _)) at 2 by done.
    apply i64_congr. apply Zmod_mod. }
  rewrite decode_reference_fields; rewrite ?be_encode_length, ?E4, ?E8; try done.
  - rewrite Z_of_byte_of_Z. unfold u8.
    rewrite Z.mod_small by (by apply type_to_u8_range).
    rewrite type_of_to_u8 by done. rewrite take_app_le by lia. done.
  - rewrite length_app. lia.
  - by apply fits_i64_spec.
Qed.

Lemma decode_encode m extra :
  Message_wf m = true → Z.of_nat (length (payload_ m)) < 2 ^ 32 →
  Deserialize (Serialize m ++ extra) =
    Ok (mkMessage (type_ m) (payload_ m) (to_ms (timestamp_ m) * ns_per_ms)).
Proof.
  intros Hwf Hlen. rewrite decode_encode_cut by done. unfold u32.
  by rewrite Z.mod_small, Nat2Z.id, take_ge by lia.
Qed.

(** C1. What [Serialize] writes, [Deserialize] reads back: the same type and
    payload, and the time stamp truncated to a whole millisecond, for every
    well-formed message whose payload size fits the 4-byte field. Bytes that
    follow the message do not disturb it. *)
Theorem Deserialize_Serialize m extra :
  Message_wf m = true → Z.of_nat (length (payload_ m)) < 2 ^ 32 →
  Deserialize (Serialize m ++ extra) =
    Ok (mkMessage (type_ m) (payload_ m) (to_ms (timestamp_ m) * ns_per_ms)).
Proof. apply decode_encode. Qed.

Lemma Deserialize_Serialize_witness :
  Deserialize (Serialize (mkMessage PONG [Byte.x61; Byte.x00] 1999999) ++ [Byte.xff])
  = Ok (mkMessage PONG [Byte.x61; Byte.x00] 1000000).
Proof. apply (Deserialize_Serialize (mkMessage PONG [Byte.x61; Byte.x00] 1999999)); reflexivity. Defined.

(** C30. The 4-byte size field. Every well-formed message, of whatever size, serialises to
    its payload's length plus 13 bytes and decodes again, to a payload cut to its
    length modulo 2^32: nothing reports that a payload of 4 GiB or more has lost its
    end, and a payload of exactly 4 GiB arrives empty. *)
Theorem payload_length_wraps m extra :
  Message_wf m = true →
  length (Serialize m) = (13 + length (payload_ m))%nat ∧
  ∃ m', Deserialize (Serialize m ++ extra) = Ok m' ∧
    payload_ m' = take (Z.to_nat (Z.of_nat (length (payload_ m)) mod 2 ^ 32)) (payload_ m) ∧
    (payload_ m' = payload_ m ↔ Z.of_nat (length (payload_ m)) < 2 ^ 32).
Proof.
  intros Hwf. split; [apply Serialize_length|]. rewrite decode_encode_cut by done.
  eexists. split_and!; [reflexivity|done|]. cbn [payload_]. unfold u32.
  set (l := payload_ m). pose proof (Z.mod_pos_bound (Z.of_nat (length l)) (2 ^ 32)).
  split; intros Hl.
  - apply (f_equal length) in Hl. rewrite length_take in Hl.
    destruct (Z.lt_ge_cases (Z.of_nat (length l)) (2 ^ 32)) as [|Hge]; [done|]. lia.
  - by rewrite Z.mod_small, Nat2Z.id, take_ge by lia.
Qed.

Lemma payload_length_wraps_witness :
  ∃ m', Deserialize (Serialize (mkMessage PONG [Byte.x61; Byte.x00] 1999999)) = Ok m' ∧
    payload_ m' = [Byte.x61; Byte.x00].
Proof.
  destruct (payload_length_wraps (mkMessage PONG [Byte.x61; Byte.x00] 1999999) [] eq_refl)
    as (_ & m' & E & Hp & _). exists m'. split; [exact E|exact Hp].
Defined.

(** The inversion of a successful decoding. *)
Lemma Deserialize_Ok_inv data m :
  Deserialize data = Ok m →
  ∃ b0 b4s b8s rest,
    data = b0 :: b4s ++ b8s ++ rest ∧ length b4s = 4%nat ∧ length b8s = 8%nat ∧
    be_decode b4s <= Z.of_nat (length rest) ∧
    fits_i64 (i64 (be_decode b8s) * ns_per_ms) = true ∧
    m = mkMessage (type_of_u8 (Z_of_byte b0)) (take (Z.to_nat (be_decode b4s)) rest)
                  (i64 (be_decode b8s) * ns_per_ms).
Proof.
  rewrite Deserialize_decode.
  do 13 (destruct data as [|? data]; [done|]). cbn [decode_reference].
  set (n := be_decode _). set (ms := i64 (be_decode _)).
  destruct ((n <? _) && _) eqn:E1; [done|].
  destruct (fits_i64 (ms * ns_per_ms)) eqn:E2; [|done]. cbn [negb].
  destruct (Z.ltb_spec (Z.of_nat (length data)) n); [done|].
  intros [= <-]. eexists b, [b0; b1; b2; b3], [b4; b5; b6; b7; b8; b9; b10; b11], data.
  cbn [app]. done.
Qed.

(** C29. Conversely, a byte string that deserialises is, up to trailing bytes,
    the serialisation of the message it gives: decoding loses nothing. The
    message is well formed and its payload has the length the header declares. *)
Theorem Serialize_Deserialize data m :
  Deserialize data = Ok m →
  Serialize m = take (13 + length (payload_ m)) data ∧ Message_wf m = true ∧
  Z.of_nat (length (payload_ m)) = read_payload_size data.
Proof.
  intros (b0 & b4s & b8s & rest & -> & H4 & H8 & Hn & Hts & ->)%Deserialize_Ok_inv.
  pose proof (be_decode_range b4s) as Hr. rewrite H4 in Hr. change (8 * Z.of_nat 4) with 32 in Hr.
  assert (length (take (Z.to_nat (be_decode b4s)) rest) = Z.to_nat (be_decode b4s)) as Hlen
    by (rewrite length_take; lia).
  split_and!.
  - rewrite Serialize_layout. cbn [type_ payload_ timestamp_].
    rewrite type_to_of_u8, byte_of_Z_of_byte, to_ms_exact, Hlen, Z2Nat.id by lia.
    unfold u32. rewrite Z.mod_small by done. rewrite <- H4 at 1. rewrite be_encode_decode.
    assert (be_encode 8 (i64 (be_decode b8s)) = b8s) as ->.
    { pose proof (be_encode_decode (be_encode 8 (i64 (be_decode b8s)))) as E.
      rewrite be_encode_length, be_decode_encode in E.
      change (8 * Z.of_nat 8) with 64 in E. rewrite i64_mod in E.
      pose proof (be_decode_range b8s) as Hr8. rewrite H8 in Hr8.
      rewrite Z.mod_small in E by done. rewrite <- E. rewrite <- H8. apply be_encode_decode. }
    cbn [Nat.add take]. f_equal.
    rewrite (take_app_ge b4s) by lia. f_equal. rewrite (take_app_ge b8s) by lia. f_equal.
    f_equal. lia.
  - unfold Message_wf. cbn [type_ timestamp_].
    rewrite type_of_u8_wf by apply Z_of_byte_range. done.
  - do 4 (destruct b4s as [|? b4s]; [done|]). destruct b4s; [|done].
    cbn [app payload_]. rewrite read_payload_size_be, Hlen. apply Z2Nat.id. lia.
Qed.

Lemma Serialize_Deserialize_witness :
  Serialize (mkMessage (OTHER_TYPE 9) [Byte.x41] 5000000)
  = take 14 (Byte.x09 :: be_encode 4 1 ++ be_encode 8 5 ++ [Byte.x41; Byte.x42]).
Proof.
  apply (Serialize_Deserialize
           (Byte.x09 :: be_encode 4 1 ++ be_encode 8 5 ++ [Byte.x41; Byte.x42])
           (mkMessage (OTHER_TYPE 9) [Byte.x41] 5000000)).
  vm_compute. reflexivity.
Defined.

(** ** Errors *)

Lemma read_payload_size_range data :
  13 <= Z.of_nat (length data) → 0 <= read_payload_size data < 2 ^ 32.
Proof.
  intros (b0 & b1 & b2 & b3 & b4 & t0 & t1 & t2 & t3 & t4 & t5 & t6 & t7 & rest & ->)%list_13.
  rewrite read_payload_size_be. apply (be_decode_range [b1; b2; b3; b4]).
Qed.

(** The size check, without machine arithmetic: a size that makes the 32-bit sum
    wrap always passes. *)
Lemma size_check data :
  13 <= Z.of_nat (length data) →
  (Z.of_nat (length data) <? u32 (13 + read_payload_size data)) =
  bool_decide (read_payload_size data < 2 ^ 32 - 13 ∧
               Z.of_nat (length data) < 13 + read_payload_size data).
Proof.
  intros Hl. pose proof (read_payload_size_range data Hl) as Hn.
  replace (Z.of_nat (length data)) with (13 + (Z.of_nat (length data) - 13)) by lia.
  rewrite u32_wraps by lia. apply eq_true_iff_eq.
  rewrite bool_decide_eq_true, andb_true_iff, !Z.ltb_lt. lia.
Qed.

(** [Deserialize] throws exactly on the two malformed inputs it tests for: fewer
    than 13 bytes, or a declared payload (below 2^32 - 13) longer than the data. *)
Theorem Deserialize_throws_iff data e :
  Deserialize data = Throw e ↔
    (Z.of_nat (length data) < 13 ∧ e = runtime_error "Invalid message: too short") ∨
    (13 <= Z.of_nat (length data) ∧ read_payload_size data < 2 ^ 32 - 13 ∧
     Z.of_nat (length data) < 13 + read_payload_size data ∧
     e = runtime_error "Invalid message: payload size mismatch").
Proof.
  unfold Deserialize. destruct (Z.ltb_spec (Z.of_nat (length data)) 13) as [Hl|Hl].
  { split; [intros [= <-]; by left|]. intros [[_ ->]|[? _]]; [done|lia]. }
  rewrite size_check by done. case_bool_decide as Hc.
  { split; [intros [= <-]; right; naive_solver|]. intros [[? _]|(_ & _ & _ & ->)]; [lia|done]. }
  unfold ms_to_time_point, vec_range.
  destruct (fits_i64 _); cbn [mbind outcome_mbind outcome_bind];
    [destruct (_ <=? _); cbn|]; (split; [done|]); intros [[? _]|(_ & ? & ? & _)]; exfalso; lia.
Qed.

Lemma Deserialize_undefined_cases data u :
  Deserialize data = Undefined u ↔
    13 <= Z.of_nat (length data) ∧
    ((u = SignedOverflow ∧ fits_i64 (read_timestamp data * ns_per_ms) = false ∧
      (2 ^ 32 - 13 <= read_payload_size data ∨
       13 + read_payload_size data <= Z.of_nat (length data))) ∨
     (u = ReadPastEnd ∧ fits_i64 (read_timestamp data * ns_per_ms) = true ∧
      2 ^ 32 - 13 <= read_payload_size data ∧
      Z.of_nat (length data) < 13 + read_payload_size data)).
Proof.
  unfold Deserialize. destruct (Z.ltb_spec (Z.of_nat (length data)) 13) as [Hl|Hl].
  { split; [done|lia]. }
  rewrite size_check by done. case_bool_decide as Hc.
  { split; [done|]. intros [_ [(_ & _ & Hr)|(_ & _ & Hr)]]; lia. }
  unfold ms_to_time_point, vec_range.
  destruct (fits_i64 _) eqn:Hf; cbn [mbind outcome_mbind outcome_bind].
  - destruct (Z.leb_spec (13 + read_payload_size data) (Z.of_nat (length data)));
      cbn [outcome_bind].
    + split; [done|]. intros [_ [(_ & ? & _)|(_ & _ & Hr)]]; [done|lia].
    + split; [intros [= <-]; split; [done|right; split_and!; try done; lia]|].
      by intros [_ [(_ & ? & _)|(-> & _)]].
  - split; [intros [= <-]; split; [done|left; split_and!; try done; lia]|].
    by intros [_ [(-> & _)|(_ & ? & _)]].
Qed.

(** C21. The inputs whose decoding is undefined: the time stamp does not fit a
    nanosecond count, or the declared size is within 13 of 2^32, so that the
    32-bit size check wraps and the copy runs past the end of the buffer. *)
Theorem Deserialize_undefined_iff data u :
  Deserialize data = Undefined u ↔
    13 <= Z.of_nat (length data) ∧
    ((u = SignedOverflow ∧ fits_i64 (read_timestamp data * ns_per_ms) = false ∧
      (2 ^ 32 - 13 <= read_payload_size data ∨
       13 + read_payload_size data <= Z.of_nat (length data))) ∨
     (u = ReadPastEnd ∧ fits_i64 (read_timestamp data * ns_per_ms) = true ∧
      2 ^ 32 - 13 <= read_payload_size data ∧
      Z.of_nat (length data) < 13 + read_payload_size data)).
Proof. apply Deserialize_undefined_cases. Qed.

(** A 13-byte datagram any peer can send reads four gigabytes past its end. *)
Example read_past_end_datagram :
  Deserialize (Byte.x00 :: be_encode 4 (2 ^ 32 - 1) ++ repeat Byte.x00 8) = Undefined ReadPastEnd.
Proof. vm_compute. reflexivity. Qed.

(** A declared size under the limit and a time stamp in range decode safely. *)
Lemma Deserialize_defined data :
  fits_i64 (read_timestamp data * ns_per_ms) = true →
  read_payload_size data < 2 ^ 32 - 13 →
  is_Undefined (Deserialize data) = false.
Proof.
  intros Ht Hn. destruct (Deserialize data) as [| |u] eqn:E; [done..|].
  apply Deserialize_undefined_cases in E as [_ [(_ & ? & _)|(_ & _ & ? & _)]]; [congruence|lia].
Qed.

(** ** The handshake payload *)

Lemma parse_handshake_u16 payload b0 b1 rest :
  payload = b0 :: b1 :: rest →
  parse_handshake payload =
    if be_decode [b0; b1] <=? Z.of_nat (length rest)
    then Some (string_of_bytes (take (Z.to_nat (be_decode [b0; b1])) rest),
               drop (Z.to_nat (be_decode [b0; b1])) rest)
    else None.
Proof.
  intros ->. unfold parse_handshake, at8. cbn [lookup list_lookup from_option length].
  rewrite (proj2 (Z.leb_le 2 _)) by lia. rewrite lor_shiftl_byte.
  assert (Z_of_byte b0 * 256 + Z_of_byte b1 = be_decode [b0; b1]) as -> by (unfold be_decode; simpl; lia).
  pose proof (be_decode_range [b0; b1]) as Hr. change (8 * _) with 16 in Hr.
  unfold u16. rewrite Z.mod_small by done. set (n := be_decode _) in *. clearbody n.
  destruct (Z.leb_spec n (Z.of_nat (length rest)));
    destruct (Z.leb_spec (2 + n) (Z.of_nat (S (S (length rest))))); try lia; [|done].
  by cbn [drop Nat.add].
Qed.

Lemma parse_handshake_payload now peerId publicKey :
  let ids := bytes_of_string peerId in
  let k := Z.to_nat (u16 (Z.of_nat (length ids))) in
  parse_handshake (payload_ (CreateHandshakeMessage now peerId publicKey)) =
    Some (string_of_bytes (take k ids), drop k ids ++ publicKey) ∧
  (Z.of_nat (length ids) < 2 ^ 16 →
   parse_handshake (payload_ (CreateHandshakeMessage now peerId publicKey)) = Some (peerId, publicKey)).
Proof.
  intros ids k.
  assert (parse_handshake (payload_ (CreateHandshakeMessage now peerId publicKey)) =
    Some (string_of_bytes (take k ids), drop k ids ++ publicKey)) as E.
  { unfold CreateHandshakeMessage. cbn [payload_ Message_new]. fold ids.
    rewrite push_u16_be. cbn [be_encode].
    erewrite parse_handshake_u16 by reflexivity.
    match goal with |- context [be_decode ?l] =>
      change (be_decode l) with (be_decode (be_encode 2 (u16 (Z.of_nat (length ids))))) end.
    rewrite be_decode_encode. change (2 ^ (8 * Z.of_nat 2)) with (2 ^ 16).
    unfold u16 at 1 2 3. rewrite Zmod_mod. fold (u16 (Z.of_nat (length ids))). fold k.
    assert (k <= length ids)%nat.
    { unfold k, u16. pose proof (Z.mod_le (Z.of_nat (length ids)) (2 ^ 16)). lia. }
    cbn [app]. rewrite length_app. rewrite (proj2 (Z.leb_le _ _)).
    - by rewrite take_app_le, drop_app_le by lia.
    - unfold k in *. lia. }
  split; [exact E|]. intros Hlen. rewrite E.
  assert (k = length ids) as -> by (unfold k, u16; rewrite Z.mod_small; lia).
  rewrite take_ge, drop_ge by lia. unfold ids. by rewrite string_of_bytes_of_string.
Qed.

(** What a receiver reads out of the payload [CreateHandshakeMessage] builds: the
    id cut to its length modulo 2^16, and the rest of the id with the key as the
    public key. Up to 65535 bytes of id the handshake is therefore faithful. *)
Theorem parse_CreateHandshakeMessage now peerId publicKey :
  let ids := bytes_of_string peerId in
  let k := Z.to_nat (u16 (Z.of_nat (length ids))) in
  parse_handshake (payload_ (CreateHandshakeMessage now peerId publicKey)) =
    Some (string_of_bytes (take k ids), drop k ids ++ publicKey) ∧
  (Z.of_nat (length ids) < 2 ^ 16 →
   parse_handshake (payload_ (CreateHandshakeMessage now peerId publicKey)) = Some (peerId, publicKey)).
Proof. apply parse_handshake_payload. Qed.

Lemma parse_handshake_Some payload peerId publicKey :
  parse_handshake payload = Some (peerId, publicKey) →
  2 <= Z.of_nat (length payload).
Proof. unfold parse_handshake. destruct (Z.leb_spec 2 (Z.of_nat (length payload))); done. Qed.

(** ** The peer list

    The program only writes peer lists; this is the reading its layout calls for. *)
Fixpoint decode_strings (n : nat) (l : list byte) : option (list string) :=
  match n with
  | O => match l with [] => Some [] | _ => None end
  | S n =>
    match l with
    | b0 :: b1 :: rest =>
      let len := Z.to_nat (be_decode [b0; b1]) in
      if (len <=? length rest)%nat
      then (string_of_bytes (take len rest) ::.) <$> decode_strings n (drop len rest)
      else None
    | _ => None
    end
  end.

Definition decode_peer_list (l : list byte) : option (list string) :=
  match l with
  | b0 :: b1 :: rest => decode_strings (Z.to_nat (be_decode [b0; b1])) rest
  | _ => None
  end.

Definition encode_string (s : string) : list byte :=
  push_u16 (u16 (Z.of_nat (length (bytes_of_string s)))) ++ bytes_of_string s.

Lemma CreatePeerListMessage_payload now peers :
  payload_ (CreatePeerListMessage now peers) =
    push_u16 (u16 (Z.of_nat (length peers))) ++ concat (map encode_string peers).
Proof.
  unfold CreatePeerListMessage. cbn [payload_ Message_new].
  generalize (push_u16 (u16 (Z.of_nat (length peers)))) as acc.
  induction peers as [|p peers IH]; intros acc; cbn [foldl map concat]; [by rewrite app_nil_r|].
  rewrite IH. unfold encode_string. by rewrite <- !app_assoc.
Qed.

Lemma push_u16_decode v : ∃ b0 b1, push_u16 v = [b0; b1] ∧ be_decode [b0; b1] = u16 v.
Proof.
  rewrite push_u16_be. eexists _, _. split; [reflexivity|].
  match goal with |- be_decode ?l = _ => change l with (be_encode 2 v) end.
  apply be_decode_encode.
Qed.

Lemma decode_strings_encode peers :
  Forall (λ s, Z.of_nat (length (bytes_of_string s)) < 2 ^ 16) peers →
  decode_strings (length peers) (concat (map encode_string peers)) = Some peers.
Proof.
  induction 1 as [|s peers Hs _ IH]; [done|].
  cbn [map concat length decode_strings]. unfold encode_string at 1.
  destruct (push_u16_decode (u16 (Z.of_nat (length (bytes_of_string s))))) as (b0 & b1 & -> & E).
  cbn [app]. rewrite E. unfold u16. rewrite Zmod_mod, Z.mod_small, Nat2Z.id by lia.
  rewrite (proj2 (Nat.leb_le _ _)) by (rewrite !length_app; lia).
  rewrite take_app_length, drop_app_length, IH. cbn. by rewrite string_of_bytes_of_string.
Qed.

Lemma peer_list_payload now peers :
  Z.of_nat (length peers) < 2 ^ 16 →
  Forall (λ s, Z.of_nat (length (bytes_of_string s)) < 2 ^ 16) peers →
  decode_peer_list (payload_ (CreatePeerListMessage now peers)) = Some peers.
Proof.
  intros Hn Hs. rewrite CreatePeerListMessage_payload.
  destruct (push_u16_decode (u16 (Z.of_nat (length peers)))) as (b0 & b1 & -> & E).
  cbn [app decode_peer_list]. rewrite E. unfold u16.
  rewrite Zmod_mod, Z.mod_small, Nat2Z.id by lia. by apply decode_strings_encode.
Qed.

(** A peer-list message of at most 65535 addresses, each of at most 65535 bytes,
    determines the list it was built from. *)
Theorem decode_CreatePeerListMessage now peers :
  Z.of_nat (length peers) < 2 ^ 16 →
  Forall (λ s, Z.of_nat (length (bytes_of_string s)) < 2 ^ 16) peers →
  decode_peer_list (payload_ (CreatePeerListMessage now peers)) = Some peers.
Proof. apply peer_list_payload. Qed.

Lemma decode_CreatePeerListMessage_witness :
  decode_peer_list (payload_ (CreatePeerListMessage 0 ["192.168.1.1:8080"; ""; "h:1"]))
  = Some ["192.168.1.1:8080"; ""; "h:1"].
Proof.
  apply (decode_CreatePeerListMessage 0 ["192.168.1.1:8080"; ""; "h:1"]); [reflexivity|].
  repeat constructor.
Defined.

(** ** The factories and the wire *)

(** A message of type [type] made at [now] is received, as such, with a payload for which
    [read] holds. *)
Definition received_as (now : Z) (type : MessageType) (read : list byte → Prop) (m : Message) (extra : list byte) : Prop :=
  ∃ payload, Deserialize (Serialize m ++ extra) = Ok (mkMessage type payload (to_ms now * ns_per_ms)) ∧ read payload.

Lemma factory_received now type payload read extra :
  fits_i64 now = true → type_wf type = true → Z.of_nat (length payload) < 2 ^ 32 → read payload →
  received_as now type read (Message_new now type payload) extra.
Proof.
  intros Hnow Ht Hlen Hread. exists payload. split; [|done].
  rewrite decode_encode; [done| |done]. unfold Message_wf. cbn. by rewrite Ht.
Qed.

(** C31. What the factories build. Each factory's message is received with the type of the
    factory and the time at which it was made, in milliseconds, and a payload out of
    which a receiver reads the arguments of the factory: the text, the peer id and
    the key, the list of peers, nothing. So is what the setters make of a message. *)
Theorem factories_on_the_wire now text peerId publicKey peers extra :
  fits_i64 now = true →
  (Z.of_nat (length (payload_ (CreateTextMessage now text))) < 2 ^ 32 →
   received_as now TEXT (λ p, string_of_bytes p = text) (CreateTextMessage now text) extra) ∧
  (Z.of_nat (length (bytes_of_string peerId)) < 2 ^ 16 →
   Z.of_nat (length (payload_ (CreateHandshakeMessage now peerId publicKey))) < 2 ^ 32 →
   received_as now HANDSHAKE (λ p, parse_handshake p = Some (peerId, publicKey))
     (CreateHandshakeMessage now peerId publicKey) extra) ∧
  (Z.of_nat (length peers) < 2 ^ 16 →
   Forall (λ s, Z.of_nat (length (bytes_of_string s)) < 2 ^ 16) peers →
   Z.of_nat (length (payload_ (CreatePeerListMessage now peers))) < 2 ^ 32 →
   received_as now PEER_LIST (λ p, decode_peer_list p = Some peers) (CreatePeerListMessage now peers) extra) ∧
  received_as now PING (λ p, p = []) (CreatePingMessage now) extra ∧
  received_as now PONG (λ p, p = []) (CreatePongMessage now) extra ∧
  (∀ m type payload, timestamp_ m = now → type_wf type = true → Z.of_nat (length payload) < 2 ^ 32 →
   received_as now type (λ p, p = payload) (SetPayload payload (SetType type m)) extra).
Proof.
  intros Hnow. split_and!.
  - intros Hl. apply factory_received; [done..|]. cbn. apply string_of_bytes_of_string.
  - intros Hid Hl. apply factory_received; [done..|]. by apply (parse_handshake_payload now peerId publicKey).
  - intros Hn Hs Hl. apply factory_received; [done..|]. by apply (peer_list_payload now).
  - by apply factory_received.
  - by apply factory_received.
  - intros m type payload <- Ht Hl.
    by apply (factory_received (timestamp_ m) type payload (λ p, p = payload)).
Qed.

Lemma factories_on_the_wire_witness :
  received_as 5000001 HANDSHAKE (λ p, parse_handshake p = Some ("bob", [Byte.x02]))
    (CreateHandshakeMessage 5000001 "bob" [Byte.x02]) [Byte.xff] ∧
  received_as 5000001 PONG (λ p, p = [Byte.x07])
    (SetPayload [Byte.x07] (SetType PONG (CreateTextMessage 5000001 "hi"))) [Byte.xff].
Proof.
  destruct (factories_on_the_wire 5000001 "hi" "bob" [Byte.x02] ["h:1"] [Byte.xff] eq_refl)
    as (_ & Hh & _ & _ & _ & Hset).
  split; [by apply Hh|by apply Hset].
Defined.
