(* ===== verification/PeerManager.v ===== *)
(** The peer registry: [Include/PeerManager.hpp] and [Source/PeerManager.cpp].

    The state of a [PeerManager], its operations under its mutex, the peer file it
    writes and reads, an abstract specification by histories, and the theorems:
    the refinement of the histories, the representation invariant, enumeration and
    the commutation of concurrent additions. What saving and loading preserve is
    the subject of [PeerFile]. *)

From Stdlib Require Import Strings.Ascii.
From S2P Require Import Prelude CxxText.

(** ** Data *)

(** [struct PeerInfo]. [port] has no initialiser: [None] is the indeterminate
    value of a [PeerInfo peer;] that nothing has been assigned to. Copies carry
    it along, and using it is undefined. *)
Record PeerInfo := mkPeer {
  pi_id : string;
  pi_address : string;
  pi_port : option Z;
  pi_publicKey : list byte;
  pi_isConnected : bool;
  pi_lastSeen : Z
}.

#[export] Instance PeerInfo_eq_dec : EqDecision PeerInfo.
Proof. solve_decision. Defined.

Record PeerManager := mkPM {
  mutex_ : bool;
  peers_ : gmap string PeerInfo;
  localPeer_ : PeerInfo
}.

#[export] Program Instance PeerManager_Mutex : Mutex PeerManager := {|
  locked := mutex_;
  set_locked b pm := mkPM b (peers_ pm) (localPeer_ pm)
|}.
Solve Obligations with by intros; repeat match goal with pm : PeerManager |- _ => destruct pm end.

(** The constructor leaves [localPeer_]'s scalars indeterminate; [flag] is the
    indeterminate [isConnected]. *)
Definition PeerManager_new (flag : bool) : PeerManager :=
  mkPM false ∅ (mkPeer "" "" None [] flag 0).

Definition set_peers (peers : gmap string PeerInfo) (pm : PeerManager) : PeerManager :=
  mkPM (mutex_ pm) peers (localPeer_ pm).

Definition set_status (connected : bool) (now : Z) (p : PeerInfo) : PeerInfo :=
  mkPeer (pi_id p) (pi_address p) (pi_port p) (pi_publicKey p) connected now.

(** ** Operations *)

Definition AddPeer (peer : PeerInfo) : stM PeerManager unit :=
  lock_guard (st_modify (λ pm, set_peers (<[pi_id peer := peer]> (peers_ pm)) pm)).

Definition RemovePeer (peerId : string) : stM PeerManager unit :=
  lock_guard (st_modify (λ pm, set_peers (delete peerId (peers_ pm)) pm)).

Definition UpdatePeerStatus (now : Z) (peerId : string) (connected : bool) : stM PeerManager unit :=
  lock_guard (
    it ← st_gets (λ pm, peers_ pm !! peerId);
    match it with
    | Some p => st_modify (λ pm, set_peers (<[peerId := set_status connected now p]> (peers_ pm)) pm)
    | None => mret tt
    end).

Definition GetPeer (peerId : string) : stM PeerManager (option PeerInfo) :=
  lock_guard (st_gets (λ pm, peers_ pm !! peerId)).

Definition GetAllPeers `{UnorderedIter} : stM PeerManager (list PeerInfo) :=
  lock_guard (st_gets (λ pm,
    foldl (λ result '(_, peer), result ++ [peer]) [] (iter (peers_ pm)))).

Definition GetConnectedPeers `{UnorderedIter} : stM PeerManager (list PeerInfo) :=
  lock_guard (st_gets (λ pm,
    foldl (λ result '(_, peer), if pi_isConnected peer then result ++ [peer] else result)
          [] (iter (peers_ pm)))).

Definition SetLocalPeer (localPeer : PeerInfo) : stM PeerManager unit :=
  lock_guard (st_modify (λ pm, mkPM (mutex_ pm) (peers_ pm) localPeer)).

(** The only accessor that takes no lock. *)
Definition GetLocalPeer : stM PeerManager PeerInfo := st_gets localPeer_.

(** *** The peer file *)

(** [file << peer.port]. *)
Definition show_port (port : option Z) : outcome string :=
  match port with Some n => Ok (to_string n) | None => Undefined UninitialisedRead end.

Definition write_peer (peer : PeerInfo) : outcome string :=
  port ← show_port (pi_port peer);
  Ok (pi_id peer +:+ "|" +:+ pi_address peer +:+ "|" +:+ port +:+ "|"
      +:+ hex_string (pi_publicKey peer) +:+ String newline "").

Fixpoint write_peers (peers : list (string * PeerInfo)) : outcome string :=
  match peers with
  | [] => Ok ""
  | (_, peer) :: peers => line ← write_peer peer; rest ← write_peers peers; Ok (line +:+ rest)
  end.

(** The new contents of the file, [None] when it does not open. *)
Definition SavePeersToFile `{UnorderedIter} (is_open : bool) : stM PeerManager (option string) :=
  lock_guard (
    if is_open then
      peers ← st_gets (λ pm, iter (peers_ pm));
      content ← st_lift (write_peers peers);
      mret (Some content)
    else mret None).

(** The four [getline] calls of a line; [None] is the [continue]. *)
Definition parse_fields (line : string) : option (string * string * string * string) :=
  match getline bar line with
  | None => None
  | Some (id, iss) =>
    match getline bar iss with
    | None => None
    | Some (address, iss) =>
      match getline bar iss with
      | None => None
      | Some (portStr, iss) =>
        match getline newline iss with
        | None => None
        | Some (keyHex, _) => Some (id, address, portStr, keyHex)
        end
      end
    end
  end.

(** [for (size_t i = 0; i < keyHex.length(); i += 2)] on [keyHex.substr(i, 2)]. *)
Fixpoint parse_hex (keyHex : string) : outcome (list byte) :=
  match keyHex with
  | EmptyString => Ok []
  | String a rest =>
    match rest with
    | EmptyString => v ← stoul 16 (String a ""); Ok [byte_of_Z v]
    | String b rest =>
      v ← stoul 16 (String a (String b ""));
      key ← parse_hex rest;
      Ok (byte_of_Z v :: key)
    end
  end.

Definition load_line (now : Z) (line : string) : stM PeerManager unit :=
  match parse_fields line with
  | None => mret tt
  | Some (id, address, portStr, keyHex) =>
    port ← st_lift (stoul 10 portStr);
    key ← st_lift (parse_hex keyHex);
    st_modify (λ pm,
      set_peers (<[id := mkPeer id address (Some (u16 port)) key false now]> (peers_ pm)) pm)
  end.

(** [file] is the contents, [None] when the file does not open; [now i] is the
    clock while the [i]-th line is read. *)
Definition LoadPeersFromFile (now : Clock) (file : option string) : stM PeerManager unit :=
  lock_guard (
    match file with
    | None => mret tt
    | Some content =>
      st_for (imap pair (getlines newline content)) (λ '(i, line), load_line (now i) line)
    end).

(** The round trip of [Tests/TestPeerManager.cpp], evaluated. *)
Definition test_peers : gmap string PeerInfo :=
  {[ "peer1" := mkPeer "peer1" "192.168.1.10" (Some 8081) [Byte.x01; Byte.x02; Byte.x03; Byte.x04] false 7;
     "peer2" := mkPeer "peer2" "192.168.1.20" (Some 8082) [Byte.x05; Byte.xff] true 7 ]}.
Definition save_load_test : option (list byte) :=
  match (@SavePeersToFile tree_order true (mkPM false test_peers (mkPeer "" "" None [] false 0))).1 with
  | Ok file =>
    pi_publicKey <$> peers_ (LoadPeersFromFile (λ _, 9) file (PeerManager_new false)).2 !! "peer2"
  | _ => None
  end.
Example save_load_test_ok : save_load_test = Some [Byte.x05; Byte.xff].
Proof. vm_compute. reflexivity. Qed.

(** * Lemmas *)

(** ** Each operation, run from an unlocked registry *)

(** Solves the equation of a short critical section on a concrete record. *)
Ltac pm_run :=
  match goal with
  | pm : PeerManager, H : mutex_ _ = false |- _ =>
      destruct pm; cbn in H; rewrite H in *; reflexivity
  end.

Section Run.
Context (pm : PeerManager) (Hfree : mutex_ pm = false).

Lemma AddPeer_run p : AddPeer p pm = (Ok tt, set_peers (<[pi_id p := p]> (peers_ pm)) pm).
Proof. pm_run. Qed.

Lemma RemovePeer_run k : RemovePeer k pm = (Ok tt, set_peers (delete k (peers_ pm)) pm).
Proof. pm_run. Qed.

Lemma SetLocalPeer_run p : SetLocalPeer p pm = (Ok tt, mkPM (mutex_ pm) (peers_ pm) p).
Proof. pm_run. Qed.

Lemma GetPeer_run k : GetPeer k pm = (Ok (peers_ pm !! k), pm).
Proof. pm_run. Qed.

Lemma UpdatePeerStatus_run now k b :
  UpdatePeerStatus now k b pm = (Ok tt, set_peers (alter (set_status b now) k (peers_ pm)) pm).
Proof.
  destruct pm as [m ps lp]; cbn in Hfree; rewrite Hfree.
  unfold UpdatePeerStatus, lock_guard. st_simpl.
  assert (alter (set_status b now) k ps =
    match ps !! k with Some p => <[k := set_status b now p]> ps | None => ps end) as ->.
  { apply map_eq. intros j. rewrite lookup_alter.
    destruct (ps !! k) eqn:E; rewrite ?lookup_insert; case_decide; subst; rewrite ?E; done. }
  by destruct (ps !! k).
Qed.

Lemma GetAllPeers_run `{UnorderedIter} : GetAllPeers pm = (Ok ((iter (peers_ pm)).*2), pm).
Proof.
  destruct pm as [m ps lp]; cbn in Hfree; rewrite Hfree.
  unfold GetAllPeers, lock_guard, st_gets. cbn. repeat f_equal.
  cut (∀ acc, foldl (λ result '(_, peer), result ++ [peer]) acc (iter ps) = acc ++ (iter ps).*2).
  { intros E. by rewrite E. }
  induction (iter ps) as [|[k p] l IH]; intros acc; cbn; [by rewrite app_nil_r|].
  by rewrite IH, <- app_assoc.
Qed.

Lemma GetConnectedPeers_run `{UnorderedIter} :
  GetConnectedPeers pm = (Ok (filter (λ p, pi_isConnected p = true) (iter (peers_ pm)).*2), pm).
Proof.
  destruct pm as [m ps lp]; cbn in Hfree; rewrite Hfree.
  unfold GetConnectedPeers, lock_guard, st_gets. cbn. repeat f_equal.
  cut (∀ acc, foldl (λ result '(_, peer), if pi_isConnected peer then result ++ [peer] else result)
        acc (iter ps) = acc ++ filter (λ p, pi_isConnected p = true) (iter ps).*2).
  { intros E. by rewrite E. }
  induction (iter ps) as [|[k p] l IH]; intros acc; [cbn; by rewrite app_nil_r|].
  rewrite fmap_cons, filter_cons. cbn [foldl snd]. rewrite IH.
  case_decide as Hp; [rewrite Hp, <- app_assoc; done|].
  by apply not_true_is_false in Hp as ->.
Qed.
End Run.

Lemma set_peers_mutex ps pm : mutex_ (set_peers ps pm) = mutex_ pm.
Proof. done. Qed.
Lemma peers_set_peers ps pm : peers_ (set_peers ps pm) = ps.
Proof. done. Qed.
#[export] Hint Rewrite set_peers_mutex peers_set_peers : cxx.

(** ** Specification by histories

    What a client is promised: the record of an id is the one last added under
    it, since the last removal, with the status updates made after that. *)

Inductive pm_op :=
  | OpAdd (p : PeerInfo)
  | OpRemove (k : string)
  | OpUpdate (now : Z) (k : string) (connected : bool)
  | OpSetLocal (p : PeerInfo).

Definition run_op (op : pm_op) : stM PeerManager unit :=
  match op with
  | OpAdd p => AddPeer p
  | OpRemove k => RemovePeer k
  | OpUpdate now k b => UpdatePeerStatus now k b
  | OpSetLocal p => SetLocalPeer p
  end.

(** The life of one id. *)
Definition hist_step (k : string) (cur : option PeerInfo) (op : pm_op) : option PeerInfo :=
  match op with
  | OpAdd p => if decide (pi_id p = k) then Some p else cur
  | OpRemove j => if decide (j = k) then None else cur
  | OpUpdate now j b => if decide (j = k) then set_status b now <$> cur else cur
  | OpSetLocal _ => cur
  end.

Definition hist_local (cur : PeerInfo) (op : pm_op) : PeerInfo :=
  match op with OpSetLocal p => p | _ => cur end.

Lemma run_op_spec op pm :
  mutex_ pm = false →
  ∃ pm', run_op op pm = (Ok tt, pm') ∧ mutex_ pm' = false ∧
    localPeer_ pm' = hist_local (localPeer_ pm) op ∧
    ∀ k, peers_ pm' !! k = hist_step k (peers_ pm !! k) op.
Proof.
  intros Hfree. destruct op as [p|j|now j b|p]; cbn [run_op].
  - rewrite AddPeer_run by done. eexists. split_and!; [done..|].
    intros k. cbn. apply lookup_insert.
  - rewrite RemovePeer_run by done. eexists. split_and!; [done..|].
    intros k. cbn. apply lookup_delete.
  - rewrite UpdatePeerStatus_run by done. eexists. split_and!; [done..|].
    intros k. cbn. rewrite lookup_alter. case_decide; by subst.
  - rewrite SetLocalPeer_run by done. eexists. by split_and!.
Qed.

Lemma run_ops_spec ops pm :
  mutex_ pm = false →
  ∃ pm', st_for ops run_op pm = (Ok tt, pm') ∧ mutex_ pm' = false ∧
    localPeer_ pm' = foldl hist_local (localPeer_ pm) ops ∧
    ∀ k, peers_ pm' !! k = foldl (hist_step k) (peers_ pm !! k) ops.
Proof.
  revert pm. induction ops as [|op ops IH]; intros pm Hfree; [by exists pm|].
  destruct (run_op_spec op pm Hfree) as (pm1 & E & Hf1 & Hl1 & Hp1).
  destruct (IH pm1 Hf1) as (pm' & E' & Hf' & Hl' & Hp').
  exists pm'. cbn [st_for foldl]. erewrite st_bind_Ok by exact E.
  split_and!; [done|done|by rewrite Hl', Hl1|]. intros k. by rewrite Hp', Hp1.
Qed.

(** C9. Refinement: after any history of additions, removals, status updates and
    local-peer changes on a new registry, every operation has completed and
    [GetPeer] and [GetLocalPeer] answer as the history of that id says. *)
Theorem PeerManager_refines_histories flag ops :
  ∃ pm, st_for ops run_op (PeerManager_new flag) = (Ok tt, pm) ∧
    (∀ k, GetPeer k pm = (Ok (foldl (hist_step k) None ops), pm)) ∧
    GetLocalPeer pm = (Ok (foldl hist_local (localPeer_ (PeerManager_new flag)) ops), pm).
Proof.
  destruct (run_ops_spec ops (PeerManager_new flag)) as (pm & E & Hf & Hl & Hp); [done|].
  exists pm. split_and!; [done| |].
  - intros k. rewrite GetPeer_run by done. by rewrite Hp.
  - unfold GetLocalPeer, st_gets. by rewrite Hl.
Qed.

(** Additions made by concurrent threads under distinct ids give the same
    registry in whatever order the mutex serialises them, with one record each. *)
Theorem AddPeers_commute ps qs pm :
  mutex_ pm = false → peers_ pm = ∅ → NoDup (map pi_id ps) → ps ≡ₚ qs →
  st_for qs AddPeer pm = st_for ps AddPeer pm ∧
  (st_for ps AddPeer pm).1 = Ok tt ∧
  size (peers_ (st_for ps AddPeer pm).2) = length ps.
Proof.
  intros Hfree Hempty Hnd Hperm.
  assert (∀ l, st_for l AddPeer pm =
    (Ok tt, set_peers (foldl (λ m p, <[pi_id p := p]> m) (peers_ pm) l) pm)) as Hrun.
  { clear -Hfree. intros l. revert pm Hfree. induction l as [|p l IH]; intros pm Hfree.
    { by destruct pm. }
    cbn [st_for foldl]. erewrite st_bind_Ok by (by apply AddPeer_run). by rewrite IH. }
  assert (∀ l, foldl (λ m p, <[pi_id p := p]> m) (peers_ pm) l
               = list_to_map (reverse (map (λ p, (pi_id p, p)) l))) as Hfold.
  { intros l. rewrite Hempty. induction l as [|p l IH] using rev_ind; [done|].
    rewrite foldl_app, map_app, reverse_app. cbn. by rewrite IH. }
  assert (NoDup (reverse (map (λ p, (pi_id p, p)) ps)).*1) as Hnd'.
  { rewrite reverse_Permutation, <- list_fmap_compose. done. }
  rewrite !Hrun, !Hfold. cbn. split_and!; [|done|].
  - assert (list_to_map (M := gmap string PeerInfo) (reverse (map (λ p, (pi_id p, p)) ps))
            = list_to_map (reverse (map (λ p, (pi_id p, p)) qs))) as ->; [|done].
    apply list_to_map_proper; [done|].
    rewrite !reverse_Permutation. by apply Permutation_map.
  - rewrite <- length_map_to_list, map_to_list_to_map by done.
    by rewrite length_reverse, length_map.
Qed.

Lemma AddPeers_commute_witness :
  st_for [mkPeer "b" "h" (Some 2) [] true 1; mkPeer "a" "h" (Some 1) [] true 0] AddPeer (PeerManager_new false)
  = st_for [mkPeer "a" "h" (Some 1) [] true 0; mkPeer "b" "h" (Some 2) [] true 1] AddPeer (PeerManager_new false).
Proof.
  apply (AddPeers_commute [mkPeer "a" "h" (Some 1) [] true 0; mkPeer "b" "h" (Some 2) [] true 1]
           [mkPeer "b" "h" (Some 2) [] true 1; mkPeer "a" "h" (Some 1) [] true 0] (PeerManager_new false));
    [reflexivity|reflexivity| |apply Permutation_swap].
  apply (bool_decide_unpack _). vm_compute. exact I.
Defined.

(** ** The representation invariant *)

Definition port_ok (port : option Z) : bool :=
  match port with Some n => (0 <=? n) && (n <? 2 ^ 16) | None => true end.

(** The lock is free, each record is filed under its own id, and each port that
    has been written is a [uint16_t]. *)
Record pm_inv (pm : PeerManager) : Prop := {
  inv_free : mutex_ pm = false;
  inv_keys : map_Forall (λ k p, pi_id p = k) (peers_ pm);
  inv_ports : map_Forall (λ _ p, port_ok (pi_port p) = true) (peers_ pm)
}.

Lemma u16_port_ok n : port_ok (Some (u16 n)) = true.
Proof.
  cbn. unfold u16. pose proof (Z.mod_pos_bound n (2 ^ 16)).
  rewrite andb_true_iff, Z.leb_le, Z.ltb_lt. lia.
Qed.

Lemma pm_inv_insert pm p :
  pm_inv pm → port_ok (pi_port p) = true →
  pm_inv (set_peers (<[pi_id p := p]> (peers_ pm)) pm).
Proof. intros [Hf Hk Hp] Hport. split; [done|..]; by apply map_Forall_insert_2. Qed.

(** The same, without the lock: what the loop body of [LoadPeersFromFile] keeps. *)
Definition pm_data_inv (pm : PeerManager) : Prop :=
  map_Forall (λ k p, pi_id p = k) (peers_ pm) ∧
  map_Forall (λ _ p, port_ok (pi_port p) = true) (peers_ pm).

Lemma load_line_inv now line pm :
  pm_data_inv pm → pm_data_inv (load_line now line pm).2.
Proof.
  unfold load_line. intros Hinv.
  destruct (parse_fields line) as [[[[id address] portStr] keyHex]|]; [|done].
  st_simpl. destruct (stoul 10 portStr); [|done..].
  destruct (parse_hex keyHex); [|done..]. cbn. destruct Hinv as [Hk Hp].
  split; apply map_Forall_insert_2; try done. apply u16_port_ok.
Qed.

(** *** No operation of the registry has undefined behaviour of its own: [load_line]
    only throws what [stoul] throws. *)
Lemma stoul_defined base s : is_Undefined (stoul base s) = false.
Proof. unfold stoul. destruct (strto base s) as [[[] v]|]; [destruct (_ <? _)..|]; done. Qed.

Lemma parse_hex_defined s : is_Undefined (parse_hex s) = false.
Proof.
  assert (∀ n s, (String.length s <= n)%nat → is_Undefined (parse_hex s) = false) as Hall;
    [|by apply (Hall (String.length s))].
  clear s. induction n as [|n IH]; intros [|a [|b s]] Hn; cbn [String.length] in Hn;
    try done; try lia; cbn [parse_hex].
  - pose proof (stoul_defined 16 (String a "")) as Hd. by destruct (stoul 16 (String a "")).
  - pose proof (stoul_defined 16 (String a (String b ""))) as Hd.
    destruct (stoul 16 (String a (String b ""))); [|done..].
    specialize (IH s ltac:(lia)). st_simpl. by destruct (parse_hex s).
Qed.

Lemma load_line_defined now line pm : is_Undefined (load_line now line pm).1 = false.
Proof.
  unfold load_line.
  destruct (parse_fields line) as [[[[id address] portStr] keyHex]|]; [|done].
  st_simpl. pose proof (stoul_defined 10 portStr). pose proof (parse_hex_defined keyHex).
  destruct (stoul 10 portStr); [|done..]. by destruct (parse_hex keyHex).
Qed.

Lemma st_for_defined {S X} (xs : list X) (f : X → stM S unit) s :
  (∀ x s, is_Undefined (f x s).1 = false) → is_Undefined (st_for xs f s).1 = false.
Proof.
  intros Hf. revert s. induction xs as [|x xs IH]; intros s; [done|]. cbn [st_for].
  unfold st_bind. pose proof (Hf x s). by destruct (f x s) as [[[]| |] s'].
Qed.

(** The transitions of the registry: its public member functions. *)
Inductive pm_step (pm : PeerManager) : PeerManager → Prop :=
  | step_op op :
      match op with OpAdd p => port_ok (pi_port p) = true | _ => True end →
      pm_step pm (run_op op pm).2
  | step_get k : pm_step pm (GetPeer k pm).2
  | step_all (it : UnorderedIter) : pm_step pm (GetAllPeers pm).2
  | step_connected (it : UnorderedIter) : pm_step pm (GetConnectedPeers pm).2
  | step_local : pm_step pm (GetLocalPeer pm).2
  | step_save (it : UnorderedIter) is_open :
      is_Undefined (SavePeersToFile is_open pm).1 = false →
      pm_step pm (SavePeersToFile is_open pm).2
  | step_load now file : pm_step pm (LoadPeersFromFile now file pm).2.

Lemma SavePeersToFile_run `{UnorderedIter} is_open pm :
  mutex_ pm = false →
  SavePeersToFile is_open pm =
    if is_open then
      match write_peers (iter (peers_ pm)) with
      | Ok content => (Ok (Some content), pm)
      | Throw e => (Throw e, pm)
      | Undefined u => (Undefined u, mkPM true (peers_ pm) (localPeer_ pm))
      end
    else (Ok None, pm).
Proof.
  intros Hfree. destruct pm as [m ps lp]; cbn in Hfree; subst.
  unfold SavePeersToFile, lock_guard. destruct is_open; st_simpl; [|done].
  by destruct (write_peers (iter ps)).
Qed.

Lemma LoadPeersFromFile_inv now file pm :
  pm_inv pm → pm_inv (LoadPeersFromFile now file pm).2 ∧
              is_Undefined (LoadPeersFromFile now file pm).1 = false.
Proof.
  intros [Hf Hk Hp]. unfold LoadPeersFromFile, lock_guard. cbn [locked PeerManager_Mutex].
  rewrite Hf.
  set (body := match file with None => _ | Some _ => _ end).
  assert (pm_data_inv (body (set_locked true pm)).2 ∧
          is_Undefined (body (set_locked true pm)).1 = false) as [[Hk' Hp'] Hdef].
  { unfold body. destruct file as [content|]; [|done]. split.
    - apply st_for_inv; [|done]. intros [i line] s _. apply load_line_inv.
    - apply st_for_defined. intros [i line] s. apply load_line_defined. }
  destruct (body (set_locked true pm)) as [[[]|e|u] pm']; cbn in *; by split.
Qed.

Lemma map_Forall_alter' (P : string → PeerInfo → Prop) f k (m : gmap string PeerInfo) :
  (∀ p, P k p → P k (f p)) → map_Forall P m → map_Forall P (alter f k m).
Proof.
  intros Hf Hm j q. rewrite lookup_alter. case_decide; [subst|apply Hm].
  intros (p & Hp & ->)%fmap_Some. by apply Hf, Hm.
Qed.

(** C17. Every registry the program can reach from a new one has its lock free, every
    record filed under its own id and every written port in 16-bit range:
    each public operation preserves this, the loading of any file included. *)
Theorem pm_inv_reachable flag pm : rtc pm_step (PeerManager_new flag) pm → pm_inv pm.
Proof.
  intros Hrun.
  assert (pm_inv (PeerManager_new flag)) as H0 by (split; [done|apply map_Forall_empty..]).
  induction Hrun as [pm|pm0 pm1 pm2 Hstep _ IH]; [done|]. apply IH. clear IH.
  pose proof (inv_free _ H0) as Hf.
  destruct Hstep as [op Hop|k|it|it| |it is_open Hdef|now file].
  - destruct op as [p|k|now k b|p]; cbn [run_op].
    + rewrite AddPeer_run by done. by apply pm_inv_insert.
    + rewrite RemovePeer_run by done. destruct H0 as [_ Hk Hp].
      split; [done|..]; by apply map_Forall_delete.
    + rewrite UpdatePeerStatus_run by done. destruct H0 as [_ Hk Hp].
      by split; [done|..]; apply map_Forall_alter'.
    + rewrite SetLocalPeer_run by done. by destruct H0.
  - by rewrite GetPeer_run.
  - by rewrite GetAllPeers_run.
  - by rewrite GetConnectedPeers_run.
  - done.
  - rewrite SavePeersToFile_run in Hdef |- * by done. destruct is_open; [|done].
    by destruct (write_peers (iter (peers_ pm0))).
  - by apply LoadPeersFromFile_inv.
Qed.

Lemma pm_inv_reachable_witness :
  pm_inv (LoadPeersFromFile (λ _, 5) (Some "a|h|70000|ff") (PeerManager_new true)).2.
Proof.
  apply (pm_inv_reachable true). eapply rtc_l; [|apply rtc_refl]. apply step_load.
Defined.

Lemma GetAllPeers_lists (it : UnorderedIter) pm :
  pm_inv pm →
  ∃ l, GetAllPeers pm = (Ok l, pm) ∧ NoDup (map pi_id l) ∧
    (∀ p, p ∈ l ↔ GetPeer (pi_id p) pm = (Ok (Some p), pm)) ∧
    GetConnectedPeers pm = (Ok (filter (λ p, pi_isConnected p = true) l), pm).
Proof.
  intros [Hf Hk _]. exists (iter (peers_ pm)).*2.
  assert (∀ k p, (k, p) ∈ iter (peers_ pm) → pi_id p = k) as Hid.
  { intros k p Hkp%iter_elem. by apply Hk. }
  split_and!.
  - by apply GetAllPeers_run.
  - assert (map pi_id (iter (peers_ pm)).*2 = (iter (peers_ pm)).*1) as ->.
    { rewrite <- list_fmap_compose. apply list_fmap_ext. intros i [k p] Hi. cbn.
      apply Hid. by eapply list_elem_of_lookup_2. }
    apply iter_NoDup_keys.
  - intros p. rewrite GetPeer_run by done. rewrite list_elem_of_fmap. split.
    + intros ([k q] & -> & Hq). cbn. rewrite (Hid _ _ Hq). apply iter_elem in Hq.
      by rewrite Hq.
    + intros [= Hp]. exists (pi_id p, p). split; [done|]. by apply iter_elem.
  - by apply GetConnectedPeers_run.
Qed.

(** The enumerations, from a registry in a reachable state: [GetAllPeers] lists each
    registered peer exactly once, and [GetConnectedPeers] the connected ones among
    them, in the same order. *)
Theorem GetAllPeers_enumerates (it : UnorderedIter) pm :
  pm_inv pm →
  ∃ l, GetAllPeers pm = (Ok l, pm) ∧ NoDup (map pi_id l) ∧
    (∀ p, p ∈ l ↔ GetPeer (pi_id p) pm = (Ok (Some p), pm)) ∧
    GetConnectedPeers pm = (Ok (filter (λ p, pi_isConnected p = true) l), pm).
Proof. apply GetAllPeers_lists. Qed.

Lemma GetAllPeers_enumerates_witness :
  ∃ l, @GetAllPeers reverse_order (mkPM false test_peers (mkPeer "" "" None [] false 0)) =
    (Ok l, mkPM false test_peers (mkPeer "" "" None [] false 0)).
Proof.
  destruct (GetAllPeers_enumerates reverse_order (mkPM false test_peers (mkPeer "" "" None [] false 0)))
    as (l & E & _).
  - split; [reflexivity|..]; apply (bool_decide_unpack _); vm_compute; exact I.
  - exists l. exact E.
Defined.
