(* ===== verification/PeerFile.v ===== *)
(** The peer file of [PeerManager::SavePeersToFile] and [LoadPeersFromFile]: what a
    save followed by a load keeps, what it loses, and how a malformed file fails. *)

From Stdlib Require Import Strings.Ascii.
From S2P Require Import Prelude CxxText PeerManager.

(** ** The peers a file can carry *)

(** Neither text field holds a separator, and the port has been written. *)
Definition storable (p : PeerInfo) : Prop :=
  string_has bar (pi_id p) = false ∧ string_has newline (pi_id p) = false ∧
  string_has bar (pi_address p) = false ∧ string_has newline (pi_address p) = false ∧
  pi_port p ≠ None ∧ port_ok (pi_port p) = true.

#[export] Instance storable_dec p : Decision (storable p).
Proof. apply _. Defined.

Definition has_key (p : PeerInfo) : bool :=
  match pi_publicKey p with [] => false | _ => true end.

(** The record a load makes of a saved peer: offline, and seen when it was read. *)
Definition reloaded (now : Z) (p : PeerInfo) : PeerInfo :=
  mkPeer (pi_id p) (pi_address p) (pi_port p) (pi_publicKey p) false now.

(** The line of a peer, without its line feed. *)
Definition peer_line (p : PeerInfo) : string :=
  pi_id p +:+ String bar (pi_address p +:+ String bar
    (to_string (default 0 (pi_port p)) +:+ String bar (hex_string (pi_publicKey p)))).

(** * Lemmas *)

Lemma storable_port p : storable p → ∃ n, pi_port p = Some n ∧ 0 <= n < 2 ^ 16.
Proof.
  intros (_ & _ & _ & _ & Hne & Hok). destruct (pi_port p) as [n|]; [|done].
  exists n. cbn in Hok. rewrite andb_true_iff, Z.leb_le, Z.ltb_lt in Hok. done.
Qed.

Lemma string_cons_app c a b : String c a +:+ b = String c (a +:+ b).
Proof. done. Qed.
Lemma bar_app a : "|" +:+ a = String bar a.
Proof. done. Qed.

Lemma write_peer_line p :
  pi_port p ≠ None → write_peer p = Ok (peer_line p +:+ String newline "").
Proof.
  intros Hp. unfold write_peer, peer_line. destruct (pi_port p) as [n|]; [|done].
  st_simpl. f_equal. by rewrite !string_app_assoc, !bar_app, !string_cons_app, !string_app_assoc,
    !string_cons_app, !string_app_assoc.
Qed.

Lemma peer_line_has_newline p : storable p → string_has newline (peer_line p) = false.
Proof.
  intros Hs. destruct (storable_port p Hs) as (n & Hp & Hn).
  destruct Hs as (_ & Hid & _ & Haddr & _). unfold peer_line. rewrite Hp. change (default 0 (Some n)) with n.
  rewrite !string_has_app. cbn [string_has].
  rewrite !string_has_app. cbn [string_has].
  rewrite !string_has_app. cbn [string_has].
  rewrite Hid, Haddr, (to_string_has n newline); [|lia|by do 2 constructor].
  by rewrite (proj2 (hex_string_has _)).
Qed.

Lemma parse_hex_string l : parse_hex (hex_string l) = Ok l.
Proof.
  induction l as [|b l IH]; [done|]. cbn [hex_string foldr].
  destruct (hex2_spec b) as (Hlen & Hv & _ & _).
  destruct (hex2 b) as [|a [|c [|? ?]]]; try done.
  rewrite !string_cons_app. cbn [parse_hex].
  rewrite Hv. st_simpl.
  change ("" +:+ foldr (λ b s, hex2 b +:+ s) "" l) with (hex_string l).
  rewrite IH. cbn. by rewrite byte_of_Z_of_byte.
Qed.

Lemma hex_string_empty l : hex_string l = "" → l = [].
Proof.
  destruct l as [|b l]; [done|]. cbn [hex_string foldr].
  destruct (hex2_spec b) as (Hlen & _). by destruct (hex2 b).
Qed.

Lemma parse_fields_line p :
  storable p →
  parse_fields (peer_line p) =
    if has_key p
    then Some (pi_id p, pi_address p, to_string (default 0 (pi_port p)), hex_string (pi_publicKey p))
    else None.
Proof.
  intros Hs. destruct (storable_port p Hs) as (n & Hp & Hn).
  destruct Hs as (Hid & _ & Haddr & _). unfold parse_fields, peer_line. rewrite Hp. change (default 0 (Some n)) with n.
  rewrite getline_token by done. rewrite getline_token by done.
  rewrite getline_token by (apply to_string_has; [lia|constructor]).
  unfold has_key. destruct (pi_publicKey p) as [|b l]; [done|].
  rewrite getline_last; [done|apply hex_string_has|]. by intros ?%hex_string_empty.
Qed.

Lemma load_line_peer now p pm :
  storable p →
  load_line now (peer_line p) pm =
    (Ok tt, if has_key p then set_peers (<[pi_id p := reloaded now p]> (peers_ pm)) pm else pm).
Proof.
  intros Hs. unfold load_line. rewrite parse_fields_line by done.
  destruct (has_key p); [|done]. destruct (storable_port p Hs) as (n & Hp & Hn).
  unfold reloaded. rewrite Hp. change (default 0 (Some n)) with n. st_simpl.
  rewrite stoul_to_string by lia. rewrite parse_hex_string.
  cbn. unfold u16. rewrite Z.mod_small by done. done.
Qed.

(** The written file, and the lines a load cuts it into. *)
Lemma write_peers_lines (l : list (string * PeerInfo)) :
  Forall storable l.*2 →
  ∃ content, write_peers l = Ok content ∧ getlines newline content = map peer_line l.*2.
Proof.
  induction l as [|[k p] l IH]; intros Hl; [by exists ""|].
  apply Forall_cons in Hl as [Hp Hl]. destruct (IH Hl) as (rest & Ew & El).
  exists (peer_line p +:+ String newline "" +:+ rest). split.
  - cbn [write_peers]. rewrite write_peer_line by apply Hp.
    st_simpl. rewrite Ew. cbn. f_equal. by rewrite string_app_assoc.
  - rewrite string_cons_app. change ("" +:+ rest) with rest.
    rewrite getlines_cons by (by apply peer_line_has_newline). by rewrite El.
Qed.

(** Loading the lines of distinct peers. *)
Lemma load_lines_spec now (l : list PeerInfo) n pm :
  Forall storable l → NoDup (map pi_id l) →
  ∃ pm', st_for (imap (λ i line, ((n + i)%nat, line)) (map peer_line l))
                (λ '(i, line), load_line (now i) line) pm = (Ok tt, pm') ∧
    mutex_ pm' = mutex_ pm ∧
    (∀ p, p ∈ l → has_key p = true → ∃ i, peers_ pm' !! pi_id p = Some (reloaded (now i) p)) ∧
    (∀ k, (∀ p, p ∈ l → pi_id p = k → has_key p = false) → peers_ pm' !! k = peers_ pm !! k).
Proof.
  revert n pm. induction l as [|p l IH]; intros n pm Hl Hnd.
  { exists pm. cbn. split_and!; try done. by intros p Hp%elem_of_nil. }
  apply Forall_cons in Hl as [Hp Hl]. apply NoDup_cons in Hnd as [Hnin Hnd].
  set (pm1 := if has_key p then set_peers (<[pi_id p := reloaded (now (n + 0)%nat) p]> (peers_ pm)) pm else pm).
  destruct (IH (S n) pm1 Hl Hnd) as (pm' & E & Hm & Hin & Hout).
  assert (Hfresh : ∀ q, q ∈ l → pi_id q ≠ pi_id p).
  { intros q Hq Heq. apply Hnin. rewrite <- Heq. apply list_elem_of_fmap. eauto. }
  exists pm'. cbn [map imap st_for]. split_and!.
  - erewrite st_bind_Ok by (by apply load_line_peer). fold pm1. rewrite <- E.
    f_equal. apply imap_ext. intros i x _. cbn. do 2 f_equal. lia.
  - rewrite Hm. unfold pm1. by destruct (has_key p).
  - intros q [->|Hq]%elem_of_cons Hk; [|by apply Hin].
    exists (n + 0)%nat. rewrite Hout.
    + unfold pm1. rewrite Hk. cbn. apply lookup_insert_eq.
    + intros r Hr Heq. by destruct (Hfresh r Hr).
  - intros k Hk. rewrite Hout by (intros q Hq; apply Hk; apply elem_of_cons; by right).
    unfold pm1. destruct (has_key p) eqn:Hkey; [|done]. cbn. rewrite lookup_insert_ne; [done|].
    intros <-. rewrite (Hk p) in Hkey; [done|apply elem_of_cons; by left|done].
Qed.

(** ** Properties *)

Lemma save_then_load (it : UnorderedIter) (now : Clock) pm pm0 :
  pm_inv pm → map_Forall (λ _ p, storable p) (peers_ pm) → mutex_ pm0 = false →
  ∃ content pm1,
    SavePeersToFile true pm = (Ok (Some content), pm) ∧
    LoadPeersFromFile now (Some content) pm0 = (Ok tt, pm1) ∧
    (∀ k p, peers_ pm !! k = Some p → has_key p = true →
       ∃ i, peers_ pm1 !! k = Some (reloaded (now i) p)) ∧
    (∀ k, from_option has_key false (peers_ pm !! k) = false →
       peers_ pm1 !! k = peers_ pm0 !! k).
Proof.
  intros Hinv Hst Hf0. pose proof (inv_keys _ Hinv) as Hkeys.
  assert (Forall storable (iter (peers_ pm)).*2) as Hall.
  { apply Forall_fmap, Forall_forall. intros [k p] Hp%iter_elem. by apply (Hst k). }
  destruct (write_peers_lines _ Hall) as (content & Ew & El).
  destruct (GetAllPeers_lists it pm Hinv) as (l & Ea & Hnd & Hin & _).
  rewrite GetAllPeers_run in Ea by apply Hinv. injection Ea as <-.
  destruct (load_lines_spec now _ 0 (set_locked true pm0) Hall Hnd)
    as (pm' & E & Hm & Hload & Hkeep).
  exists content, (set_locked false pm'). split_and!.
  - rewrite SavePeersToFile_run by apply Hinv. by rewrite Ew.
  - unfold LoadPeersFromFile. apply lock_guard_run; [done| |done]. rewrite El. exact E.
  - intros k p Hp Hk. rewrite <- (Hkeys k p Hp). apply Hload; [|done].
    apply list_elem_of_fmap. exists (k, p). split; [done|]. by apply iter_elem.
  - intros k Hk. cbn. rewrite Hkeep; [done|].
    intros p ([j q] & -> & Hq%iter_elem)%list_elem_of_fmap Heq. cbn in *.
    rewrite (Hkeys j q Hq) in Heq. subst j. by rewrite Hq in Hk.
Qed.

(** C2. Round trip, for registries in which every peer is storable: its port has been
    written, and neither its id nor its address holds a [|] or a line feed. Saving
    such a registry and loading the file into any other gives, for each saved peer
    that has a public key, its id, address, port and key, marked offline and seen at
    load time; every other entry of the loading registry is as before. A peer without
    a public key does not survive: its line ends after the third separator and the
    loader skips it. The code does not check the condition: an id comes from the wire
    as it is, and [line_feed_forges_peer] shows what an id with line feeds does. *)
Theorem save_load_roundtrip (it : UnorderedIter) (now : Clock) pm pm0 :
  pm_inv pm → map_Forall (λ _ p, storable p) (peers_ pm) → mutex_ pm0 = false →
  ∃ content pm1,
    SavePeersToFile true pm = (Ok (Some content), pm) ∧
    LoadPeersFromFile now (Some content) pm0 = (Ok tt, pm1) ∧
    (∀ k p, peers_ pm !! k = Some p → has_key p = true →
       ∃ i, peers_ pm1 !! k = Some (reloaded (now i) p)) ∧
    (∀ k, from_option has_key false (peers_ pm !! k) = false →
       peers_ pm1 !! k = peers_ pm0 !! k).
Proof. apply save_then_load. Qed.

Lemma save_load_roundtrip_witness :
  ∃ content pm1,
    @SavePeersToFile reverse_order true (mkPM false test_peers (mkPeer "" "" None [] false 0))
      = (Ok (Some content), mkPM false test_peers (mkPeer "" "" None [] false 0)) ∧
    LoadPeersFromFile (λ _, 9) (Some content) (PeerManager_new false) = (Ok tt, pm1).
Proof.
  destruct (save_load_roundtrip reverse_order (λ _, 9)
              (mkPM false test_peers (mkPeer "" "" None [] false 0)) (PeerManager_new false))
    as (content & pm1 & H1 & H2 & _).
  - split; [reflexivity|..]; apply (bool_decide_unpack _); vm_compute; exact I.
  - apply (bool_decide_unpack _). vm_compute. exact I.
  - reflexivity.
  - exists content, pm1. split; [exact H1|exact H2].
Defined.

(** An id that carries the line of another peer. *)
Definition forging_id (q : PeerInfo) (id : string) : string :=
  String newline (peer_line q +:+ String newline id).

(** Without the condition a save and a load can make peers: from a registry whose only
    peer announced an id with line feeds, the load makes the peer [q] that the id
    spells out, with its key and address, though the registry never had it. *)
Theorem line_feed_forges_peer (it : UnorderedIter) (now : Clock) q p flag lp :
  storable q → has_key q = true → storable p → has_key p = false →
  let id := forging_id q (pi_id p) in
  let pm := mkPM false {[ id := mkPeer id (pi_address p) (pi_port p) [] (pi_isConnected p) (pi_lastSeen p) ]} lp in
  peers_ pm !! pi_id q = None ∧
  ∃ content pm1,
    SavePeersToFile true pm = (Ok (Some content), pm) ∧
    LoadPeersFromFile now (Some content) (PeerManager_new flag) = (Ok tt, pm1) ∧
    peers_ pm1 !! pi_id q = Some (reloaded (now 1%nat) q).
Proof.
  intros Hq Hkq Hp Hkp id pm. set (e := mkPeer id _ _ _ _ _) in pm.
  assert (peer_line e = String newline (peer_line q +:+ String newline (peer_line p))) as Eline.
  { unfold peer_line at 1. cbn [pi_id pi_address pi_port pi_publicKey e]. unfold id, forging_id.
    unfold has_key in Hkp. assert (pi_publicKey p = []) as Ek by by destruct (pi_publicKey p).
    unfold peer_line at 3. rewrite Ek. by rewrite string_cons_app, string_app_assoc, string_cons_app. }
  split.
  { change (({[ id := e ]} : gmap string PeerInfo) !! pi_id q = None). apply lookup_singleton_ne. intros E. destruct Hq as (_ & Hn & _). rewrite <- E in Hn.
    unfold id, forging_id in Hn. cbn [string_has] in Hn. by rewrite bool_decide_eq_true_2 in Hn. }
  assert (iter (peers_ pm) = [(id, e)]) as Eiter.
  { apply Permutation_singleton_r. rewrite iter_perm. change (peers_ pm) with ({[ id := e ]} : gmap string PeerInfo).
    by rewrite map_to_list_singleton. }
  exists (peer_line e +:+ String newline "").
  eexists. split; [|split].
  - rewrite SavePeersToFile_run by done. rewrite Eiter. cbn [write_peers].
    rewrite write_peer_line by (cbn; apply Hp). st_simpl. by rewrite string_app_nil_r.
  - unfold LoadPeersFromFile. eapply lock_guard_run; [done| |done].
    change (peer_line e +:+ String newline "") with (peer_line e +:+ String newline ("" +:+ "")).
    rewrite Eline. rewrite string_cons_app.
    change (String newline ?x) with ("" +:+ String newline x) at 1.
    rewrite getlines_cons by done. rewrite string_app_assoc, string_cons_app.
    rewrite getlines_cons by (by apply peer_line_has_newline).
    rewrite getlines_cons by (by apply peer_line_has_newline). cbn [imap st_for getlines].
    erewrite st_bind_Ok by reflexivity.
    erewrite st_bind_Ok by (by apply load_line_peer). rewrite Hkq.
    erewrite st_bind_Ok by (by apply load_line_peer). rewrite Hkp. reflexivity.
  - cbn. apply lookup_insert_eq.
Qed.

Lemma line_feed_forges_peer_witness :
  let alice := mkPeer "alice" "6.6.6.6" (Some 1) [Byte.xff] true 0 in
  ∃ content, LoadPeersFromFile (λ _, 9) (Some content) (PeerManager_new false) =
    (Ok tt, mkPM false {[ "alice" := reloaded 9 alice ]} (mkPeer "" "" None [] false 0)).
Proof.
  intros alice.
  destruct (line_feed_forges_peer tree_order (λ _, 9) alice (mkPeer "x" "h" (Some 80) [] true 0) false
    (mkPeer "" "" None [] false 0)) as (_ & content & pm1 & Es & El & _);
    [apply (bool_decide_unpack _); vm_compute; exact I|reflexivity|
     apply (bool_decide_unpack _); vm_compute; exact I|reflexivity|].
  exists content. rewrite El. vm_compute in Es. injection Es as <-. vm_compute in El. injection El as <-.
  reflexivity.
Defined.

Lemma write_peers_defined (l : list (string * PeerInfo)) :
  is_Undefined (write_peers l) = false ↔ Forall (λ p, pi_port p ≠ None) l.*2.
Proof.
  induction l as [|[k p] l IH]; [done|]. rewrite fmap_cons, Forall_cons. cbn [write_peers snd].
  unfold write_peer at 1, show_port. destruct (pi_port p) as [n|]; st_simpl.
  - rewrite <- IH. transitivity (is_Undefined (write_peers l) = false);
      [by destruct (write_peers l)|]. split; [by split|by intros [_ ?]].
  - split; [done|]. by intros [? _].
Qed.

Lemma SavePeersToFile_defined (it : UnorderedIter) pm :
  mutex_ pm = false →
  (is_Undefined (SavePeersToFile true pm).1 = false ↔
     map_Forall (λ _ p, pi_port p ≠ None) (peers_ pm)) ∧
  (is_Undefined (SavePeersToFile true pm).1 = false → (SavePeersToFile true pm).2 = pm).
Proof.
  intros Hf. rewrite SavePeersToFile_run by done.
  assert (is_Undefined (write_peers (iter (peers_ pm))) = false ↔
          map_Forall (λ _ p, pi_port p ≠ None) (peers_ pm)) as Hiff.
  { rewrite write_peers_defined, Forall_fmap, Forall_forall. split.
    - intros Hl k p Hp. apply (Hl (k, p)). by apply iter_elem.
    - intros Hm [k p] Hp%iter_elem. by apply (Hm k). }
  rewrite <- Hiff. by destruct (write_peers (iter (peers_ pm))).
Qed.

(** Saving reads every port: it is defined exactly when no registered peer has an
    uninitialised one, and then it changes nothing in the registry. *)
Theorem SavePeersToFile_defined_iff (it : UnorderedIter) pm :
  mutex_ pm = false →
  (is_Undefined (SavePeersToFile true pm).1 = false ↔
     map_Forall (λ _ p, pi_port p ≠ None) (peers_ pm)) ∧
  (is_Undefined (SavePeersToFile true pm).1 = false → (SavePeersToFile true pm).2 = pm).
Proof. apply SavePeersToFile_defined. Qed.

Definition portless : PeerManager :=
  mkPM false {[ "x" := mkPeer "x" "" None [] true 0 ]} (mkPeer "" "" None [] false 0).

Lemma SavePeersToFile_defined_iff_witness :
  is_Undefined (@SavePeersToFile tree_order true portless).1 ≠ false.
Proof.
  intros E. destruct (SavePeersToFile_defined_iff tree_order portless eq_refl) as [[H _] _].
  by destruct (H E "x" (mkPeer "x" "" None [] true 0)).
Defined.

Definition unlines (ls : list string) : string :=
  foldr (λ l s, l +:+ String newline s) "" ls.

Lemma getlines_unlines ls s :
  Forall (λ l, string_has newline l = false) ls →
  getlines newline (unlines ls +:+ s) = ls ++ getlines newline s.
Proof.
  induction 1 as [|l ls Hl _ IH]; [done|]. cbn [unlines foldr].
  rewrite string_app_assoc, string_cons_app, getlines_cons by done.
  change (foldr _ "" ls) with (unlines ls). by rewrite IH.
Qed.

(** The exception a line raises, if any. *)
Definition line_error (line : string) : option exn :=
  match parse_fields line with
  | None => None
  | Some (_, _, portStr, keyHex) =>
    match stoul 10 portStr with
    | Throw e => Some e
    | _ => match parse_hex keyHex with Throw e => Some e | _ => None end
    end
  end.

Lemma load_line_error now line pm e :
  line_error line = Some e → load_line now line pm = (Throw e, pm).
Proof.
  unfold line_error, load_line.
  destruct (parse_fields line) as [[[[id address] portStr] keyHex]|]; [|done].
  pose proof (stoul_defined 10 portStr). st_simpl.
  destruct (stoul 10 portStr); [|by intros [= <-]|done].
  by destruct (parse_hex keyHex); [|intros [= <-]|].
Qed.

(** A malformed line stops the load where it stands: its exception leaves
    [LoadPeersFromFile] with every earlier line already merged, nothing of the
    later ones, and the mutex free. *)
Theorem LoadPeersFromFile_stops_at_error (now : Clock) good bad rest e pm pm1 :
  mutex_ pm = false →
  Forall (λ l, string_has newline l = false) (good ++ [bad]) →
  LoadPeersFromFile now (Some (unlines good)) pm = (Ok tt, pm1) →
  line_error bad = Some e →
  LoadPeersFromFile now (Some (unlines good +:+ bad +:+ String newline rest)) pm = (Throw e, pm1).
Proof.
  intros Hf [Hgl Hbl]%Forall_app Hgood Hbad. apply Forall_inv in Hbl.
  unfold LoadPeersFromFile, lock_guard in *. cbn [locked PeerManager_Mutex] in *.
  rewrite Hf in *. rewrite <- (string_app_nil_r (unlines good)) in Hgood.
  rewrite getlines_unlines in Hgood |- * by done. cbn [getlines] in Hgood.
  rewrite app_nil_r in Hgood. rewrite getlines_cons by done.
  rewrite imap_app, st_for_app.
  destruct (st_for (imap pair good) _ (set_locked true pm)) as [[[]| |] s] eqn:E;
    cbn in Hgood; [|done..]. injection Hgood as <-.
  erewrite st_bind_Ok by exact E. cbn [imap st_for].
  by erewrite st_bind_Throw by (by apply load_line_error).
Qed.

Lemma LoadPeersFromFile_stops_at_error_witness :
  LoadPeersFromFile (λ _, 3) (Some ("a|h|80|01" +:+ String newline ("b|h|port|02" +:+ String newline "c|h|81|03")))
    (PeerManager_new false)
  = (Throw invalid_argument, set_peers {[ "a" := mkPeer "a" "h" (Some 80) [Byte.x01] false 3 ]} (PeerManager_new false)).
Proof.
  apply (LoadPeersFromFile_stops_at_error (λ _, 3) ["a|h|80|01"] "b|h|port|02" "c|h|81|03" invalid_argument
           (PeerManager_new false)); [reflexivity|by repeat constructor|reflexivity|reflexivity].
Defined.
