(* ===== verification/PeerThreads.v ===== *)
(** Threads that share a registry. The worker threads of the network manager, the
    input thread and [main] call the same [PeerManager]; here each member function
    of [Source/PeerManager.cpp] but the two of the peer file is the sequence of its
    accesses to the fields, a thread runs one access at a time, and the mutex decides
    who may. [GetLocalPeer] returns a reference; its accesses are those of the copy
    its callers make. *)

From S2P Require Import Prelude CxxText Message PeerManager.

(** ** Accesses *)

(** The members of [PeerInfo], in the order its assignment copies them. *)
Inductive field := FId | FAddress | FPort | FKey | FConnected | FSeen.
Definition fields : list field := [FId; FAddress; FPort; FKey; FConnected; FSeen].

Definition copy_field (f : field) (src dst : PeerInfo) : PeerInfo :=
  match f with
  | FId => mkPeer (pi_id src) (pi_address dst) (pi_port dst) (pi_publicKey dst) (pi_isConnected dst) (pi_lastSeen dst)
  | FAddress => mkPeer (pi_id dst) (pi_address src) (pi_port dst) (pi_publicKey dst) (pi_isConnected dst) (pi_lastSeen dst)
  | FPort => mkPeer (pi_id dst) (pi_address dst) (pi_port src) (pi_publicKey dst) (pi_isConnected dst) (pi_lastSeen dst)
  | FKey => mkPeer (pi_id dst) (pi_address dst) (pi_port dst) (pi_publicKey src) (pi_isConnected dst) (pi_lastSeen dst)
  | FConnected => mkPeer (pi_id dst) (pi_address dst) (pi_port dst) (pi_publicKey dst) (pi_isConnected src) (pi_lastSeen dst)
  | FSeen => mkPeer (pi_id dst) (pi_address dst) (pi_port dst) (pi_publicKey dst) (pi_isConnected dst) (pi_lastSeen src)
  end.

Inductive access :=
  | PutPeer (p : PeerInfo)                   (** [peers_[peer.id] = peer] *)
  | ErasePeer (id : string)                  (** [peers_.erase(peerId)] *)
  | WriteConnected (id : string) (b : bool)  (** [it->second.isConnected = connected] *)
  | WriteSeen (id : string) (t : Z)          (** [it->second.lastSeen = now()] *)
  | WriteLocal (f : field) (p : PeerInfo)    (** one member of [localPeer_ = localPeer] *)
  | ReadLocal (f : field)                    (** one member of [return localPeer_] *)
  | ReadPeer (id : string)                   (** [return it->second] *)
  | ReadPeers (it : UnorderedIter) (connected_only : bool).  (** the loop of the two listings *)

(** An access acts on the registry and on what the call will return. *)
Definition perform (a : access) (s : PeerManager * list PeerInfo) : PeerManager * list PeerInfo :=
  let '(pm, out) := s in
  match a with
  | PutPeer p => (set_peers (<[pi_id p := p]> (peers_ pm)) pm, out)
  | ErasePeer id => (set_peers (delete id (peers_ pm)) pm, out)
  | WriteConnected id b =>
    (set_peers (alter (λ p, set_status b (pi_lastSeen p) p) id (peers_ pm)) pm, out)
  | WriteSeen id t =>
    (set_peers (alter (λ p, set_status (pi_isConnected p) t p) id (peers_ pm)) pm, out)
  | WriteLocal f p => (mkPM (mutex_ pm) (peers_ pm) (copy_field f p (localPeer_ pm)), out)
  | ReadLocal f => (pm, map (copy_field f (localPeer_ pm)) out)
  | ReadPeer id => (pm, out ++ option_list (peers_ pm !! id))
  | ReadPeers it connected_only =>
    (pm, out ++ filter (λ p, connected_only = true → pi_isConnected p = true) (iter (peers_ pm)).*2)
  end.

(** ** Calls *)

Inductive call :=
  | CallAddPeer (p : PeerInfo)
  | CallRemovePeer (id : string)
  | CallUpdatePeerStatus (now : Z) (id : string) (connected : bool)
  | CallSetLocalPeer (p : PeerInfo)
  | CallGetPeer (id : string)
  | CallGetAllPeers (it : UnorderedIter)
  | CallGetConnectedPeers (it : UnorderedIter)
  | CallGetLocalPeer.

(** ** Bodies *)

(** A statement of a member function: the two ends of the scope of its [lock_guard], and
    the accesses. *)
Inductive instr := Lock | Unlock | Do (a : access).

(** A scope that opens with [std::lock_guard<std::mutex> lock(mutex_)]. *)
Definition guarded (l : list access) : list instr := Lock :: map Do l ++ [Unlock].

Definition body (c : call) : list instr :=
  match c with
  | CallAddPeer p => guarded [PutPeer p]
  | CallRemovePeer id => guarded [ErasePeer id]
  | CallUpdatePeerStatus now id connected => guarded [WriteConnected id connected; WriteSeen id now]
  | CallSetLocalPeer p => guarded (map (λ f, WriteLocal f p) fields)
  | CallGetPeer id => guarded [ReadPeer id]
  | CallGetAllPeers it => guarded [ReadPeers it false]
  | CallGetConnectedPeers it => guarded [ReadPeers it true]
  | CallGetLocalPeer => map (λ f, Do (ReadLocal f)) fields
  end.

(** What a call starts from: the record [GetLocalPeer] copies into. *)
Definition blank : PeerInfo := mkPeer "" "" None [] false 0.
Definition initial_result (c : call) : list PeerInfo :=
  match c with CallGetLocalPeer => [blank] | _ => [] end.

(** The member function itself, with its result as a list. *)
Definition run_member (c : call) : stM PeerManager (list PeerInfo) :=
  match c with
  | CallAddPeer p => AddPeer p;; mret []
  | CallRemovePeer id => RemovePeer id;; mret []
  | CallUpdatePeerStatus now id connected => UpdatePeerStatus now id connected;; mret []
  | CallSetLocalPeer p => SetLocalPeer p;; mret []
  | CallGetPeer id => p ← GetPeer id; mret (option_list p)
  | CallGetAllPeers it => GetAllPeers
  | CallGetConnectedPeers it => GetConnectedPeers
  | CallGetLocalPeer => p ← GetLocalPeer; mret [p]
  end.

(** ** Threads *)

Record thread := mkThread {
  todo : list call;
  doing : option (call * list instr * list PeerInfo);   (** the rest of a call, and its result so far *)
  results : list (call * list PeerInfo)
}.

Record shared := mkShared {
  registry : PeerManager;
  owner : option nat;          (** the thread that holds [mutex_] *)
  threads : list thread
}.

(** Thread [i] makes one step. It waits for a mutex that is held, by itself too; without
    a mutex of its own to release it goes no further. *)
Definition advance (s : shared) (i : nat) : option shared :=
  match threads s !! i with
  | Some (mkThread (c :: cs) None rs) =>
    Some (mkShared (registry s) (owner s)
      (<[i := mkThread cs (Some (c, body c, initial_result c)) rs]> (threads s)))
  | Some (mkThread cs (Some (c, [], out)) rs) =>
    Some (mkShared (registry s) (owner s) (<[i := mkThread cs None (rs ++ [(c, out)])]> (threads s)))
  | Some (mkThread cs (Some (c, Lock :: rest, out)) rs) =>
    if decide (owner s = None)
    then Some (mkShared (registry s) (Some i) (<[i := mkThread cs (Some (c, rest, out)) rs]> (threads s)))
    else None
  | Some (mkThread cs (Some (c, Unlock :: rest, out)) rs) =>
    if decide (owner s = Some i)
    then Some (mkShared (registry s) None (<[i := mkThread cs (Some (c, rest, out)) rs]> (threads s)))
    else None
  | Some (mkThread cs (Some (c, Do a :: rest, out)) rs) =>
    let '(pm, out') := perform a (registry s, out) in
    Some (mkShared pm (owner s) (<[i := mkThread cs (Some (c, rest, out')) rs]> (threads s)))
  | _ => None
  end.

Inductive thread_step (s s' : shared) : Prop :=
  | thread_advances i : advance s i = Some s' → thread_step s s'.

Fixpoint schedule (l : list nat) (s : shared) : option shared :=
  match l with
  | [] => Some s
  | i :: l => s' ← advance s i; schedule l s'
  end.

(** Threads about to start on a registry whose mutex is free. *)
Definition starting (pm : PeerManager) (programs : list (list call)) : shared :=
  mkShared pm None (map (λ cs, mkThread cs None []) programs).

(** ** The specification

    A call is one step. What it does to the registry and what it answers is the
    relation [answer]. *)
Section Specification.
Variable answer : call → PeerManager → list PeerInfo → PeerManager → Prop.

Inductive atomic_step (s : shared) : shared → Prop :=
  | call_atomic i c cs rs out pm :
      threads s !! i = Some (mkThread (c :: cs) None rs) →
      answer c (registry s) out pm →
      atomic_step s (mkShared pm (owner s)
        (<[i := mkThread cs None (rs ++ [(c, out)])]> (threads s))).
End Specification.

(** The member function answers. *)
Definition member_answer (c : call) (pm : PeerManager) (out : list PeerInfo) (pm' : PeerManager) : Prop :=
  run_member c pm = (Ok out, pm').

(** Each member of [p] is that of one of [locals]. *)
Definition made_of (locals : list PeerInfo) (p : PeerInfo) : Prop :=
  ∀ f, ∃ q, q ∈ locals ∧ copy_field f q p = p.

(** The same, but that [GetLocalPeer] answers some mixture of [locals]. *)
Inductive loose_answer (locals : list PeerInfo) : call → PeerManager → list PeerInfo → PeerManager → Prop :=
  | answer_member c pm out pm' :
      c ≠ CallGetLocalPeer → member_answer c pm out pm' → loose_answer locals c pm out pm'
  | answer_mixture p pm : made_of locals p → loose_answer locals CallGetLocalPeer pm [p] pm.

(** The records that are ever the local peer. *)
Definition set_local (c : call) : option PeerInfo :=
  match c with CallSetLocalPeer p => Some p | _ => None end.
Definition local_records (pm : PeerManager) (programs : list (list call)) : list PeerInfo :=
  localPeer_ pm :: omap set_local (mjoin programs).

(** What a run of whole calls that ended in [a] says of a run that is at [s]: each
    thread has the results it has in [a] so far, and all of them between its calls;
    the registry is that of [a] while nobody holds the mutex. *)
Definition agrees (s a : shared) : Prop :=
  (∀ i t, threads s !! i = Some t → ∃ t', threads a !! i = Some t' ∧
     results t `prefix_of` results t' ∧ (doing t = None → t = t')) ∧
  (owner s = None → registry s = registry a).

(** * Lemmas *)

Lemma schedule_steps l s s' : schedule l s = Some s' → nsteps thread_step (length l) s s'.
Proof.
  revert s. induction l as [|i l IH]; intros s; cbn; [intros [= ->]; constructor|].
  destruct (advance s i) as [s1|] eqn:E; cbn; [|done].
  intros Hl. eapply nsteps_l; [by eexists|by apply IH].
Qed.

Definition perform_all (l : list access) (s : PeerManager * list PeerInfo) :=
  foldl (λ s a, perform a s) s l.

Lemma perform_mutex a pm out : mutex_ (perform a (pm, out)).1 = mutex_ pm.
Proof. by destruct a. Qed.

(** The accesses of a call. *)
Definition accesses (c : call) : list access :=
  omap (λ i, match i with Do a => Some a | _ => None end) (body c).

(** A call that is not [GetLocalPeer] is its accesses in a scope of the mutex. *)
Lemma body_guarded c : c ≠ CallGetLocalPeer → body c = guarded (accesses c).
Proof. by destruct c. Qed.

(** The accesses of a call, one after the other, are the member function. *)
Lemma run_member_accesses c pm :
  mutex_ pm = false →
  run_member c pm = (Ok (perform_all (accesses c) (pm, initial_result c)).2,
                     (perform_all (accesses c) (pm, initial_result c)).1).
Proof.
  intros Hf. destruct c as [p|id|now id b|p|id|it|it|]; cbn [run_member];
    unfold mbind, stM_bind.
  - by erewrite st_bind_Ok by (by apply AddPeer_run).
  - by erewrite st_bind_Ok by (by apply RemovePeer_run).
  - erewrite st_bind_Ok by (by apply UpdatePeerStatus_run). cbn. unfold set_peers. cbn.
    rewrite alter_alter_eq. do 4 f_equal.
  - erewrite st_bind_Ok by (by apply SetLocalPeer_run). by destruct p.
  - by erewrite st_bind_Ok by (by apply GetPeer_run).
  - rewrite GetAllPeers_run by done. cbn. do 2 f_equal. induction (iter (peers_ pm)).*2; [done|]. rewrite filter_cons_True by done. by f_equal.
  - rewrite GetConnectedPeers_run by done. cbn. do 2 f_equal.
    apply list_filter_iff. intros p. naive_solver.
  - destruct pm as [m ps [? ? ? ? ? ?]]. reflexivity.
Qed.

Lemma perform_all_app l l' s : perform_all (l ++ l') s = perform_all l' (perform_all l s).
Proof. apply foldl_app. Qed.

Lemma perform_all_mutex l pm out : mutex_ (perform_all l (pm, out)).1 = mutex_ pm.
Proof.
  revert pm out. induction l as [|a l IH]; intros pm out; [done|].
  unfold perform_all in *. cbn [foldl]. destruct (perform a (pm, out)) as [pm1 out1] eqn:E.
  rewrite IH. pose proof (perform_mutex a pm out) as Hm. by rewrite E in Hm.
Qed.

Lemma copy_field_id f p : copy_field f p p = p.
Proof. by destruct p, f. Qed.
Lemma copy_field_keeps f f' q q' p :
  copy_field f q p = p → copy_field f q (copy_field f' q' p) = copy_field f' q' p ∨ f = f'.
Proof. destruct f, f'; try (by right); intros E; left; destruct p; unfold copy_field in *; cbn in *; congruence. Qed.
Lemma copy_field_set f q p r :
  copy_field f r q = q → copy_field f r (copy_field f q p) = copy_field f q p.
Proof. destruct f, q, p; unfold copy_field; cbn; congruence. Qed.

(** The steps of [advance], by cases. *)
Inductive advances (s : shared) (i : nat) : shared → Prop :=
  | begins c cs rs : threads s !! i = Some (mkThread (c :: cs) None rs) →
      advances s i (mkShared (registry s) (owner s)
        (<[i := mkThread cs (Some (c, body c, initial_result c)) rs]> (threads s)))
  | takes c rest out cs rs : threads s !! i = Some (mkThread cs (Some (c, Lock :: rest, out)) rs) →
      owner s = None →
      advances s i (mkShared (registry s) (Some i) (<[i := mkThread cs (Some (c, rest, out)) rs]> (threads s)))
  | gives c rest out cs rs : threads s !! i = Some (mkThread cs (Some (c, Unlock :: rest, out)) rs) →
      owner s = Some i →
      advances s i (mkShared (registry s) None (<[i := mkThread cs (Some (c, rest, out)) rs]> (threads s)))
  | performs c x rest out cs rs : threads s !! i = Some (mkThread cs (Some (c, Do x :: rest, out)) rs) →
      advances s i (mkShared (perform x (registry s, out)).1 (owner s)
        (<[i := mkThread cs (Some (c, rest, (perform x (registry s, out)).2)) rs]> (threads s)))
  | returns c out cs rs : threads s !! i = Some (mkThread cs (Some (c, [], out)) rs) →
      advances s i (mkShared (registry s) (owner s) (<[i := mkThread cs None (rs ++ [(c, out)])]> (threads s))).

Lemma advance_inv s i s' : advance s i = Some s' → advances s i s'.
Proof.
  unfold advance. destruct (threads s !! i) as [[cs [[[c [|[| |x] rest]] out]|] rs]|] eqn:Ht; try done.
  - destruct cs; intros [= <-]; by apply returns.
  - destruct (decide _); destruct cs; try done; intros [= <-]; by apply takes.
  - destruct (decide _); destruct cs; try done; intros [= <-]; by apply gives.
  - intros E. pose proof (performs s i c x rest out cs rs Ht) as H.
    destruct (perform x (registry s, out)) as [pm out'].
    by destruct cs; injection E as <-.
  - destruct cs; [done|]. intros [= <-]. by apply begins.
Qed.

(** ** The run of whole calls *)

Section Simulation.
Context (locals : list PeerInfo).
Abbreviation whole_step := (atomic_step (loose_answer locals)).

(** Thread [i] in [s], and in a run of whole calls in which a call under the mutex happens
    when it gives the mutex back, and [GetLocalPeer] when it returns. *)
Inductive tracks (s a : shared) (i : nat) : thread → thread → Prop :=
  | between_calls cs rs :
      owner s ≠ Some i → tracks s a i (mkThread cs None rs) (mkThread cs None rs)
  | before_lock c cs rs :
      c ≠ CallGetLocalPeer → owner s ≠ Some i →
      tracks s a i (mkThread cs (Some (c, body c, initial_result c)) rs) (mkThread (c :: cs) None rs)
  | under_lock c past rest out cs rs :
      c ≠ CallGetLocalPeer → owner s = Some i → accesses c = past ++ rest →
      perform_all rest (registry s, out) = perform_all (accesses c) (registry a, initial_result c) →
      tracks s a i (mkThread cs (Some (c, map Do rest ++ [Unlock], out)) rs) (mkThread (c :: cs) None rs)
  | after_lock c out cs rs :
      c ≠ CallGetLocalPeer → owner s ≠ Some i →
      tracks s a i (mkThread cs (Some (c, [], out)) rs) (mkThread cs None (rs ++ [(c, out)]))
  | copying past fs p cs rs :
      owner s ≠ Some i → fields = past ++ fs →
      (∀ f, f ∈ past → ∃ q, q ∈ locals ∧ copy_field f q p = p) →
      tracks s a i (mkThread cs (Some (CallGetLocalPeer, map (λ f, Do (ReadLocal f)) fs, [p])) rs)
        (mkThread (CallGetLocalPeer :: cs) None rs).

Record refines (s a : shared) : Prop := {
  rf_threads : ∀ i, option_Forall2 (tracks s a i) (threads s !! i) (threads a !! i);
  rf_owner : ∀ i, owner s = Some i → is_Some (threads s !! i);
  rf_registry : owner s = None → registry s = registry a;
  rf_mutex : mutex_ (registry a) = false;
  rf_local : made_of locals (localPeer_ (registry s));
  rf_todo : ∀ i t p, threads a !! i = Some t → CallSetLocalPeer p ∈ todo t → p ∈ locals
}.

Lemma tracks_other s s' a a' j t t' :
  tracks s a j t t' → (owner s = Some j ↔ owner s' = Some j) →
  (owner s = Some j → registry s' = registry s ∧ registry a' = registry a) → tracks s' a' j t t'.
Proof.
  intros [] Ho Hr; try (constructor; (done || tauto)).
  - destruct (Hr ltac:(done)) as [E1 E2]. eapply under_lock; [done|tauto|done|by rewrite E1, E2].
  - eapply copying; [tauto|done..].
Qed.

(** A step of thread [i]. *)
Lemma refines_set s a i t0 t0' t t' pm o pma :
  refines s a → threads s !! i = Some t0 → threads a !! i = Some t0' →
  tracks (mkShared pm o (<[i := t]> (threads s))) (mkShared pma (owner a) (<[i := t']> (threads a))) i t t' →
  (∀ j, j ≠ i → owner s = Some j ↔ o = Some j) →
  (∀ j, j ≠ i → owner s = Some j → pm = registry s ∧ pma = registry a) →
  (o = None → pm = pma) → mutex_ pma = false → made_of locals (localPeer_ pm) →
  (∀ c, c ∈ todo t' → c ∈ todo t0') →
  refines (mkShared pm o (<[i := t]> (threads s))) (mkShared pma (owner a) (<[i := t']> (threads a))).
Proof.
  intros [Hth Hown Hreg Hm Hl Htodo] Ht Ht' Htr Ho Hr He Hma Hla Hsub. split; cbn; try done.
  - intros j. destruct (decide (i = j)) as [->|Hne].
    + rewrite !list_lookup_insert, !decide_True by (split; [done|by eapply lookup_lt_Some]).
      by constructor.
    + rewrite !list_lookup_insert_ne by done. specialize (Hth j).
      destruct Hth as [t1 t1' H|]; [|constructor]. constructor.
      eapply tracks_other; [exact H|by apply Ho|by apply Hr].
  - intros j Hj. rewrite list_lookup_insert. case_decide; [by eexists|].
    destruct (decide (i = j)) as [->|Hne]; [by eexists|]. apply Hown. by apply Ho.
  - intros j t1 p Hj Hp. rewrite list_lookup_insert in Hj. case_decide as Hij.
    + simplify_eq. destruct Hij as [<- _]. eapply Htodo; [exact Ht'|]. by apply Hsub.
    + by eapply Htodo.
Qed.

Lemma same_thread (a : shared) i t :
  threads a !! i = Some t → mkShared (registry a) (owner a) (<[i := t]> (threads a)) = a.
Proof. intros H. rewrite list_insert_id by done. by destruct a. Qed.

Lemma made_of_copy f q p :
  q ∈ locals → made_of locals p → made_of locals (copy_field f q p).
Proof.
  intros Hq Hp f'. destruct (Hp f') as (r & Hr & E).
  destruct (copy_field_keeps f' f r q p E) as [E'| ->]; [by exists r|].
  exists q. split; [done|]. apply copy_field_set, copy_field_id.
Qed.

Lemma perform_local x pm out :
  (∀ f p, x = WriteLocal f p → p ∈ locals) → made_of locals (localPeer_ pm) →
  made_of locals (localPeer_ (perform x (pm, out)).1).
Proof. intros Hx Hl. destruct x; try exact Hl. cbn. apply made_of_copy; [by eapply Hx|done]. Qed.

Lemma accesses_local c f p : WriteLocal f p ∈ accesses c → c = CallSetLocalPeer p.
Proof.
  destruct c; cbn; intros H; repeat (apply elem_of_cons in H as [H|H]; try done);
    try (by apply elem_of_nil in H); by simplify_eq.
Qed.

Lemma refines_thread s a i t :
  refines s a → threads s !! i = Some t → ∃ t', threads a !! i = Some t' ∧ tracks s a i t t'.
Proof.
  intros Hr Ht. pose proof (rf_threads _ _ Hr i) as H. rewrite Ht in H. inversion H; subst. by eexists.
Qed.

(** The places of a thread inside a call. *)
Lemma tracks_inside s a i cs c ins out rs t' :
  tracks s a i (mkThread cs (Some (c, ins, out)) rs) t' →
  (c ≠ CallGetLocalPeer ∧ owner s ≠ Some i ∧ t' = mkThread (c :: cs) None rs ∧
     ins = guarded (accesses c) ∧ out = initial_result c) ∨
  (c ≠ CallGetLocalPeer ∧ owner s = Some i ∧ t' = mkThread (c :: cs) None rs ∧
     ∃ past rest, ins = map Do rest ++ [Unlock] ∧ accesses c = past ++ rest ∧
       perform_all rest (registry s, out) = perform_all (accesses c) (registry a, initial_result c)) ∨
  (c ≠ CallGetLocalPeer ∧ owner s ≠ Some i ∧ t' = mkThread cs None (rs ++ [(c, out)]) ∧ ins = []) ∨
  (c = CallGetLocalPeer ∧ owner s ≠ Some i ∧ t' = mkThread (c :: cs) None rs ∧
     ∃ past fs p, ins = map (λ f, Do (ReadLocal f)) fs ∧ out = [p] ∧ fields = past ++ fs ∧
       ∀ f, f ∈ past → ∃ q, q ∈ locals ∧ copy_field f q p = p).
Proof.
  inversion 1; subst.
  - left. split_and!; [done..|by apply body_guarded|done].
  - right; left. split_and!; [done..|]. by do 2 eexists.
  - right; right; left. by split_and!.
  - right; right; right. split_and!; [done..|]. by do 3 eexists.
Qed.

End Simulation.

(** The places where thread [i] can be, given what it is about to do. *)
Ltac inside Hr Ht :=
  let Htr := fresh "Htr" in
  pose proof Ht as Htr; eapply refines_thread in Htr as (?t' & Ht' & Htr); [|exact Hr];
  apply tracks_inside in Htr
    as [(Hc & Hi & -> & Hins & Hout)|[(Hc & Hi & -> & past & [|y ys] & Hins & Hacc & Hp)|
       [(Hc & Hi & -> & Hins)|(Hc & Hi & -> & past & [|f fs] & p & Hins & Hout & Hf & Hcopied)]]];
  try done.

Section Steps.
Context (locals : list PeerInfo).
Abbreviation whole_step := (atomic_step (loose_answer locals)).
Abbreviation refines := (refines locals).

(** A step that whole calls do not see. *)
Lemma refines_silent s a i t0 t0' t pm o :
  refines s a → threads s !! i = Some t0 → threads a !! i = Some t0' →
  tracks locals (mkShared pm o (<[i := t]> (threads s))) a i t t0' →
  (∀ j, j ≠ i → owner s = Some j ↔ o = Some j) →
  (∀ j, j ≠ i → owner s = Some j → pm = registry s) →
  (o = None → pm = registry a) → made_of locals (localPeer_ pm) →
  refines (mkShared pm o (<[i := t]> (threads s))) a.
Proof.
  intros Hr Ht Ht' Htr Ho Hpm He Hl. rewrite <- (same_thread a i t0' Ht') in Htr |- *.
  eapply refines_set; try done; [by intros j Hj Hs; split; [eapply Hpm|]|apply Hr].
Qed.

Lemma GetLocalPeer_or_not c : c = CallGetLocalPeer ∨ c ≠ CallGetLocalPeer.
Proof. destruct c; by (left + right). Qed.

Lemma begins_refines s a i c cs rs :
  refines s a → threads s !! i = Some (mkThread (c :: cs) None rs) →
  refines (mkShared (registry s) (owner s)
    (<[i := mkThread cs (Some (c, body c, initial_result c)) rs]> (threads s))) a.
Proof.
  intros Hr Ht. destruct (refines_thread _ _ _ _ _ Hr Ht) as (t' & Ht' & Htr).
  inversion Htr; subst. eapply refines_silent; try done; [|apply Hr..].
  destruct (GetLocalPeer_or_not c) as [->|Hc]; [|by apply before_lock].
  by apply (copying _ _ _ _ [] fields blank); [done..|intros f Hf%elem_of_nil].
Qed.

Lemma takes_refines s a i c rest out cs rs :
  refines s a → threads s !! i = Some (mkThread cs (Some (c, Lock :: rest, out)) rs) → owner s = None →
  refines (mkShared (registry s) (Some i) (<[i := mkThread cs (Some (c, rest, out)) rs]> (threads s))) a.
Proof.
  intros Hr Ht Ho. inside Hr Ht. injection Hins as ->. subst out.
  eapply refines_silent; try done; [|intros j Hj|apply Hr].
  - apply (under_lock _ _ _ _ _ []); [done..|]. cbn. by rewrite (rf_registry _ _ _ Hr Ho).
  - split; [congruence|intros [= ->]; done].
Qed.

Lemma gives_refines s a i c rest out cs rs :
  refines s a → threads s !! i = Some (mkThread cs (Some (c, Unlock :: rest, out)) rs) → owner s = Some i →
  ∃ a', whole_step a a' ∧
    refines (mkShared (registry s) None (<[i := mkThread cs (Some (c, rest, out)) rs]> (threads s))) a'.
Proof.
  intros Hr Ht Ho. inside Hr Ht. injection Hins as ->. eexists. split.
  - eapply call_atomic; [done|]. apply answer_member; [done|]. unfold member_answer.
    rewrite run_member_accesses by apply Hr. by rewrite <- Hp.
  - cbn [fst perform_all foldl registry]. eapply refines_set; try done.
    + apply after_lock; [done|by cbn].
    + intros j Hj. split; [congruence|done].
    + intros j Hj E. congruence.
    + change (mutex_ (perform_all [] (registry s, out)).1 = false). rewrite Hp, perform_all_mutex. apply Hr.
    + apply Hr.
    + cbn. intros x Hx. apply elem_of_cons. by right.
Qed.

Lemma performs_refines s a i c x rest out cs rs :
  refines s a → threads s !! i = Some (mkThread cs (Some (c, Do x :: rest, out)) rs) →
  refines (mkShared (perform x (registry s, out)).1 (owner s)
    (<[i := mkThread cs (Some (c, rest, (perform x (registry s, out)).2)) rs]> (threads s))) a.
Proof.
  intros Hr Ht. inside Hr Ht.
  - injection Hins as -> ->. eapply refines_silent; try done; [|congruence..|].
    + eapply (under_lock _ _ _ _ _ (past ++ [y])); [done|done|by rewrite <- app_assoc|].
      rewrite <- Hp. unfold perform_all. cbn [foldl registry]. by destruct (perform y (registry s, out)).
    + apply perform_local; [|apply Hr]. intros f p ->. eapply (rf_todo _ _ _ Hr); [exact Ht'|].
      apply elem_of_cons. left. symmetry. apply (accesses_local _ f). rewrite Hacc.
      apply elem_of_app. right. by left.
  - injection Hins as -> ->. subst c out. cbn. eapply refines_silent; try done; [|apply Hr..].
    apply (copying _ _ _ _ (past ++ [f]) fs (copy_field f (localPeer_ (registry s)) p));
      [done|by rewrite <- app_assoc|].
    assert (∃ r, r ∈ locals ∧ copy_field f r (copy_field f (localPeer_ (registry s)) p)
      = copy_field f (localPeer_ (registry s)) p) as Hnew.
    { destruct (rf_local _ _ _ Hr f) as (r & Hrl & Er). exists r. split; [done|]. by apply copy_field_set. }
    intros f' [Hf'| ->%list_elem_of_singleton]%elem_of_app; [|done].
    destruct (Hcopied f' Hf') as (q & Hq & E).
    by destruct (copy_field_keeps f' f q (localPeer_ (registry s)) p E) as [E'| ->]; [exists q|].
Qed.

Lemma returns_refines s a i c out cs rs :
  refines s a → threads s !! i = Some (mkThread cs (Some (c, [], out)) rs) →
  ∃ a', rtc whole_step a a' ∧
    refines (mkShared (registry s) (owner s) (<[i := mkThread cs None (rs ++ [(c, out)])]> (threads s))) a'.
Proof.
  intros Hr Ht. inside Hr Ht.
  - exists a. split; [done|]. eapply refines_silent; try done; [|apply Hr..]. by apply between_calls.
  - subst c out. eexists. split.
    + apply rtc_once. eapply call_atomic; [done|]. apply answer_mixture.
      intros f. apply Hcopied. rewrite app_nil_r in Hf. rewrite <- Hf. by destruct f; repeat constructor.
    + eapply refines_set; try done; [|apply Hr..|].
      * by apply between_calls.
      * cbn. intros x Hx. apply elem_of_cons. by right.
Qed.

Lemma refines_step s s' a :
  refines s a → thread_step s s' → ∃ a', rtc whole_step a a' ∧ refines s' a'.
Proof.
  intros Hr [i Hstep%advance_inv]. destruct Hstep.
  - exists a. split; [done|]. by apply begins_refines.
  - exists a. split; [done|]. by apply takes_refines.
  - edestruct gives_refines as (a' & ? & ?); [done..|]. exists a'. split; [by apply rtc_once|done].
  - exists a. split; [done|]. by apply performs_refines.
  - by apply returns_refines.
Qed.

Lemma runs_refine s s' a :
  refines s a → rtc thread_step s s' → ∃ a', rtc whole_step a a' ∧ refines s' a'.
Proof.
  intros Hr Hrun. revert a Hr. induction Hrun as [s|s s1 s2 Hstep _ IH]; intros a Hr; [by exists a|].
  destruct (refines_step _ _ _ Hr Hstep) as (a1 & Ha1 & Hr1).
  destruct (IH a1 Hr1) as (a2 & Ha2 & Hr2). exists a2. split; [by etrans|done].
Qed.

Lemma refines_agrees s a : refines s a → agrees s a.
Proof.
  intros Hr. split; [|apply Hr].
  intros i t Ht. destruct (refines_thread _ _ _ _ _ Hr Ht) as (t' & Ht' & Htr). exists t'. split; [done|].
  destruct Htr; cbn; split; try done. by eexists.
Qed.
End Steps.

Lemma starting_refines pm programs :
  mutex_ pm = false →
  refines (local_records pm programs) (starting pm programs) (starting pm programs).
Proof.
  intros Hm. split; cbn; try done.
  - intros i. rewrite list_lookup_fmap. destruct (programs !! i); constructor. by apply between_calls.
  - intros f. exists (localPeer_ pm). split; [by left|apply copy_field_id].
  - intros i t p Ht Hp. rewrite list_lookup_fmap in Ht. apply fmap_Some in Ht as (cs & Hcs & ->).
    right. apply list_elem_of_omap. exists (CallSetLocalPeer p). split; [|done].
    apply list_elem_of_join. exists cs. split; [done|by eapply list_elem_of_lookup_2].
Qed.

Lemma runs_track pm programs s :
  mutex_ pm = false → rtc thread_step (starting pm programs) s →
  ∃ a, rtc (atomic_step (loose_answer (local_records pm programs))) (starting pm programs) a ∧
    refines (local_records pm programs) s a.
Proof. intros Hm Hrun. by eapply runs_refine; [apply starting_refines|]. Qed.

(** ** Registries whose local peer stays *)

Lemma made_of_one l p : made_of [l] p → p = l.
Proof.
  intros Hp. assert (∀ f, copy_field f l p = p) as H.
  { intros f. by destruct (Hp f) as (q & ->%list_elem_of_singleton & E). }
  pose proof (H FId). pose proof (H FAddress). pose proof (H FPort). pose proof (H FKey).
  pose proof (H FConnected). pose proof (H FSeen). destruct l, p. cbn in *. congruence.
Qed.

Lemma perform_all_keeps_local l xs pm out :
  (∀ f p, WriteLocal f p ∉ xs) → localPeer_ pm = l → localPeer_ (perform_all xs (pm, out)).1 = l.
Proof.
  revert pm out. induction xs as [|x xs IH]; intros pm out Hx Hl; [done|].
  unfold perform_all in *. cbn [foldl]. destruct (perform x (pm, out)) as [pm1 out1] eqn:E. apply IH.
  - intros f p Hin. apply (Hx f p). by right.
  - assert (made_of [l] (localPeer_ pm1)) as Hm; [|by apply made_of_one].
    change pm1 with (pm1, out1).1. rewrite <- E. apply perform_local.
    + intros f p ->. destruct (Hx f p). by left.
    + rewrite Hl. intros f. exists l. split; [by left|apply copy_field_id].
Qed.

(** Threads that never set the local peer. *)
Definition settled (l : PeerInfo) (a : shared) : Prop :=
  mutex_ (registry a) = false ∧ localPeer_ (registry a) = l ∧
  ∀ i t c, threads a !! i = Some t → c ∈ todo t → set_local c = None.

Lemma settled_step l a a' :
  settled l a → atomic_step (loose_answer [l]) a a' → atomic_step member_answer a a' ∧ settled l a'.
Proof.
  intros (Hm & Hl & Htodo) [i c cs rs out pm Ht Hans].
  assert (member_answer c (registry a) out pm ∧ mutex_ pm = false ∧ localPeer_ pm = l) as (Hmem & Hm' & Hl').
  { destruct Hans as [c pm0 out pm Hc Hmem|p pm0 Hp].
    - split; [done|]. unfold member_answer in Hmem. rewrite run_member_accesses in Hmem by done.
      injection Hmem as _ <-. rewrite perform_all_mutex. split; [done|].
      apply perform_all_keeps_local; [|done]. intros f p Hin%accesses_local.
      specialize (Htodo i _ c Ht ltac:(by left)). by subst c.
    - apply made_of_one in Hp as ->. rewrite <- Hl at 1. by split_and!. }
  split; [by eapply call_atomic|]. split_and!; [done..|]. cbn. intros j t c' Hj Hin.
  rewrite list_lookup_insert in Hj. case_decide as Hij; [|by eapply Htodo].
  simplify_eq. eapply Htodo; [exact Ht|]. by right.
Qed.

Lemma settled_run l a a' :
  settled l a → rtc (atomic_step (loose_answer [l])) a a' → rtc (atomic_step member_answer) a a'.
Proof.
  intros Hs Hrun. induction Hrun as [a|a a1 a2 Hstep _ IH]; [done|].
  destruct (settled_step _ _ _ Hs Hstep). eapply rtc_l; [done|by apply IH].
Qed.

Lemma starting_settled pm programs :
  mutex_ pm = false → omap set_local (mjoin programs) = [] → settled (localPeer_ pm) (starting pm programs).
Proof.
  intros Hm Hno. split_and!; [done..|]. intros i t c Ht Hc. cbn in Ht.
  rewrite list_lookup_fmap in Ht. apply fmap_Some in Ht as (cs & Hcs & ->).
  destruct (set_local c) as [p|] eqn:E; [|done]. exfalso.
  assert (p ∈ omap set_local (mjoin programs)) as Hp; [|by rewrite Hno in Hp; apply elem_of_nil in Hp].
  apply list_elem_of_omap. exists c. split; [|done]. apply list_elem_of_join.
  exists cs. split; [done|by eapply list_elem_of_lookup_2].
Qed.

(** C6. Linearizability. Threads that call any members of the registry, interleaved statement
    by statement: some run of whole calls, in which each call is the member function
    run by itself, gives every completed call the same result, and the same registry
    while nobody holds the mutex. [GetLocalPeer] alone, which takes no lock, may answer
    there a record made of members of several local peers; when no thread sets the
    local peer, as in this program once its threads have started, it answers as the
    member function too. *)
Theorem registry_linearizable pm programs s :
  mutex_ pm = false → rtc thread_step (starting pm programs) s →
  ∃ a, rtc (atomic_step (loose_answer (local_records pm programs))) (starting pm programs) a ∧
    agrees s a ∧
    (omap set_local (mjoin programs) = [] → rtc (atomic_step member_answer) (starting pm programs) a).
Proof.
  intros Hm Hrun. destruct (runs_track _ _ _ Hm Hrun) as (a & Ha & Hr).
  exists a. split_and!; [done|by eapply refines_agrees|]. intros Hno.
  apply (settled_run (localPeer_ pm)); [by apply starting_settled|].
  unfold local_records in Ha. by rewrite Hno in Ha.
Qed.

Definition three_threads : list (list call) :=
  [[CallUpdatePeerStatus 7 "a" true]; [CallGetPeer "a"]; [CallGetLocalPeer]].

Lemma registry_linearizable_witness :
  ∃ a, rtc (atomic_step member_answer) (starting (mkPM false test_peers blank) three_threads) a ∧
    ∃ t, threads a !! 1%nat = Some t ∧ [(CallGetPeer "a", option_list (test_peers !! "a"))] `prefix_of` results t.
Proof.
  set (pm := mkPM false test_peers blank).
  destruct (schedule [1; 1; 2; 1; 1; 0; 0; 1]%nat (starting pm three_threads)) as [s|] eqn:E; [|done].
  assert (results <$> threads s !! 1%nat = Some [(CallGetPeer "a", option_list (test_peers !! "a"))]) as Er.
  { vm_compute in E. injection E as <-. reflexivity. }
  assert (rtc thread_step (starting pm three_threads) s) as Hs.
  { apply rtc_nsteps. eexists. by eapply schedule_steps. }
  destruct (registry_linearizable pm three_threads s) as (a & _ & [Hagree _] & Hstrict);
    [reflexivity|exact Hs|].
  apply fmap_Some in Er as (t & Ht & Ert). destruct (Hagree 1%nat t Ht) as (t' & Ht' & Hpre & _).
  exists a. split; [by apply Hstrict|]. exists t'. by rewrite Ert.
Defined.

(** ** Data races *)

#[export] Instance field_eq_dec : EqDecision field.
Proof. solve_decision. Defined.

Definition writes_peers (x : access) : bool :=
  match x with PutPeer _ | ErasePeer _ | WriteConnected _ _ | WriteSeen _ _ => true | _ => false end.
Definition reads_peers (x : access) : bool :=
  match x with ReadPeer _ | ReadPeers _ _ => true | _ => false end.
Definition writes_local (x : access) : option field := match x with WriteLocal f _ => Some f | _ => None end.
Definition reads_local (x : access) : option field := match x with ReadLocal f => Some f | _ => None end.

(** [x] writes what [y] reads or writes. *)
Definition clobbers (x y : access) : bool :=
  writes_peers x && (writes_peers y || reads_peers y) ||
  match writes_local x with
  | Some f => bool_decide (writes_local y = Some f) || bool_decide (reads_local y = Some f)
  | None => false
  end.

Definition about_to (s : shared) (i : nat) (x : access) : Prop :=
  ∃ cs c rest out rs, threads s !! i = Some (mkThread cs (Some (c, Do x :: rest, out)) rs).

(** A data race: two threads are about to make accesses to the same object, one of them
    a write, and nothing orders them. *)
Definition data_race (s : shared) (x y : access) : Prop :=
  ∃ i j, i ≠ j ∧ about_to s i x ∧ about_to s j y ∧ clobbers x y = true.

Lemma about_to_owns locals s a i x :
  refines locals s a → about_to s i x → (∃ f, x = ReadLocal f) ∨ owner s = Some i.
Proof.
  intros Hr (cs & c & rest & out & rs & Ht). inside Hr Ht; [by right|].
  injection Hins as -> _. left. by eexists.
Qed.

(** C26. The only data race on the registry is that of [GetLocalPeer] with [SetLocalPeer]: in
    every reachable state of any threads, accesses to the table of peers are ordered
    by the mutex, and so are the writes of the local peer. *)
Theorem registry_race_free pm programs s x y :
  mutex_ pm = false → rtc thread_step (starting pm programs) s → data_race s x y →
  ∃ f p, x = WriteLocal f p ∧ y = ReadLocal f.
Proof.
  intros Hm Hrun (i & j & Hne & Hx & Hy & Hc). destruct (runs_track _ _ _ Hm Hrun) as (a & _ & Hr).
  destruct (about_to_owns _ _ _ _ _ Hr Hx) as [[f ->]|Hi]; [done|].
  destruct (about_to_owns _ _ _ _ _ Hr Hy) as [[f ->]|Hj]; [|congruence].
  unfold clobbers in Hc. cbn in Hc. rewrite andb_false_r in Hc. cbn in Hc.
  destruct x as [| | | |f' p| | |]; try done. cbn in Hc. apply bool_decide_eq_true in Hc as [= ->].
  by exists f', p.
Qed.

Lemma registry_race_free_witness :
  ∃ s x y, data_race s x y ∧ ∃ f p, x = WriteLocal f p ∧ y = ReadLocal f.
Proof.
  set (p := mkPeer "b" "h" (Some 1) [] true 0). set (pm := mkPM false ∅ blank).
  destruct (schedule [0; 1; 1]%nat (starting pm [[CallGetLocalPeer]; [CallSetLocalPeer p]])) as [s|] eqn:E;
    [|done].
  assert (rtc thread_step (starting pm [[CallGetLocalPeer]; [CallSetLocalPeer p]]) s) as Hs.
  { apply rtc_nsteps. eexists. by eapply schedule_steps. }
  assert (data_race s (WriteLocal FId p) (ReadLocal FId)) as Hrace.
  { vm_compute in E. injection E as <-. exists 1%nat, 0%nat. split_and!; [done|by do 5 eexists..|done]. }
  exists s, (WriteLocal FId p), (ReadLocal FId). split; [exact Hrace|].
  exact (registry_race_free pm _ s _ _ eq_refl Hs Hrace).
Defined.

(** ** Progress *)

Definition cost (c : call) : nat := S (S (length (body c))).
Definition remaining (t : thread) : nat :=
  sum_list_with cost (todo t) + match doing t with Some (_, rest, _) => S (length rest) | None => 0 end.
Definition work (s : shared) : nat := sum_list_with remaining (threads s).

Lemma work_insert s i t t' pm o :
  threads s !! i = Some t →
  (work (mkShared pm o (<[i := t']> (threads s))) + remaining t = work s + remaining t')%nat.
Proof.
  unfold work. cbn [threads]. generalize (threads s). intros ts Hi.
  rewrite <- (list_insert_id ts i t Hi) at 2. apply lookup_lt_Some in Hi.
  rewrite !insert_take_drop by done. rewrite !sum_list_with_app. cbn. lia.
Qed.

Lemma remaining_between cs rs : remaining (mkThread cs None rs) = sum_list_with cost cs.
Proof. unfold remaining. cbn [todo doing]. lia. Qed.
Lemma remaining_inside cs c rest out rs :
  remaining (mkThread cs (Some (c, rest, out)) rs) = (sum_list_with cost cs + S (length rest))%nat.
Proof. done. Qed.

Lemma thread_step_work s s' : thread_step s s' → work s = S (work s').
Proof.
  intros [i Hstep%advance_inv]. destruct Hstep as [? ? ? Ht|? ? ? ? ? Ht|? ? ? ? ? Ht|? ? ? ? ? ? Ht|? ? ? ? Ht];
    match goal with |- _ = S (work (mkShared ?pm ?o (<[_ := ?t]> _))) =>
      pose proof (work_insert s i _ t pm o Ht) as Hw end;
    rewrite ?remaining_between, ?remaining_inside in Hw; cbn [sum_list_with length] in Hw;
    unfold cost in *; cbn in *; lia.
Qed.

(** A thread inside a call can move, unless it is about to take a mutex that is held. *)
Lemma inside_moves locals s a i t :
  refines locals s a → threads s !! i = Some t → doing t ≠ None →
  owner s = None ∨ owner s = Some i ∨ (∃ c out, doing t = Some (c, [], out)) → ∃ s', advance s i = Some s'.
Proof.
  intros Hr Ht Hd Ho. destruct t as [cs [[[c ins] out]|] rs]; [|done]. clear Hd. unfold advance. rewrite Ht.
  inside Hr Ht; subst ins; cbn [guarded map app].
  - destruct Ho as [->|[Ho|(? & ? & [=])]]; [|done]. rewrite decide_True by done. by destruct cs; eexists.
  - rewrite decide_True by done. by destruct cs; eexists.
  - destruct (perform y (registry s, out)). by destruct cs; eexists.
  - by destruct cs; eexists.
  - by destruct cs; eexists.
  - destruct (perform _ (registry s, out)). by destruct cs; eexists.
Qed.

Lemma stuck_completed locals s a :
  refines locals s a → (∀ s', ¬ thread_step s s') → Forall (λ t, todo t = [] ∧ doing t = None) (threads s).
Proof.
  intros Hr Hstuck.
  assert (∀ i s', advance s i ≠ Some s') as Hno by (intros i s' E; eapply Hstuck; by eexists).
  assert (owner s = None) as Ho.
  { destruct (owner s) as [i|] eqn:Ho; [|done]. destruct (rf_owner _ _ _ Hr i Ho) as [[cs d rs] Ht].
    exfalso. destruct d as [d|].
    - destruct (inside_moves _ _ _ _ _ Hr Ht) as [s' E]; [done|by right; left|by eapply Hno].
    - destruct (refines_thread _ _ _ _ _ Hr Ht) as (t' & _ & Htr). by inversion Htr. }
  apply Forall_lookup. intros i [cs d rs] Ht. destruct d as [d|]; cbn.
  - exfalso. destruct (inside_moves _ _ _ _ _ Hr Ht) as [s' E]; [done|by left|by eapply Hno].
  - destruct cs as [|c cs]; [done|]. exfalso. eapply (Hno i). unfold advance. by rewrite Ht.
Qed.

(** C28. Calls of the registry complete. No schedule of any threads runs for more steps than
    their calls have statements, entries and returns; and a schedule that can go no
    further has completed every call: each member gives back the mutex it takes, and
    none takes it while it holds it, itself or through another member. *)
Theorem registry_calls_complete pm programs n s :
  mutex_ pm = false → nsteps thread_step n (starting pm programs) s →
  (n <= sum_list_with (sum_list_with cost) programs)%nat ∧
  ((∀ s', ¬ thread_step s s') → Forall (λ t, todo t = [] ∧ doing t = None) (threads s)).
Proof.
  intros Hm Hrun. split.
  - assert (work (starting pm programs) = sum_list_with (sum_list_with cost) programs) as <-.
    { unfold work. cbn [threads starting]. clear. induction programs as [|cs ps IH]; [done|].
      cbn [map sum_list_with]. rewrite IH, remaining_between. done. }
    clear Hm. revert Hrun. generalize (starting pm programs). intros s0 Hrun.
    induction Hrun as [s|n s0 s1 s2 Hstep Hrun IH]; [lia|]. rewrite (thread_step_work _ _ Hstep). lia.
  - destruct (runs_track pm programs s Hm) as (a & _ & Hr); [by apply rtc_nsteps; eexists|].
    by eapply stuck_completed.
Qed.

Lemma registry_calls_complete_witness :
  ∃ s, nsteps thread_step 2 (starting (mkPM false test_peers blank) three_threads) s ∧
    (2 <= sum_list_with (sum_list_with cost) three_threads)%nat.
Proof.
  destruct (schedule [1; 1]%nat (starting (mkPM false test_peers blank) three_threads)) as [s|] eqn:E;
    [|done].
  apply schedule_steps in E as Hs. exists s.
  split; [exact Hs|].
  apply (registry_calls_complete (mkPM false test_peers blank) three_threads 2 s eq_refl Hs).
Defined.

(** A record whose members come from two others. *)
Definition mixes (p a b : PeerInfo) : Prop := p ≠ a ∧ p ≠ b ∧ pi_id p = pi_id a ∧ pi_port p = pi_port b.

(** C40. [GetLocalPeer] takes no lock, and its caller can copy a record that is neither the
    local peer from before a concurrent [SetLocalPeer] nor the one from after it. *)
Theorem GetLocalPeer_can_tear ps a b :
  pi_id a ≠ pi_id b → pi_port a ≠ pi_port b →
  ∃ s p, rtc thread_step (starting (mkPM false ps a) [[CallGetLocalPeer]; [CallSetLocalPeer b]]) s ∧
    map results (threads s) = [[(CallGetLocalPeer, [p])]; [(CallSetLocalPeer b, [])]] ∧ mixes p a b.
Proof.
  intros Hid Hport. destruct a as [ia aa pa ka ca sa], b as [ib ab pb kb cb sb]; cbn in *.
  set (a := mkPeer ia aa pa ka ca sa). set (b := mkPeer ib ab pb kb cb sb).
  destruct (schedule ([0; 0] ++ replicate 10 1 ++ replicate 6 0)%nat
    (starting (mkPM false ps a) [[CallGetLocalPeer]; [CallSetLocalPeer b]])) as [s|] eqn:E.
  - exists s, (mkPeer ia ab pb kb cb sb). split; [|split].
    + apply rtc_nsteps. eexists. by eapply schedule_steps.
    + vm_compute in E. injection E as <-. reflexivity.
    + unfold mixes, a, b. split_and!; cbn; congruence.
  - vm_compute in E. discriminate.
Qed.

Lemma GetLocalPeer_can_tear_witness :
  ∃ s p, rtc thread_step (starting (mkPM false ∅ blank)
    [[CallGetLocalPeer]; [CallSetLocalPeer (mkPeer "b" "h" (Some 1) [] true 0)]]) s ∧
    mixes p blank (mkPeer "b" "h" (Some 1) [] true 0) ∧
    map results (threads s) = [[(CallGetLocalPeer, [p])];
      [(CallSetLocalPeer (mkPeer "b" "h" (Some 1) [] true 0), [])]].
Proof.
  destruct (GetLocalPeer_can_tear ∅ blank (mkPeer "b" "h" (Some 1) [] true 0))
    as (s & p & H1 & H2 & H3); [discriminate|discriminate|]. by exists s, p.
Defined.
