(* ===== verification/Network.v ===== *)
(** The network manager: [Include/Network.hpp] and [Source/Network.cpp].

    The state behind [NetworkManager] ([struct NetworkManager::Impl]) together with
    the [PeerManager] it refers to, every member function with its locking, and
    one iteration of each worker loop. ZeroMQ is a parameter: what its calls
    return is an argument of the functions that make them, and the frames it
    accepts are logged in the [wire] field. *)

From Stdlib Require Import Strings.Ascii.
From S2P Require Import Prelude CxxText Message PeerManager.

(** ** ZeroMQ, as seen from the program *)

(** What a send gives: accepted, [EAGAIN] (the empty [send_result_t]), or an
    exception. *)
Inductive send_result := Sent | WouldBlock | SendError (what : string).

(** A message handed to ZeroMQ, and through which socket. *)
Inductive out_frame :=
  | ToDealer (endpoint : string) (data : list byte)
  | ToRouter (routingId : string) (data : list byte).

#[export] Instance out_frame_eq_dec : EqDecision out_frame.
Proof. solve_decision. Defined.

(** The results of the calls an operation makes; an error is the text of the
    [zmq::error_t], or of the [std::system_error] for a thread. *)
Record Zmq := {
  zmq_dealer : string → option string;     (** [socket_t(dealer)] and its options, by routing id *)
  zmq_connect : string → option string;    (** [connect], by endpoint *)
  zmq_router : option string;              (** [socket_t(router)] and its options *)
  zmq_bind : string → option string;       (** [bind], by endpoint *)
  zmq_send_id : string → option string;    (** the identity frame of a router send *)
  zmq_send : out_frame → send_result;      (** the message frame *)
  router_thread_start : option string;     (** starting the [std::thread] of each loop *)
  poller_thread_start : option string
}.

(** A network on which every call succeeds. *)
Definition zmq_all_good : Zmq :=
  {| zmq_dealer _ := None; zmq_connect _ := None; zmq_router := None; zmq_bind _ := None;
     zmq_send_id _ := None; zmq_send _ := Sent;
     router_thread_start := None; poller_thread_start := None |}.

(** A dealer socket: the routing id it announces and the endpoint it connects to. *)
Record dealer := mkDealer { d_identity : string; d_endpoint : string }.

(** ** State *)

(** [U] is what the installed handlers capture besides the peer registry. *)
Definition MessageHandler (U : Type) : Type := Clock → string → Message → stM (PeerManager * U) unit.
Definition ConnectionHandler (U : Type) : Type := Clock → string → bool → stM (PeerManager * U) unit.

Record Net (U : Type) := mkNet {
  peerManager_ : PeerManager;
  client : U;
  userMessageHandler_ : option (MessageHandler U);
  connectionHandler_ : option (ConnectionHandler U);
  routerSocket_ : option string;              (** the bound endpoint; [None] is null *)
  dealerSockets_ : gmap string dealer;
  socketsMutex_ : bool;
  routerThread_ : bool;                       (** joinable *)
  pollerThread_ : bool;
  running_ : bool;
  listenPort_ : Z;
  wire : list out_frame
}.
Arguments mkNet {_}.
Arguments peerManager_ {_}.
Arguments client {_}.
Arguments userMessageHandler_ {_}.
Arguments connectionHandler_ {_}.
Arguments routerSocket_ {_}.
Arguments dealerSockets_ {_}.
Arguments socketsMutex_ {_}.
Arguments routerThread_ {_}.
Arguments pollerThread_ {_}.
Arguments running_ {_}.
Arguments listenPort_ {_}.
Arguments wire {_}.

Section Network.
Context {U : Type}.
Implicit Types n : Net U.

(** Assignments to the members. *)
Definition put_socketsMutex (b : bool) n : Net U :=
  mkNet (peerManager_ n) (client n) (userMessageHandler_ n) (connectionHandler_ n)
    (routerSocket_ n) (dealerSockets_ n) b (routerThread_ n) (pollerThread_ n)
    (running_ n) (listenPort_ n) (wire n).
Definition put_dealers (d : gmap string dealer) n : Net U :=
  mkNet (peerManager_ n) (client n) (userMessageHandler_ n) (connectionHandler_ n)
    (routerSocket_ n) d (socketsMutex_ n) (routerThread_ n) (pollerThread_ n)
    (running_ n) (listenPort_ n) (wire n).
Definition put_router (r : option string) n : Net U :=
  mkNet (peerManager_ n) (client n) (userMessageHandler_ n) (connectionHandler_ n)
    r (dealerSockets_ n) (socketsMutex_ n) (routerThread_ n) (pollerThread_ n)
    (running_ n) (listenPort_ n) (wire n).
Definition put_running (b : bool) n : Net U :=
  mkNet (peerManager_ n) (client n) (userMessageHandler_ n) (connectionHandler_ n)
    (routerSocket_ n) (dealerSockets_ n) (socketsMutex_ n) (routerThread_ n) (pollerThread_ n)
    b (listenPort_ n) (wire n).
Definition put_listenPort (p : Z) n : Net U :=
  mkNet (peerManager_ n) (client n) (userMessageHandler_ n) (connectionHandler_ n)
    (routerSocket_ n) (dealerSockets_ n) (socketsMutex_ n) (routerThread_ n) (pollerThread_ n)
    (running_ n) p (wire n).
Definition put_threads (router poller : bool) n : Net U :=
  mkNet (peerManager_ n) (client n) (userMessageHandler_ n) (connectionHandler_ n)
    (routerSocket_ n) (dealerSockets_ n) (socketsMutex_ n) router poller
    (running_ n) (listenPort_ n) (wire n).
Definition put_wire (w : list out_frame) n : Net U :=
  mkNet (peerManager_ n) (client n) (userMessageHandler_ n) (connectionHandler_ n)
    (routerSocket_ n) (dealerSockets_ n) (socketsMutex_ n) (routerThread_ n) (pollerThread_ n)
    (running_ n) (listenPort_ n) w.
Definition put_handlers (m : option (MessageHandler U)) (c : option (ConnectionHandler U)) n : Net U :=
  mkNet (peerManager_ n) (client n) m c
    (routerSocket_ n) (dealerSockets_ n) (socketsMutex_ n) (routerThread_ n) (pollerThread_ n)
    (running_ n) (listenPort_ n) (wire n).
Definition put_captured (pc : PeerManager * U) n : Net U :=
  mkNet pc.1 pc.2 (userMessageHandler_ n) (connectionHandler_ n)
    (routerSocket_ n) (dealerSockets_ n) (socketsMutex_ n) (routerThread_ n) (pollerThread_ n)
    (running_ n) (listenPort_ n) (wire n).

#[export, program] Instance Net_Mutex : Mutex (Net U) := {|
  locked := socketsMutex_;
  set_locked := put_socketsMutex
|}.
Solve Obligations with by intros; repeat match goal with x : Net U |- _ => destruct x end.

Definition captured n : PeerManager * U := (peerManager_ n, client n).

(** Calls on the peer registry, and on the client's handlers. *)
Definition on_pm {A} (m : stM PeerManager A) : stM (Net U) A :=
  zoom peerManager_ (λ pm n, put_captured (pm, client n) n) m.
Definition on_captured {A} (m : stM (PeerManager * U) A) : stM (Net U) A :=
  zoom captured put_captured m.

(** The constructor, over an existing registry. *)
Definition NetworkManager_new (pm : PeerManager) (u : U) : Net U :=
  mkNet pm u None None None ∅ false false false false 0 [].

(** A ZeroMQ call that returns nothing. *)
Definition zmq_call (error : option string) : stM (Net U) unit :=
  match error with Some what => mthrow (zmq_error what) | None => mret tt end.

(** [t = std::thread(...)]. *)
Definition start_thread (error : option string) (joinable : Net U → bool) (store : Net U → Net U) : stM (Net U) unit :=
  match error with
  | Some what => mthrow (system_error what)
  | None =>
    old ← st_gets joinable;
    if old : bool then st_lift (Undefined ThreadOverwritten) else st_modify store
  end.

(** ** Life cycle *)

Definition Start (z : Zmq) (port : Z) : stM (Net U) unit :=
  running ← st_gets running_;
  if running : bool then mret tt
  else
    st_modify (put_listenPort port);;
    st_modify (put_running true);;
    st_catch
      (zmq_call (zmq_router z);;
       st_modify (put_router (Some ""));;
       let bindAddr := "tcp://*:" +:+ to_string port in
       zmq_call (zmq_bind z bindAddr);;
       st_modify (put_router (Some bindAddr));;
       start_thread (router_thread_start z) routerThread_ (λ n, put_threads true (pollerThread_ n) n);;
       start_thread (poller_thread_start z) pollerThread_ (λ n, put_threads (routerThread_ n) true n))
      (catch_zmq (λ e,
         st_modify (put_running false);;
         st_modify (put_router None);;
         mthrow e)).

(** The statements of [Stop] after its test: the joins end the two threads. *)
Definition Stop_running : stM (Net U) unit := st_modify (put_running false).
Definition Stop_dealers : stM (Net U) unit := lock_guard (st_modify (put_dealers ∅)).
Definition Stop_router : stM (Net U) unit :=
  router ← st_gets routerSocket_;
  match router with Some _ => st_modify (put_router None) | None => mret tt end.
Definition Stop_join : stM (Net U) unit := st_modify (put_threads false false).

Definition Stop : stM (Net U) unit :=
  running ← st_gets running_;
  if negb running then mret tt
  else Stop_running;; Stop_dealers;; Stop_router;; Stop_join.

(** ** Sending *)

Definition SendToPeer (z : Zmq) (peerId : string) (message : Message) : stM (Net U) unit :=
  lock_guard (
    it ← st_gets (λ n, dealerSockets_ n !! peerId);
    match it with
    | Some socket =>
      let frame := ToDealer (d_endpoint socket) (Serialize message) in
      st_catch
        (match zmq_send z frame with
         | Sent => st_modify (λ n, put_wire (wire n ++ [frame]) n)
         | WouldBlock => mret tt
         | SendError what => mthrow (zmq_error what)
         end)
        (catch_zmq (λ _, mret tt))
    | None => mret tt
    end).

Definition SendViaRouter (z : Zmq) (peerId : string) (message : Message) : stM (Net U) unit :=
  router ← st_gets routerSocket_;
  match router with
  | None => mret tt
  | Some _ =>
    let frame := ToRouter peerId (Serialize message) in
    st_catch
      (zmq_call (zmq_send_id z peerId);;
       match zmq_send z frame with
       | Sent => st_modify (λ n, put_wire (wire n ++ [frame]) n)
       | WouldBlock => mret tt
       | SendError what => mthrow (zmq_error what)
       end)
      (catch_zmq (λ _, mret tt))
  end.

Definition SendMessage (z : Zmq) (peerId : string) (message : Message) : stM (Net U) unit :=
  SendToPeer z peerId message.

(** ** Connections *)

Definition peer_key (address : string) (port : Z) : string :=
  address +:+ ":" +:+ to_string port.

Definition ConnectToPeer (z : Zmq) (now : Z) (address : string) (port : Z) : stM (Net U) unit :=
  lock_guard (st_catch
    (localPeer ← on_pm GetLocalPeer;
     let identity := pi_id localPeer in
     zmq_call (zmq_dealer z identity);;
     let connectAddr := "tcp://" +:+ address +:+ ":" +:+ to_string port in
     zmq_call (zmq_connect z connectAddr);;
     let peerKey := peer_key address port in
     st_modify (λ n, put_dealers (<[peerKey := mkDealer identity connectAddr]> (dealerSockets_ n)) n);;
     let handshake := CreateHandshakeMessage now (pi_id localPeer) (pi_publicKey localPeer) in
     SendToPeer z peerKey handshake)
    (catch_zmq (λ e, mthrow e))).

(** Invoking a handler that may be empty. *)
Definition call_connection (now : Clock) (peerId : string) (connected : bool) : stM (Net U) unit :=
  h ← st_gets connectionHandler_;
  match h with Some h => on_captured (h now peerId connected) | None => mret tt end.

Definition DisconnectPeer (now : Clock) (peerId : string) : stM (Net U) unit :=
  lock_guard (
    it ← st_gets (λ n, dealerSockets_ n !! peerId);
    match it with
    | Some _ =>
      st_modify (λ n, put_dealers (delete peerId (dealerSockets_ n)) n);;
      call_connection now peerId false
    | None => mret tt
    end).

Definition BroadcastMessage `{UnorderedIter} (z : Zmq) (message : Message) : stM (Net U) unit :=
  lock_guard (
    sockets ← st_gets (λ n, iter (dealerSockets_ n));
    st_for sockets (λ '(peerId, _), SendToPeer z peerId message);;
    connectedPeers ← on_pm GetAllPeers;
    st_for connectedPeers (λ peer,
      if pi_isConnected peer then SendViaRouter z (pi_id peer) message else mret tt)).

Definition GetConnectedPeers `{UnorderedIter} : stM (Net U) (list string) :=
  lock_guard (
    sockets ← st_gets (λ n, iter (dealerSockets_ n));
    allPeers ← on_pm GetAllPeers;
    mret (foldl (λ peers '(peerId, _), peers ++ [peerId]) [] sockets
          ++ foldl (λ peers peer, if pi_isConnected peer then peers ++ [pi_id peer] else peers)
                   [] allPeers)).

Definition SetMessageHandler (h : option (MessageHandler U)) : stM (Net U) unit :=
  st_modify (λ n, put_handlers h (connectionHandler_ n) n).
Definition SetConnectionHandler (h : option (ConnectionHandler U)) : stM (Net U) unit :=
  st_modify (λ n, put_handlers (userMessageHandler_ n) h n).

(** ** Receiving *)

(** [peer.address] and [peer.port] from an "address:port" sender; without a colon
    the port keeps its indeterminate value. *)
Definition sender_endpoint (senderId : string) : outcome (string * option Z) :=
  match split_at colon senderId with
  | Some (address, portStr) => port ← stoi portStr; Ok (address, Some (u16 port))
  | None => Ok ("", None)
  end.

Definition HandleHandshake (z : Zmq) (now : Clock) (senderId : string) (msg : Message) : stM (Net U) unit :=
  match parse_handshake (payload_ msg) with
  | None => mret tt
  | Some (peerId, publicKey) =>
    endpoint ← st_lift (sender_endpoint senderId);
    on_pm (AddPeer (mkPeer peerId endpoint.1 endpoint.2 publicKey true (now 0%nat)));;
    call_connection (later 1 now) peerId true;;
    if decide (senderId = peerId) then
      localPeer ← on_pm GetLocalPeer;
      SendViaRouter z peerId (CreateHandshakeMessage (now 2%nat) (pi_id localPeer) (pi_publicKey localPeer))
    else mret tt
  end.

Definition actual_peer_id (senderId : string) (msg : Message) : string :=
  if decide (type_ msg = HANDSHAKE) then
    match parse_handshake (payload_ msg) with Some (peerId, _) => peerId | None => senderId end
  else senderId.

Definition HandleMessage (z : Zmq) (now : Clock) (senderId : string) (msg : Message) : stM (Net U) unit :=
  (if decide (type_ msg = HANDSHAKE) then HandleHandshake z now senderId msg else mret tt);;
  h ← st_gets userMessageHandler_;
  match h with
  | Some h => on_captured (h (later 3 now) (actual_peer_id senderId msg) msg)
  | None => mret tt
  end.

(** [try { Deserialize; HandleMessage } catch (const std::exception&)]. *)
Definition ProcessFrame (z : Zmq) (now : Clock) (senderId : string) (data : list byte) : stM (Net U) unit :=
  st_catch
    (msg ← st_lift (Deserialize data); HandleMessage z now senderId msg)
    (catch_all (λ _, mret tt)).

(** What one pass of the router loop sees. *)
Inductive router_event :=
  | RouterIdle                                  (** poll timed out *)
  | RouterError (what : string)                 (** a ZeroMQ call threw *)
  | RouterNoFrame                               (** a [recv] gave no frame *)
  | RouterFrames (frame0 data : list byte).

(** The body of the loop of [RouteMessages]. *)
Definition RouteMessages_body (z : Zmq) (now : Clock) (ev : router_event) : stM (Net U) unit :=
  router ← st_gets routerSocket_;
  match router with
  | None => st_lift (Undefined NullDereference)
  | Some _ =>
    match ev with
    | RouterIdle | RouterError _ | RouterNoFrame => mret tt
    | RouterFrames frame0 data => ProcessFrame z now (string_of_bytes frame0) data
    end
  end.

(** One pass of the loop, its test included. *)
Definition RouteMessages_pass (z : Zmq) (now : Clock) (ev : router_event) : stM (Net U) unit :=
  running ← st_gets running_;
  if negb running then mret tt else RouteMessages_body z now ev.

(** What [recv] gives for a dealer that may be readable. *)
Inductive recv_result :=
  | NotReady | RecvNone | RecvError (what : string) | RecvFrame (data : list byte).

(** One readable dealer of the poll set. *)
Definition PollDealer (z : Zmq) (now : Clock) (recv : string → recv_result) (peerId : string) : stM (Net U) unit :=
  match recv peerId with
  | NotReady => mret tt
  | ready =>
    lock_guard (
      it ← st_gets (λ n, dealerSockets_ n !! peerId);
      match it with
      | None => mret tt
      | Some _ =>
        match ready with
        | RecvError what => mthrow (zmq_error what)
        | RecvFrame data => ProcessFrame z now peerId data
        | _ => mret tt
        end
      end)
  end.

(** One pass of the loop of [PollMessages]; [poll_error] is what [zmq::poll] throws. *)
Definition PollMessages_pass `{UnorderedIter} (z : Zmq) (now : nat → Clock) (poll_error : option string)
    (recv : string → recv_result) : stM (Net U) unit :=
  running ← st_gets running_;
  if negb running then mret tt
  else
    peerIds ← lock_guard (st_gets (λ n, (iter (dealerSockets_ n)).*1));
    match peerIds with
    | [] => mret tt
    | _ =>
      st_catch
        (zmq_call poll_error;;
         st_for (imap pair peerIds) (λ '(i, peerId), PollDealer z (now i) recv peerId))
        (catch_zmq (λ _, mret tt))
    end.
End Network.

#[global] Arguments SendToPeer : simpl never.
#[global] Arguments SendViaRouter : simpl never.
#[global] Arguments HandleHandshake : simpl never.
#[global] Arguments HandleMessage : simpl never.
#[global] Arguments ProcessFrame : simpl never.
