(* ===== verification/NetworkFacts.v ===== *)
(** Theorems about the network manager: what each send puts on the wire, the locking
    of [ConnectToPeer] and [BroadcastMessage], the states the program can reach, and
    the life cycle. What is received is the subject of [Handshake]. *)

From Stdlib Require Import Strings.Ascii.
From S2P Require Import Prelude CxxText Message PeerManager PeerFile Network.

(** ** Running the pieces *)

(** What a router send adds to the wire. *)
Definition routed {U} (z : Zmq) (n : Net U) (id : string) (data : list byte) : list out_frame :=
  match routerSocket_ n, zmq_send_id z id, zmq_send z (ToRouter id data) with
  | Some _, None, Sent => [ToRouter id data]
  | _, _, _ => []
  end.

(** What a send through the dealer of [peerId] adds to the wire. *)
Definition dealt {U} (z : Zmq) (n : Net U) (peerId : string) (data : list byte) : list out_frame :=
  match dealerSockets_ n !! peerId with
  | Some d => match zmq_send z (ToDealer (d_endpoint d) data) with
              | Sent => [ToDealer (d_endpoint d) data] | _ => [] end
  | None => []
  end.

Definition log {U} (frames : list out_frame) (n : Net U) : Net U := put_wire (wire n ++ frames) n.

Section Runs.
Context {U : Type}.
Implicit Types n : Net U.

Lemma log_nil n : log [] n = n.
Proof. destruct n. unfold log, put_wire. cbn. by rewrite app_nil_r. Qed.

Lemma log_app n a b : log b (log a n) = log (a ++ b) n.
Proof. unfold log, put_wire. cbn. by rewrite app_assoc. Qed.

Lemma put_captured_id n : put_captured (captured n) n = n.
Proof. by destruct n. Qed.

Lemma captured_put pc n : captured (put_captured pc n) = pc.
Proof. by destruct pc. Qed.

Lemma put_socketsMutex_twice b n : socketsMutex_ n = b → put_socketsMutex b (put_socketsMutex true n) = n.
Proof. destruct n. cbn. by intros ->. Qed.

Lemma on_pm_run {A} (m : stM PeerManager A) n r pm' :
  m (peerManager_ n) = (r, pm') → on_pm m n = (r, put_captured (pm', client n) n).
Proof. intros E. unfold on_pm, zoom. by rewrite E. Qed.

Lemma on_pm_read {A} (m : stM PeerManager A) n r :
  m (peerManager_ n) = (r, peerManager_ n) → on_pm m n = (r, n).
Proof. intros E. unfold on_pm, zoom. rewrite E. by destruct n. Qed.

Lemma SendViaRouter_run z id msg n :
  SendViaRouter z id msg n = (Ok tt, log (routed z n id (Serialize msg)) n).
Proof.
  unfold SendViaRouter, routed. st_simpl. destruct (routerSocket_ n); cbn; [|by rewrite log_nil].
  unfold st_catch, zmq_call. st_simpl.
  destruct (zmq_send_id z id); cbn; [by rewrite log_nil|].
  by destruct (zmq_send z _); cbn; rewrite ?log_nil.
Qed.

Lemma SendToPeer_run z id msg n :
  socketsMutex_ n = false →
  SendToPeer z id msg n = (Ok tt, log (dealt z n id (Serialize msg)) n).
Proof.
  intros Hf. destruct n; cbn in Hf; subst. unfold SendToPeer, dealt, lock_guard. st_simpl.
  destruct (_ !! id); cbn; [|by rewrite log_nil].
  unfold st_catch. by destruct (zmq_send z _); cbn; rewrite ?log_nil.
Qed.

Lemma SendToPeer_relock z id msg n :
  socketsMutex_ n = true → SendToPeer z id msg n = (Undefined RelockOwnedMutex, n).
Proof. intros Hf. by apply lock_guard_owned. Qed.

Lemma Stop_run n :
  running_ n = true → socketsMutex_ n = false →
  Stop n = (Ok tt, put_threads false false (put_router None (put_dealers ∅ (put_running false n)))).
Proof.
  intros Hr Hf. unfold Stop, Stop_running, Stop_dealers, Stop_router, Stop_join, lock_guard. st_simpl.
  rewrite Hr. cbn. rewrite Hf. destruct n as [? ? ? ? []]; cbn in *; by subst.
Qed.

(** Sends through the router, one per connected peer of a list. *)
Definition routed_all (z : Zmq) (n : Net U) (data : list byte) (peers : list PeerInfo) : list out_frame :=
  concat (map (λ p, if pi_isConnected p then routed z n (pi_id p) data else []) peers).

Lemma routed_log z n f id data : routed z (log f n) id data = routed z n id data.
Proof. done. Qed.

Lemma route_to_peers z msg peers n :
  st_for peers (λ peer, if pi_isConnected peer then SendViaRouter z (pi_id peer) msg else mret tt) n
  = (Ok tt, log (routed_all z n (Serialize msg) peers) n).
Proof.
  revert n. induction peers as [|p peers IH]; intros n; [cbn; by rewrite log_nil|].
  cbn [st_for]. destruct (pi_isConnected p) eqn:Hc.
  - erewrite st_bind_Ok by apply SendViaRouter_run. rewrite IH, log_app.
    unfold routed_all. cbn [map concat]. by rewrite Hc.
  - erewrite st_bind_Ok by reflexivity. rewrite IH.
    unfold routed_all. cbn [map concat]. by rewrite Hc.
Qed.
End Runs.

(** ** The self-deadlock *)

Lemma ConnectToPeer_run_relock {U} (n : Net U) z now address port :
  socketsMutex_ n = false →
  let identity := pi_id (localPeer_ (peerManager_ n)) in
  let endpoint := "tcp://" +:+ address +:+ ":" +:+ to_string port in
  zmq_dealer z identity = None → zmq_connect z endpoint = None →
  ConnectToPeer z now address port n =
    (Undefined RelockOwnedMutex,
     put_socketsMutex true (put_dealers
       (<[peer_key address port := mkDealer identity endpoint]> (dealerSockets_ n)) n)).
Proof.
  intros Hf identity endpoint Hd Hc. unfold ConnectToPeer, lock_guard. cbn [locked Net_Mutex]. rewrite Hf.
  unfold st_catch, zmq_call, on_pm, zoom, GetLocalPeer. st_simpl.
  fold identity. rewrite Hd. cbn. fold endpoint. rewrite Hc. cbn.
  by rewrite SendToPeer_relock.
Qed.

(** [ConnectToPeer] can never complete a connection: once the dealer is created
    and connected, it has been stored under "address:port" and the call to
    [SendToPeer] locks [socketsMutex_] a second time in the same thread. No
    handshake leaves the process. *)
Theorem ConnectToPeer_relocks {U} (n : Net U) z now address port :
  socketsMutex_ n = false →
  let identity := pi_id (localPeer_ (peerManager_ n)) in
  let endpoint := "tcp://" +:+ address +:+ ":" +:+ to_string port in
  zmq_dealer z identity = None → zmq_connect z endpoint = None →
  ConnectToPeer z now address port n =
    (Undefined RelockOwnedMutex,
     put_socketsMutex true (put_dealers
       (<[peer_key address port := mkDealer identity endpoint]> (dealerSockets_ n)) n)).
Proof. apply ConnectToPeer_run_relock. Qed.

Definition test_net : Net unit :=
  NetworkManager_new (mkPM false ∅ (mkPeer "me" "0.0.0.0" (Some 9090) [Byte.x01] true 0)) tt.

Lemma ConnectToPeer_relocks_witness :
  (ConnectToPeer zmq_all_good 0 "localhost" 9091 test_net).1 = Undefined RelockOwnedMutex.
Proof.
  rewrite (ConnectToPeer_relocks test_net zmq_all_good 0 "localhost" 9091);
    reflexivity.
Defined.

(** When ZeroMQ refuses the connection, [ConnectToPeer] rethrows its exception with
    the manager as it was and the mutex free. *)
Theorem ConnectToPeer_refused {U} (n : Net U) z now address port what :
  socketsMutex_ n = false →
  let identity := pi_id (localPeer_ (peerManager_ n)) in
  let endpoint := "tcp://" +:+ address +:+ ":" +:+ to_string port in
  zmq_dealer z identity = Some what ∨
    (zmq_dealer z identity = None ∧ zmq_connect z endpoint = Some what) →
  ConnectToPeer z now address port n = (Throw (zmq_error what), n).
Proof.
  intros Hf identity endpoint Hz. unfold ConnectToPeer, lock_guard. cbn [locked Net_Mutex]. rewrite Hf.
  unfold st_catch, zmq_call, on_pm, zoom, GetLocalPeer. st_simpl. fold identity.
  destruct Hz as [Hd|[Hd Hc]]; rewrite Hd; cbn; [|fold endpoint; rewrite Hc; cbn];
    destruct n; cbn in *; by subst.
Qed.

Lemma ConnectToPeer_refused_witness :
  ConnectToPeer {| zmq_dealer _ := None; zmq_connect _ := Some "Invalid argument"; zmq_router := None;
                   zmq_bind _ := None; zmq_send_id _ := None; zmq_send _ := Sent;
                   router_thread_start := None; poller_thread_start := None |}
    0 "no such host" 1 test_net = (Throw (zmq_error "Invalid argument"), test_net).
Proof. apply ConnectToPeer_refused; [reflexivity|]. right. split; reflexivity. Defined.

(** ** Broadcast *)

Lemma BroadcastMessage_cases {U} (it : UnorderedIter) (n : Net U) z msg :
  socketsMutex_ n = false → mutex_ (peerManager_ n) = false →
  (dealerSockets_ n = ∅ →
   BroadcastMessage z msg n =
     (Ok tt, log (routed_all z n (Serialize msg) (iter (peers_ (peerManager_ n))).*2) n)) ∧
  (dealerSockets_ n ≠ ∅ →
   BroadcastMessage z msg n = (Undefined RelockOwnedMutex, put_socketsMutex true n)).
Proof.
  intros Hf Hpm. unfold BroadcastMessage. split; intros Hd.
  - rewrite (lock_guard_run _ n (Ok tt) (log (routed_all z n (Serialize msg)
      (iter (peers_ (peerManager_ n))).*2) (put_socketsMutex true n)));
      [destruct n; cbn in *; by subst|done| |done].
    cbn [set_locked Net_Mutex]. unfold mbind, stM_bind.
    erewrite st_bind_Ok by reflexivity. cbn [dealerSockets_ put_socketsMutex].
    rewrite Hd, (proj2 (iter_empty ∅) eq_refl). cbn [st_for].
    erewrite st_bind_Ok by reflexivity.
    erewrite st_bind_Ok by (apply on_pm_read; by apply GetAllPeers_run).
    exact (route_to_peers z msg _ (put_socketsMutex true n)).
  - unfold lock_guard. cbn [locked Net_Mutex]. rewrite Hf. cbn [set_locked Net_Mutex].
    unfold mbind, stM_bind. erewrite st_bind_Ok by reflexivity.
    cbn [dealerSockets_ put_socketsMutex].
    destruct (iter (dealerSockets_ n)) as [|[k d] l] eqn:E; [by apply iter_empty in E|].
    cbn [st_for]. erewrite st_bind_Undefined; [reflexivity|].
    erewrite st_bind_Undefined; [reflexivity|]. by apply SendToPeer_relock.
Qed.

(** [BroadcastMessage]. With no dealer, the frames it puts on the wire are exactly
    the serialised message addressed to each connected peer of the registry that
    the router accepts, in the registry's order, and nothing else changes. With
    any dealer, it locks its own mutex again before sending anything. *)
Theorem BroadcastMessage_spec {U} (it : UnorderedIter) (n : Net U) z msg :
  socketsMutex_ n = false → mutex_ (peerManager_ n) = false →
  (dealerSockets_ n = ∅ →
   BroadcastMessage z msg n =
     (Ok tt, log (routed_all z n (Serialize msg) (iter (peers_ (peerManager_ n))).*2) n)) ∧
  (dealerSockets_ n ≠ ∅ →
   BroadcastMessage z msg n = (Undefined RelockOwnedMutex, put_socketsMutex true n)).
Proof. apply BroadcastMessage_cases. Qed.

Lemma BroadcastMessage_spec_witness :
  (@BroadcastMessage unit tree_order zmq_all_good (mkMessage PING [] 0) test_net).1 = Ok tt.
Proof.
  destruct (BroadcastMessage_spec tree_order test_net zmq_all_good (mkMessage PING [] 0)) as [H _];
    [reflexivity|reflexivity|]. rewrite H; reflexivity.
Defined.

(** [GetConnectedPeers] answers the keys of the dealers followed by the ids of the
    connected peers of the registry. *)
Theorem GetConnectedPeers_spec {U} (it : UnorderedIter) (n : Net U) :
  socketsMutex_ n = false → mutex_ (peerManager_ n) = false →
  GetConnectedPeers n =
    (Ok ((iter (dealerSockets_ n)).*1 ++
         map pi_id (filter (λ p, pi_isConnected p = true) (iter (peers_ (peerManager_ n))).*2)), n).
Proof.
  intros Hf Hpm. unfold GetConnectedPeers.
  assert (∀ (l : list (string * dealer)) acc,
    foldl (λ peers '(peerId, _), peers ++ [peerId]) acc l = acc ++ l.*1) as E1.
  { induction l as [|[k d] l IH]; intros acc; cbn; [by rewrite app_nil_r|].
    by rewrite IH, <- app_assoc. }
  assert (∀ l acc,
    foldl (λ peers peer, if pi_isConnected peer then peers ++ [pi_id peer] else peers) acc l
    = acc ++ map pi_id (filter (λ p, pi_isConnected p = true) l)) as E2.
  { induction l as [|p l IH]; intros acc; [cbn; by rewrite app_nil_r|].
    rewrite filter_cons. cbn [foldl]. rewrite IH.
    case_decide as Hp; [by rewrite Hp, <- app_assoc|].
    by apply not_true_is_false in Hp as ->. }
  match goal with |- lock_guard ?m n = (?r, n) =>
    rewrite (lock_guard_run m n r (put_socketsMutex true n)) end;
    [destruct n; cbn in *; by subst|done| |done].
  cbn [set_locked Net_Mutex]. unfold mbind, stM_bind. erewrite st_bind_Ok by reflexivity.
  erewrite st_bind_Ok by (apply on_pm_read; by apply PeerManager.GetAllPeers_run).
  st_simpl. by rewrite E1, E2.
Qed.

Lemma GetConnectedPeers_spec_witness :
  (GetConnectedPeers (H := reverse_order)
     (put_dealers {[ "h:1" := mkDealer "me" "tcp://h:1" ]} test_net)).1 = Ok ["h:1"].
Proof.
  rewrite (GetConnectedPeers_spec reverse_order
             (put_dealers {[ "h:1" := mkDealer "me" "tcp://h:1" ]} test_net)); reflexivity.
Defined.

(** ** Reachable managers *)

(** One completed call of a public member function, or one completed pass of a
    worker loop. A call whose behaviour is undefined has no successor. *)
Inductive net_call (U : Type) :=
  | CallStart (z : Zmq) (port : Z)
  | CallStop
  | CallConnect (z : Zmq) (now : Z) (address : string) (port : Z)
  | CallDisconnect (now : Clock) (peerId : string)
  | CallSend (z : Zmq) (peerId : string) (message : Message)
  | CallBroadcast (it : UnorderedIter) (z : Zmq) (message : Message)
  | CallGetConnected (it : UnorderedIter)
  | CallSetMessageHandler (h : option (MessageHandler U))
  | CallSetConnectionHandler (h : option (ConnectionHandler U))
  | PassRouter (z : Zmq) (now : Clock) (ev : router_event)
  | PassPoller (it : UnorderedIter) (z : Zmq) (now : nat → Clock) (poll_error : option string)
      (recv : string → recv_result).
Arguments CallStart {_}. Arguments CallStop {_}. Arguments CallConnect {_}.
Arguments CallDisconnect {_}. Arguments CallSend {_}. Arguments CallBroadcast {_}.
Arguments CallGetConnected {_}. Arguments CallSetMessageHandler {_}.
Arguments CallSetConnectionHandler {_}. Arguments PassRouter {_}. Arguments PassPoller {_}.

Definition run_call {U} (c : net_call U) : stM (Net U) unit :=
  match c with
  | CallStart z port => Start z port
  | CallStop => Stop
  | CallConnect z now address port => ConnectToPeer z now address port
  | CallDisconnect now peerId => DisconnectPeer now peerId
  | CallSend z peerId message => SendMessage z peerId message
  | CallBroadcast it z message => BroadcastMessage z message
  | CallGetConnected it => _ ← GetConnectedPeers; mret tt
  | CallSetMessageHandler h => SetMessageHandler h
  | CallSetConnectionHandler h => SetConnectionHandler h
  | PassRouter z now ev => RouteMessages_pass z now ev
  | PassPoller it z now poll_error recv => PollMessages_pass z now poll_error recv
  end.

Inductive net_step {U} (n : Net U) : Net U → Prop :=
  | net_step_call c : is_Undefined (run_call c n).1 = false → net_step n (run_call c n).2
  | net_step_world pm u : net_step n (put_captured (pm, u) n).
    (** the registry and the client's data are shared with the other components *)

(** What holds of the manager between calls. *)
Record net_inv {U} (n : Net U) : Prop := {
  ni_free : socketsMutex_ n = false;
  ni_no_dealers : dealerSockets_ n = ∅;
  ni_running : running_ n = true → routerSocket_ n ≠ None;
  ni_stopped : running_ n = false →
    routerSocket_ n = None ∧ routerThread_ n = false ∧ pollerThread_ n = false
}.

(** Code that touches only the wire and what the handlers capture keeps the rest. *)
Definition same_sockets {U} (n n' : Net U) : Prop :=
  socketsMutex_ n' = socketsMutex_ n ∧ dealerSockets_ n' = dealerSockets_ n ∧
  routerSocket_ n' = routerSocket_ n ∧ running_ n' = running_ n ∧
  routerThread_ n' = routerThread_ n ∧ pollerThread_ n' = pollerThread_ n ∧
  listenPort_ n' = listenPort_ n ∧
  userMessageHandler_ n' = userMessageHandler_ n ∧ connectionHandler_ n' = connectionHandler_ n.

Section Frame.
Context {U : Type}.
Implicit Types n : Net U.

#[global] Instance same_sockets_preorder : PreOrder (@same_sockets U).
Proof.
  split; [by intros n|]. intros a b c. unfold same_sockets.
  intros (->&->&->&->&->&->&->&->&->) (->&->&->&->&->&->&->&->&->). done.
Qed.

Lemma same_sockets_inv n n' : same_sockets n n' → net_inv n → net_inv n'.
Proof.
  intros (E1 & E2 & E3 & E4 & E5 & E6 & _) [H1 H2 H3 H4].
  split; rewrite ?E1, ?E2, ?E3, ?E4, ?E5, ?E6; done.
Qed.

(** [m] keeps the sockets from any state. *)
Definition frames {A} (m : stM (Net U) A) : Prop := ∀ n, same_sockets n (m n).2.

Lemma frames_bind {A B} (f : A → stM (Net U) B) m :
  frames m → (∀ a, frames (f a)) → frames (st_bind f m).
Proof.
  intros Hm Hf n. unfold st_bind. specialize (Hm n).
  destruct (m n) as [[a| |] n']; cbn in *; [|done..]. etrans; [exact Hm|apply Hf].
Qed.

Lemma frames_catch {A} (m : stM (Net U) A) h :
  frames m → (∀ e k, h e = Some k → frames k) → frames (st_catch m h).
Proof.
  intros Hm Hh n. unfold st_catch. specialize (Hm n).
  destruct (m n) as [[a|e|] n']; cbn in *; [done| |done].
  destruct (h e) as [k|] eqn:E; [|done]. etrans; [exact Hm|by apply (Hh e)].
Qed.

Lemma frames_ret {A} (a : A) : frames (st_ret a).
Proof. by intros n. Qed.
Lemma frames_gets {A} (f : Net U → A) : frames (st_gets f).
Proof. by intros n. Qed.
Lemma frames_lift {A} (r : outcome A) : frames (st_lift r).
Proof. by intros n. Qed.
Lemma frames_on_pm {A} (m : stM PeerManager A) : frames (on_pm m).
Proof. intros n. unfold on_pm, zoom. by destruct (m _). Qed.
Lemma frames_on_captured {A} (m : stM (PeerManager * U) A) : frames (on_captured m).
Proof. intros n. unfold on_captured, zoom. by destruct (m _). Qed.
Lemma frames_call_connection now peerId b : frames (call_connection now peerId b).
Proof.
  apply frames_bind; [apply frames_gets|]. intros [h|]; [apply frames_on_captured|apply frames_ret].
Qed.
Lemma frames_SendViaRouter z id msg : frames (SendViaRouter z id msg).
Proof. intros n. by rewrite SendViaRouter_run. Qed.
End Frame.

#[export] Hint Resolve frames_bind frames_catch frames_ret frames_gets frames_lift frames_on_pm
  frames_on_captured frames_call_connection frames_SendViaRouter : cxx.

Lemma frames_HandleMessage {U} z now senderId msg : frames (@HandleMessage U z now senderId msg).
Proof.
  unfold HandleMessage, mbind, stM_bind. apply frames_bind.
  - case_decide; [|apply frames_ret]. unfold HandleHandshake.
    destruct (parse_handshake _) as [[peerId key]|]; [|apply frames_ret].
    unfold mbind, stM_bind. apply frames_bind; [auto with cxx|]. intros [address port].
    apply frames_bind; [auto with cxx|]. intros _. apply frames_bind; [auto with cxx|].
    intros _. case_decide; [|apply frames_ret]. apply frames_bind; auto with cxx.
  - intros _. apply frames_bind; [auto with cxx|]. intros [h|]; auto with cxx.
    apply frames_ret.
Qed.

Lemma frames_ProcessFrame {U} z now senderId data : frames (@ProcessFrame U z now senderId data).
Proof.
  apply frames_catch; [apply frames_bind; [apply frames_lift|intros; apply frames_HandleMessage]|].
  intros e k [= <-]. apply frames_ret.
Qed.

Section Reach.
Context {U : Type}.
Implicit Types n : Net U.

Lemma lock_noop {A} (m : stM (Net U) A) n a :
  socketsMutex_ n = false → m (put_socketsMutex true n) = (Ok a, put_socketsMutex true n) →
  lock_guard m n = (Ok a, n).
Proof.
  intros Hf E. erewrite lock_guard_run by done. cbn [set_locked Net_Mutex].
  destruct n; cbn in *; by subst.
Qed.

(** Start from a state where the invariant holds: what each outcome leaves. *)
Lemma Start_cases z port n :
  net_inv n →
  (running_ n = true ∧ Start z port n = (Ok tt, n)) ∨
  (running_ n = false ∧
   let bound := "tcp://*:" +:+ to_string port in
   let started r p := put_threads r p (put_router (Some bound) (put_running true (put_listenPort port n))) in
   Start z port n =
     match zmq_router z, zmq_bind z bound with
     | Some what, _ | None, Some what => (Throw (zmq_error what), put_listenPort port n)
     | None, None =>
       match router_thread_start z, poller_thread_start z with
       | Some what, _ => (Throw (system_error what), started false false)
       | None, Some what => (Throw (system_error what), started true false)
       | None, None => (Ok tt, started true true)
       end
     end).
Proof.
  intros [_ _ _ Hstop]. destruct (running_ n) eqn:Hr.
  { left. split; [done|]. unfold Start. st_simpl. by rewrite Hr. }
  right. split; [done|]. destruct (Hstop eq_refl) as (Hrt & Ht1 & Ht2).
  destruct n as [pm u mh ch rt ds mx t1 t2 rn lp w]; cbn in Hr, Hrt, Ht1, Ht2; subst.
  cbn zeta. unfold Start, st_catch, zmq_call, start_thread. st_simpl.
  destruct (zmq_router z); cbn; [done|].
  change ("tcp://*:" +:+ to_string port) with (String.append "tcp://*:" (to_string port)).
  destruct (zmq_bind z _); cbn; [done|].
  destruct (router_thread_start z); cbn; [done|].
  by destruct (poller_thread_start z); cbn.
Qed.

Lemma DisconnectPeer_absent now k n :
  socketsMutex_ n = false → dealerSockets_ n !! k = None → DisconnectPeer now k n = (Ok tt, n).
Proof.
  intros Hf Hk. apply lock_noop; [done|]. unfold mbind, stM_bind.
  erewrite st_bind_Ok by reflexivity. cbn. by rewrite Hk.
Qed.

Lemma SendMessage_absent z k msg n :
  socketsMutex_ n = false → dealerSockets_ n !! k = None → SendMessage z k msg n = (Ok tt, n).
Proof.
  intros Hf Hk. unfold SendMessage. rewrite SendToPeer_run by done.
  unfold dealt. by rewrite Hk, log_nil.
Qed.

Lemma PollMessages_pass_idle `{UnorderedIter} z now err recv n :
  socketsMutex_ n = false → dealerSockets_ n = ∅ → PollMessages_pass z now err recv n = (Ok tt, n).
Proof.
  intros Hf Hd. unfold PollMessages_pass, mbind, stM_bind. erewrite st_bind_Ok by reflexivity.
  destruct (running_ n); [|done]. cbn [negb].
  erewrite st_bind_Ok by (apply lock_noop; [done|reflexivity]). cbn [dealerSockets_ put_socketsMutex].
  by rewrite Hd, (proj2 (iter_empty ∅) eq_refl).
Qed.

Lemma RouteMessages_pass_frames z now ev : frames (@RouteMessages_pass U z now ev).
Proof.
  unfold RouteMessages_pass, RouteMessages_body, mbind, stM_bind.
  apply frames_bind; [apply frames_gets|].
  intros []; cbn [negb]; [|apply frames_ret]. apply frames_bind; [apply frames_gets|].
  intros [r|]; [|apply frames_lift]. destruct ev; try apply frames_ret. apply frames_ProcessFrame.
Qed.

Lemma on_pm_GetAllPeers_owned `{UnorderedIter} n :
  mutex_ (peerManager_ n) = true → on_pm GetAllPeers n = (Undefined RelockOwnedMutex, n).
Proof. intros Hm. apply on_pm_read. by apply lock_guard_owned. Qed.

(** With no dealer, a broadcast or an enumeration touches no socket. *)
Lemma broadcast_same `{UnorderedIter} z msg n :
  net_inv n → is_Undefined (BroadcastMessage z msg n).1 = false →
  same_sockets n (BroadcastMessage z msg n).2.
Proof.
  intros [Hf Hd _ _] Hdef. destruct (mutex_ (peerManager_ n)) eqn:Hm.
  - exfalso. revert Hdef. unfold BroadcastMessage, lock_guard. cbn [locked Net_Mutex]. rewrite Hf.
    unfold mbind, stM_bind. erewrite st_bind_Ok by reflexivity.
    cbn [dealerSockets_ put_socketsMutex set_locked Net_Mutex].
    rewrite Hd, (proj2 (iter_empty ∅) eq_refl). cbn [st_for].
    erewrite st_bind_Ok by reflexivity.
    by erewrite st_bind_Undefined by (by apply on_pm_GetAllPeers_owned).
  - by rewrite (proj1 (BroadcastMessage_cases H n z msg Hf Hm) Hd).
Qed.

Lemma get_connected_same `{UnorderedIter} n :
  net_inv n → is_Undefined (GetConnectedPeers n).1 = false →
  (GetConnectedPeers n).2 = n.
Proof.
  intros [Hf Hd _ _] Hdef. destruct (mutex_ (peerManager_ n)) eqn:Hm.
  - exfalso. revert Hdef. unfold GetConnectedPeers, lock_guard. cbn [locked Net_Mutex]. rewrite Hf.
    unfold mbind, stM_bind. erewrite st_bind_Ok by reflexivity.
    by erewrite st_bind_Undefined by (by apply on_pm_GetAllPeers_owned).
  - by rewrite (GetConnectedPeers_spec H n Hf Hm).
Qed.

(** Between calls, connecting either deadlocks or fails without a trace. *)
Lemma ConnectToPeer_result z now address port n :
  net_inv n →
  (∃ n', ConnectToPeer z now address port n = (Undefined RelockOwnedMutex, n')) ∨
  (∃ e, ConnectToPeer z now address port n = (Throw e, n)).
Proof.
  intros [Hf _ _ _].
  destruct (zmq_dealer z (pi_id (localPeer_ (peerManager_ n)))) as [what|] eqn:Hz.
  { right. exists (zmq_error what).
    rewrite (ConnectToPeer_refused n z now address port what); [done|done|by left]. }
  destruct (zmq_connect z ("tcp://" +:+ address +:+ ":" +:+ to_string port)) as [what|] eqn:Hc.
  { right. exists (zmq_error what).
    rewrite (ConnectToPeer_refused n z now address port what); [done|done|by right]. }
  left. eexists. by apply ConnectToPeer_run_relock.
Qed.

Lemma connect_same z now address port n :
  net_inv n → is_Undefined (ConnectToPeer z now address port n).1 = false →
  (ConnectToPeer z now address port n).2 = n.
Proof. intros Hinv. by destruct (ConnectToPeer_result z now address port n Hinv) as [[n' ->]|[e ->]]. Qed.

Lemma run_call_inv (c : net_call U) n :
  net_inv n → is_Undefined (run_call c n).1 = false → net_inv (run_call c n).2.
Proof.
  intros Hinv Hdef. pose proof (ni_free _ Hinv) as Hf. pose proof (ni_no_dealers _ Hinv) as Hd.
  destruct c; cbn [run_call] in *.
  - destruct (Start_cases z port n) as [(_ & ->)|(Hr & ->)]; [done|done|].
    pose proof (ni_stopped _ Hinv Hr) as (? & ? & ?).
    cbn zeta. destruct (zmq_router z); [|destruct (zmq_bind z _);
      [|destruct (router_thread_start z); [|destruct (poller_thread_start z)]]];
      cbn; split; cbn; try done; by rewrite Hr.
  - destruct (running_ n) eqn:Hr; [|unfold Stop; st_simpl; by rewrite Hr].
    rewrite Stop_run by done. by split.
  - by rewrite connect_same.
  - by rewrite DisconnectPeer_absent by (done || by rewrite Hd).
  - by rewrite SendMessage_absent by (done || by rewrite Hd).
  - eapply same_sockets_inv; [by apply broadcast_same|done].
  - unfold mbind, stM_bind, st_bind in *. pose proof (get_connected_same n Hinv) as E.
    destruct (GetConnectedPeers n) as [[l| |] n']; cbn in *; try done; by rewrite E.
  - destruct Hinv. by split.
  - destruct Hinv. by split.
  - eapply same_sockets_inv; [apply RouteMessages_pass_frames|done].
  - by rewrite PollMessages_pass_idle.
Qed.
End Reach.

Lemma net_reachable {U} pm u (n : Net U) :
  rtc net_step (NetworkManager_new pm u) n → net_inv n.
Proof.
  intros Hrun.
  assert (net_inv (NetworkManager_new pm u)) as H0 by by split.
  induction Hrun as [n|n n1 n2 Hstep _ IH]; [done|]. apply IH.
  destruct Hstep as [c Hdef|pm' u']; [by apply run_call_inv|]. destruct H0. by split.
Qed.

(** C11. In every state reachable by completed calls of the public interface and completed
    passes of the two worker loops, interleaved in any order with anything the
    other components do to the registry, the manager holds no dealer socket, its
    mutex is free, and the router socket exists whenever the manager runs. *)
Theorem net_reachable_inv {U} pm u (n : Net U) :
  rtc net_step (NetworkManager_new pm u) n → net_inv n.
Proof. apply net_reachable. Qed.

Lemma net_reachable_inv_witness :
  net_inv (Start zmq_all_good 9090 test_net).2.
Proof.
  eapply net_reachable_inv. eapply rtc_l; [|apply rtc_refl].
  apply (net_step_call test_net (CallStart zmq_all_good 9090)). reflexivity.
Defined.

(** C36. The life cycle of a manager. [Start] of a stopped manager binds the wildcard
    address of its port and starts both loops; a second [Start] is ignored, and
    [Stop] brings everything back but the port number; [Stop] of a stopped manager
    does nothing. When ZeroMQ refuses the router socket, the exception leaves the
    manager stopped, so that [Start] can be tried again. *)
Theorem Start_Stop {U} (n : Net U) z port :
  net_inv n → running_ n = false →
  let n' := (Start z port n).2 in
  Stop n = (Ok tt, n) ∧
  ((Start z port n).1 = Ok tt →
     running_ n' = true ∧ routerSocket_ n' = Some ("tcp://*:" +:+ to_string port) ∧
     routerThread_ n' = true ∧ pollerThread_ n' = true ∧
     (∀ z2 port2, Start z2 port2 n' = (Ok tt, n')) ∧
     Stop n' = (Ok tt, put_listenPort port n)) ∧
  (∀ what, (Start z port n).1 = Throw (zmq_error what) →
     n' = put_listenPort port n ∧
     ((Start zmq_all_good port n').1 = Ok tt)).
Proof.
  intros Hinv Hr n'. pose proof (ni_stopped _ Hinv Hr) as (Hrt & Ht1 & Ht2).
  pose proof (ni_free _ Hinv) as Hf. pose proof (ni_no_dealers _ Hinv) as Hd.
  assert (∀ s b1 b2, Stop (put_threads b1 b2 (put_router s (put_running true (put_listenPort port n))))
    = (Ok tt, put_listenPort port n)) as HStop.
  { intros. rewrite Stop_run by done. destruct n; cbn in *; by subst. }
  split; [unfold Stop; st_simpl; by rewrite Hr|]. subst n'.
  destruct (Start_cases z port n Hinv) as [(? & _)|(_ & ->)]; [congruence|]. cbn zeta.
  destruct (zmq_router z) as [w|]; [|destruct (zmq_bind z _) as [w|]].
  3: { destruct (router_thread_start z); [done|]. destruct (poller_thread_start z); [done|].
       split; [|done]. intros _. split_and!; [done..|]. apply HStop. }
  all: split; [done|]; intros what _; split; [done|]; cbn [snd];
    destruct (Start_cases zmq_all_good port (put_listenPort port n)) as [(? & _)|(_ & ->)];
    [by destruct Hinv|cbn in *; congruence|done].
Qed.

Lemma Start_Stop_witness :
  Stop (Start zmq_all_good 9090 test_net).2 = (Ok tt, put_listenPort 9090 test_net).
Proof.
  apply (Start_Stop test_net zmq_all_good 9090); [by split|reflexivity|reflexivity].
Defined.

(** Consequently point-to-point sending does nothing: in every reachable state
    [SendMessage] returns normally, for any peer and message, without handing a
    single frame to ZeroMQ, and [DisconnectPeer] finds nothing to disconnect. *)
Theorem SendMessage_never_sends {U} pm u (n : Net U) z now peerId msg :
  rtc net_step (NetworkManager_new pm u) n →
  SendMessage z peerId msg n = (Ok tt, n) ∧ DisconnectPeer now peerId n = (Ok tt, n).
Proof.
  intros [Hf Hd _ _]%net_reachable.
  split; [apply SendMessage_absent|apply DisconnectPeer_absent]; rewrite ?Hd; done.
Qed.

Lemma SendMessage_never_sends_witness :
  wire (SendMessage zmq_all_good "abc" (mkMessage TEXT [Byte.x68] 0)
    (Start zmq_all_good 9090 test_net).2).2 = [].
Proof.
  rewrite (proj1 (SendMessage_never_sends (peerManager_ test_net) tt
    (Start zmq_all_good 9090 test_net).2 zmq_all_good (λ _, 0) "abc" (mkMessage TEXT [Byte.x68] 0)
    (rtc_l _ _ _ _ (net_step_call test_net (CallStart zmq_all_good 9090) eq_refl) (rtc_refl _ _)))).
  reflexivity.
Defined.
