(* ===== verification/Isolation.v ===== *)
(** Programs on a network of their own: any number of network managers whose routers
    receive only what a dealer of one of them has sent. Since [ConnectToPeer] stops at
    its second lock of [socketsMutex_], no dealer ever sends anything. *)

From S2P Require Import Prelude CxxText Message PeerManager Network NetworkFacts.

(** A system: one manager per program, each with what its client keeps. *)
Definition system (U : Type) : Type := list (Net U).

Definition dealt_by {U} (σ : system U) (data : list byte) : Prop :=
  ∃ i n endpoint, σ !! i = Some n ∧ ToDealer endpoint data ∈ wire n.

(** One call or one pass at one program. Whatever its outcome the program goes on from
    the state it leaves: a thread that deadlocks leaves the others running. A frame
    that a router hands over was sent by a dealer, as ZeroMQ documents. *)
Inductive system_step {U} (σ : system U) : system U → Prop :=
  | system_call i n c :
      σ !! i = Some n →
      (∀ z now frame0 data, c = PassRouter z now (RouterFrames frame0 data) → dealt_by σ data) →
      system_step σ (<[i := (run_call c n).2]> σ)
  | system_world i n pm u :
      σ !! i = Some n → system_step σ (<[i := put_captured (pm, u) n]> σ).

(** * Lemmas *)

Section Isolation.
Context {U : Type}.
Implicit Types n : Net U.

Definition undealt n : Prop := ∀ endpoint data, ToDealer endpoint data ∉ wire n.

(** What every program keeps: it holds a dealer only while a thread holds the mutex. *)
Definition island n : Prop := undealt n ∧ (socketsMutex_ n = true ∨ dealerSockets_ n = ∅).
(** The same, seen by the thread that holds the mutex. *)
Definition inside n : Prop := undealt n ∧ socketsMutex_ n = true ∧ dealerSockets_ n = ∅.

Definition pres (P : Net U → Prop) {A} (m : stM (Net U) A) : Prop := ∀ n, P n → P (m n).2.

Lemma pres_bind P {A B} (f : A → stM (Net U) B) m :
  pres P m → (∀ a, pres P (f a)) → pres P (st_bind f m).
Proof.
  intros Hm Hf n Hn. unfold st_bind. specialize (Hm n Hn).
  destruct (m n) as [[a| |] n1]; [by apply Hf|done..].
Qed.
Lemma pres_catch P {A} (m : stM (Net U) A) h :
  pres P m → (∀ e k, h e = Some k → pres P k) → pres P (st_catch m h).
Proof.
  intros Hm Hh n Hn. unfold st_catch. specialize (Hm n Hn).
  destruct (m n) as [[a|e|] n1]; [done| |done]. destruct (h e) as [k|] eqn:E; [by eapply Hh|done].
Qed.
Lemma pres_for P {X} (xs : list X) f : (∀ x, pres P (f x)) → pres P (st_for xs f).
Proof. intros Hf n Hn. apply st_for_inv; [intros x s _; apply Hf|done]. Qed.
Lemma pres_ret P {A} (a : A) : pres P (mret a).
Proof. by intros n. Qed.
Lemma pres_throw P {A} (e : exn) : pres P (mthrow e : stM (Net U) A).
Proof. by intros n. Qed.
Lemma pres_gets P {A} (f : Net U → A) : pres P (st_gets f).
Proof. by intros n. Qed.
Lemma pres_modify P (f : Net U → Net U) : (∀ n, P n → P (f n)) → pres P (st_modify f).
Proof. intros Hf n. apply Hf. Qed.
Lemma pres_lift P {A} (r : outcome A) : pres P (st_lift r).
Proof. by intros n. Qed.
Lemma pres_zmq_call P e : pres P (zmq_call e).
Proof. intros n Hn. by destruct e. Qed.

(** Code that leaves the dealers and the mutex alone, and sends through the router only. *)
Definition calm {A} (m : stM (Net U) A) : Prop := ∀ n,
  dealerSockets_ (m n).2 = dealerSockets_ n ∧ socketsMutex_ (m n).2 = socketsMutex_ n ∧
  (undealt n → undealt (m n).2).

Lemma calm_island {A} (m : stM (Net U) A) : calm m → pres island m.
Proof. intros Hm n [Hw Hd]. destruct (Hm n) as (E1 & E2 & Hq). split; [auto|by rewrite E1, E2]. Qed.
Lemma calm_inside {A} (m : stM (Net U) A) : calm m → pres inside m.
Proof. intros Hm n [Hw Hd]. destruct (Hm n) as (E1 & E2 & Hq). split; [auto|by rewrite E1, E2]. Qed.

Lemma calm_on_pm {A} (m : stM PeerManager A) : calm (on_pm m).
Proof. intros n. unfold on_pm, zoom. by destruct (m _). Qed.
Lemma calm_captured {A} (m : stM (PeerManager * U) A) : calm (on_captured m).
Proof. intros n. unfold on_captured, zoom. by destruct (m _). Qed.
Lemma calm_connection now id b : calm (call_connection now id b).
Proof. intros n. unfold call_connection. st_simpl. destruct (connectionHandler_ n); [apply calm_captured|done]. Qed.
Lemma calm_SendViaRouter z id msg : calm (SendViaRouter z id msg).
Proof.
  intros n. rewrite SendViaRouter_run. split_and!; [done..|]. intros Hn ep data. cbn.
  rewrite elem_of_app. intros [Hin|Hin]; [by apply Hn in Hin|]. unfold routed in Hin.
  repeat case_match; set_solver.
Qed.

(** A guarded section, entered with no dealer held, that leaves none. *)
Lemma lock_island {A} (m : stM (Net U) A) : pres inside m → pres island (lock_guard m).
Proof.
  intros Hm n [Hw Hd]. unfold lock_guard. cbn [locked Net_Mutex].
  destruct (socketsMutex_ n) eqn:Hf; [by split; [|left]|]. destruct Hd as [|Hd]; [done|].
  specialize (Hm (set_locked true n) (conj Hw (conj eq_refl Hd))).
  destruct (m (set_locked true n)) as [[a|e|u] n1]; destruct Hm as (H1 & H2 & H3); cbn.
  - by split; [|right].
  - by split; [|right].
  - by split; [|left].
Qed.
(** Taking the mutex a second time does nothing. *)
Lemma lock_inside {A} (m : stM (Net U) A) : pres inside (lock_guard m).
Proof. intros n Hn. unfold lock_guard. cbn [locked Net_Mutex]. by rewrite (proj1 (proj2 Hn)). Qed.

Lemma SendToPeer_inside z id msg : pres inside (@SendToPeer U z id msg).
Proof. apply lock_inside. Qed.
End Isolation.

Create HintDb isolation.
#[export] Hint Resolve pres_ret pres_throw pres_gets pres_lift pres_zmq_call calm_island calm_inside calm_on_pm
  calm_captured calm_connection calm_SendViaRouter lock_inside SendToPeer_inside : isolation.
Ltac isolate := repeat first
  [ progress auto with isolation
  | apply pres_bind; [|intros] | apply pres_catch; [|intros] | apply pres_for; intros
  | apply lock_island | case_match ].
Ltac only_zmq := match goal with E : catch_zmq _ ?e = Some _ |- _ =>
  destruct e; cbn in E; try discriminate E; injection E as <- end.

Section Calls.
Context {U : Type}.
Implicit Types n : Net U.

(** Handling a frame, from either side of the mutex. *)
Lemma pres_ProcessFrame (P : Net U → Prop) z now senderId data :
  (∀ A (m : stM (Net U) A), calm m → pres P m) → pres P (ProcessFrame z now senderId data).
Proof.
  intros HP. unfold ProcessFrame, HandleMessage, HandleHandshake.
  repeat first [ apply HP; solve [auto with isolation] | progress auto with isolation
    | apply pres_bind; [|intros] | apply pres_catch; [|intros ? ? [= <-]] | case_match ].
Qed.

Lemma ProcessFrame_island z now senderId data : pres island (@ProcessFrame U z now senderId data).
Proof. apply pres_ProcessFrame. intros A m. apply calm_island. Qed.
Lemma ProcessFrame_inside z now senderId data : pres inside (@ProcessFrame U z now senderId data).
Proof. apply pres_ProcessFrame. intros A m. apply calm_inside. Qed.
#[local] Hint Resolve ProcessFrame_island ProcessFrame_inside : isolation.

Lemma ConnectToPeer_island z now address port n :
  island n → island (ConnectToPeer z now address port n).2.
Proof.
  intros Hi. pose proof Hi as [Hw Hd]. destruct (socketsMutex_ n) eqn:Hf.
  { unfold ConnectToPeer. by rewrite lock_guard_owned. }
  destruct (zmq_dealer z (pi_id (localPeer_ (peerManager_ n)))) as [what|] eqn:Hz.
  { by rewrite (ConnectToPeer_refused n z now address port what) by (done || by left). }
  destruct (zmq_connect z ("tcp://" +:+ address +:+ ":" +:+ to_string port)) as [what|] eqn:Hc.
  { by rewrite (ConnectToPeer_refused n z now address port what) by (done || by right). }
  rewrite ConnectToPeer_run_relock by done. by split; [|left].
Qed.

Lemma run_call_island (c : net_call U) n : island n → island (run_call c n).2.
Proof.
  revert n. change (pres island (run_call c)).
  destruct c as [z port| |z now address port|now id|z id msg|it z msg|it|h|h|z now ev|it z now err recv];
    cbn [run_call].
  - unfold Start, start_thread. isolate; try (apply pres_modify; (intros n [? ?]; by split)).
    only_zmq. isolate; apply pres_modify; (intros n [? ?]; by split).
  - unfold Stop, Stop_running, Stop_dealers, Stop_router, Stop_join.
    isolate; apply pres_modify; try (intros n [? ?]; by split). intros n (H1 & H2 & H3). by split_and!.
  - intros n. apply ConnectToPeer_island.
  - unfold DisconnectPeer. apply lock_island, pres_bind; [isolate|].
    intros [d|]; [|isolate]. apply pres_bind; [|isolate]. apply pres_modify.
    intros n (H1 & H2 & H3). split_and!; [done..|]. cbn. by rewrite H3, delete_empty.
  - unfold SendMessage, SendToPeer. apply lock_island.
    intros n Hn. pose proof Hn as (H1 & H2 & H3). st_simpl. rewrite H3, lookup_empty. done.
  - unfold BroadcastMessage. apply lock_island. isolate.
  - unfold GetConnectedPeers. isolate.
  - unfold SetMessageHandler. apply pres_modify. (intros n [? ?]; by split).
  - unfold SetConnectionHandler. apply pres_modify. (intros n [? ?]; by split).
  - unfold RouteMessages_pass, RouteMessages_body. isolate.
  - unfold PollMessages_pass, PollDealer. isolate.
    only_zmq. isolate.
Qed.
End Calls.

Lemma PollMessages_pass_blocked {U} (it : UnorderedIter) z now e recv (n : Net U) :
  socketsMutex_ n = true → (PollMessages_pass z now e recv n).2 = n.
Proof.
  intros Hm. unfold PollMessages_pass, mbind, stM_bind. erewrite st_bind_Ok by reflexivity.
  destruct (running_ n); cbn [negb]; [|done].
  by erewrite st_bind_Undefined by (by apply lock_guard_owned).
Qed.

Lemma system_islands {U} (σ0 σ : system U) :
  Forall (λ n, ∃ pm u, n = NetworkManager_new pm u) σ0 → rtc system_step σ0 σ → Forall island σ.
Proof.
  intros H0 Hrun. assert (Forall island σ0) as Hi.
  { eapply Forall_impl; [exact H0|]. intros n (pm & u & ->). split; [|by right].
    intros ep data. apply not_elem_of_nil. }
  clear H0. induction Hrun as [|σ0 σ1 σ2 Hstep _ IH]; [done|]. apply IH. clear IH.
  destruct Hstep as [i n c Hn _|i n pm u Hn]; apply Forall_insert; try done;
    rewrite Forall_lookup in Hi; specialize (Hi i n Hn); [by apply run_call_island|].
  destruct Hi as [Hw Hd]. by split.
Qed.

(** C5. Programs of this kind cannot talk to one another. In a system of any number of them,
    whatever their users type, whatever handlers they install, whoever connects to
    whom and however often: no dealer ever sends a frame, so that no router ever has
    one to hand over, and a pass of the poller changes nothing, so that nothing is
    ever received; messages would need a peer of another make. *)
Theorem programs_are_isolated {U} (σ0 σ : system U) :
  Forall (λ n, ∃ pm u, n = NetworkManager_new pm u) σ0 → rtc system_step σ0 σ →
  (∀ data, ¬ dealt_by σ data) ∧
  ∀ i n (it : UnorderedIter) z now poll_error recv, σ !! i = Some n →
    (PollMessages_pass z now poll_error recv n).2 = n.
Proof.
  intros H0 Hrun. pose proof (system_islands σ0 σ H0 Hrun) as Hi. rewrite Forall_lookup in Hi. split.
  - intros data (i & n & ep & Hn & Hin). destruct (Hi i n Hn) as [Hw _]. by apply Hw in Hin.
  - intros i n it z now e recv Hn. destruct (Hi i n Hn) as [_ [Hm|Hd]].
    + by apply PollMessages_pass_blocked.
    + destruct (socketsMutex_ n) eqn:Hm; [by apply PollMessages_pass_blocked|].
      by rewrite PollMessages_pass_idle.
Qed.

(** Two programs, of which the first starts and connects to the second. *)
Lemma programs_are_isolated_witness :
  ∃ σ, rtc system_step [test_net; test_net] σ ∧ ∀ data, ¬ dealt_by σ data.
Proof.
  set (a1 := (run_call (CallStart zmq_all_good 9090) test_net).2).
  set (a2 := (run_call (CallConnect zmq_all_good 0 "localhost" 9091) a1).2).
  exists [a2; test_net].
  assert (rtc system_step [test_net; test_net] [a2; test_net]) as Hrun.
  { eapply rtc_l; [apply (system_call _ 0 test_net (CallStart zmq_all_good 9090)); done|].
    eapply rtc_l; [apply (system_call _ 0 a1 (CallConnect zmq_all_good 0 "localhost" 9091)); done|].
    apply rtc_refl. }
  split; [exact Hrun|].
  apply (programs_are_isolated [test_net; test_net] [a2; test_net]); [|exact Hrun].
  repeat constructor; by eexists _, _.
Defined.
