(* ===== verification/Handshake.v ===== *)
(** Theorems about the receiving side of the network manager: a frame handled as
    the reference says, the handshake between two managers, the uninitialised port
    an incoming handshake leaves in the registry, and the exceptions of the worker
    loops. The client's handlers are known through the interface [Client]. *)

From Stdlib Require Import Strings.Ascii.
From S2P Require Import Prelude CxxText Message PeerManager PeerFile Network NetworkFacts.

(** ** The interface to the client

    What the client promises of the handlers it installs: given a registry whose
    mutex is free they complete normally, the message handler leaves the registry
    alone and the connection handler does at most
    [UpdatePeerStatus(peerId, connected)]. *)
Definition status_updated (id : string) (connected : bool) (pm pm' : PeerManager) : Prop :=
  pm' = pm ∨ ∃ t, pm' = set_peers (alter (set_status connected t) id (peers_ pm)) pm.

Class Client {U} (hm : option (MessageHandler U)) (hc : option (ConnectionHandler U)) := {
  on_connection : Clock → string → bool → PeerManager * U → PeerManager * U;
  on_message : Clock → string → Message → PeerManager * U → PeerManager * U;
  on_connection_runs now id b s : mutex_ s.1 = false →
    match hc with Some h => h now id b s | None => (Ok tt, s) end = (Ok tt, on_connection now id b s);
  on_connection_registry now id b s : status_updated id b s.1 (on_connection now id b s).1;
  on_message_runs now id m s : mutex_ s.1 = false →
    match hm with Some h => h now id m s | None => (Ok tt, s) end = (Ok tt, on_message now id m s);
  on_message_registry now id m s : (on_message now id m s).1 = s.1
}.

(** No handlers at all, as in the tests that do not set any. *)
#[export, program] Instance no_client {U} : @Client U None None := {|
  on_connection _ _ _ s := s;
  on_message _ _ _ s := s
|}.
Solve Obligations with by intros; try left.

(** The id and key of a handshake, when the message is a readable one. *)
Definition handshake_of (msg : Message) : option (string * list byte) :=
  if decide (type_ msg = HANDSHAKE) then parse_handshake (payload_ msg) else None.

Section Receive.
Context {U : Type} {hm : option (MessageHandler U)} {hc : option (ConnectionHandler U)}.
Context `{!Client hm hc}.
Implicit Types n : Net U.

Definition attached n : Prop := userMessageHandler_ n = hm ∧ connectionHandler_ n = hc.

(** What a readable handshake leads to: the peer filed as connected, the
    connection handler told, an answer when the sender is the peer itself, and
    the message forwarded under the peer's id. *)
Definition after_handshake (z : Zmq) (now : Clock) (senderId : string) (msg : Message)
    (peerId : string) (key : list byte) (endpoint : string * option Z) n : Net U :=
  let peer := mkPeer peerId endpoint.1 endpoint.2 key true (now 0%nat) in
  let pm := set_peers (<[peerId := peer]> (peers_ (peerManager_ n))) (peerManager_ n) in
  let told := on_connection (later 1 now) peerId true (pm, client n) in
  let me := localPeer_ (peerManager_ n) in
  let answer := CreateHandshakeMessage (now 2%nat) (pi_id me) (pi_publicKey me) in
  put_captured (on_message (later 3 now) peerId msg told)
    (log (if decide (senderId = peerId) then routed z n peerId (Serialize answer) else []) n).

Definition handle_reference (z : Zmq) (now : Clock) (senderId : string) (msg : Message) n : Net U :=
  match handshake_of msg with
  | Some (peerId, key) =>
    match sender_endpoint senderId with
    | Ok endpoint => after_handshake z now senderId msg peerId key endpoint n
    | _ => n
    end
  | None => put_captured (on_message (later 3 now) senderId msg (captured n)) n
  end.

Lemma status_updated_keeps id b pm pm' :
  status_updated id b pm pm' → mutex_ pm' = mutex_ pm ∧ localPeer_ pm' = localPeer_ pm.
Proof. by intros [->|[t ->]]. Qed.

Lemma on_connection_free now id b s : mutex_ s.1 = false → mutex_ (on_connection now id b s).1 = false.
Proof.
  intros Hs. pose proof (on_connection_registry now id b s) as [-> _]%status_updated_keeps. done.
Qed.

Lemma call_connection_run now id b n :
  attached n → mutex_ (peerManager_ n) = false →
  call_connection now id b n = (Ok tt, put_captured (on_connection now id b (captured n)) n).
Proof.
  intros [_ Hc] Hm. pose proof (on_connection_runs now id b (captured n) Hm) as E.
  unfold call_connection. st_simpl. rewrite Hc. destruct hc as [h|]; cbn in *.
  - unfold on_captured, zoom. by rewrite E.
  - injection E as E. unfold mret, stM_ret, st_ret. by rewrite <- E, put_captured_id.
Qed.

Lemma forward_run now id msg n :
  attached n → mutex_ (peerManager_ n) = false →
  (h ← st_gets userMessageHandler_;
   match h with Some h => on_captured (h now id msg) | None => mret tt end) n
  = (Ok tt, put_captured (on_message now id msg (captured n)) n).
Proof.
  intros [Hh _] Hm. pose proof (on_message_runs now id msg (captured n) Hm) as E.
  st_simpl. rewrite Hh. destruct hm as [h|]; cbn in *.
  - unfold on_captured, zoom. by rewrite E.
  - injection E as E. by rewrite <- E, put_captured_id.
Qed.

Lemma sender_endpoint_defined s : is_Undefined (sender_endpoint s) = false.
Proof.
  unfold sender_endpoint. destruct (split_at colon s) as [[a p]|]; [|done].
  unfold stoi. destruct (strto 10 p) as [[? ?]|]; cbn; [|done]. by repeat case_match; simplify_eq.
Qed.

Lemma HandleHandshake_run z now senderId msg peerId key endpoint n :
  attached n → mutex_ (peerManager_ n) = false →
  parse_handshake (payload_ msg) = Some (peerId, key) → sender_endpoint senderId = Ok endpoint →
  let peer := mkPeer peerId endpoint.1 endpoint.2 key true (now 0%nat) in
  let pm := set_peers (<[peerId := peer]> (peers_ (peerManager_ n))) (peerManager_ n) in
  let me := localPeer_ (peerManager_ n) in
  let answer := CreateHandshakeMessage (now 2%nat) (pi_id me) (pi_publicKey me) in
  HandleHandshake z now senderId msg n =
    (Ok tt, put_captured (on_connection (later 1 now) peerId true (pm, client n))
      (log (if decide (senderId = peerId) then routed z n peerId (Serialize answer) else []) n)).
Proof.
  intros Ha Hm Hp He peer pm me answer. unfold HandleHandshake. rewrite Hp.
  unfold mbind, stM_bind. erewrite st_bind_Ok by (unfold st_lift; by rewrite He).
  erewrite st_bind_Ok by (apply on_pm_run; by apply AddPeer_run).
  erewrite st_bind_Ok by (by apply call_connection_run).
  change (captured (put_captured _ _)) with (pm, client n).
  pose proof (on_connection_registry (later 1 now) peerId true (pm, client n))
    as [_ Hl]%status_updated_keeps.
  case_decide as Hd; [|by rewrite log_nil].
  erewrite st_bind_Ok by (apply on_pm_read; unfold GetLocalPeer, st_gets; reflexivity).
  rewrite SendViaRouter_run. cbn [peerManager_ put_captured]. by rewrite Hl.
Qed.

Lemma HandleMessage_run z now senderId msg n :
  attached n → mutex_ (peerManager_ n) = false →
  HandleMessage z now senderId msg n =
    match handshake_of msg, sender_endpoint senderId with
    | Some _, Throw e => (Throw e, n)
    | _, _ => (Ok tt, handle_reference z now senderId msg n)
    end.
Proof.
  intros Ha Hm. unfold HandleMessage, handle_reference, handshake_of, actual_peer_id.
  unfold mbind at 1, stM_bind at 1. case_decide as Ht.
  - destruct (parse_handshake (payload_ msg)) as [[peerId key]|] eqn:Hp.
    + destruct (sender_endpoint senderId) as [ep|e|u] eqn:He.
      * erewrite st_bind_Ok by (by apply (HandleHandshake_run z now senderId msg peerId key ep)).
        rewrite forward_run; [by rewrite captured_put|exact Ha|]. by apply on_connection_free.
      * erewrite st_bind_Throw; [reflexivity|].
        unfold HandleHandshake. rewrite Hp. unfold mbind, stM_bind.
        erewrite st_bind_Throw by (unfold st_lift; by rewrite He). done.
      * pose proof (sender_endpoint_defined senderId) as Hdef. by rewrite He in Hdef.
    + erewrite st_bind_Ok by (unfold HandleHandshake; by rewrite Hp). by apply forward_run.
  - erewrite st_bind_Ok by reflexivity. by apply forward_run.
Qed.

Lemma ProcessFrame_run z now senderId data n :
  userMessageHandler_ n = hm → connectionHandler_ n = hc → mutex_ (peerManager_ n) = false →
  ProcessFrame z now senderId data n =
    match Deserialize data with
    | Ok msg => (Ok tt, handle_reference z now senderId msg n)
    | Throw _ => (Ok tt, n)
    | Undefined u => (Undefined u, n)
    end.
Proof.
  intros H1 H2 Hm. unfold ProcessFrame, st_catch, mbind, stM_bind, st_bind, st_lift.
  destruct (Deserialize data) as [msg| |]; [|done..].
  rewrite HandleMessage_run by done. unfold handle_reference.
  destruct (handshake_of msg) as [[? ?]|]; [|done].
  pose proof (sender_endpoint_defined senderId). by destruct (sender_endpoint senderId).
Qed.

(** C4. A received frame, whole: bytes that do not deserialise, and handshakes from a
    sender whose "address:port" is malformed, leave the manager and the registry
    untouched; any other message has the effect of [handle_reference]. No
    exception escapes, and the only undefined frames are those on which
    [Deserialize] itself is undefined. *)
Theorem ProcessFrame_reference z now senderId data n :
  userMessageHandler_ n = hm → connectionHandler_ n = hc → mutex_ (peerManager_ n) = false →
  ProcessFrame z now senderId data n =
    match Deserialize data with
    | Ok msg => (Ok tt, handle_reference z now senderId msg n)
    | Throw _ => (Ok tt, n)
    | Undefined u => (Undefined u, n)
    end.
Proof. apply ProcessFrame_run. Qed.
End Receive.

Lemma ProcessFrame_reference_witness :
  ProcessFrame zmq_all_good (λ _, 5) "me-too" [Byte.x01] test_net = (Ok tt, test_net).
Proof. rewrite (ProcessFrame_reference (hm := None) (hc := None)); reflexivity. Defined.

(** ** The registry after a handshake *)

Section Registry.
Context {U : Type} {hm : option (MessageHandler U)} {hc : option (ConnectionHandler U)}.
Context `{!Client hm hc}.
Implicit Types n : Net U.

Lemma status_updated_lookup id b pm pm' k :
  status_updated id b pm pm' →
  peers_ pm' !! k = peers_ pm !! k ∨
  ∃ t, k = id ∧ peers_ pm' !! k = set_status b t <$> peers_ pm !! k.
Proof.
  intros [->|[t ->]]; [by left|]. cbn. destruct (decide (k = id)) as [->|].
  - right. exists t. by rewrite lookup_alter_eq.
  - left. by rewrite lookup_alter_ne.
Qed.

(** The record filed, and everything else as it was. *)
Lemma after_handshake_registry z now senderId msg peerId key ep n :
  let n' := after_handshake z now senderId msg peerId key ep n in
  (∃ seen, peers_ (peerManager_ n') !! peerId = Some (mkPeer peerId ep.1 ep.2 key true seen)) ∧
  (∀ k, k ≠ peerId → peers_ (peerManager_ n') !! k = peers_ (peerManager_ n) !! k) ∧
  mutex_ (peerManager_ n') = mutex_ (peerManager_ n) ∧
  localPeer_ (peerManager_ n') = localPeer_ (peerManager_ n).
Proof.
  unfold after_handshake. cbn [peerManager_ put_captured]. rewrite on_message_registry.
  match goal with |- context [on_connection ?a ?b ?c (?p, ?u)] =>
    pose proof (on_connection_registry a b c (p, u)) as Hs end. cbn [fst] in Hs.
  pose proof (status_updated_keeps _ _ _ _ Hs) as [-> ->]. split_and!; [| |done..].
  - destruct (status_updated_lookup _ _ _ _ peerId Hs) as [->|(t & _ & ->)]; cbn;
      rewrite lookup_insert_eq; by eexists.
  - intros k Hk. destruct (status_updated_lookup _ _ _ _ k Hs) as [->|(t & -> & _)]; [|done].
    cbn. by rewrite lookup_insert_ne.
Qed.

(** A handshake frame as a manager builds it. *)
Definition handshake_frame (now : Z) (me : PeerInfo) : list byte :=
  Serialize (CreateHandshakeMessage now (pi_id me) (pi_publicKey me)).

(** A peer whose handshake fits the formats: 16-bit id length, 32-bit payload size. *)
Definition announces (now : Z) (me : PeerInfo) : Prop :=
  fits_i64 now = true ∧ Z.of_nat (length (bytes_of_string (pi_id me))) < 2 ^ 16 ∧
  2 + Z.of_nat (length (bytes_of_string (pi_id me))) + Z.of_nat (length (pi_publicKey me)) < 2 ^ 32.

Lemma ProcessFrame_handshake z now t senderId me ep n :
  userMessageHandler_ n = hm → connectionHandler_ n = hc → mutex_ (peerManager_ n) = false →
  announces t me → sender_endpoint senderId = Ok ep →
  let msg := mkMessage HANDSHAKE (payload_ (CreateHandshakeMessage t (pi_id me) (pi_publicKey me)))
               (to_ms t * ns_per_ms) in
  ProcessFrame z now senderId (handshake_frame t me) n =
    (Ok tt, after_handshake z now senderId msg (pi_id me) (pi_publicKey me) ep n).
Proof.
  intros H1 H2 Hm (Ht & Hid & Hlen) He msg. rewrite ProcessFrame_run by done.
  pose proof (decode_encode (CreateHandshakeMessage t (pi_id me) (pi_publicKey me)) []) as HD.
  rewrite app_nil_r in HD. unfold handshake_frame. rewrite HD; [|done|].
  - unfold handle_reference, handshake_of. cbn [type_ payload_].
    rewrite decide_True by done.
    by rewrite (proj2 (parse_handshake_payload t (pi_id me) (pi_publicKey me)) Hid), He.
  - unfold CreateHandshakeMessage. cbn [payload_ Message_new]. rewrite !length_app. cbn. lia.
Qed.

Lemma sender_without_colon s : string_has colon s = false → sender_endpoint s = Ok ("", None).
Proof. intros Hc%split_at_None. unfold sender_endpoint. by rewrite Hc. Qed.

Lemma sender_of_dealer address port :
  string_has colon address = false → 0 <= port < 2 ^ 16 →
  sender_endpoint (peer_key address port) = Ok (address, Some port).
Proof.
  intros Ha Hp. unfold sender_endpoint, peer_key.
  change (":" +:+ to_string port) with (String colon (to_string port)).
  rewrite split_at_app by done. rewrite stoi_to_string by lia. cbn.
  unfold u16. by rewrite Z.mod_small by lia.
Qed.
End Registry.

(** ** The router loop *)

(** The loop of [RouteMessages] over what its passes see. *)
Definition RouteMessages_loop {U} (passes : list (Zmq * Clock * router_event)) : stM (Net U) unit :=
  st_for passes (λ '(z, now, ev), RouteMessages_pass z now ev).

Section RouterLoop.
Context {U : Type} {hm : option (MessageHandler U)} {hc : option (ConnectionHandler U)}.
Context `{!Client hm hc}.
Implicit Types n : Net U.

(** The reference for one pass. *)
Definition receive n (pass : Zmq * Clock * router_event) : Net U :=
  let '(z, now, ev) := pass in
  match ev with
  | RouterFrames frame0 data =>
    match Deserialize data with
    | Ok msg => handle_reference z now (string_of_bytes frame0) msg n
    | _ => n
    end
  | _ => n
  end.

(** Frames on which [Deserialize] is undefined are excluded. *)
Definition pass_defined (pass : Zmq * Clock * router_event) : Prop :=
  match pass.2 with RouterFrames _ data => is_Undefined (Deserialize data) = false | _ => True end.

Definition routing n : Prop :=
  running_ n = true ∧ routerSocket_ n ≠ None ∧ @attached U hm hc n ∧ mutex_ (peerManager_ n) = false.

Lemma handle_reference_routing z now senderId msg n :
  routing n → routing (handle_reference z now senderId msg n).
Proof.
  intros (Hr & Hs & Ha & Hm). unfold handle_reference. destruct (handshake_of msg) as [[peerId key]|].
  - destruct (sender_endpoint senderId) as [ep| |]; [|by split_and!; try apply Ha..].
    destruct (after_handshake_registry z now senderId msg peerId key ep n) as (_ & _ & Hf & _).
    split_and!; try apply Ha; try done. by rewrite Hf.
  - split_and!; try apply Ha; try done. cbn. by rewrite on_message_registry.
Qed.

Lemma pass_receives pass n :
  routing n → pass_defined pass →
  (let '(z, now, ev) := pass in RouteMessages_pass z now ev n) = (Ok tt, receive n pass) ∧ routing (receive n pass).
Proof.
  intros Hn Hd. pose proof Hn as (Hr & Hs & [H1 H2] & Hm). destruct pass as [[z now] ev].
  unfold RouteMessages_pass, RouteMessages_body. st_simpl. rewrite Hr. cbn.
  destruct (routerSocket_ n) as [r|]; [|done].
  destruct ev as [| | |frame0 data]; try done. unfold pass_defined in Hd. cbn in Hd.
  rewrite ProcessFrame_run by done. cbn [receive].
  destruct (Deserialize data); try done. split; [done|]. by apply handle_reference_routing.
Qed.

(** C18. The router loop, over any number of passes: each frame is received once, in the order
    of arrival, with exactly the effect of the reference for a single message; idle
    passes, ZeroMQ errors and malformed frames change nothing, and the loop goes on. *)
Theorem RouteMessages_loop_reference passes n :
  running_ n = true → routerSocket_ n ≠ None →
  userMessageHandler_ n = hm → connectionHandler_ n = hc → mutex_ (peerManager_ n) = false →
  Forall pass_defined passes →
  RouteMessages_loop passes n = (Ok tt, foldl receive n passes) ∧ running_ (foldl receive n passes) = true.
Proof.
  intros Hr Hs H1 H2 Hm Hd.
  destruct (st_for_pure passes (λ '(z, now, ev), RouteMessages_pass z now ev) (λ pass n, receive n pass)
    routing n) as [E (Hrun & _)]; [|by split_and!|by split].
  intros pass m Hin Hn. rewrite Forall_forall in Hd. specialize (Hd pass Hin).
  pose proof (pass_receives pass m Hn Hd) as Hp. by destruct pass as [[z now] ev].
Qed.
End RouterLoop.

(** ** The exchange between two managers *)

(** C10. The handshake protocol. A manager [a] whose handshake reaches the router of a
    manager [b] (under [a]'s routing id, its peer id) is filed by [b] as connected,
    with its key and no address; [b] answers through its router, and when the
    answer comes back through the dealer that [a] keeps under "address:port", [a]
    files [b] as connected with that address, that port and [b]'s key, and sends
    nothing more. Both clients may do anything [Client] allows. *)
Theorem handshake_exchange {UA UB} hmA hcA hmB hcB
    `{!@Client UA hmA hcA} `{!@Client UB hmB hcB}
    (a : Net UA) (b : Net UB) zA zB nowA nowB t address port :
  let meA := localPeer_ (peerManager_ a) in
  let meB := localPeer_ (peerManager_ b) in
  userMessageHandler_ a = hmA → connectionHandler_ a = hcA → mutex_ (peerManager_ a) = false →
  userMessageHandler_ b = hmB → connectionHandler_ b = hcB → mutex_ (peerManager_ b) = false →
  announces t meA → announces (nowB 2%nat) meB →
  string_has colon (pi_id meA) = false → string_has colon (pi_id meB) = false →
  string_has colon address = false → 0 <= port < 2 ^ 16 →
  routerSocket_ b ≠ None → zmq_send_id zB (pi_id meA) = None →
  let answer := handshake_frame (nowB 2%nat) meB in
  zmq_send zB (ToRouter (pi_id meA) answer) = Sent →
  ∃ a' b' seenA seenB,
    ProcessFrame zB nowB (pi_id meA) (handshake_frame t meA) b = (Ok tt, b') ∧
    wire b' = wire b ++ [ToRouter (pi_id meA) answer] ∧
    peers_ (peerManager_ b') !! pi_id meA =
      Some (mkPeer (pi_id meA) "" None (pi_publicKey meA) true seenA) ∧
    ProcessFrame zA nowA (peer_key address port) answer a = (Ok tt, a') ∧
    wire a' = wire a ∧
    peers_ (peerManager_ a') !! pi_id meB =
      Some (mkPeer (pi_id meB) address (Some port) (pi_publicKey meB) true seenB).
Proof.
  intros meA meB Ha1 Ha2 Ha3 Hb1 Hb2 Hb3 HtA HtB HcA HcB Hc Hport Hr Hid answer Hsent.
  pose proof (ProcessFrame_handshake zB nowB t (pi_id meA) meA _ b Hb1 Hb2 Hb3 HtA
    (sender_without_colon _ HcA)) as EB.
  pose proof (ProcessFrame_handshake zA nowA (nowB 2%nat) _ meB _ a Ha1 Ha2 Ha3 HtB
    (sender_of_dealer _ _ Hc Hport)) as EA.
  cbn zeta in EA, EB.
  match type of EB with _ = (_, after_handshake ?z ?now ?s ?m ?i ?k ?e ?n) =>
    destruct (after_handshake_registry z now s m i k e n) as [[seenA HpA] _] end.
  match type of EA with _ = (_, after_handshake ?z ?now ?s ?m ?i ?k ?e ?n) =>
    destruct (after_handshake_registry z now s m i k e n) as [[seenB HpB] _] end.
  do 2 eexists. exists seenA, seenB. split_and!; [exact EB| |exact HpA|exact EA| |exact HpB].
  - unfold after_handshake. cbn [wire put_captured]. rewrite decide_True by done.
    unfold routed. fold meB. change (Serialize _) with answer. rewrite Hid, Hsent.
    by destruct (routerSocket_ b).
  - unfold after_handshake. cbn [wire put_captured]. rewrite decide_False; [by rewrite log_nil|].
    intros E. revert HcB. rewrite <- E. unfold peer_key.
    rewrite !string_has_app. cbn. by rewrite orb_true_r.
Qed.

Definition test_peer (id : string) (port : Z) : Net unit :=
  (Start zmq_all_good port (NetworkManager_new
    (mkPM false ∅ (mkPeer id "0.0.0.0" (Some port) [Byte.x01; Byte.x02] true 0)) tt)).2.

Lemma RouteMessages_loop_reference_witness :
  let n := test_peer "alice" 9090 in
  RouteMessages_loop [(zmq_all_good, λ _, 0, RouterIdle);
    (zmq_all_good, λ _, 0, RouterFrames [Byte.x62] [Byte.x01]);
    (zmq_all_good, λ _, 0, RouterFrames [Byte.x62] (Serialize (CreatePingMessage 0)))] n = (Ok tt, n).
Proof.
  intros n. etrans; [apply (RouteMessages_loop_reference (hm := None) (hc := None)
    [(zmq_all_good, λ _, 0, RouterIdle); (zmq_all_good, λ _, 0, RouterFrames [Byte.x62] [Byte.x01]);
     (zmq_all_good, λ _, 0, RouterFrames [Byte.x62] (Serialize (CreatePingMessage 0)))] n)|].
  all: try reflexivity; try discriminate.
  repeat constructor.
Defined.

Lemma handshake_exchange_witness :
  ∃ a' seen, ProcessFrame zmq_all_good (λ _, 7) "localhost:9091"
      (handshake_frame 5 (mkPeer "bob" "0.0.0.0" (Some 9091) [Byte.x01; Byte.x02] true 0))
      (test_peer "alice" 9090) = (Ok tt, a') ∧
    peers_ (peerManager_ a') !! "bob" =
      Some (mkPeer "bob" "localhost" (Some 9091) [Byte.x01; Byte.x02] true seen).
Proof.
  destruct (handshake_exchange None None None None (test_peer "alice" 9090) (test_peer "bob" 9091)
    zmq_all_good zmq_all_good (λ _, 7) (λ _, 5) 3 "localhost" 9091)
    as (a' & b' & s1 & s2 & _ & _ & _ & Ha & _ & Hp); try reflexivity; try (by split_and!);
    try discriminate.
  exists a', s2. split; [exact Ha|exact Hp].
Defined.

(** ** What an incoming handshake does to the registry *)

(** C39. A handshake that arrives through the router files a peer whose port was never
    written: from then on saving the peers, which [main] does when it shuts down,
    reads an indeterminate value. *)
Theorem incoming_handshake_breaks_saving {U} hm hc `{!@Client U hm hc} (n : Net U) (it : UnorderedIter)
    z now t me :
  userMessageHandler_ n = hm → connectionHandler_ n = hc → mutex_ (peerManager_ n) = false →
  announces t me → string_has colon (pi_id me) = false →
  is_Undefined (SavePeersToFile true
    (peerManager_ (ProcessFrame z now (pi_id me) (handshake_frame t me) n).2)).1 = true.
Proof.
  intros H1 H2 Hm Ht Hc.
  rewrite (ProcessFrame_handshake z now t (pi_id me) me _ n H1 H2 Hm Ht (sender_without_colon _ Hc)).
  cbn [snd]. match goal with |- context [after_handshake ?z ?now ?s ?m ?i ?k ?e ?n] =>
    destruct (after_handshake_registry z now s m i k e n) as ([seen Hp] & _ & Hf & _);
    set (n' := after_handshake z now s m i k e n) in * end.
  rewrite Hm in Hf. apply not_false_is_true. intros Hdef.
  by apply (proj1 (SavePeersToFile_defined it _ Hf)) in Hdef as Hall;
    apply (Hall _ _ Hp).
Qed.

Lemma incoming_handshake_breaks_saving_witness :
  is_Undefined (@SavePeersToFile tree_order true
    (peerManager_ (ProcessFrame zmq_all_good (λ _, 7) "bob"
      (handshake_frame 5 (mkPeer "bob" "0.0.0.0" (Some 9091) [Byte.x01] true 0))
      (test_peer "alice" 9090)).2)).1 = true.
Proof.
  apply (incoming_handshake_breaks_saving None None (test_peer "alice" 9090) tree_order
    zmq_all_good (λ _, 7) 5 (mkPeer "bob" "0.0.0.0" (Some 9091) [Byte.x01] true 0));
    try reflexivity. by split_and!.
Defined.

(** ** The worker loops *)

Section Workers.
Context {U : Type}.

(** The exceptions code can end with. *)
Definition throws_only {S A} (P : exn → Prop) (m : stM S A) : Prop :=
  ∀ s e s', m s = (Throw e, s') → P e.

Definition is_zmq (e : exn) : Prop := match e with zmq_error _ => True | _ => False end.

Lemma throws_bind {S A B} P (f : A → stM S B) (m : stM S A) :
  throws_only P m → (∀ a, throws_only P (f a)) → throws_only P (st_bind f m).
Proof.
  intros Hm Hf s e s'. unfold st_bind. destruct (m s) as [[a|e1|] s1] eqn:E; [apply Hf| |done].
  intros [= <- <-]. by eapply Hm.
Qed.

Lemma throws_for {S X} P (xs : list X) (f : X → stM S unit) :
  (∀ x, throws_only P (f x)) → throws_only P (st_for xs f).
Proof.
  intros Hf. induction xs as [|x xs IH]; [done|]. cbn. by apply throws_bind.
Qed.

Lemma throws_lock {S A} `{Mutex S} P (m : stM S A) : throws_only P m → throws_only P (lock_guard m).
Proof.
  intros Hm s e s'. unfold lock_guard. destruct (locked s); [done|].
  destruct (m _) as [[]] eqn:E; intros [= <- <-]. by eapply Hm.
Qed.

Lemma ProcessFrame_quiet z now senderId data :
  throws_only (λ _, False) (@ProcessFrame U z now senderId data).
Proof.
  intros n e n'. unfold ProcessFrame, st_catch.
  match goal with |- context [match ?m with _ => _ end] => by destruct m as [[]] end.
Qed.

Lemma throws_weaken {S A} (P Q : exn → Prop) (m : stM S A) :
  (∀ e, P e → Q e) → throws_only P m → throws_only Q m.
Proof. intros HPQ Hm s e s' E. by eapply HPQ, Hm. Qed.

Lemma PollDealer_throws z now recv peerId : throws_only is_zmq (@PollDealer U z now recv peerId).
Proof.
  unfold PollDealer. destruct (recv peerId); [done|..];
    apply throws_lock; (apply throws_bind; [done|]); intros [d|]; try done.
  - by intros s e s' [= <- _].
  - eapply throws_weaken; [|apply ProcessFrame_quiet]. done.
Qed.

(** Code that, unless undefined, gives the mutex back. *)
Definition returns_mutex {A} (m : stM (Net U) A) : Prop := ∀ n,
  socketsMutex_ n = false → is_Undefined (m n).1 = false → socketsMutex_ (m n).2 = false.

Lemma returns_lock {A} (m : stM (Net U) A) : returns_mutex (lock_guard m).
Proof.
  intros n _ Hdef. destruct (lock_guard m n) as [r n'] eqn:E.
  exact (lock_guard_releases m n r n' E Hdef).
Qed.

Lemma returns_bind {A B} (f : A → stM (Net U) B) m :
  returns_mutex m → (∀ a, returns_mutex (f a)) → returns_mutex (st_bind f m).
Proof.
  intros Hm Hf n Hn. specialize (Hm n Hn). unfold st_bind.
  destruct (m n) as [[a| |] n']; cbn in *; [|auto..]. apply Hf. by apply Hm.
Qed.

Lemma returns_ret {A} (a : A) : returns_mutex (st_ret a).
Proof. by intros n Hn _. Qed.

Lemma returns_for {X} (xs : list X) (f : X → stM (Net U) unit) :
  (∀ x, returns_mutex (f x)) → returns_mutex (st_for xs f).
Proof.
  intros Hf. induction xs as [|x xs IH]; [apply returns_ret|]. by apply returns_bind.
Qed.

Lemma returns_frames {A} (m : stM (Net U) A) : frames m → returns_mutex m.
Proof. intros Hm n Hn _. destruct (Hm n) as [-> _]. done. Qed.
End Workers.

(** C25. Whatever arrives, whatever ZeroMQ throws and whatever the handlers do, no
    exception leaves a pass of a worker loop (which would terminate the program),
    and a poll pass that completes gives [socketsMutex_] back on every path. *)
Theorem worker_passes_contained {U} (n : Net U) (it : UnorderedIter) z now clocks ev poll_error recv e :
  (RouteMessages_pass z now ev n).1 ≠ Throw e ∧
  (PollMessages_pass z clocks poll_error recv n).1 ≠ Throw e ∧
  (socketsMutex_ n = false → is_Undefined (PollMessages_pass z clocks poll_error recv n).1 = false →
   socketsMutex_ (PollMessages_pass z clocks poll_error recv n).2 = false).
Proof.
  split_and!.
  - unfold RouteMessages_pass, RouteMessages_body. st_simpl. destruct (running_ n); [|done]. cbn.
    destruct (routerSocket_ n); cbn; [|done]. destruct ev; try done.
    intros E. eapply (ProcessFrame_quiet z now _ _ n e), injective_projections; [exact E|done].
  - unfold PollMessages_pass, mbind, stM_bind. erewrite st_bind_Ok by reflexivity.
    destruct (running_ n); cbn [negb]; [|done].
    destruct (socketsMutex_ n) eqn:Hf.
    { by erewrite st_bind_Undefined by (by apply lock_guard_owned). }
    erewrite st_bind_Ok by (eapply lock_guard_run; [done|reflexivity|done]).
    destruct (iter _).*1 as [|i ids]; [done|]. unfold st_catch, catch_zmq.
    match goal with |- context [match ?m ?s with _ => _ end] =>
      assert (throws_only is_zmq m) as Hm; [|destruct (m s) as [[|e1|] n2] eqn:E; try done] end.
    { apply throws_bind; [unfold zmq_call; destruct poll_error; [by intros ??? [= <- _]|done]|].
      intros _. apply throws_for. intros [k id]. apply PollDealer_throws. }
    apply Hm in E. by destruct e1.
  - revert n. change (returns_mutex (@PollMessages_pass U it z clocks poll_error recv)).
    apply returns_bind; [apply returns_frames, frames_gets|]. intros []; cbn [negb]; [|apply returns_ret].
    apply returns_bind; [apply returns_lock|]. intros [|i ids]; [apply returns_ret|].
    intros n Hn. unfold st_catch.
    match goal with |- context [match ?m ?s with _ => _ end] =>
      assert (returns_mutex m) as Hm; [|specialize (Hm n Hn); destruct (m s) as [[|e1|] n2]; auto] end.
    { apply returns_bind; [apply returns_frames; by intros n'; unfold zmq_call; destruct poll_error|].
      intros _. apply returns_for. intros [k id]. unfold PollDealer.
      destruct (recv id); [apply returns_ret|apply returns_lock..]. }
    cbn. destruct e1; cbn; auto.
Qed.

Lemma worker_passes_contained_witness :
  socketsMutex_ (@PollMessages_pass unit tree_order zmq_all_good (λ _ _, 0) (Some "Context was terminated")
    (λ _, NotReady) (put_dealers {[ "h:1" := mkDealer "me" "tcp://h:1" ]} (test_peer "alice" 9090))).2 = false.
Proof.
  apply (worker_passes_contained (put_dealers {[ "h:1" := mkDealer "me" "tcp://h:1" ]}
    (test_peer "alice" 9090)) tree_order zmq_all_good (λ _, 0) (λ _ _, 0) RouterIdle
    (Some "Context was terminated") (λ _, NotReady) out_of_range); reflexivity.
Defined.
