(* ===== verification/Cli.v ===== *)
(** The command line interface: [Include/CliInterface.hpp] and
    [Source/CliInterface.cpp].

    The commands, their table, the handlers [Run] installs in the network manager
    and the input loop, over the state of the whole program: a [Net] whose client
    is the interface. What a command prints is a [display] value, the closure put
    on the display queue; [render] is what running that closure writes. A call of
    [queueDisplay] is taken here as one step that appends to the queue; its mutex,
    its condition variable and the display thread are modelled in [DisplayThread]. *)

From Stdlib Require Import Strings.Ascii.
From S2P Require Import Prelude CxxText Message PeerManager PeerFile Network NetworkFacts Handshake.

(** ** What is displayed *)

(** The closures passed to [queueDisplay], with what they capture. *)
Inductive display :=
  | MessageLine (peerId message : string) (incoming : bool)
  | SystemLine (message : string)
  | ErrorLine (error : string)
  | SuccessLine (message : string)
  | WarningLine (message : string)
  | PeerLine (status : string) (peer : PeerInfo)
  | HelpLines
  | InfoLines (localPeer : PeerInfo).

#[export] Instance display_eq_dec : EqDecision display.
Proof. solve_decision. Defined.

(** The styles of the rang library; what it writes for one depends on the stream. *)
Inductive rang_code := style_reset | style_dim | fg_cyan | fg_yellow | fg_green | fg_blue | fg_red.
Inductive ostream := cout | stringstream.

Definition endl : string := String newline "".

Section Render.
Variable rang : ostream → rang_code → string.
(** [std::put_time(&tm, "%H:%M:%S")] of the local time of a clock reading. *)
Variable local_time : Z → string.

Definition concat_strings (l : list string) : string := foldr String.append "" l.

Definition peer_prefix (peerId : string) : string := String.substring 0 8 peerId.

(** A tagged line: [\[TAG\]] in a colour, the text dimmed. *)
Definition tagged (tag : string) (colour : rang_code) (style : list rang_code) (text : string) : string :=
  concat_strings ([rang cout colour; tag; rang cout style_reset] ++ map (rang cout) style
    ++ [text; rang cout style_reset; endl]).

Definition render (now : Z) (d : display) : outcome string :=
  match d with
  | MessageLine peerId message incoming =>
    let head := [rang cout style_dim; "["; local_time now; "] "; rang cout style_reset] in
    let body :=
      if incoming then
        [rang cout fg_cyan; peer_prefix peerId; rang cout style_reset; ": ";
         rang cout fg_yellow; message; rang cout style_reset]
      else
        [rang cout fg_green; "You"; rang cout style_reset; " -> ";
         rang cout fg_cyan; peer_prefix peerId; rang cout style_reset; ": ";
         rang cout fg_yellow; message; rang cout style_reset] in
    Ok (concat_strings (head ++ body ++ [endl]))
  | SystemLine message => Ok (tagged "[SYSTEM] " fg_blue [style_dim] message)
  | ErrorLine error => Ok (tagged "[ERROR] " fg_red [fg_red; style_dim] error)
  | SuccessLine message => Ok (tagged "[SUCCESS] " fg_green [fg_green; style_dim] message)
  | WarningLine message => Ok (tagged "[WARNING] " fg_yellow [fg_yellow; style_dim] message)
  | PeerLine status peer =>
    port ← show_port (pi_port peer);
    Ok (concat_strings ["  "; status; rang cout style_reset; " "; pi_id peer; " - ";
                        pi_address peer; ":"; port; endl])
  | HelpLines => Ok (concat_strings (map (λ l, l +:+ endl)
      ["  connect <address> <port> - Connect to a peer";
       "  disconnect <peer_id>     - Disconnect from a peer";
       "  list                     - List all peers";
       "  send <peer_id> <message> - Send message to a peer";
       "  broadcast <message>      - Send message to all peers";
       "  info                     - Show local peer information";
       "  help                     - Show this help";
       "  quit/exit                - Exit the program";
       "";
       "Note: Any text that is not a command is sent as a broadcast message."]))
  | InfoLines localPeer =>
    port ← show_port (pi_port localPeer);
    Ok (concat_strings ["  ID: "; pi_id localPeer; endl;
                        "  Address: "; pi_address localPeer; ":"; port; endl;
                        "  Public Key Size: "; to_string (Z.of_nat (length (pi_publicKey localPeer)));
                        " bytes"; endl])
  end.

(** The status a line of [list] starts with. *)
Definition status_text (peer : PeerInfo) : string :=
  if pi_isConnected peer then rang stringstream fg_green +:+ "[ONLINE]"
  else rang stringstream fg_red +:+ "[OFFLINE]".
End Render.

(** ** State *)

Inductive command := Connect | Disconnect | List | Send | Broadcast | Help | Quit | Info.

Record Cli := mkCli {
  running : bool;
  displayQueue : list display;
  displayThread : bool;                 (** joinable *)
  commands : gmap string command
}.

Definition set_running (b : bool) (c : Cli) : Cli := mkCli b (displayQueue c) (displayThread c) (commands c).
Definition set_displayThread (b : bool) (c : Cli) : Cli := mkCli (running c) (displayQueue c) b (commands c).

Definition RegisterCommands (c : Cli) : Cli :=
  let add k h cs := <[k := h]> cs in
  mkCli (running c) (displayQueue c) (displayThread c)
    (add "info" Info (add "exit" Quit (add "quit" Quit (add "help" Help (add "broadcast" Broadcast
      (add "send" Send (add "list" List (add "disconnect" Disconnect (add "connect" Connect (commands c)))))))))).

(** The constructor. *)
Definition CLIInterface_new : Cli := RegisterCommands (mkCli false [] false ∅).

Definition queueDisplay (d : display) : stM Cli unit :=
  st_modify (λ c, mkCli (running c) (displayQueue c ++ [d]) (displayThread c) (commands c)).

Definition DisplayMessage (peerId message : string) (incoming : bool) : stM Cli unit :=
  queueDisplay (MessageLine peerId message incoming).
Definition DisplaySystemMessage (message : string) : stM Cli unit := queueDisplay (SystemLine message).
Definition DisplayError (error : string) : stM Cli unit := queueDisplay (ErrorLine error).
Definition DisplaySuccess (message : string) : stM Cli unit := queueDisplay (SuccessLine message).
Definition DisplayWarning (message : string) : stM Cli unit := queueDisplay (WarningLine message).

(** The interface inside the program, and inside what the network's handlers capture. *)
Definition on_cli {A} (m : stM Cli A) : stM (Net Cli) A :=
  zoom client (λ c n, put_captured (peerManager_ n, c) n) m.
Definition from_handler {A} (m : stM Cli A) : stM (PeerManager * Cli) A :=
  zoom snd (λ c s, (s.1, c)) m.
Definition on_registry {A} (m : stM PeerManager A) : stM (PeerManager * Cli) A :=
  zoom fst (λ pm s, (pm, s.2)) m.

(** ** The handlers installed by [Run] *)

Definition message_handler : MessageHandler Cli := λ _ peerId msg,
  if decide (type_ msg = TEXT) then
    from_handler (DisplayMessage peerId (string_of_bytes (payload_ msg)) true)
  else if decide (type_ msg = HANDSHAKE) then
    match parse_handshake (payload_ msg) with
    | Some (peerId, _) => from_handler (DisplaySystemMessage ("Handshake received from " +:+ peerId))
    | None => mret tt
    end
  else mret tt.

Definition connection_handler : ConnectionHandler Cli := λ now peerId connected,
  on_registry (UpdatePeerStatus (now 0%nat) peerId connected);;
  from_handler (if connected : bool then DisplaySuccess ("Connected to peer: " +:+ peerId)
                else DisplayWarning ("Disconnected from peer: " +:+ peerId)).

(** ** The commands

    [now] are the clock readings the command makes, in order. *)

Section Commands.
Context `{UnorderedIter}.
Variable rang : ostream → rang_code → string.
Variable z : Zmq.
Variable now : Clock.

(** [args[i]] for an index the caller has checked. *)
Definition arg (args : list string) (i : nat) : string := nth i args "".

(** [for (i = k; i < args.size(); ++i) { if (i > k) message += " "; message += args[i]; }] *)
Definition join_from (k : nat) (args : list string) : string :=
  foldl (λ message '(i, a), (if (k <? i)%nat then message +:+ " " else message) +:+ a) ""
    (imap (λ i a, ((k + i)%nat, a)) (drop k args)).

Definition HandleConnect (args : list string) : stM (Net Cli) unit :=
  if (length args <? 3)%nat then on_cli (DisplayError "Usage: connect <address> <port>")
  else
    st_catch
      (n ← st_lift (stoul 10 (arg args 2));
       let port := u16 n in
       ConnectToPeer z (now 0%nat) (arg args 1) port;;
       on_cli (DisplaySystemMessage ("Connecting to " +:+ arg args 1 +:+ ":" +:+ arg args 2 +:+ "...")))
      (catch_all (λ _, on_cli (DisplayError "Invalid port number"))).

Definition HandleDisconnect (args : list string) : stM (Net Cli) unit :=
  if (length args <? 2)%nat then on_cli (DisplayError "Usage: disconnect <peer_id>")
  else
    DisconnectPeer now (arg args 1);;
    on_cli (DisplaySystemMessage ("Disconnected from " +:+ arg args 1)).

Definition HandleList (args : list string) : stM (Net Cli) unit :=
  peers ← on_pm GetAllPeers;
  match peers with
  | [] => on_cli (DisplaySystemMessage "No peers connected")
  | _ =>
    on_cli (DisplaySystemMessage "Connected peers:");;
    st_for peers (λ peer, on_cli (queueDisplay (PeerLine (status_text rang peer) peer)))
  end.

Definition HandleSend (args : list string) : stM (Net Cli) unit :=
  if (length args <? 3)%nat then on_cli (DisplayError "Usage: send <peer_id> <message>")
  else
    let message := join_from 2 args in
    let msg := CreateTextMessage (now 0%nat) message in
    SendMessage z (arg args 1) msg;;
    on_cli (DisplayMessage (arg args 1) message false).

Definition HandleBroadcast (args : list string) : stM (Net Cli) unit :=
  if (length args <? 2)%nat then on_cli (DisplayError "Usage: broadcast <message>")
  else
    let message := join_from 1 args in
    let msg := CreateTextMessage (now 0%nat) message in
    BroadcastMessage z msg;;
    on_cli (DisplayMessage "all" message false).

Definition HandleHelp (args : list string) : stM (Net Cli) unit :=
  on_cli (DisplaySystemMessage "Available commands:");;
  on_cli (queueDisplay HelpLines).

Definition HandleQuit (args : list string) : stM (Net Cli) unit :=
  on_cli (DisplaySystemMessage "Shutting down...");;
  on_cli (st_modify (set_running false)).

Definition HandleInfo (args : list string) : stM (Net Cli) unit :=
  localPeer ← on_pm GetLocalPeer;
  on_cli (DisplaySystemMessage "Local peer information:");;
  on_cli (queueDisplay (InfoLines localPeer)).

Definition run_command (c : command) : list string → stM (Net Cli) unit :=
  match c with
  | Connect => HandleConnect | Disconnect => HandleDisconnect | List => HandleList
  | Send => HandleSend | Broadcast => HandleBroadcast | Help => HandleHelp
  | Quit => HandleQuit | Info => HandleInfo
  end.

(** [iss >> arg] until it fails. *)
Definition ParseCommand (input : string) : list string := words input.

Definition ProcessCommand (input : string) : stM (Net Cli) unit :=
  let args := ParseCommand input in
  match args with
  | [] => mret tt
  | arg0 :: _ =>
    it ← st_gets (λ n, commands (client n) !! arg0);
    match it with
    | Some c => run_command c args
    | None =>
      let msg := CreateTextMessage (now 0%nat) input in
      BroadcastMessage z msg;;
      connectedPeers ← GetConnectedPeers;
      match connectedPeers with
      | [] => on_cli (DisplayWarning "No peers connected to receive message")
      | _ => on_cli (DisplayMessage "broadcast" input false)
      end
    end
  end.
End Commands.

(** ** [Run] and [Stop] *)

Definition startDisplayThread (error : option string) : stM (Net Cli) unit :=
  match error with
  | Some what => mthrow (system_error what)
  | None =>
    old ← st_gets (λ n, displayThread (client n));
    if old : bool then st_lift (Undefined ThreadOverwritten)
    else on_cli (st_modify (set_displayThread true))
  end.

(** [Run] up to its loop. *)
Definition Run_setup (thread_error : option string) : stM (Net Cli) unit :=
  on_cli (st_modify (set_running true));;
  startDisplayThread thread_error;;
  on_cli (DisplaySystemMessage "P2P Chat System Started");;
  on_cli (DisplaySystemMessage "Type 'help' for available commands");;
  SetMessageHandler (Some message_handler);;
  SetConnectionHandler (Some connection_handler).

(** The input loop over the lines the user types, with what each command sees of
    ZeroMQ and the clock; after the last line [rx.input] returns null. *)
Fixpoint Run_loop `{UnorderedIter} (rang : ostream → rang_code → string)
    (inputs : list (Zmq * Clock * string)) : stM (Net Cli) unit :=
  go ← st_gets (λ n, running (client n));
  if negb go then mret tt
  else
    match inputs with
    | [] => mret tt
    | (z, now, input) :: inputs =>
      (if bool_decide (input = "") then mret tt else ProcessCommand rang z now input);;
      Run_loop rang inputs
    end.

Definition Run `{UnorderedIter} (rang : ostream → rang_code → string) (thread_error : option string)
    (inputs : list (Zmq * Clock * string)) : stM (Net Cli) unit :=
  Run_setup thread_error;; Run_loop rang inputs.

(** [Stop], in sequence: its effect when the join of the display thread returns. The join
    itself, which waits for that thread and may wait for ever, is in [DisplayThread] and
    [Process]. *)
Definition Cli_Stop : stM (Net Cli) unit :=
  on_cli (st_modify (set_running false));;
  on_cli (st_modify (set_displayThread false)).
