(* ===== verification/CliFacts.v ===== *)
(** Theorems about the command line interface: it keeps the promises of [Client],
    what each command does in every state the program can reach, the loop, and the
    way of a text message from the sender's command to the receiver's screen. *)

From Stdlib Require Import Strings.Ascii.
From S2P Require Import Prelude CxxText Message PeerManager PeerFile Network NetworkFacts Handshake Cli.

Implicit Types n : Net Cli.

(** ** The display queue *)

Definition push_display (ds : list display) (c : Cli) : Cli :=
  mkCli (running c) (displayQueue c ++ ds) (displayThread c) (commands c).
Definition queued (ds : list display) (n : Net Cli) : Net Cli :=
  put_captured (peerManager_ n, push_display ds (client n)) n.

Lemma queued_nil n : queued [] n = n.
Proof. destruct n as [pm []]. unfold queued, push_display. cbn. by rewrite app_nil_r. Qed.

Lemma queued_app n a b : queued b (queued a n) = queued (a ++ b) n.
Proof. unfold queued, push_display. cbn. by rewrite <- app_assoc. Qed.

Lemma on_cli_queue d n : on_cli (queueDisplay d) n = (Ok tt, queued [d] n).
Proof. done. Qed.

Lemma queued_inv ds n : net_inv (queued ds n) ↔ net_inv n.
Proof. split; intros [H1 H2 H3 H4]; by split. Qed.

Lemma queue_each {X} (f : X → display) (l : list X) n :
  st_for l (λ x, on_cli (queueDisplay (f x))) n = (Ok tt, queued (map f l) n).
Proof.
  revert n. induction l as [|x l IH]; intros n; [cbn; by rewrite queued_nil|].
  cbn [st_for map]. erewrite st_bind_Ok by apply on_cli_queue. by rewrite IH, queued_app.
Qed.

(** ** The interface keeps the promises the network manager relies on *)

Definition message_displays (peerId : string) (msg : Message) : list display :=
  match type_ msg, handshake_of msg with
  | TEXT, _ => [MessageLine peerId (string_of_bytes (payload_ msg)) true]
  | HANDSHAKE, Some (peerId, _) => [SystemLine ("Handshake received from " +:+ peerId)]
  | _, _ => []
  end.

Definition connection_display (peerId : string) (connected : bool) : display :=
  if connected then SuccessLine ("Connected to peer: " +:+ peerId)
  else WarningLine ("Disconnected from peer: " +:+ peerId).

#[export] Program Instance cli_client : Client (Some message_handler) (Some connection_handler) := {|
  on_connection now id b s :=
    (set_peers (alter (set_status b (now 0%nat)) id (peers_ s.1)) s.1,
     push_display [connection_display id b] s.2);
  on_message now id m s := (s.1, push_display (message_displays id m) s.2)
|}.
Next Obligation.
  intros now id b [pm c] Hm. cbn in *. unfold connection_handler, mbind, stM_bind.
  erewrite st_bind_Ok by (unfold on_registry, zoom; by rewrite UpdatePeerStatus_run).
  by destruct b.
Qed.
Next Obligation. intros now id b s. right. by eexists. Qed.
Next Obligation.
  intros now id m [pm c] Hm. unfold message_handler, message_displays, handshake_of.
  assert (push_display [] c = c) as Hnil.
  { destruct c. unfold push_display. cbn. by rewrite app_nil_r. }
  destruct (type_ m) eqn:Ht; cbn [fst snd]; try (rewrite Hnil; reflexivity); [reflexivity|].
  rewrite decide_False by done. rewrite !decide_True by done.
  destruct (parse_handshake (payload_ m)) as [[]|]; rewrite ?Hnil; done.
Qed.
Next Obligation. done. Qed.

(** The network manager with the handlers [Run] installs. *)
Definition cli_attached n : Prop :=
  userMessageHandler_ n = Some message_handler ∧ connectionHandler_ n = Some connection_handler.

(** A text message, from end to end: the frame made of [CreateTextMessage], received
    in any way by a program whose interface runs, changes nothing but the display
    queue, at whose end it puts the sender, the text and the incoming flag. *)
Theorem text_message_displayed z now senderId t text n :
  cli_attached n → mutex_ (peerManager_ n) = false →
  fits_i64 t = true → Z.of_nat (length (bytes_of_string text)) < 2 ^ 32 →
  ProcessFrame z now senderId (Serialize (CreateTextMessage t text)) n =
    (Ok tt, queued [MessageLine senderId text true] n).
Proof.
  intros [H1 H2] Hm Ht Hlen. rewrite ProcessFrame_run by done.
  pose proof (decode_encode (CreateTextMessage t text) []) as HD.
  rewrite app_nil_r in HD. rewrite HD; [|done|done].
  unfold handle_reference, handshake_of. cbn [type_ CreateTextMessage Message_new].
  rewrite decide_False by done. cbn [on_message cli_client]. unfold message_displays.
  cbn [type_ payload_ CreateTextMessage Message_new].
  by rewrite String.string_of_list_byte_of_string.
Qed.

Definition test_program : Net Cli :=
  (Run_setup None (Start zmq_all_good 9090 (NetworkManager_new
    (mkPM false ∅ (mkPeer "me" "0.0.0.0" (Some 9090) [Byte.x01] true 0)) CLIInterface_new)).2).2.

Lemma text_message_displayed_witness :
  displayQueue (client (ProcessFrame zmq_all_good (λ _, 0) "bob" (Serialize (CreateTextMessage 5 "hi"))
    test_program).2) =
  [SystemLine "P2P Chat System Started"; SystemLine "Type 'help' for available commands";
   MessageLine "bob" "hi" true].
Proof.
  rewrite (text_message_displayed zmq_all_good (λ _, 0) "bob" 5 "hi" test_program);
    [reflexivity|by split|reflexivity..].
Defined.

(** ** Messages put together from the words of a line *)

Lemma join_from_join k args : join_from k args = join (drop k args).
Proof.
  unfold join_from. generalize (drop k args) as l. intros [|w l]; [done|]. cbn [imap foldl].
  rewrite Nat.add_0_r, (proj2 (Nat.ltb_ge k k)) by lia. change ("" +:+ w) with w.
  assert (∀ m (i : nat), (k < i)%nat →
    foldl (λ message '(j, a), (if (k <? j)%nat then message +:+ " " else message) +:+ a) m
      (imap (λ j a, ((i + j)%nat, a)) l) = match l with [] => m | _ => m +:+ " " +:+ join l end) as Hl.
  { induction l as [|a l IH]; intros m i Hi; [done|]. cbn [imap foldl].
    rewrite Nat.add_0_r, (proj2 (Nat.ltb_lt k i)) by lia.
    erewrite (imap_ext _ (λ j a, ((S i + j)%nat, a))) by (intros; cbn; do 2 f_equal; lia).
    rewrite IH by lia. destruct l; cbn [join]; by rewrite ?string_app_assoc. }
  erewrite (imap_ext _ (λ j a, ((S k + j)%nat, a))) by (intros; cbn; do 2 f_equal; lia).
  rewrite Hl by lia. by destruct l.
Qed.

(** ** Commands in the states the program can reach *)

Section Commands.
Context (it : UnorderedIter) (rang : ostream → rang_code → string) (z : Zmq) (now : Clock).

Record ready n : Prop := {
  rd_net : net_inv n;
  rd_free : mutex_ (peerManager_ n) = false;
  rd_table : commands (client n) = commands CLIInterface_new
}.

Lemma queued_ready ds n : ready n → ready (queued ds n).
Proof. intros [H1 H2 H3]. split; [by rewrite queued_inv|done|done]. Qed.

Lemma log_ready frames n : ready n → ready (log frames n).
Proof. intros [H1 H2 H3]. split; [destruct H1; by split|done|done]. Qed.

(** What reading a command line finds in the table. *)
Lemma ProcessCommand_run input arg0 rest n :
  ready n → words input = arg0 :: rest →
  ProcessCommand rang z now input n =
    match commands CLIInterface_new !! arg0 with
    | Some c => run_command rang z now c (arg0 :: rest) n
    | None =>
      (BroadcastMessage z (CreateTextMessage (now 0%nat) input);;
       connectedPeers ← GetConnectedPeers;
       match connectedPeers with
       | [] => on_cli (DisplayWarning "No peers connected to receive message")
       | _ => on_cli (DisplayMessage "broadcast" input false)
       end) n
    end.
Proof.
  intros [_ _ Ht] Hw. unfold ProcessCommand, ParseCommand. rewrite Hw.
  unfold mbind at 1, stM_bind at 1. erewrite st_bind_Ok by reflexivity. rewrite Ht.
  by destruct (_ !! arg0).
Qed.

Definition connected_peers n : list PeerInfo :=
  filter (λ p, pi_isConnected p = true) (iter (peers_ (peerManager_ n))).*2.

(** What a broadcast hands to ZeroMQ when no dealer is held. *)
Definition broadcast_frames (text : string) n : list out_frame :=
  routed_all z n (Serialize (CreateTextMessage (now 0%nat) text)) (iter (peers_ (peerManager_ n))).*2.

Lemma Broadcast_run text n :
  ready n →
  BroadcastMessage z (CreateTextMessage (now 0%nat) text) n = (Ok tt, log (broadcast_frames text n) n).
Proof.
  intros [Hn Hm _]. by apply (BroadcastMessage_cases it n);
    [apply ni_free| |apply ni_no_dealers].
Qed.

Lemma HandleConnect_run args n :
  ready n →
  HandleConnect z now args n =
    if (length args <? 3)%nat then (Ok tt, queued [ErrorLine "Usage: connect <address> <port>"] n)
    else match stoul 10 (arg args 2), ConnectToPeer z (now 0%nat) (arg args 1)
                 (match stoul 10 (arg args 2) with Ok p => u16 p | _ => 0 end) n with
         | Ok _, (Undefined u, n') => (Undefined u, n')
         | _, _ => (Ok tt, queued [ErrorLine "Invalid port number"] n)
         end.
Proof.
  intros [Hn _ _]. unfold HandleConnect. destruct (length args <? 3)%nat; [done|].
  unfold st_catch, catch_all, mbind, stM_bind, st_bind, st_lift.
  destruct (stoul 10 (arg args 2)) as [p|e|u] eqn:Hp; [|done|].
  - destruct (ConnectToPeer_result z (now 0%nat) (arg args 1) (u16 p) n Hn) as [[n' ->]|[e ->]]; done.
  - unfold stoul in Hp. repeat case_match; done.
Qed.

(** *** The reference: frames sent, closures queued, whether the loop ends

    [None] stands for the self-deadlock of [ConnectToPeer]. *)
Definition effect : Type := option (list out_frame * list display * bool).
Definition shows (ds : list display) : effect := Some ([], ds, false).

Definition command_effect (c : command) (args : list string) n : effect :=
  match c, args with
  | Connect, address :: p :: _ =>
    match stoul 10 p with
    | Ok v =>
      if bool_decide (zmq_dealer z (pi_id (localPeer_ (peerManager_ n))) = None ∧
                      zmq_connect z ("tcp://" +:+ address +:+ ":" +:+ to_string (u16 v)) = None)
      then None
      else shows [ErrorLine "Invalid port number"]
    | _ => shows [ErrorLine "Invalid port number"]
    end
  | Connect, _ => shows [ErrorLine "Usage: connect <address> <port>"]
  | Disconnect, id :: _ => shows [SystemLine ("Disconnected from " +:+ id)]
  | Disconnect, [] => shows [ErrorLine "Usage: disconnect <peer_id>"]
  | List, _ =>
    match (iter (peers_ (peerManager_ n))).*2 with
    | [] => shows [SystemLine "No peers connected"]
    | peers => shows (SystemLine "Connected peers:" :: map (λ p, PeerLine (status_text rang p) p) peers)
    end
  | Send, id :: w :: ws => shows [MessageLine id (join (w :: ws)) false]
  | Send, _ => shows [ErrorLine "Usage: send <peer_id> <message>"]
  | Broadcast, [] => shows [ErrorLine "Usage: broadcast <message>"]
  | Broadcast, ws => Some (broadcast_frames (join ws) n, [MessageLine "all" (join ws) false], false)
  | Help, _ => shows [SystemLine "Available commands:"; HelpLines]
  | Quit, _ => Some ([], [SystemLine "Shutting down..."], true)
  | Info, _ => shows [SystemLine "Local peer information:"; InfoLines (localPeer_ (peerManager_ n))]
  end.

Definition input_effect (input : string) n : effect :=
  match words input with
  | [] => shows []
  | arg0 :: args =>
    match commands CLIInterface_new !! arg0 with
    | Some c => command_effect c args n
    | None =>
      Some (broadcast_frames input n,
            [match connected_peers n with
             | [] => WarningLine "No peers connected to receive message"
             | _ => MessageLine "broadcast" input false
             end], false)
    end
  end.

Definition apply_effect (frames : list out_frame) (ds : list display) (quit : bool) n : Net Cli :=
  let n' := queued ds (log frames n) in
  if quit then put_captured (peerManager_ n', set_running false (client n')) n' else n'.

Lemma apply_shows ds n : apply_effect [] ds false n = queued ds n.
Proof. unfold apply_effect. by rewrite log_nil. Qed.

Lemma apply_ready frames ds quit n : ready n → ready (apply_effect frames ds quit n).
Proof.
  intros Hn%(log_ready frames)%(queued_ready ds). unfold apply_effect.
  destruct quit; [|done]. destruct Hn as [H1 H2 H3]. split; [destruct H1; by split|done|done].
Qed.

(** [m] has exactly the given effect. *)
Definition has_effect (m : stM (Net Cli) unit) (n : Net Cli) (e : effect) : Prop :=
  match e with
  | Some (frames, ds, quit) => m n = (Ok tt, apply_effect frames ds quit n)
  | None => (m n).1 = Undefined RelockOwnedMutex
  end.

Lemma has_effect_shows m n ds : m n = (Ok tt, queued ds n) → has_effect m n (shows ds).
Proof. intros E. unfold has_effect, shows. by rewrite E, apply_shows. Qed.

Lemma HandleConnect_effect arg0 args n :
  ready n → has_effect (HandleConnect z now (arg0 :: args)) n (command_effect Connect args n).
Proof.
  intros Hr. pose proof (ni_free _ (rd_net _ Hr)) as Hf.
  destruct args as [|address [|p rest]]; [by apply has_effect_shows..|]. cbn [command_effect].
  pose proof (HandleConnect_run (arg0 :: address :: p :: rest) n Hr) as E.
  cbn [length Nat.ltb Nat.leb arg nth] in E.
  destruct (stoul 10 p) as [v| |]; [|by apply has_effect_shows..].
  case_bool_decide as Hz.
  - destruct Hz as [Hz1 Hz2]. unfold has_effect. rewrite E.
    by rewrite (ConnectToPeer_run_relock n z (now 0%nat) address (u16 v) Hf Hz1 Hz2).
  - apply has_effect_shows. rewrite E.
    destruct (zmq_dealer z _) as [what|] eqn:Hz1.
    { by rewrite (ConnectToPeer_refused n z (now 0%nat) address (u16 v) what Hf) by (by left). }
    destruct (zmq_connect z _) as [what|] eqn:Hz2; [|by destruct Hz].
    by rewrite (ConnectToPeer_refused n z (now 0%nat) address (u16 v) what Hf) by (by right).
Qed.

Lemma HandleDisconnect_effect arg0 args n :
  ready n → has_effect (HandleDisconnect now (arg0 :: args)) n (command_effect Disconnect args n).
Proof.
  intros [[Hf Hd _ _] _ _]. destruct args as [|id rest]; [by apply has_effect_shows|].
  apply has_effect_shows. unfold HandleDisconnect. cbn [length Nat.ltb Nat.leb arg nth].
  unfold mbind, stM_bind.
  by erewrite st_bind_Ok by (apply DisconnectPeer_absent; [done|by rewrite Hd]).
Qed.

Lemma HandleList_effect args n :
  ready n → has_effect (HandleList rang args) n (command_effect List args n).
Proof.
  intros [_ Hm _]. cbn [command_effect].
  assert (HandleList rang args n =
    match (iter (peers_ (peerManager_ n))).*2 with
    | [] => (Ok tt, queued [SystemLine "No peers connected"] n)
    | peers => (Ok tt, queued (SystemLine "Connected peers:" ::
                 map (λ p, PeerLine (status_text rang p) p) peers) n)
    end) as E.
  { unfold HandleList, mbind, stM_bind.
    erewrite st_bind_Ok by (apply on_pm_read; by apply GetAllPeers_run).
    destruct ((iter _).*2) as [|p l]; [done|].
    erewrite st_bind_Ok by apply on_cli_queue.
    by rewrite queue_each, queued_app. }
  destruct ((iter _).*2) as [|p l]; by apply has_effect_shows.
Qed.

Lemma HandleSend_effect arg0 args n :
  ready n → has_effect (HandleSend z now (arg0 :: args)) n (command_effect Send args n).
Proof.
  intros [[Hf Hd _ _] _ _].
  destruct args as [|id [|w ws]]; [by apply has_effect_shows..|].
  apply has_effect_shows. unfold HandleSend. cbn [length Nat.ltb Nat.leb arg nth].
  rewrite join_from_join. cbn [drop]. unfold mbind, stM_bind.
  by erewrite st_bind_Ok by (apply SendMessage_absent; [done|by rewrite Hd]).
Qed.

Lemma HandleBroadcast_effect arg0 args n :
  ready n → has_effect (HandleBroadcast z now (arg0 :: args)) n (command_effect Broadcast args n).
Proof.
  intros Hr. destruct args as [|w ws]; [by apply has_effect_shows|].
  cbn [command_effect has_effect]. unfold HandleBroadcast. cbn [length Nat.ltb Nat.leb].
  rewrite join_from_join. cbn [drop]. unfold mbind, stM_bind.
  by erewrite st_bind_Ok by (by apply Broadcast_run).
Qed.

Lemma run_command_effect c arg0 args n :
  ready n → has_effect (run_command rang z now c (arg0 :: args)) n (command_effect c args n).
Proof.
  intros Hr. destruct c; cbn [run_command].
  - by apply HandleConnect_effect.
  - by apply HandleDisconnect_effect.
  - by apply HandleList_effect.
  - by apply HandleSend_effect.
  - by apply HandleBroadcast_effect.
  - apply has_effect_shows. unfold HandleHelp, mbind, stM_bind.
    erewrite st_bind_Ok by apply on_cli_queue. by rewrite on_cli_queue, queued_app.
  - cbn. unfold apply_effect. by rewrite log_nil.
  - apply has_effect_shows. unfold HandleInfo, mbind, stM_bind.
    erewrite st_bind_Ok by (by apply on_pm_read).
    erewrite st_bind_Ok by apply on_cli_queue. by rewrite on_cli_queue, queued_app.
Qed.

Lemma ProcessCommand_effect input n :
  ready n → has_effect (ProcessCommand rang z now input) n (input_effect input n).
Proof.
  intros Hr. unfold input_effect. destruct (words input) as [|arg0 args] eqn:Hw.
  { apply has_effect_shows. rewrite queued_nil. unfold ProcessCommand, ParseCommand. by rewrite Hw. }
  pose proof (ProcessCommand_run input arg0 args n Hr Hw) as E.
  destruct (commands CLIInterface_new !! arg0) as [c|].
  - pose proof (run_command_effect c arg0 args n Hr) as Hc. unfold has_effect in *. by rewrite E.
  - unfold has_effect. rewrite E. unfold mbind, stM_bind.
    erewrite st_bind_Ok by (by apply Broadcast_run).
    pose proof (log_ready (broadcast_frames input n) n Hr) as [[Hf Hd _ _] Hm _].
    erewrite st_bind_Ok by (by apply GetConnectedPeers_spec).
    rewrite Hd, (proj2 (iter_empty ∅) eq_refl). cbn [fmap list_fmap app].
    change (iter (peers_ (peerManager_ (log (broadcast_frames input n) n))))
      with (iter (peers_ (peerManager_ n))). fold (connected_peers n).
    by destruct (connected_peers n).
Qed.
End Commands.

(** C3. Every line the user can type, in every state the program reaches between calls:
    [ProcessCommand] has exactly the effect the reference lists: which frames reach
    ZeroMQ, what is queued for display, whether the loop ends. In particular
    [send] hands nothing to ZeroMQ yet reports the message as sent, [disconnect]
    reports a disconnection that does not happen, [connect] deadlocks unless
    ZeroMQ refuses the connection, which is then reported as an invalid port, and
    no command throws. The state left is again one in which this holds. *)
Theorem ProcessCommand_reference (it : UnorderedIter) rang z now input n :
  ready n →
  match input_effect it rang z now input n with
  | Some (frames, ds, quit) =>
    ProcessCommand rang z now input n = (Ok tt, apply_effect frames ds quit n) ∧
    ready (apply_effect frames ds quit n)
  | None => (ProcessCommand rang z now input n).1 = Undefined RelockOwnedMutex
  end.
Proof.
  intros Hr. pose proof (ProcessCommand_effect it rang z now input n Hr) as E.
  destruct (input_effect it rang z now input n) as [[[frames ds] quit]|]; [|done].
  split; [done|by apply apply_ready].
Qed.

Lemma test_program_ready : ready test_program.
Proof. split; [by split|done|done]. Qed.

Definition no_style : ostream → rang_code → string := λ _ _, "".

Lemma ProcessCommand_reference_witness :
  ProcessCommand (H := tree_order) no_style zmq_all_good (λ _, 0) "send  bob  hello   there" test_program =
    (Ok tt, queued [MessageLine "bob" "hello there" false] test_program).
Proof.
  destruct (ProcessCommand_reference tree_order no_style zmq_all_good (λ _, 0)
    "send  bob  hello   there" test_program test_program_ready) as [E _]. exact E.
Defined.

(** ** The input loop *)

Lemma Run_loop_ready (it : UnorderedIter) rang inputs n n' :
  ready n → Run_loop rang inputs n = (Ok tt, n') → ready n'.
Proof.
  revert n. induction inputs as [|[[z now] input] inputs IH]; intros n Hr;
    cbn [Run_loop]; unfold mbind, stM_bind; erewrite st_bind_Ok by reflexivity;
    destruct (running (client n)); cbn [negb]; try (by intros [= <-]).
  case_bool_decide.
  - erewrite st_bind_Ok by reflexivity. by apply IH.
  - pose proof (ProcessCommand_effect it rang z now input n Hr) as E.
    destruct (input_effect it rang z now input n) as [[[frames ds] quit]|]; unfold has_effect in E.
    + erewrite st_bind_Ok by exact E. apply IH. by apply apply_ready.
    + unfold st_bind. destruct (ProcessCommand _ _ _ _ n) as [r n1]; cbn in E; by subst.
Qed.

Lemma Run_loop_app (it : UnorderedIter) rang pre post n n1 :
  Run_loop rang pre n = (Ok tt, n1) → Run_loop rang (pre ++ post) n = Run_loop rang post n1.
Proof.
  revert n. induction pre as [|[[z now] input] pre IH]; intros n; cbn [Run_loop app];
    unfold mbind, stM_bind; erewrite st_bind_Ok by reflexivity.
  - destruct (running (client n)); cbn [negb]; by intros [= <-].
  - destruct (running (client n)) eqn:Hgo; cbn [negb].
    + unfold st_bind at 1.
      match goal with |- context [match ?m with _ => _ end] =>
        destruct m as [[[]| |] n2] eqn:E; [|done..] end.
      intros Hpre. erewrite st_bind_Ok by reflexivity. rewrite Hgo. cbn [negb].
      erewrite st_bind_Ok by exact E. by apply IH.
    + intros [= <-]. erewrite st_bind_Ok by reflexivity. rewrite Hgo. destruct post as [|[[??]?] post]; cbn [Run_loop];
        unfold mbind, stM_bind; (erewrite st_bind_Ok by reflexivity); by rewrite Hgo.
Qed.

(** [quit] and [exit] end the loop: whatever was typed before, and whatever would be
    typed after, the loop returns with "Shutting down..." queued and the running
    flag down. *)
Theorem Run_loop_quits (it : UnorderedIter) rang z now input arg0 args pre post n n1 :
  ready n → Run_loop rang pre n = (Ok tt, n1) → running (client n1) = true →
  words input = arg0 :: args → arg0 = "quit" ∨ arg0 = "exit" →
  Run_loop rang (pre ++ (z, now, input) :: post) n =
    (Ok tt, apply_effect [] [SystemLine "Shutting down..."] true n1).
Proof.
  intros Hr Hpre Hgo Hw Hq. rewrite (Run_loop_app it rang pre _ n n1 Hpre).
  pose proof (Run_loop_ready it rang pre n n1 Hr Hpre) as Hr1.
  pose proof (ProcessCommand_effect it rang z now input n1 Hr1) as E.
  assert (input_effect it rang z now input n1 = Some ([], [SystemLine "Shutting down..."], true)) as Hi.
  { unfold input_effect. rewrite Hw. by destruct Hq as [->| ->]. }
  rewrite Hi in E. cbn [Run_loop]. unfold mbind, stM_bind. erewrite st_bind_Ok by reflexivity.
  rewrite Hgo. cbn [negb]. rewrite bool_decide_eq_false_2 by (by intros ->).
  erewrite st_bind_Ok by exact E.
  by destruct post as [|[[? ?] ?] post].
Qed.

Lemma Run_loop_quits_witness :
  ∃ n, Run_loop (H := tree_order) no_style
    [(zmq_all_good, λ _, 0, "help"); (zmq_all_good, λ _, 0, "quit"); (zmq_all_good, λ _, 0, "connect a 1")]
    test_program = (Ok tt, n).
Proof.
  eexists. apply (Run_loop_quits tree_order no_style zmq_all_good (λ _, 0) "quit" "quit" []
    [(zmq_all_good, λ _, 0, "help")] [(zmq_all_good, λ _, 0, "connect a 1")] test_program
    (queued [SystemLine "Available commands:"; HelpLines] test_program) test_program_ready);
    [reflexivity..|by left].
Defined.

(** ** What the display thread runs *)

(** Rendering. A closure always completes, except that a line about a peer, queued by
    [list] or [info], reads that peer's port: it is undefined exactly when the
    port was never written. *)
Theorem render_defined_iff rang local_time now d :
  match d with
  | PeerLine _ p | InfoLines p =>
    (∃ s, render rang local_time now d = Ok s) ↔ pi_port p ≠ None
  | _ => ∃ s, render rang local_time now d = Ok s
  end.
Proof.
  destruct d as [| | | | |st p| |p]; cbn [render]; try (by eexists);
    destruct (pi_port p); cbn; (split; [intros [? E]; try done|]); intros; try done; by eexists.
Qed.

(** After an incoming handshake [list] queues a line whose rendering is undefined. *)
Theorem incoming_handshake_breaks_list (it : UnorderedIter) rang local_time z now t me n seen :
  ready n → cli_attached n → announces t me → string_has colon (pi_id me) = false →
  ∃ n' d n'',
    ProcessFrame z now (pi_id me) (handshake_frame t me) n = (Ok tt, n') ∧
    ProcessCommand rang z now "list" n' = (Ok tt, n'') ∧
    d ∈ displayQueue (client n'') ∧ render rang local_time seen d = Undefined UninitialisedRead.
Proof.
  intros Hr [Ha1 Ha2] Ht Hc. pose proof (rd_free _ Hr) as Hm.
  pose proof (ProcessFrame_handshake z now t (pi_id me) me _ n Ha1 Ha2 Hm Ht
    (sender_without_colon _ Hc)) as E. cbn zeta in E.
  match type of E with _ = (_, after_handshake ?z ?now ?s ?m ?i ?k ?e ?n) =>
    pose proof (after_handshake_registry z now s m i k e n) as Hreg end.
  cbn zeta in Hreg. destruct Hreg as ([when Hp] & _ & Hf & _).
  match type of E with _ = (_, ?n1) => set (n' := n1) in * end.
  assert (ready n') as Hr'.
  { split; [|by rewrite Hf|].
    - eapply same_sockets_inv; [|apply Hr].
      pose proof (frames_ProcessFrame z now (pi_id me) (handshake_frame t me) n) as Hs.
      by rewrite E in Hs.
    - apply Hr. }
  pose proof (ProcessCommand_effect it rang z now "list" n' Hr') as Hl.
  assert (mkPeer (pi_id me) "" None (pi_publicKey me) true when ∈ (iter (peers_ (peerManager_ n'))).*2) as Hin.
  { apply list_elem_of_fmap. exists (pi_id me, mkPeer (pi_id me) "" None (pi_publicKey me) true when).
    split; [done|]. by apply iter_elem. }
  assert (input_effect it rang z now "list" n' = command_effect it rang z now List [] n') as Hle by done.
  rewrite Hle in Hl. cbn [command_effect] in Hl.
  destruct ((iter (peers_ (peerManager_ n'))).*2) as [|p l] eqn:El; [by apply not_elem_of_nil in Hin|].
  unfold has_effect, shows in Hl. rewrite apply_shows in Hl.
  exists n', (PeerLine (status_text rang (mkPeer (pi_id me) "" None (pi_publicKey me) true when))
                (mkPeer (pi_id me) "" None (pi_publicKey me) true when)).
  eexists. split_and!; [exact E|exact Hl| |done].
  cbn [displayQueue client queued put_captured push_display snd]. apply elem_of_app. right.
  apply elem_of_cons. right. apply list_elem_of_fmap. by eexists.
Qed.

Lemma incoming_handshake_breaks_list_witness :
  ∃ n', ProcessFrame zmq_all_good (λ _, 7) "bob"
    (handshake_frame 5 (mkPeer "bob" "0.0.0.0" (Some 9091) [Byte.x01] true 0)) test_program = (Ok tt, n').
Proof.
  destruct (incoming_handshake_breaks_list tree_order no_style (λ _, "12:00:00") zmq_all_good (λ _, 7) 5
    (mkPeer "bob" "0.0.0.0" (Some 9091) [Byte.x01] true 0) test_program 9 test_program_ready)
    as (n' & _ & _ & E & _); [by split|by split_and!|reflexivity|by exists n'].
Defined.
