(* ===== verification/DisplayThread.v ===== *)
(** The display thread of the command line interface and its condition variable:
    [startDisplayThread], [queueDisplay] and [Stop] of [Source/CliInterface.cpp], as a
    step relation between the display thread, the threads that queue closures, and
    the thread that stops the interface.

    A wake-up of the condition variable may be spurious, a notification reaches
    only a thread that already waits, and [running] is read and written without
    the mutex, all as in the source. *)

From S2P Require Import Prelude.

Section DisplayThread.
(** The closures. *)
Context {D : Type}.

(** Where the display thread is. *)
Inductive display_pc :=
  | AtWhile                 (** evaluating [while (running)] *)
  | AtLock                  (** constructing the [unique_lock] *)
  | AtPredicate             (** in [wait], mutex held, about to evaluate the predicate *)
  | AtBlock                 (** predicate false, mutex held, about to block *)
  | Waiting                 (** blocked, mutex released *)
  | Woken                   (** woken, about to take the mutex back *)
  | AtDrain                 (** mutex held, evaluating [while (!displayQueue.empty())] *)
  | Calling (func : D)      (** mutex released, running the closure *)
  | AtRelock                (** the closure has run *)
  | Finished.               (** the thread's function has returned *)

(** Where [CLIInterface::Stop] is. *)
Inductive stop_pc := NotStopping | RunningCleared | Notified | Joined.

Record disp := mkDisp {
  running : bool;
  displayQueue : list D;
  displayMutex : bool;       (** held by the display thread; producers hold it within one step *)
  notifies : nat;            (** [notify_one] calls that are still to come *)
  pc : display_pc;
  stopping : stop_pc;
  pushed : list D;           (** everything ever queued *)
  shown : list D             (** everything ever run *)
}.

Definition at_pc (p : display_pc) (held : bool) (s : disp) : disp :=
  mkDisp (running s) (displayQueue s) held (notifies s) p (stopping s) (pushed s) (shown s).

(** A notification, to whom it may concern. *)
Definition notify (s : disp) : disp :=
  match pc s with Waiting => at_pc Woken (displayMutex s) s | _ => s end.

(** One step of the display thread; [None] where it cannot move by itself. *)
Definition display_next (s : disp) : option disp :=
  match pc s with
  | AtWhile => Some (at_pc (if running s then AtLock else Finished) (displayMutex s) s)
  | AtLock | Woken => if displayMutex s then None else Some (at_pc AtPredicate true s)
  | AtPredicate =>
    let ready := negb (match displayQueue s with [] => true | _ => false end) || negb (running s) in
    Some (at_pc (if ready then AtDrain else AtBlock) true s)
  | AtBlock => Some (at_pc Waiting false s)
  | Waiting => None
  | AtDrain =>
    match displayQueue s with
    | [] => Some (at_pc AtWhile false s)
    | func :: q => Some (mkDisp (running s) q false (notifies s) (Calling func)
                          (stopping s) (pushed s) (shown s))
    end
  | Calling func => Some (mkDisp (running s) (displayQueue s) (displayMutex s) (notifies s) AtRelock
                            (stopping s) (pushed s) (shown s ++ [func]))
  | AtRelock => if displayMutex s then None else Some (at_pc AtDrain true s)
  | Finished => None
  end.

(** The threads that call [queueDisplay]. *)
Inductive queueDisplay_step (s : disp) : disp → Prop :=
  | queueDisplay_push func : displayMutex s = false →
      queueDisplay_step s (mkDisp (running s) (displayQueue s ++ [func]) (displayMutex s) (S (notifies s))
                      (pc s) (stopping s) (pushed s ++ [func]) (shown s))
  | queueDisplay_notify k : notifies s = S k →
      queueDisplay_step s (notify (mkDisp (running s) (displayQueue s) (displayMutex s) k
                              (pc s) (stopping s) (pushed s) (shown s))).

(** The thread in [Stop]. *)
Inductive Stop_step (s : disp) : disp → Prop :=
  | Stop_clear : stopping s = NotStopping →
      Stop_step s (mkDisp false (displayQueue s) (displayMutex s) (notifies s)
                      (pc s) RunningCleared (pushed s) (shown s))
  | Stop_notify_all : stopping s = RunningCleared →
      Stop_step s (notify (mkDisp (running s) (displayQueue s) (displayMutex s) (notifies s)
                              (pc s) Notified (pushed s) (shown s)))
  | Stop_join : stopping s = Notified → pc s = Finished →
      Stop_step s (mkDisp (running s) (displayQueue s) (displayMutex s) (notifies s)
                      (pc s) Joined (pushed s) (shown s)).

(** [HandleQuit] clears [running] and notifies nobody. *)
Definition quit (s : disp) : disp :=
  mkDisp false (displayQueue s) (displayMutex s) (notifies s) (pc s) (stopping s) (pushed s) (shown s).

Definition spurious_wakeup (s s' : disp) : Prop :=
  pc s = Waiting ∧ s' = at_pc Woken (displayMutex s) s.

Inductive disp_step (s s' : disp) : Prop :=
  | step_display : display_next s = Some s' → disp_step s s'
  | step_spurious : spurious_wakeup s s' → disp_step s s'
  | step_queue : queueDisplay_step s s' → disp_step s s'
  | step_stop : Stop_step s s' → disp_step s s'
  | step_quit : s' = quit s → disp_step s s'.

(** When [Run] has just started the thread. *)
Definition disp_init : disp := mkDisp true [] false 0 AtWhile NotStopping [] [].

Definition in_flight (p : display_pc) : list D := match p with Calling func => [func] | _ => [] end.
Definition holds_mutex (p : display_pc) : bool :=
  match p with AtPredicate | AtBlock | AtDrain => true | _ => false end.

Record disp_inv (s : disp) : Prop := {
  di_fifo : pushed s = shown s ++ in_flight (pc s) ++ displayQueue s;
  di_mutex : displayMutex s = holds_mutex (pc s);
  di_stop : stopping s ≠ NotStopping → running s = false;
  di_joined : stopping s = Joined → pc s = Finished
}.

Lemma disp_inv_init : disp_inv disp_init.
Proof. by split. Qed.

Lemma notify_inv s : disp_inv s → disp_inv (notify s).
Proof.
  intros [H1 H2 H3 H4]. unfold notify. destruct (pc s) eqn:E; try (by split; rewrite ?E).
  split; cbn; try done. intros Hj. specialize (H4 Hj). congruence.
Qed.

Lemma display_next_inv s s' : disp_inv s → display_next s = Some s' → disp_inv s'.
Proof.
  intros [H1 H2 H3 H4]. unfold display_next.
  destruct (pc s) eqn:E; cbn in *; try done; intros Hn; try specialize (H4); simplify_eq;
    try (case_match; simplify_eq).
  all: try (split; cbn; rewrite ?H1; try (by repeat case_match); try (by intros Hj%H4); try done).
  all: try (by rewrite <- app_assoc).
  - intros Hs. by specialize (H3 Hs).
  - by rewrite H.
Qed.

Lemma disp_step_inv s s' : disp_inv s → disp_step s s' → disp_inv s'.
Proof.
  intros Hi [Hn|[Hp ->]|Ho|Ho| ->]; [by eapply display_next_inv| | | |].
  - pose proof (notify_inv s Hi) as Hi'. unfold notify in Hi'. by rewrite Hp in Hi'.
  - destruct Hi as [H1 H2 H3 H4]. destruct Ho; [|apply notify_inv; by split].
    split; cbn; [by rewrite H1, <- !app_assoc|done..].
  - destruct Hi as [H1 H2 H3 H4].
    destruct Ho; try apply notify_inv; split; cbn; try done; intros _; apply H3; congruence.
  - destruct Hi as [H1 H2 H3 H4]. by split.
Qed.

Lemma disp_reachable_inv s : rtc disp_step disp_init s → disp_inv s.
Proof.
  assert (∀ s0, disp_inv s0 → rtc disp_step s0 s → disp_inv s) as H; [|apply H, disp_inv_init].
  intros s0 Hi Hr. induction Hr; [done|]. by eauto using disp_step_inv.
Qed.

(** ** Progress *)

(** The display thread, left alone. *)
Fixpoint display_run (k : nat) (s : disp) : disp :=
  match k with
  | O => s
  | S k => match display_next s with Some s' => display_run k s' | None => s end
  end.

Lemma display_run_steps k s : rtc disp_step s (display_run k s).
Proof.
  revert s. induction k as [|k IH]; intros s; [done|]. cbn.
  destruct (display_next s) as [s'|] eqn:E; [|done]. eapply rtc_l; [by apply step_display|apply IH].
Qed.

Lemma display_run_add j k s :
  display_next (display_run j s) ≠ None → display_run (j + k) s = display_run k (display_run j s).
Proof.
  revert s. induction j as [|j IH]; intros s Hs; [done|]. cbn in *.
  destruct (display_next s) as [s'|] eqn:E; [by apply IH|]. by rewrite E in Hs.
Qed.

(** The steps it can still make by itself: at most so many. *)
Definition disp_rank (s : disp) : nat :=
  let q := length (displayQueue s) in
  let at_predicate := if running s && (q =? 0)%nat then 2%nat else (3 * q + 7)%nat in
  match pc s with
  | Finished | Waiting => 0
  | AtBlock => 1
  | AtPredicate => at_predicate
  | AtLock | Woken => S at_predicate
  | AtWhile => if running s then S (S at_predicate) else 1
  | AtDrain => 3 * q + 6
  | AtRelock => 3 * q + 7
  | Calling _ => 3 * q + 8
  end.

Lemma display_next_rank s s' : display_next s = Some s' → (disp_rank s' < disp_rank s)%nat.
Proof.
  destruct s as [[] q m k p st pu sh]; unfold display_next, disp_rank; cbn;
    destruct p; try done; destruct m; try done; destruct q; intros [= <-]; cbn; lia.
Qed.

Lemma display_next_keeps s s' :
  display_next s = Some s' →
  running s' = running s ∧ (displayMutex s = holds_mutex (pc s) → displayMutex s' = holds_mutex (pc s')).
Proof.
  destruct s as [[] q m k p st pu sh]; unfold display_next; cbn;
    destruct p; try done; destruct m; try done; destruct q; by intros [= <-].
Qed.

(** It only takes from the queue. *)
Lemma display_next_queue s s' :
  display_next s = Some s' → (length (displayQueue s') <= length (displayQueue s))%nat.
Proof.
  destruct s as [[] q m k p st pu sh]; unfold display_next; cbn;
    destruct p; try done; destruct m; try done; destruct q; intros [= <-]; cbn; lia.
Qed.

Lemma disp_rank_ext s s' :
  running s = running s' → length (displayQueue s) = length (displayQueue s') → pc s = pc s' →
  disp_rank s = disp_rank s'.
Proof. unfold disp_rank. by intros -> -> ->. Qed.

(** It stops moving only when it waits or has ended. *)
Lemma display_next_stuck s :
  displayMutex s = holds_mutex (pc s) → display_next s = None → pc s = Waiting ∨ pc s = Finished.
Proof.
  destruct s as [r q m k p st pu sh]. unfold display_next. cbn. intros ->.
  destruct p; cbn; try done; try (by destruct q); by (left + right).
Qed.

(** Once [running] is false it blocks no more. *)
Definition unblocked (p : display_pc) : bool := match p with AtBlock | Waiting => false | _ => true end.

Lemma display_next_unblocked s s' :
  running s = false → unblocked (pc s) = true → display_next s = Some s' → unblocked (pc s') = true.
Proof.
  destruct s as [r q m k p st pu sh]; unfold display_next; cbn; intros ->.
  destruct p; try done; destruct m; try done; destruct q; by intros _ [= <-].
Qed.

(** Draining, from the head of the inner loop. *)
Lemma display_drains q s :
  pc s = AtDrain → displayQueue s = q → displayMutex s = true →
  display_run (3 * length q + 1) s =
    mkDisp (running s) [] false (notifies s) AtWhile (stopping s) (pushed s) (shown s ++ q).
Proof.
  revert s. induction q as [|d q IH]; intros [r q' m k p st pu sh]; cbn; intros -> -> ->.
  - by rewrite app_nil_r.
  - replace (length q + S (length q + S (length q + 0)) + 1)%nat with (S (S (3 * length q + 1))) by lia.
    cbn [display_run display_next pc displayQueue displayMutex at_pc running notifies stopping pushed shown].
    rewrite IH by done. cbn. by rewrite <- app_assoc.
Qed.
End DisplayThread.
Arguments disp : clear implicits.
Arguments disp_init : clear implicits.

(** C20. Closures are run once each, in the order they were queued: in every reachable
    state, what has been run, what is being run and what is still queued make up
    exactly what was queued. The closure in flight runs without the mutex, and
    [Stop] returns only when the thread has ended. *)
Theorem display_fifo {D} (s : disp D) :
  rtc disp_step (disp_init D) s →
  pushed s = shown s ++ in_flight (pc s) ++ displayQueue s ∧
  (∀ func, pc s = Calling func → displayMutex s = false) ∧
  (stopping s = Joined → pc s = Finished).
Proof.
  intros [H1 H2 H3 H4]%disp_reachable_inv. split_and!; [done| |done].
  intros func E. by rewrite H2, E.
Qed.

Lemma display_fifo_witness :
  let s := display_run 8 (mkDisp true [1; 2] false 0 AtWhile NotStopping [1; 2] []) in
  pushed s = shown s ++ in_flight (pc s) ++ displayQueue s.
Proof.
  apply display_fifo.
  eapply rtc_l; [apply step_queue, (queueDisplay_push _ 1); reflexivity|].
  eapply rtc_l; [apply step_queue, (queueDisplay_push _ 2); reflexivity|].
  eapply rtc_l; [apply step_queue, (queueDisplay_notify _ 1); reflexivity|].
  eapply rtc_l; [apply step_queue, (queueDisplay_notify _ 0); reflexivity|].
  apply display_run_steps.
Defined.

(** C33. Shutting down. Once [running] is false, a display thread that neither waits nor
    is about to block ends by its own steps, and runs everything queued before it
    does, unless it was just about to test [running]. *)
Theorem display_thread_ends {D} (s : disp D) :
  rtc disp_step (disp_init D) s → running s = false → pc s ≠ AtBlock → pc s ≠ Waiting →
  ∃ k, pc (display_run k s) = Finished ∧
    (pc s = AtWhile ∨ pc s = Finished ∨ shown (display_run k s) = pushed s).
Proof.
  intros [H1 H2 _ _]%disp_reachable_inv Hr Hb Hw.
  destruct s as [r q m nt p st pu sh]; cbn in *; subst r.
  assert (∀ sh', pu = sh' ++ q → ∃ k, let s' := display_run k (mkDisp false q true nt AtDrain st pu sh') in
    pc s' = Finished ∧ shown s' = pu) as Hdrain.
  { intros sh' ->. exists (3 * length q + 1 + 1)%nat. cbn zeta.
    rewrite display_run_add; rewrite (display_drains q); done. }
  destruct p; cbn in *; subst; try done.
  - exists 1%nat. by split; [|left].
  - destruct (Hdrain sh eq_refl) as (k & ? & ?). exists (S (S k)). cbn.
    rewrite orb_true_r. by split; [|right; right].
  - destruct (Hdrain sh eq_refl) as (k & ? & ?). exists (S k). cbn.
    rewrite orb_true_r. by split; [|right; right].
  - destruct (Hdrain sh eq_refl) as (k & ? & ?). exists (S (S k)). cbn.
    rewrite orb_true_r. by split; [|right; right].
  - destruct (Hdrain sh eq_refl) as (k & ? & ?). exists k. by split; [|right; right].
  - destruct (Hdrain (sh ++ [func])) as (k & ? & ?); [by rewrite <- app_assoc|].
    exists (S (S k)). cbn. by split; [|right; right].
  - destruct (Hdrain sh eq_refl) as (k & ? & ?). exists (S k). cbn. by split; [|right; right].
  - exists 0%nat. by split; [|right; left].
Qed.

Lemma display_thread_ends_witness :
  ∃ k, pc (display_run k (mkDisp false ["bye"] false 1 AtLock NotStopping ["bye"] [])) = Finished.
Proof.
  destruct (display_thread_ends (mkDisp false ["bye"] false 1 AtLock NotStopping ["bye"] []))
    as (k & Hk & _); [|reflexivity|discriminate|discriminate|by exists k].
  eapply rtc_l; [apply step_display; reflexivity|].
  eapply rtc_l; [apply step_queue, (queueDisplay_push _ "bye"); reflexivity|].
  eapply rtc_l; [by apply step_quit|]. apply rtc_refl.
Defined.

(** C34. The lost wake-up. [Stop] clears [running] and notifies without taking the mutex;
    when that happens between the display thread's evaluation of the predicate and
    its blocking, the notification is lost: [Stop] waits for a thread that waits,
    and only a spurious wake-up or a further closure can release either. *)
Theorem Stop_can_hang D :
  ∃ s : disp D,
    rtc disp_step (disp_init D) s ∧ stopping s = Notified ∧ pc s = Waiting ∧
    ∀ s', disp_step s s' →
      s' = s ∨ spurious_wakeup s s' ∨ ∃ func, pushed s' = pushed s ++ [func].
Proof.
  exists (mkDisp false [] false 0 Waiting Notified [] []). split_and!; [|done|done|].
  - do 3 (eapply rtc_l; [apply step_display; reflexivity|]).
    eapply rtc_l; [apply step_stop, Stop_clear; reflexivity|].
    eapply rtc_l; [apply step_stop, Stop_notify_all; reflexivity|].
    eapply rtc_l; [apply step_display; reflexivity|]. apply rtc_refl.
  - intros s' [Hd|Hs|Ho|Ho| ->]; [done|by right; left| | |by left].
    + right; right. destruct Ho; [by eexists|done].
    + by destruct Ho.
Qed.

(** A closure queued just before [running] is cleared, as "Shutting down..." is by
    [HandleQuit], may never be run. *)
Theorem last_message_can_be_lost {D} (func : D) :
  ∃ s, rtc disp_step (disp_init D) s ∧ stopping s = Joined ∧ pushed s = [func] ∧ shown s = [].
Proof.
  exists (mkDisp false [func] false 1 Finished Joined [func] []). split_and!; [|done..].
  eapply rtc_l; [apply step_queue, (queueDisplay_push _ func); reflexivity|].
  eapply rtc_l; [by apply step_quit|].
  eapply rtc_l; [apply step_stop, Stop_clear; reflexivity|].
  eapply rtc_l; [apply step_stop, Stop_notify_all; reflexivity|].
  eapply rtc_l; [apply step_display; reflexivity|].
  eapply rtc_l; [apply step_stop, Stop_join; reflexivity|]. apply rtc_refl.
Qed.
