(* ===== verification/StopRace.v ===== *)
(** [NetworkManager::Stop] against the thread that runs [RouteMessages], as a step
    relation: the statements of [Stop] interleave with the test and the body of the
    router loop. A body is one step here. The poller thread is left out: it only
    reads the dealer sockets, and a manager between calls holds none. *)

From S2P Require Import Prelude CxxText Message PeerManager PeerFile Network NetworkFacts.

Section StopRace.
Context {U : Type}.
Implicit Types n : Net U.

(** Where the router thread is. *)
Inductive router_pc := RouterTest | RouterInPass | RouterFinished | RouterUndefined (u : ub).

Inductive stop_stmt := SRunning | SDealers | SRouter | SJoin.

Definition run_stmt (s : stop_stmt) : stM (Net U) unit :=
  match s with
  | SRunning => Stop_running | SDealers => Stop_dealers
  | SRouter => Stop_router | SJoin => Stop_join
  end.

Definition stop_stmts : list stop_stmt := [SRunning; SDealers; SRouter; SJoin].

Lemma Stop_dealers_run n : socketsMutex_ n = false → Stop_dealers n = (Ok tt, put_dealers ∅ n).
Proof.
  intros Hf. unfold Stop_dealers.
  rewrite (lock_guard_run _ n (Ok tt) (put_dealers ∅ (put_socketsMutex true n))) by done.
  destruct n; cbn in *; by subst.
Qed.

Lemma Stop_router_run n : Stop_router n = (Ok tt, put_router None n).
Proof. unfold Stop_router. st_simpl. by destruct n as [? ? ? ? []]. Qed.

(** The statements are those of [Stop]. *)
Lemma stop_stmts_Stop n : running_ n = true → Stop n = st_for stop_stmts run_stmt n.
Proof.
  intros Hr. unfold Stop, mbind, stM_bind. erewrite st_bind_Ok by reflexivity. rewrite Hr. cbn [negb].
  cbn [st_for stop_stmts run_stmt]. unfold st_bind.
  repeat match goal with |- context [match ?m ?s with _ => _ end] => destruct (m s) as [[[]| |] ?]; try done end.
Qed.

Record race := mkRace { net : Net U; router : router_pc; todo : list stop_stmt }.

Inductive race_step : race → race → Prop :=
  | router_test n ts :
      race_step (mkRace n RouterTest ts)
                (mkRace n (if running_ n then RouterInPass else RouterFinished) ts)
  | router_pass z now ev n n' ts : RouteMessages_body z now ev n = (Ok tt, n') →
      race_step (mkRace n RouterInPass ts) (mkRace n' RouterTest ts)
  | router_undefined z now ev u n n' ts : RouteMessages_body z now ev n = (Undefined u, n') →
      race_step (mkRace n RouterInPass ts) (mkRace n' (RouterUndefined u) ts)
  | stop_stmt_done s n n' r ts : run_stmt s n = (Ok tt, n') → (s = SJoin → r = RouterFinished) →
      race_step (mkRace n r (s :: ts)) (mkRace n' r ts).

End StopRace.
Arguments race : clear implicits.

(** C27. [Stop] destroys the router socket before it joins the router thread: from any
    running manager there is an interleaving in which the loop, having passed its
    test, dereferences the null [routerSocket_] while [Stop] waits at the join. *)
Theorem Stop_races_with_router {U} (n : Net U) :
  net_inv n → running_ n = true →
  ∃ n', rtc race_step (mkRace n RouterTest stop_stmts)
                      (mkRace n' (RouterUndefined NullDereference) [SJoin]).
Proof.
  intros [Hf _ Hrun _] Hr. specialize (Hrun Hr).
  exists (put_router None (put_dealers ∅ (put_running false n))).
  eapply rtc_l; [apply router_test|]. rewrite Hr.
  eapply rtc_l; [apply stop_stmt_done; [reflexivity|done]|].
  eapply rtc_l; [apply stop_stmt_done; [by apply Stop_dealers_run|done]|].
  eapply rtc_l; [apply stop_stmt_done; [apply Stop_router_run|done]|].
  eapply rtc_l; [apply (router_undefined zmq_all_good (λ _, 0) RouterIdle); reflexivity|].
  apply rtc_refl.
Qed.

Lemma Stop_races_with_router_witness :
  ∃ n', rtc race_step (mkRace (Start zmq_all_good 9090 test_net).2 RouterTest stop_stmts)
                      (mkRace n' (RouterUndefined NullDereference) [SJoin]).
Proof. apply Stop_races_with_router; [by split|reflexivity]. Defined.
