(* ===== verification/Crypto.v ===== *)
(** The cryptographic operations: [Include/Crypto.hpp] and [Source/Crypto.cpp].

    OpenSSL is a parameter: the record [OpenSSL] says what each call returns, by the
    number of the call where the same call may succeed once and fail the next time.
    What the program does with OpenSSL is written out, every early return and every
    release included; the state is the ledger of the objects the program holds. *)

From Stdlib Require Import Strings.Ascii.
From S2P Require Import Prelude CxxText.

(** ** OpenSSL, as seen from the program *)

Inductive object := PKEY | PKEY_CTX | MD_CTX | BIO.

#[export] Instance object_eq_dec : EqDecision object.
Proof. solve_decision. Defined.

(** [Key] is what an [EVP_PKEY] holds. *)
Record OpenSSL (Key : Type) := {
  allocates : nat → bool;                        (** call [i], a constructor, returns an object *)
  succeeds : nat → bool;                         (** call [i] returns a positive status *)
  generated : nat → Key;                         (** the key pair made by call [i] *)
  pem_public : Key → list byte;                  (** what [PEM_write_bio_PUBKEY] writes *)
  pem_private : Key → list byte;
  read_public : list byte → option Key;          (** [PEM_read_bio_PUBKEY] of these bytes *)
  read_private : list byte → option Key;
  encrypt_bound : Key → list byte → nat;         (** the size an operation asks for *)
  encrypt_output : nat → Key → list byte → list byte;
  decrypt_bound : Key → list byte → nat;
  decrypt_output : nat → Key → list byte → list byte;
  sign_bound : Key → list byte → nat;
  sign_output : nat → Key → list byte → list byte;
  verify_result : Key → list byte → list byte → Z;
  derive_output : Key → Key → list byte;
  sha256 : list byte → list byte
}.
Arguments allocates {_}. Arguments succeeds {_}. Arguments generated {_}.
Arguments pem_public {_}. Arguments pem_private {_}. Arguments read_public {_}.
Arguments read_private {_}. Arguments encrypt_bound {_}. Arguments encrypt_output {_}.
Arguments decrypt_bound {_}. Arguments decrypt_output {_}. Arguments sign_bound {_}.
Arguments sign_output {_}. Arguments verify_result {_}. Arguments derive_output {_}.
Arguments sha256 {_}.

(** What the manual pages promise: an output never exceeds the size asked for
    first, and a SHA-256 digest has 32 bytes. *)
Class OpenSSL_documented {Key} (ssl : OpenSSL Key) : Prop := {
  encrypt_fits i k d : (length (encrypt_output ssl i k d) <= encrypt_bound ssl k d)%nat;
  decrypt_fits i k d : (length (decrypt_output ssl i k d) <= decrypt_bound ssl k d)%nat;
  sign_fits i k d : (length (sign_output ssl i k d) <= sign_bound ssl k d)%nat;
  derive_fits k p : (length (derive_output ssl k p) <= 32)%nat;
  sha256_length d : length (sha256 ssl d) = 32%nat
}.

(** ** The ledger *)

Record Ledger := mkLedger {
  calls : nat;                 (** calls made so far *)
  live : gmap nat object       (** objects held, by the number of the call that made them *)
}.

Section Crypto.
Context {Key : Type} (ssl : OpenSSL Key).

(** A constructor: null, or a new object. *)
Definition allocate (o : object) : stM Ledger (option nat) := λ s,
  let i := calls s in
  if allocates ssl i then (Ok (Some i), mkLedger (S i) (<[i := o]> (live s)))
  else (Ok None, mkLedger (S i) (live s)).

(** A call that returns a status; the number of the call, for its output. *)
Definition status : stM Ledger (bool * nat) := λ s,
  (Ok (succeeds ssl (calls s), calls s), mkLedger (S (calls s)) (live s)).

(** A release. *)
Definition release (o : object) (h : nat) : stM Ledger unit := λ s,
  if decide (live s !! h = Some o) then (Ok tt, mkLedger (calls s) (delete h (live s)))
  else (Undefined InvalidFree, s).

(** Writing an output into a vector of [n] zero bytes. *)
Definition fill (n : nat) (out : list byte) : stM Ledger (list byte) :=
  if (length out <=? n)%nat then mret (out ++ replicate (n - length out) Byte.x00)
  else st_lift (Undefined WritePastEnd).

(** *** [CryptoManager::Impl] *)

Definition GenerateECKeyPair : stM Ledger (option (nat * Key)) :=
  ctx ← allocate PKEY_CTX;
  match ctx with
  | None => mret None
  | Some ctx =>
    init ← status;
    if negb init.1 then release PKEY_CTX ctx;; mret None
    else
      curve ← status;
      if negb curve.1 then release PKEY_CTX ctx;; mret None
      else
        pkey ← allocate PKEY;
        match pkey with
        | None => release PKEY_CTX ctx;; mret None
        | Some pkey => release PKEY_CTX ctx;; mret (Some (pkey, generated ssl pkey))
        end
  end.

Definition SerializeKey (pem : Key → list byte) (key : Key) : stM Ledger (list byte) :=
  bio ← allocate BIO;
  match bio with
  | None => mret []
  | Some bio =>
    written ← status;
    if negb written.1 then release BIO bio;; mret []
    else
      let result := pem key in
      release BIO bio;; mret result
  end.
Definition SerializePublicKey : Key → stM Ledger (list byte) := SerializeKey (pem_public ssl).
Definition SerializePrivateKey : Key → stM Ledger (list byte) := SerializeKey (pem_private ssl).

Definition DeserializeKey (read : list byte → option Key) (keyData : list byte) : stM Ledger (option (nat * Key)) :=
  bio ← allocate BIO;
  match bio with
  | None => mret None
  | Some bio =>
    pkey ← match read keyData with
           | Some key => h ← allocate PKEY; mret (option_map (λ h, (h, key)) h)
           | None => _ ← status; mret None
           end;
    release BIO bio;; mret pkey
  end.
Definition DeserializePublicKey : list byte → stM Ledger (option (nat * Key)) := DeserializeKey (read_public ssl).
Definition DeserializePrivateKey : list byte → stM Ledger (option (nat * Key)) := DeserializeKey (read_private ssl).

(** *** [CryptoManager] *)

Record KeyPair := mkKeyPair { publicKey : list byte; privateKey : list byte }.

Definition GenerateKeyPair : stM Ledger KeyPair :=
  pkey ← GenerateECKeyPair;
  match pkey with
  | None => mret (mkKeyPair [] [])
  | Some (h, key) =>
    pub ← SerializePublicKey key;
    priv ← SerializePrivateKey key;
    release PKEY h;;
    mret (mkKeyPair pub priv)
  end.

(** [Encrypt] and [Decrypt] differ in the key they read and the calls they make. *)
Definition transform (bound : Key → list byte → nat) (output : nat → Key → list byte → list byte)
    (key : option (nat * Key)) (data : list byte) : stM Ledger (list byte) :=
  match key with
  | None => mret []
  | Some (h, k) =>
    ctx ← allocate PKEY_CTX;
    match ctx with
    | None => release PKEY h;; mret []
    | Some ctx =>
      let fail : stM Ledger (list byte) := release PKEY_CTX ctx;; release PKEY h;; mret [] in
      init ← status;
      if negb init.1 then fail
      else
        size ← status;
        if negb size.1 then fail
        else
          let outLen := bound k data in
          run ← status;
          if negb run.1 then fail
          else
            let out := output run.2 k data in
            buffer ← fill outLen out;
            let result := take (length out) buffer in
            release PKEY_CTX ctx;; release PKEY h;; mret result
    end
  end.

Definition Encrypt (data recipientPublicKey : list byte) : stM Ledger (list byte) :=
  pubKey ← DeserializePublicKey recipientPublicKey;
  transform (encrypt_bound ssl) (encrypt_output ssl) pubKey data.

Definition Decrypt (encryptedData privateKey : list byte) : stM Ledger (list byte) :=
  privKey ← DeserializePrivateKey privateKey;
  transform (decrypt_bound ssl) (decrypt_output ssl) privKey encryptedData.

Definition Sign (data privateKey : list byte) : stM Ledger (list byte) :=
  privKey ← DeserializePrivateKey privateKey;
  match privKey with
  | None => mret []
  | Some (h, k) =>
    mdctx ← allocate MD_CTX;
    match mdctx with
    | None => release PKEY h;; mret []
    | Some mdctx =>
      let fail : stM Ledger (list byte) := release MD_CTX mdctx;; release PKEY h;; mret [] in
      init ← status;
      if negb init.1 then fail
      else
        update ← status;
        if negb update.1 then fail
        else
          size ← status;
          if negb size.1 then fail
          else
            let sigLen := sign_bound ssl k data in
            final ← status;
            if negb final.1 then fail
            else
              let out := sign_output ssl final.2 k data in
              buffer ← fill sigLen out;
              let signature := take (length out) buffer in
              release MD_CTX mdctx;; release PKEY h;; mret signature
    end
  end.

Definition Verify (data signature publicKey : list byte) : stM Ledger bool :=
  pubKey ← DeserializePublicKey publicKey;
  match pubKey with
  | None => mret false
  | Some (h, k) =>
    mdctx ← allocate MD_CTX;
    match mdctx with
    | None => release PKEY h;; mret false
    | Some mdctx =>
      let fail : stM Ledger bool := release MD_CTX mdctx;; release PKEY h;; mret false in
      init ← status;
      if negb init.1 then fail
      else
        update ← status;
        if negb update.1 then fail
        else
          let result := verify_result ssl k data signature in
          release MD_CTX mdctx;; release PKEY h;; mret (result =? 1)
    end
  end.

(** [for (i = 0; i < 8; ++i) ss << std::hex << std::setw(2) << std::setfill('0') << hash[i]]. *)
Definition GeneratePeerId (publicKey : list byte) : string :=
  let hash := sha256 ssl publicKey in
  foldl (λ ss i, ss +:+ hex2 (nth i hash Byte.x00)) "" (seq 0 8).

Definition DeriveSharedSecret (privateKey publicKey : list byte) : stM Ledger (list byte) :=
  let sharedSecret := replicate 32 Byte.x00 in
  privKey ← DeserializePrivateKey privateKey;
  pubKey ← DeserializePublicKey publicKey;
  match privKey, pubKey with
  | Some (hpriv, priv), Some (hpub, pub) =>
    ctx ← allocate PKEY_CTX;
    match ctx with
    | None => release PKEY hpriv;; release PKEY hpub;; mret sharedSecret
    | Some ctx =>
      let done : list byte → stM Ledger (list byte) := λ result,
        release PKEY_CTX ctx;; release PKEY hpriv;; release PKEY hpub;; mret result in
      init ← status;
      if negb init.1 then done sharedSecret
      else
        peer ← status;
        if negb peer.1 then done sharedSecret
        else
          derive ← status;
          result ← (if derive.1 : bool then fill 32 (derive_output ssl priv pub) else mret sharedSecret);
          done result
    end
  | _, _ =>
    match privKey with Some (h, _) => release PKEY h | None => mret tt end;;
    match pubKey with Some (h, _) => release PKEY h | None => mret tt end;;
    mret sharedSecret
  end.
End Crypto.
