(* ===== verification/CryptoFacts.v ===== *)
(** Theorems about the cryptographic operations: every object is released exactly
    once on every path, what each operation returns, the round trips of encryption
    and signing, and the peer id. The proofs go through a weakest precondition over
    the ledger. *)

From Stdlib Require Import Strings.Ascii.
From S2P Require Import Prelude CxxText Crypto.

Section Wp.
Context {Key : Type} (ssl : OpenSSL Key).

(** Some call of OpenSSL failed. *)
Definition some_call_failed : Prop := ∃ i, allocates ssl i = false ∨ succeeds ssl i = false.

(** Objects are numbered by past calls. *)
Definition fresh (s : Ledger) : Prop := ∀ h, live s !! h ≠ None → (h < calls s)%nat.

(** From a ledger that holds [L], [m] completes and leaves a result and a ledger in [Q]. *)
Definition wp {A} (m : stM Ledger A) (Q : A → gmap nat object → Prop) (L : gmap nat object) : Prop :=
  ∀ s, live s = L → fresh s → ∃ a s', m s = (Ok a, s') ∧ fresh s' ∧ Q a (live s').

Lemma wp_ret {A} (a : A) (Q : A → gmap nat object → Prop) L : Q a L → wp (mret a) Q L.
Proof. intros HQ s <- Hs. by exists a, s. Qed.

Lemma wp_bind {A B} (m : stM Ledger A) (f : A → stM Ledger B) Q L :
  wp m (λ a, wp (f a) Q) L → wp (mbind f m) Q L.
Proof.
  intros Hm s HL Hs. destruct (Hm s HL Hs) as (a & s' & E & Hs' & HR).
  unfold mbind, stM_bind. erewrite st_bind_Ok by exact E. by apply HR.
Qed.

Lemma wp_mono {A} (m : stM Ledger A) (Q R : A → gmap nat object → Prop) L :
  wp m Q L → (∀ a L', Q a L' → R a L') → wp m R L.
Proof. intros Hm HQR s HL Hs. destruct (Hm s HL Hs) as (a & s' & ? & ? & ?). eauto 6. Qed.

Lemma wp_allocate o (Q : option nat → gmap nat object → Prop) L :
  (some_call_failed → Q None L) → (∀ h, L !! h = None → Q (Some h) (<[h := o]> L)) →
  wp (allocate ssl o) Q L.
Proof.
  intros HN HS s <- Hs. unfold allocate. destruct (allocates ssl (calls s)) eqn:E.
  - do 2 eexists. split; [done|]. split; cbn.
    + intros h Hh. cbn in *. destruct (decide (h = calls s)) as [->|Hne]; [lia|].
      rewrite lookup_insert_ne in Hh by done. apply Hs in Hh. lia.
    + apply HS. destruct (live s !! calls s) eqn:El; [|done].
      assert (calls s < calls s)%nat; [apply Hs; by rewrite El|lia].
  - do 2 eexists. split; [done|]. split; cbn.
    + intros h Hh. cbn in *. apply Hs in Hh. lia.
    + apply HN. exists (calls s). by left.
Qed.

Lemma wp_status (Q : bool * nat → gmap nat object → Prop) L :
  (∀ i, some_call_failed → Q (false, i) L) → (∀ i, Q (true, i) L) → wp (status ssl) Q L.
Proof.
  intros HF HT s <- Hs. unfold status. do 2 eexists. split; [done|]. split; cbn.
  - intros h Hh. cbn in *. apply Hs in Hh. lia.
  - destruct (succeeds ssl (calls s)) eqn:E; [apply HT|apply HF]. exists (calls s). by right.
Qed.

Lemma wp_release o h (Q : unit → gmap nat object → Prop) L :
  L !! h = Some o → Q tt (delete h L) → wp (release o h) Q L.
Proof.
  intros Hh HQ s <- Hs. unfold release. rewrite decide_True by done.
  do 2 eexists. split; [done|]. split; [|done]. intros k Hk. cbn in *. apply Hs.
  intros Hn. by rewrite lookup_delete_None in Hk; apply Hk; right.
Qed.

Lemma wp_fill n out (Q : list byte → gmap nat object → Prop) L :
  (length out <= n)%nat → Q (out ++ replicate (n - length out) Byte.x00) L → wp (fill n out) Q L.
Proof.
  intros Hl HQ. unfold fill. rewrite (proj2 (Nat.leb_le _ _) Hl). by apply wp_ret.
Qed.
End Wp.

(** Symbolic execution: every branch of an operation, down to what is left to show. *)
Ltac ledger_step :=
  match goal with
  | |- wp (mret _) _ _ => apply wp_ret
  | |- wp (mbind _ _) _ _ => apply wp_bind
  | |- wp (allocate _ _) _ _ => apply wp_allocate;
      [intros ?|let Hnew := fresh "Hnew" in intros ? Hnew;
         rewrite ?lookup_insert_None in Hnew; destruct_and?]
  | |- wp (status _) _ _ => apply wp_status; [intros ? ?|intros ?]
  | |- wp (release _ _) _ _ => apply wp_release; [by simplify_map_eq|]
  end; cbn [negb fst snd option_map]; cbv zeta.
Ltac ledger := repeat ledger_step.

(** Two ledgers that differ by balanced insertions and deletions are equal. *)
Ltac ledger_eq :=
  try done; apply map_eq; intros ?; rewrite ?lookup_delete, ?lookup_insert, ?lookup_delete, ?lookup_insert,
    ?lookup_delete, ?lookup_insert; repeat (case_decide; subst; try done).

Section Keys.
Context {Key : Type} (ssl : OpenSSL Key).

(** What an operation that returns a key object leaves: nothing on failure, the
    object alone on success. *)
Definition yields (key : nat → option Key) (L : gmap nat object) (r : option (nat * Key)) (L' : gmap nat object) : Prop :=
  (r = None ∧ L' = L) ∨ ∃ h k, r = Some (h, k) ∧ key h = Some k ∧ L !! h = None ∧ L' = <[h := PKEY]> L.

Lemma GenerateECKeyPair_wp L :
  wp (GenerateECKeyPair ssl) (λ r L', yields (λ h, Some (generated ssl h)) L r L' ∧
    (r = None → some_call_failed ssl)) L.
Proof.
  unfold GenerateECKeyPair, yields. ledger.
  all: split; [|done]; first [left; split; [done|ledger_eq]|right].
  do 2 eexists. split_and!; try done. ledger_eq.
Qed.

Lemma SerializeKey_wp pem k L :
  wp (SerializeKey ssl pem k) (λ r L', L' = L ∧ (r = pem k ∨ (r = [] ∧ some_call_failed ssl))) L.
Proof.
  unfold SerializeKey. ledger. all: split; [try done; ledger_eq|naive_solver].
Qed.

Lemma DeserializeKey_wp read d L :
  wp (DeserializeKey ssl read d) (λ r L', yields (λ _, read d) L r L' ∧
    (r = None → some_call_failed ssl ∨ read d = None)) L.
Proof.
  unfold DeserializeKey, yields. ledger; [naive_solver|]. destruct (read d) as [k|]; ledger.
  all: split; [|naive_solver]; first [left; split; [done|ledger_eq]|right].
  do 2 eexists. split_and!; try done. ledger_eq.
Qed.

Lemma GenerateKeyPair_wp L :
  wp (GenerateKeyPair ssl) (λ kp L', L' = L ∧ (some_call_failed ssl ∨
    ∃ i, kp = mkKeyPair (pem_public ssl (generated ssl i)) (pem_private ssl (generated ssl i)))) L.
Proof.
  unfold GenerateKeyPair. apply wp_bind. eapply wp_mono; [apply GenerateECKeyPair_wp|].
  intros r L' [[[-> ->]|(h & k & -> & [= <-] & HL & ->)] Hf]; [ledger; naive_solver|].
  apply wp_bind. eapply wp_mono; [apply SerializeKey_wp|]. intros pub ? [-> Hpub].
  apply wp_bind. eapply wp_mono; [apply SerializeKey_wp|]. intros priv ? [-> Hpriv].
  ledger. split; [ledger_eq|]. naive_solver.
Qed.

(** What an operation on the key [key] of a buffer computes, or nothing. *)
Definition computes (output : nat → Key → list byte) (key : option Key) (out : list byte) : Prop :=
  (out = [] ∧ (some_call_failed ssl ∨ key = None)) ∨ ∃ i k, key = Some k ∧ out = output i k.

Lemma take_fill out n : take (length out) (out ++ replicate n Byte.x00) = out.
Proof. by rewrite take_app_length. Qed.

Lemma transform_wp bound output key r d L L' :
  (∀ i k, length (output i k d) <= bound k d)%nat →
  yields (λ _, key) L r L' → (r = None → some_call_failed ssl ∨ key = None) →
  wp (transform ssl bound output r d) (λ out L'', L'' = L ∧ computes (λ i k, output i k d) key out) L'.
Proof.
  intros Hfit Hy Hr. unfold transform, computes.
  destruct Hy as [[-> ->]|(h & k & -> & -> & HL & ->)]; [apply wp_ret; naive_solver|].
  ledger.
  all: try (split; [ledger_eq|naive_solver]).
  apply wp_fill; [done|]. rewrite take_fill. ledger. split; [ledger_eq|naive_solver].
Qed.

Lemma Sign_wp `{!OpenSSL_documented ssl} d priv L :
  wp (Sign ssl d priv)
    (λ out L', L' = L ∧ computes (λ i k, sign_output ssl i k d) (read_private ssl priv) out) L.
Proof.
  unfold Sign. apply wp_bind. eapply wp_mono; [apply DeserializeKey_wp|]. unfold computes.
  intros r L' [[[-> ->]|(h & k & -> & -> & HL & ->)] Hr]; [apply wp_ret; naive_solver|].
  ledger.
  all: try (split; [ledger_eq|naive_solver]).
  apply wp_fill; [apply sign_fits|]. rewrite take_fill. ledger. split; [ledger_eq|naive_solver].
Qed.

Lemma Verify_wp d sig pub L :
  wp (Verify ssl d sig pub)
    (λ b L', L' = L ∧ ((b = false ∧ (some_call_failed ssl ∨ read_public ssl pub = None)) ∨
       ∃ k, read_public ssl pub = Some k ∧ b = (verify_result ssl k d sig =? 1))) L.
Proof.
  unfold Verify. apply wp_bind. eapply wp_mono; [apply DeserializeKey_wp|].
  intros r L' [[[-> ->]|(h & k & -> & -> & HL & ->)] Hr]; [apply wp_ret; naive_solver|].
  ledger. all: split; [ledger_eq|naive_solver].
Qed.

Lemma Encrypt_wp `{!OpenSSL_documented ssl} d pub L :
  wp (Encrypt ssl d pub)
    (λ out L', L' = L ∧ computes (λ i k, encrypt_output ssl i k d) (read_public ssl pub) out) L.
Proof.
  unfold Encrypt. apply wp_bind. eapply wp_mono; [apply DeserializeKey_wp|].
  intros r L' [Hy Hr]. apply transform_wp; [intros; apply encrypt_fits|done|done].
Qed.

Lemma Decrypt_wp `{!OpenSSL_documented ssl} d priv L :
  wp (Decrypt ssl d priv)
    (λ out L', L' = L ∧ computes (λ i k, decrypt_output ssl i k d) (read_private ssl priv) out) L.
Proof.
  unfold Decrypt. apply wp_bind. eapply wp_mono; [apply DeserializeKey_wp|].
  intros r L' [Hy Hr]. apply transform_wp; [intros; apply decrypt_fits|done|done].
Qed.

(** The array of 32 bytes: zeros, or the secret followed by zeros. *)
Definition secret_of (priv pub : Key) : list byte :=
  derive_output ssl priv pub ++ replicate (32 - length (derive_output ssl priv pub)) Byte.x00.

Lemma DeriveSharedSecret_wp `{!OpenSSL_documented ssl} priv pub L :
  wp (DeriveSharedSecret ssl priv pub)
    (λ out L', L' = L ∧
      ((out = replicate 32 Byte.x00 ∧
        (some_call_failed ssl ∨ read_private ssl priv = None ∨ read_public ssl pub = None)) ∨
       ∃ k p, read_private ssl priv = Some k ∧ read_public ssl pub = Some p ∧ out = secret_of k p)) L.
Proof.
  unfold DeriveSharedSecret. apply wp_bind. eapply wp_mono; [apply DeserializeKey_wp|].
  intros r1 L1 [Hy1 Hr1]. apply wp_bind. eapply wp_mono; [apply DeserializeKey_wp|].
  intros r2 L2 [Hy2 Hr2].
  destruct Hy1 as [[-> ->]|(h1 & k1 & -> & Ek1 & HL1 & ->)],
    Hy2 as [[-> ->]|(h2 & k2 & -> & Ek2 & HL2 & ->)];
    rewrite ?lookup_insert_None in *; destruct_and?; ledger.
  all: try (split; [ledger_eq|naive_solver]).
  apply wp_fill; [apply derive_fits|]. ledger. split; [ledger_eq|]. right. by exists k1, k2.
Qed.
End Keys.

(** ** A concrete OpenSSL, for evaluation: keys are bytes and nothing fails *)

Definition toy_key (l : list byte) : option byte := match l with [b] => Some b | _ => None end.
Definition toy : OpenSSL byte := {|
  allocates _ := true; succeeds _ := true; generated i := byte_of_Z (Z.of_nat i);
  pem_public k := [k]; pem_private k := [k]; read_public := toy_key; read_private := toy_key;
  encrypt_bound _ d := S (length d); encrypt_output _ k d := k :: d;
  decrypt_bound _ d := length d; decrypt_output _ _ d := tail d;
  sign_bound _ _ := 72%nat; sign_output _ k _ := [k];
  verify_result k _ sig := if decide (sig = [k]) then 1 else 0;
  derive_output k p := [byte_of_Z (Z_of_byte k + Z_of_byte p)];
  sha256 d := take 32 (d ++ replicate 32 Byte.x00)
|}.

#[export] Instance toy_documented : OpenSSL_documented toy.
Proof.
  split; intros; [cbn; lia..| |cbn; lia| |].
  - destruct d; cbn; lia.
  - cbn. lia.
  - cbn [sha256 toy]. rewrite length_take, length_app, length_replicate. lia.
Qed.

(** A toy of which call number [k] fails. *)
Definition toy_failing (k : nat) : OpenSSL byte :=
  {| allocates i := negb (i =? k)%nat; succeeds i := negb (i =? k)%nat; generated := generated toy;
     pem_public := pem_public toy; pem_private := pem_private toy; read_public := read_public toy;
     read_private := read_private toy; encrypt_bound := encrypt_bound toy;
     encrypt_output := encrypt_output toy; decrypt_bound := decrypt_bound toy;
     decrypt_output := decrypt_output toy; sign_bound := sign_bound toy; sign_output := sign_output toy;
     verify_result := verify_result toy; derive_output := derive_output toy; sha256 := sha256 toy |}.

#[export] Instance toy_failing_documented k : OpenSSL_documented (toy_failing k).
Proof. split; apply toy_documented. Qed.

Definition no_objects : Ledger := mkLedger 0 ∅.
Lemma no_objects_fresh : fresh no_objects.
Proof. intros h Hh. by cbn in Hh. Qed.

(** ** No leak, no double release *)

Inductive crypto_op :=
  | OpGenerateKeyPair
  | OpEncrypt (data publicKey : list byte) | OpDecrypt (data privateKey : list byte)
  | OpSign (data privateKey : list byte) | OpVerify (data signature publicKey : list byte)
  | OpDeriveSharedSecret (privateKey publicKey : list byte).

Definition run_op {Key} (ssl : OpenSSL Key) (op : crypto_op) : stM Ledger unit :=
  match op with
  | OpGenerateKeyPair => _ ← GenerateKeyPair ssl; mret tt
  | OpEncrypt d k => _ ← Encrypt ssl d k; mret tt
  | OpDecrypt d k => _ ← Decrypt ssl d k; mret tt
  | OpSign d k => _ ← Sign ssl d k; mret tt
  | OpVerify d s k => _ ← Verify ssl d s k; mret tt
  | OpDeriveSharedSecret k p => _ ← DeriveSharedSecret ssl k p; mret tt
  end.

(** C23. Resources. Whichever OpenSSL calls fail, every operation completes without
    writing past a buffer or releasing an object it does not hold, and ends holding
    exactly the objects held before: nothing leaks and nothing is released twice,
    on any of its paths. *)
Theorem crypto_balanced {Key} (ssl : OpenSSL Key) `{!OpenSSL_documented ssl} op s :
  fresh s → ∃ s', run_op ssl op s = (Ok tt, s') ∧ live s' = live s ∧ fresh s'.
Proof.
  intros Hs.
  assert (wp (run_op ssl op) (λ _ L', L' = live s) (live s)) as Hwp.
  { destruct op; cbn [run_op]; apply wp_bind;
      (eapply wp_mono; [first [apply GenerateKeyPair_wp|by apply Encrypt_wp|by apply Decrypt_wp
        |by apply Sign_wp|apply Verify_wp|by apply DeriveSharedSecret_wp]|]);
      intros ? ? [-> _]; by apply wp_ret. }
  destruct (Hwp s eq_refl Hs) as ([] & s' & ? & ? & ?). by exists s'.
Qed.

Lemma crypto_balanced_witness :
  ∃ s', run_op (toy_failing 4) (OpSign [Byte.x61] [Byte.x01]) no_objects = (Ok tt, s') ∧
    live s' = ∅ ∧ fresh s'.
Proof. apply (crypto_balanced (toy_failing 4) (OpSign [Byte.x61] [Byte.x01]) no_objects). apply no_objects_fresh. Defined.

(** ** Round trips *)

Section RoundTrips.
Context {Key : Type} (ssl : OpenSSL Key) `{!OpenSSL_documented ssl}.

Definition sign_and_verify (data : list byte) : stM Ledger bool :=
  keys ← GenerateKeyPair ssl;
  signature ← Sign ssl data (privateKey keys);
  Verify ssl data signature (publicKey keys).

Definition encrypt_and_decrypt (data : list byte) : stM Ledger (list byte) :=
  keys ← GenerateKeyPair ssl;
  encrypted ← Encrypt ssl data (publicKey keys);
  Decrypt ssl encrypted (privateKey keys).

(** The documented relations between the two halves of a key pair. *)
Record pem_laws : Prop := {
  public_reads k : read_public ssl (pem_public ssl k) = Some k;
  private_reads k : read_private ssl (pem_private ssl k) = Some k
}.
End RoundTrips.

(** C37. A signature made with a generated key verifies with it, when no OpenSSL call
    fails. *)
Theorem sign_then_verify {Key} (ssl : OpenSSL Key) `{!OpenSSL_documented ssl} data s :
  pem_laws ssl → (∀ i k, verify_result ssl k data (sign_output ssl i k data) = 1) →
  ¬ some_call_failed ssl → fresh s →
  ∃ s', sign_and_verify ssl data s = (Ok true, s') ∧ live s' = live s.
Proof.
  intros [Hpub Hpriv] Hv Hok Hs.
  assert (wp (sign_and_verify ssl data) (λ b L', L' = live s ∧ b = true) (live s)) as Hwp.
  { unfold sign_and_verify. apply wp_bind. eapply wp_mono; [apply GenerateKeyPair_wp|].
    intros kp L' [-> [?|[i ->]]]; [done|]. cbn [publicKey privateKey].
    apply wp_bind. eapply wp_mono; [by apply Sign_wp|]. rewrite Hpriv.
    intros sig L' [-> [[_ [?|?]]|(j & k & [= <-] & ->)]]; [done..|].
    eapply wp_mono; [apply Verify_wp|]. rewrite Hpub.
    intros b L' [-> [[_ [?|?]]|(k & [= <-] & ->)]]; [done..|]. by rewrite Hv. }
  destruct (Hwp s eq_refl Hs) as (b & s' & ? & _ & ? & ->). by exists s'.
Qed.

Lemma toy_never_fails : ¬ some_call_failed toy.
Proof. by intros [i [H|H]]. Qed.

Lemma sign_then_verify_witness :
  ∃ s', sign_and_verify toy [Byte.x61; Byte.x62] no_objects = (Ok true, s') ∧ live s' = ∅.
Proof.
  apply (sign_then_verify toy [Byte.x61; Byte.x62] no_objects); [by split| | |].
  - intros i k. cbn. by rewrite decide_True.
  - exact toy_never_fails.
  - exact no_objects_fresh.
Defined.

(** What is encrypted for a generated key decrypts to the data, when no OpenSSL
    call fails (with OpenSSL's elliptic-curve keys [EVP_PKEY_encrypt_init] does). *)
Theorem encrypt_then_decrypt {Key} (ssl : OpenSSL Key) `{!OpenSSL_documented ssl} data s :
  pem_laws ssl →
  (∀ i j k, decrypt_output ssl j k (encrypt_output ssl i k data) = data) →
  ¬ some_call_failed ssl → fresh s →
  ∃ s', encrypt_and_decrypt ssl data s = (Ok data, s') ∧ live s' = live s.
Proof.
  intros [Hpub Hpriv] Hd Hok Hs.
  assert (wp (encrypt_and_decrypt ssl data) (λ r L', L' = live s ∧ r = data) (live s)) as Hwp.
  { unfold encrypt_and_decrypt. apply wp_bind. eapply wp_mono; [apply GenerateKeyPair_wp|].
    intros kp L' [-> [?|[i ->]]]; [done|]. cbn [publicKey privateKey].
    apply wp_bind. eapply wp_mono; [by apply Encrypt_wp|]. rewrite Hpub.
    intros enc L' [-> [[_ [?|?]]|(j & k & [= <-] & ->)]]; [done..|].
    eapply wp_mono; [by apply Decrypt_wp|]. rewrite Hpriv.
    intros r L' [-> [[_ [?|?]]|(l & k & [= <-] & ->)]]; [done..|]. by rewrite Hd. }
  destruct (Hwp s eq_refl Hs) as (r & s' & ? & _ & ? & ->). by exists s'.
Qed.

Lemma encrypt_then_decrypt_witness :
  ∃ s', encrypt_and_decrypt toy [Byte.x61; Byte.x62] no_objects = (Ok [Byte.x61; Byte.x62], s') ∧ live s' = ∅.
Proof.
  apply (encrypt_then_decrypt toy [Byte.x61; Byte.x62] no_objects);
    [by split|done|exact toy_never_fails|exact no_objects_fresh].
Defined.

(** [DeriveSharedSecret] always answers 32 bytes and keeps the ledger. The answer is
    the derived secret padded with zeros, or 32 zero bytes: a failure (an unreadable
    key, a failed call, the derivation itself included) is not reported. *)
Theorem DeriveSharedSecret_spec {Key} (ssl : OpenSSL Key) `{!OpenSSL_documented ssl} priv pub s :
  fresh s → ∃ out s', DeriveSharedSecret ssl priv pub s = (Ok out, s') ∧ live s' = live s ∧
    length out = 32%nat ∧
    (out = replicate 32 Byte.x00 ∨
     ∃ k p, read_private ssl priv = Some k ∧ read_public ssl pub = Some p ∧ out = secret_of ssl k p) ∧
    (read_private ssl priv = None ∨ read_public ssl pub = None → out = replicate 32 Byte.x00).
Proof.
  intros Hs. destruct (DeriveSharedSecret_wp ssl priv pub (live s) s eq_refl Hs)
    as (out & s' & E & _ & HL & Hout).
  exists out, s'. split_and!; [done|done| |naive_solver|].
  - destruct Hout as [[-> _]|(k & p & _ & _ & ->)]; [by rewrite length_replicate|].
    unfold secret_of. rewrite length_app, length_replicate.
    pose proof (derive_fits k p). lia.
  - intros Hn. destruct Hout as [[-> _]|(k & p & E1 & E2 & ->)]; [done|].
    destruct Hn; congruence.
Qed.

(** The failing toy: call 8 is the derivation. *)
Lemma DeriveSharedSecret_spec_witness :
  ∃ out s', DeriveSharedSecret (toy_failing 8) [Byte.x01] [Byte.x02] no_objects = (Ok out, s') ∧
    length out = 32%nat.
Proof.
  destruct (DeriveSharedSecret_spec (toy_failing 8) [Byte.x01] [Byte.x02] no_objects no_objects_fresh)
    as (out & s' & ? & _ & ? & _). by exists out, s'.
Defined.

(** ** The peer id *)

(** C38. A peer id is the first eight bytes of the key's SHA-256 digest in sixteen
    hexadecimal characters: none of them is a separator of the peer file or of an
    "address:port", its length fits a handshake, and two keys get the same id only
    when those eight bytes agree. *)
Theorem GeneratePeerId_spec {Key} (ssl : OpenSSL Key) `{!OpenSSL_documented ssl} key key' :
  let id := GeneratePeerId ssl key in
  id = hex_string (take 8 (sha256 ssl key)) ∧ String.length id = 16%nat ∧
  string_has bar id = false ∧ string_has newline id = false ∧ string_has colon id = false ∧
  (id = GeneratePeerId ssl key' ↔ take 8 (sha256 ssl key) = take 8 (sha256 ssl key')).
Proof.
  assert (∀ k, GeneratePeerId ssl k = hex_string (take 8 (sha256 ssl k))) as E.
  { intros k. unfold GeneratePeerId. pose proof (sha256_length k) as Hl.
    destruct (sha256 ssl k) as [|b0 [|b1 [|b2 [|b3 [|b4 [|b5 [|b6 [|b7 l]]]]]]]]; try done.
    cbn [seq foldl nth take]. unfold hex_string. cbn [foldr].
    by rewrite !string_app_assoc, string_app_nil_r. }
  intros id. subst id. rewrite !E. split_and!; [done| | | | |].
  - rewrite hex_string_length, length_take, sha256_length. done.
  - apply hex_string_has.
  - apply hex_string_has.
  - apply hex_string_colon.
  - split; [apply (inj hex_string)|congruence].
Qed.

Lemma GeneratePeerId_spec_witness : String.length (GeneratePeerId toy [Byte.xab]) = 16%nat.
Proof. apply (GeneratePeerId_spec toy [Byte.xab] []). Defined.

Example peer_id_test : GeneratePeerId toy [Byte.xab; Byte.x07] = "ab07000000000000".
Proof. reflexivity. Qed.
