(* ===== verification/Main.v ===== *)
(** The program: [Source/Main.cpp].

    [main] from the parsed options to the exit code, over the ledger of OpenSSL
    objects and the state of the program. Boost's option parser is a parameter (its
    result is an argument), and so is the session, what the other threads do while
    [main] waits for [g_running] to fall. *)

From Stdlib Require Import Strings.Ascii.
From S2P Require Import Prelude CxxText Message PeerManager PeerFile Network NetworkFacts Handshake Cli CliFacts Crypto CryptoFacts.

(** The values of the command line options. *)
Record options := mkOptions {
  help : bool;
  port : Z;
  connect : option string;
  peersFile : string
}.

Definition World : Type := Ledger * Net Cli.
Definition on_crypto {A} (m : stM Ledger A) : stM World A := zoom fst (λ l w, (l, w.2)) m.
Definition on_net {A} (m : stM (Net Cli) A) : stM World A := zoom snd (λ n w, (w.1, n)) m.

(** The components as [main] constructs them; [flag] is the indeterminate
    [localPeer_.isConnected]. *)
Definition program_new (flag : bool) : Net Cli :=
  NetworkManager_new (PeerManager_new flag) CLIInterface_new.

Section Main.
Context {Key : Type} (ssl : OpenSSL Key) `{UnorderedIter}.
Variable z : Zmq.
(** The clock while the peer file is read, line by line, and when connecting. *)
Variable load_clock : Clock.
Variable connect_clock : Z.

(** The local identity. *)
Definition local_peer (keyPair : KeyPair) (port : Z) : PeerInfo :=
  mkPeer (GeneratePeerId ssl (publicKey keyPair)) "0.0.0.0" (Some port) (publicKey keyPair) true 0.

(** The "address:port" of [--connect], [None] without a colon. *)
Definition connect_target (connectStr : string) : outcome (option (string * Z)) :=
  match split_at colon connectStr with
  | Some (address, portStr) => p ← stoul 10 portStr; Ok (Some (address, u16 p))
  | None => Ok None
  end.

Definition connect_initial (connectStr : string) : stM (Net Cli) unit :=
  target ← st_lift (connect_target connectStr);
  match target with
  | Some (address, peerPort) => ConnectToPeer z connect_clock address peerPort
  | None => mret tt
  end.

(** Up to the construction of the interface; [file] maps a path to its contents. *)
Definition startup (opts : options) (file : string → option string) : stM World unit :=
  keyPair ← on_crypto (GenerateKeyPair ssl);
  on_net (on_pm (SetLocalPeer (local_peer keyPair (port opts))));;
  on_net (on_pm (LoadPeersFromFile load_clock (file (peersFile opts))));;
  on_net (Start z (port opts));;
  match connect opts with
  | Some connectStr => on_net (connect_initial connectStr)
  | None => mret tt
  end.

(** After the wait; the contents written to the peer file. *)
Definition shutdown (save_opens : bool) : stM World (option string) :=
  on_net Cli_Stop;;
  on_net Stop;;
  on_net (on_pm (SavePeersToFile save_opens)).

(** The exit code, and what is written to the peer file. An exception unwinds the
    stack, whose [NetworkManager] stops itself. *)
Definition main (parsed : outcome options) (file : string → option string)
    (session : stM World unit) (save_opens : bool) : stM World (Z * option string) :=
  st_catch
    (opts ← st_lift parsed;
     if help opts then mret (0, None)
     else
       startup opts file;;
       session;;
       content ← shutdown save_opens;
       on_net Stop;;
       mret (0, content))
    (catch_all (λ _, on_net Stop;; mret (1, None))).
End Main.

(** * Lemmas *)

Section Runs.
Context {Key : Type} (ssl : OpenSSL Key) (it : UnorderedIter) (z : Zmq) (lc : Clock) (cc : Z).

Lemma on_net_run {A} (m : stM (Net Cli) A) (w : World) r n' :
  m w.2 = (r, n') → on_net m w = (r, (w.1, n')).
Proof. intros E. unfold on_net, zoom. by rewrite E. Qed.

(** Connecting and starting succeed at the ZeroMQ level. *)
Definition starts (p : Z) : Prop :=
  zmq_router z = None ∧ zmq_bind z ("tcp://*:" +:+ to_string p) = None ∧
  router_thread_start z = None ∧ poller_thread_start z = None.

(** The network manager over a registry, started. *)
Definition started (p : Z) (n : Net Cli) : Net Cli :=
  put_threads true true (put_router (Some ("tcp://*:" +:+ to_string p))
    (put_running true (put_listenPort p n))).

Definition with_registry (pm : PeerManager) (n : Net Cli) : Net Cli := put_captured (pm, client n) n.

(** The program with its local identity, about to read the peer file. *)
Definition identified (kp : KeyPair) (p : Z) : PeerManager :=
  mkPM false ∅ (local_peer ssl kp p).

Lemma startup_run opts file flag l kp l' r pm1 :
  GenerateKeyPair ssl l = (Ok kp, l') →
  LoadPeersFromFile lc (file (peersFile opts)) (identified kp (port opts)) = (r, pm1) →
  let n1 := with_registry pm1 (program_new flag) in
  startup ssl z lc cc opts file (l, program_new flag) =
    match r with
    | Ok _ =>
      (on_net (Start z (port opts));;
       match connect opts with
       | Some s => on_net (connect_initial z cc s)
       | None => mret tt
       end) (l', n1)
    | Throw e => (Throw e, (l', n1))
    | Undefined u => (Undefined u, (l', n1))
    end.
Proof.
  intros Ek El n1. unfold startup, mbind, stM_bind.
  erewrite st_bind_Ok by (unfold on_crypto, zoom; cbn [fst]; by rewrite Ek).
  erewrite st_bind_Ok by (apply on_net_run; apply on_pm_run; by apply SetLocalPeer_run).
  destruct r as [[]|e|u].
  - erewrite st_bind_Ok by (apply on_net_run; apply on_pm_run; exact El). done.
  - by erewrite st_bind_Throw by (apply on_net_run; apply on_pm_run; exact El).
  - by erewrite st_bind_Undefined by (apply on_net_run; apply on_pm_run; exact El).
Qed.

Lemma connect_initial_run connectStr address p n :
  connect_target connectStr = Ok (Some (address, p)) →
  connect_initial z cc connectStr n = ConnectToPeer z cc address p n.
Proof.
  intros Ht. unfold connect_initial, mbind, stM_bind.
  by erewrite st_bind_Ok by (unfold st_lift; by rewrite Ht).
Qed.

Lemma program_new_inv flag pm : net_inv (with_registry pm (program_new flag)).
Proof. by split. Qed.

Lemma Start_run p n : net_inv n → running_ n = false → starts p → Start z p n = (Ok tt, started p n).
Proof.
  intros Hinv Hr (H1 & H2 & H3 & H4).
  destruct (Start_cases z p n Hinv) as [[? _]|[_ ->]]; [congruence|].
  cbn zeta. by rewrite H1, H2, H3, H4.
Qed.

Lemma started_inv p n : net_inv n → net_inv (started p n).
Proof. intros [H1 H2 _ _]. by split. Qed.

(** What shutting down leaves of the network manager. *)
Definition stopped (n : Net Cli) : Net Cli :=
  put_threads false false (put_router None (put_dealers ∅ (put_running false n))).

Definition cli_stopped (n : Net Cli) : Net Cli :=
  put_captured (peerManager_ n, set_displayThread false (set_running false (client n))) n.
End Runs.

(** [main] from a registry that could be loaded to the start of the session. *)
Lemma startup_ok {Key} (ssl : OpenSSL Key) z lc cc opts file flag l kp l' pm1 :
  GenerateKeyPair ssl l = (Ok kp, l') →
  LoadPeersFromFile lc (file (peersFile opts)) (identified ssl kp (port opts)) = (Ok tt, pm1) →
  starts z (port opts) →
  let n1 := started (port opts) (with_registry pm1 (program_new flag)) in
  startup ssl z lc cc opts file (l, program_new flag) =
    match connect opts with
    | Some s => on_net (connect_initial z cc s) (l', n1)
    | None => (Ok tt, (l', n1))
    end.
Proof.
  intros Ek El Hz n1. rewrite (startup_run ssl z lc cc opts file flag l kp l' (Ok tt) pm1 Ek El).
  unfold mbind, stM_bind.
  erewrite st_bind_Ok by (apply on_net_run; apply Start_run; [apply program_new_inv|done|done]).
  by destruct (connect opts).
Qed.

Lemma shutdown_run (it : UnorderedIter) opens (l : Ledger) n r pm' :
  net_inv n → running_ n = true →
  SavePeersToFile opens (peerManager_ n) = (r, pm') →
  shutdown opens (l, n) = (r, (l, with_registry pm' (stopped (cli_stopped n)))).
Proof.
  intros Hinv Hr Es. unfold shutdown, mbind, stM_bind.
  erewrite st_bind_Ok by (apply on_net_run; reflexivity).
  erewrite st_bind_Ok by (apply on_net_run; apply Stop_run; [exact Hr|apply (ni_free _ Hinv)]).
  apply on_net_run, on_pm_run. exact Es.
Qed.

(** * Properties *)

(** C14. A run from start to end, and the next start. When the options parse, the peer
    file reads well and ZeroMQ accepts the port, [main] starts the session with
    the local identity in the registry, the manager running and every handler
    call allowed; after any session that leaves the manager between calls and a
    registry of storable peers, it stops everything, writes the peer file and
    exits with 0; and the next [main] that reads this file has every peer with a
    public key back, offline. *)
Theorem main_run {Key} (ssl : OpenSSL Key) `{!OpenSSL_documented ssl} (it : UnorderedIter)
    z lc cc opts file flag l session pm1 :
  fresh l → help opts = false → connect opts = None → starts z (port opts) →
  (∀ kp, LoadPeersFromFile lc (file (peersFile opts)) (identified ssl kp (port opts)) = (Ok tt, pm1 kp)) →
  ∃ kp l1,
    let n1 := started (port opts) (with_registry (pm1 kp) (program_new flag)) in
    GenerateKeyPair ssl l = (Ok kp, l1) ∧ live l1 = live l ∧ net_inv n1 ∧ running_ n1 = true ∧
    ∀ l2 n2, session (l1, n1) = (Ok tt, (l2, n2)) →
      net_inv n2 → running_ n2 = true → pm_inv (peerManager_ n2) →
      map_Forall (λ _ p, storable p) (peers_ (peerManager_ n2)) →
      ∃ content n3,
        main ssl z lc cc (Ok opts) file session true (l, program_new flag)
          = (Ok (0, Some content), (l2, n3)) ∧
        running_ n3 = false ∧ routerSocket_ n3 = None ∧ running (client n3) = false ∧
        peerManager_ n3 = peerManager_ n2 ∧
        ∀ (now : Clock) pm0, mutex_ pm0 = false → ∃ pm4,
          LoadPeersFromFile now (Some content) pm0 = (Ok tt, pm4) ∧
          ∀ k p, peers_ (peerManager_ n2) !! k = Some p → has_key p = true →
            ∃ i, peers_ pm4 !! k = Some (reloaded (now i) p).
Proof.
  intros Hl Hh Hc Hz Hload.
  destruct (GenerateKeyPair_wp ssl (live l) l eq_refl Hl) as (kp & l1 & Ek & _ & Hlive & _).
  exists kp, l1. cbn zeta.
  set (n1 := started (port opts) (with_registry (pm1 kp) (program_new flag))).
  split_and!; [done|done|apply started_inv, program_new_inv|done|].
  intros l2 n2 Es Hinv Hr Hpm Hst.
  assert (∀ now pm0, mutex_ pm0 = false → ∃ content pm4,
    SavePeersToFile true (peerManager_ n2) = (Ok (Some content), peerManager_ n2) ∧
    LoadPeersFromFile now (Some content) pm0 = (Ok tt, pm4) ∧
    ∀ k p, peers_ (peerManager_ n2) !! k = Some p → has_key p = true →
      ∃ i, peers_ pm4 !! k = Some (reloaded (now i) p)) as Hsave.
  { intros now pm0 Hf0. destruct (save_then_load it now (peerManager_ n2) pm0 Hpm Hst Hf0)
      as (content & pm4 & ? & ? & ? & _). by exists content, pm4. }
  destruct (Hsave (λ _, 0) (identified ssl kp 0) eq_refl) as (content & _ & Esave & _).
  pose proof (shutdown_run it true l2 n2 _ _ Hinv Hr Esave) as Eshut.
  exists content. eexists. split_and!.
  - unfold main, st_catch, mbind, stM_bind. erewrite st_bind_Ok by reflexivity. rewrite Hh.
    pose proof (startup_ok ssl z lc cc opts file flag l kp l1 (pm1 kp) Ek (Hload kp) Hz) as Estart.
    rewrite Hc in Estart. cbn zeta in Estart. fold n1 in Estart.
    erewrite st_bind_Ok by exact Estart. erewrite st_bind_Ok by exact Es.
    erewrite st_bind_Ok by exact Eshut. erewrite st_bind_Ok by (apply on_net_run; reflexivity).
    reflexivity.
  - done.
  - done.
  - done.
  - by destruct n2.
  - intros now pm0 Hf0. destruct (Hsave now pm0 Hf0) as (content' & pm4 & E' & ? & ?).
    rewrite Esave in E'. injection E' as <-. by exists pm4.
Qed.

(** [--connect] with an address ZeroMQ accepts never gets past the connection: the
    program deadlocks before its interface exists. *)
Theorem main_connect_deadlocks {Key} (ssl : OpenSSL Key) `{!OpenSSL_documented ssl} (it : UnorderedIter)
    z lc cc opts file flag l session opens connectStr address p :
  fresh l → help opts = false → starts z (port opts) →
  connect opts = Some connectStr → connect_target connectStr = Ok (Some (address, p)) →
  (∀ id, zmq_dealer z id = None) →
  zmq_connect z ("tcp://" +:+ address +:+ ":" +:+ to_string p) = None →
  (∀ kp, (LoadPeersFromFile lc (file (peersFile opts)) (identified ssl kp (port opts))).1 = Ok tt) →
  (main ssl z lc cc (Ok opts) file session opens (l, program_new flag)).1 = Undefined RelockOwnedMutex.
Proof.
  intros Hl Hh Hz Hc Ht Hzd Hzc Hload.
  destruct (GenerateKeyPair_wp ssl (live l) l eq_refl Hl) as (kp & l1 & Ek & _).
  specialize (Hload kp).
  destruct (LoadPeersFromFile _ _ (identified ssl kp (port opts))) as [r pm1] eqn:El. cbn in Hload. subst r.
  pose proof (startup_ok ssl z lc cc opts file flag l kp l1 pm1 Ek El Hz) as Estart.
  rewrite Hc in Estart. cbn zeta in Estart.
  unfold main, st_catch, mbind, stM_bind. erewrite st_bind_Ok by reflexivity. rewrite Hh.
  assert (∃ w, startup ssl z lc cc opts file (l, program_new flag) = (Undefined RelockOwnedMutex, w)) as [w E].
  { rewrite Estart. eexists. apply on_net_run. cbn [snd]. rewrite (connect_initial_run z cc _ _ _ _ Ht).
    apply ConnectToPeer_run_relock; [done|apply Hzd|done]. }
  by erewrite st_bind_Undefined by exact E.
Qed.

(** A peer file that cannot be read to its end keeps the program from starting: [main]
    exits with 1, and the network has not been touched. *)
Theorem main_bad_peers_file {Key} (ssl : OpenSSL Key) `{!OpenSSL_documented ssl} (it : UnorderedIter)
    z lc cc opts file flag l session opens e :
  fresh l → help opts = false →
  (∀ kp, (LoadPeersFromFile lc (file (peersFile opts)) (identified ssl kp (port opts))).1 = Throw e) →
  ∃ l' n', main ssl z lc cc (Ok opts) file session opens (l, program_new flag) = (Ok (1, None), (l', n')) ∧
    running_ n' = false ∧ routerSocket_ n' = None ∧ wire n' = [] ∧ live l' = live l.
Proof.
  intros Hl Hh Hload.
  destruct (GenerateKeyPair_wp ssl (live l) l eq_refl Hl) as (kp & l1 & Ek & _ & Hlive & _).
  specialize (Hload kp).
  destruct (LoadPeersFromFile _ _ (identified ssl kp (port opts))) as [r pm1] eqn:El. cbn in Hload. subst r.
  pose proof (startup_run ssl z lc cc opts file flag l kp l1 _ pm1 Ek El) as E. cbn match in E.
  do 2 eexists. split.
  - unfold main, st_catch, mbind, stM_bind. erewrite st_bind_Ok by reflexivity. rewrite Hh.
    erewrite st_bind_Throw by exact E. reflexivity.
  - by split_and!.
Qed.

(** * Witnesses *)

Definition test_options (target : option string) : options := mkOptions false 9090 target "peers.txt".
Definition no_file : string → option string := λ _, None.

(** A session in which nothing happens. *)
Definition idle_session : stM World unit := mret tt.

Lemma main_run_witness :
  ∃ content n, main (H := tree_order) toy zmq_all_good (λ _, 0) 0 (Ok (test_options None)) no_file
    idle_session true (no_objects, program_new false) = (Ok (0, Some content), n).
Proof.
  destruct (main_run toy tree_order zmq_all_good (λ _, 0) 0 (test_options None) no_file false no_objects
    idle_session (λ kp, identified toy kp 9090)) as (kp & l1 & _ & _ & Hinv & Hr & Hs);
    [exact no_objects_fresh|reflexivity..|by split_and!|reflexivity|].
  destruct (Hs _ _ eq_refl Hinv Hr) as (content & n3 & E & _).
  - by split.
  - by intros k p Hk.
  - exists content. eexists. exact E.
Defined.

Lemma main_connect_deadlocks_witness :
  (main (H := tree_order) toy zmq_all_good (λ _, 0) 0 (Ok (test_options (Some "localhost:8081"))) no_file
    idle_session true (no_objects, program_new false)).1 = Undefined RelockOwnedMutex.
Proof.
  apply (main_connect_deadlocks toy tree_order zmq_all_good (λ _, 0) 0
    (test_options (Some "localhost:8081")) no_file false no_objects idle_session true
    "localhost:8081" "localhost" 8081);
    [exact no_objects_fresh|reflexivity|by split_and!|reflexivity..].
Defined.

Lemma main_bad_peers_file_witness :
  ∃ l n, main (H := tree_order) toy zmq_all_good (λ _, 0) 0 (Ok (test_options None))
    (λ _, Some "peer1|localhost|port|00") idle_session true (no_objects, program_new false)
    = (Ok (1, None), (l, n)).
Proof.
  destruct (main_bad_peers_file toy tree_order zmq_all_good (λ _, 0) 0 (test_options None)
    (λ _, Some "peer1|localhost|port|00") false no_objects idle_session true invalid_argument)
    as (l & n & E & _); [exact no_objects_fresh|reflexivity|intros kp; reflexivity|by exists l, n].
Defined.
