(* ===== verification/Process.v ===== *)
(** The process: [main] of [Source/Main.cpp] from the construction of the interface to
    its return, the input thread it starts, the display thread that one starts, the
    signal handler, the worker threads and the user, as a step relation.

    A statement of [main], a stage of [Run] and a whole input line are one step each, and
    so is a pass of a worker loop; the display thread makes the steps of [DisplayThread].
    The mutexes make the steps of different threads exclude one another ([PeerThreads]
    goes below this for the registry, [StopRace] for [Stop] and the router). A step that
    would lock a mutex another thread holds has no successor: the thread waits. *)

From S2P Require Import Prelude DisplayThread CxxText Message PeerManager PeerFile Network NetworkFacts Handshake Cli CliFacts Crypto CryptoFacts Main.

(** Where [main] is. [CLIInterface::Stop] and [NetworkManager::Stop] run twice: called by
    [main], and, [leaving] it, by the destructors. *)
Inductive main_pc :=
  | MainWaits                            (** [while (g_running) sleep] *)
  | MainClears (leaving : bool)          (** [running = false] of [CLIInterface::Stop] *)
  | MainNotifies (leaving : bool)        (** [displayCv.notify_all()] *)
  | MainJoinsDisplay (leaving : bool)    (** [displayThread.join()] *)
  | MainStopsNetwork (leaving : bool)
  | MainBlocked (leaving : bool)         (** [NetworkManager::Stop], waiting for [socketsMutex_] *)
  | MainSaves
  | MainJoins                            (** [cliThread.join()] *)
  | MainReturned
  | MainUndefined (u : ub).

(** After [CLIInterface::Stop], and after [NetworkManager::Stop]. *)
Definition after_network (leaving : bool) : main_pc := if leaving then MainReturned else MainSaves.

(** Where the input thread is. *)
Inductive input_pc :=
  | RunSets              (** [running = true] *)
  | RunStarts            (** the rest of [Run] up to its loop *)
  | LoopTest             (** [while (running)] *)
  | InInput              (** in [rx.input] *)
  | Processing (line : string)
  | Lowers               (** [g_running = false] *)
  | InputReturned
  | InputUndefined (u : ub).

(** The display thread: where it is, whether it holds [displayMutex], and how many of the
    closures ever queued it has taken from the queue. *)
Record screen := mkScreen {
  display_at : @display_pc display;
  display_holds : bool;
  taken : nat
}.

Record process := mkProcess {
  net : Net Cli;
  g_running : bool;
  main_at : main_pc;
  input_at : input_pc;
  typed : list string;              (** lines entered and not yet read *)
  eof : bool;
  saved : option (option string);   (** once [SavePeersToFile] has returned: what it wrote *)
  aborted : bool;                   (** an exception has left a thread, or a worker is undefined *)
  shows : screen
}.

Definition set_net (n : Net Cli) (s : process) : process :=
  mkProcess n (g_running s) (main_at s) (input_at s) (typed s) (eof s) (saved s) (aborted s) (shows s).
Definition set_main (m : main_pc) (s : process) : process :=
  mkProcess (net s) (g_running s) m (input_at s) (typed s) (eof s) (saved s) (aborted s) (shows s).
Definition set_input (i : input_pc) (s : process) : process :=
  mkProcess (net s) (g_running s) (main_at s) i (typed s) (eof s) (saved s) (aborted s) (shows s).
Definition set_g_running (b : bool) (s : process) : process :=
  mkProcess (net s) b (main_at s) (input_at s) (typed s) (eof s) (saved s) (aborted s) (shows s).
Definition set_typed (l : list string) (b : bool) (s : process) : process :=
  mkProcess (net s) (g_running s) (main_at s) (input_at s) l b (saved s) (aborted s) (shows s).
Definition set_saved (c : option string) (s : process) : process :=
  mkProcess (net s) (g_running s) (main_at s) (input_at s) (typed s) (eof s) (Some c) (aborted s) (shows s).
Definition abort (s : process) : process :=
  mkProcess (net s) (g_running s) (main_at s) (input_at s) (typed s) (eof s) (saved s) true (shows s).
Definition set_shows (d : screen) (s : process) : process :=
  mkProcess (net s) (g_running s) (main_at s) (input_at s) (typed s) (eof s) (saved s) (aborted s) d.

(** ** The display thread *)

(** Everything ever queued. *)
Definition all_queued (s : process) : list display := displayQueue (client (net s)).

(** The state of [DisplayThread], with the flag and the queue of the interface. *)
Definition disp_view (s : process) : disp display :=
  mkDisp (running (client (net s))) (drop (taken (shows s)) (all_queued s))
    (display_holds (shows s)) 0 (display_at (shows s)) NotStopping [] [].
Definition disp_put (d : disp display) (s : process) : process :=
  set_shows (mkScreen (pc d) (displayMutex d)
    (length (all_queued s) - length (DisplayThread.displayQueue d))) s.

(** Its own steps, while the thread exists. *)
Inductive display_runs (s : process) : process → Prop :=
  | display_makes d :
      displayThread (client (net s)) = true → display_next (disp_view s) = Some d →
      display_runs s (disp_put d s).

(** A notification, to whom it may concern. *)
Definition wake (d : screen) : screen :=
  match display_at d with Waiting => mkScreen Woken (display_holds d) (taken d) | _ => d end.

(** A thread that leaves the program as [n]: what it has queued it has queued with
    [displayMutex] held, and notified. *)
Definition queues (n : Net Cli) (s : process) : option process :=
  if (length (all_queued s) <? length (displayQueue (client n)))%nat then
    if display_holds (shows s) then None else Some (set_shows (wake (shows s)) (set_net n s))
  else Some (set_net n s).

(** [Run] between its first statement and its loop. *)
Definition Run_rest (thread_error : option string) : stM (Net Cli) unit :=
  startDisplayThread thread_error;;
  on_cli (DisplaySystemMessage "P2P Chat System Started");;
  on_cli (DisplaySystemMessage "Type 'help' for available commands");;
  SetMessageHandler (Some message_handler);;
  SetConnectionHandler (Some connection_handler).

Section Process.
Context `{UnorderedIter} (rang : ostream → rang_code → string).
Variable thread_error : option string.   (** of starting the display thread *)
Variable save_opens : bool.              (** whether the peer file opens for writing *)

(** A thread runs [m] and goes on; an exception ends the process: it leaves the function
    of the input thread, or makes [main] destroy [cliThread] while it is joinable. *)
Definition runs {A} (m : stM (Net Cli) A) (undefined : ub → process → process)
    (next : A → process → process) (s : process) : option process :=
  match m (net s) with
  | (Ok a, n) => next a <$> queues n s
  | (Throw _, n) => Some (abort (set_net n s))
  | (Undefined u, n) => Some (undefined u (set_net n s))
  end.
Definition main_fails (u : ub) : process → process := set_main (MainUndefined u).
Definition input_fails (u : ub) : process → process := set_input (InputUndefined u).

Definition main_next (s : process) : option process :=
  match main_at s with
  | MainWaits => if g_running s then None else Some (set_main (MainClears false) s)
  | MainClears leaving =>
    runs (on_cli (st_modify (set_running false))) main_fails (λ _, set_main (MainNotifies leaving)) s
  | MainNotifies leaving => Some (set_main (MainJoinsDisplay leaving) (set_shows (wake (shows s)) s))
  | MainJoinsDisplay leaving =>
    if displayThread (client (net s)) then
      match display_at (shows s) with
      | Finished =>
        runs (on_cli (st_modify (set_displayThread false))) main_fails
          (λ _, set_main (MainStopsNetwork leaving)) s
      | _ => None
      end
    else Some (set_main (MainStopsNetwork leaving) s)
  | MainStopsNetwork leaving =>
    if running_ (net s) && socketsMutex_ (net s)
    then runs Stop_running main_fails (λ _, set_main (MainBlocked leaving)) s
    else runs Stop main_fails (λ _, set_main (after_network leaving)) s
  | MainBlocked leaving =>
    if socketsMutex_ (net s) then None
    else runs (Stop_dealers;; Stop_router;; Stop_join) main_fails (λ _, set_main (after_network leaving)) s
  | MainSaves =>
    if mutex_ (peerManager_ (net s)) then None
    else runs (on_pm (SavePeersToFile save_opens)) main_fails
           (λ c s, set_main MainJoins (set_saved c s)) s
  | MainJoins =>
    match input_at s with InputReturned => Some (set_main (MainClears true) s) | _ => None end
  | MainReturned | MainUndefined _ => None
  end.

Definition input_next (z : Zmq) (now : Clock) (s : process) : option process :=
  match input_at s with
  | RunSets => runs (on_cli (st_modify (set_running true))) input_fails (λ _, set_input RunStarts) s
  | RunStarts => runs (Run_rest thread_error) input_fails (λ _, set_input LoopTest) s
  | LoopTest => Some (set_input (if running (client (net s)) then InInput else Lowers) s)
  | InInput =>
    match typed s with
    | line :: l => Some (set_input (Processing line) (set_typed l (eof s) s))
    | [] => if eof s then Some (set_input Lowers s) else None
    end
  | Processing line =>
    runs (if bool_decide (line = "") then mret tt else ProcessCommand rang z now line)
      input_fails (λ _, set_input LoopTest) s
  | Lowers => Some (set_input InputReturned (set_g_running false s))
  | InputReturned | InputUndefined _ => None
  end.

(** A pass of a worker loop, while its thread exists. A pass that finds a mutex held, which
    the sequential model of the pass answers with [RelockOwnedMutex], waits; any other
    undefined pass, one over a malicious frame for instance, ends what can be said. *)
Inductive worker_pass (s : process) : outcome unit → Net Cli → Prop :=
  | router_passes z now ev r n :
      routerThread_ (net s) = true → RouteMessages_pass z now ev (net s) = (r, n) → worker_pass s r n
  | poller_passes z now poll_error recv r n :
      pollerThread_ (net s) = true → PollMessages_pass z now poll_error recv (net s) = (r, n) →
      worker_pass s r n.

Inductive worker_step (s : process) : process → Prop :=
  | worker_completes n s' : worker_pass s (Ok tt) n → queues n s = Some s' → worker_step s s'
  | worker_throws e n : worker_pass s (Throw e) n → worker_step s (abort (set_net n s))
  | worker_undefined u n :
      worker_pass s (Undefined u) n → u ≠ RelockOwnedMutex → worker_step s (abort (set_net n s)).

(** What [main] and the input thread do, and what happens to them. *)
Inductive program_step (s : process) : process → Prop :=
  | step_main s' : main_next s = Some s' → program_step s s'
  | step_input z now s' : input_next z now s = Some s' → program_step s s'.

Inductive typing_step (s : process) : process → Prop :=
  | types line : eof s = false → typing_step s (set_typed (typed s ++ [line]) false s)
  | closes : eof s = false → typing_step s (set_typed (typed s) true s).

Definition signal (s : process) : process := set_g_running false s.

(** The display thread moves: by its own step, or woken for no reason. *)
Inductive display_step (s : process) : process → Prop :=
  | display_moves s' : display_runs s s' → display_step s s'
  | display_wakes : displayThread (client (net s)) = true → display_at (shows s) = Waiting →
      display_step s (set_shows (wake (shows s)) s).

(** Returned, terminated by an exception, or undefined in [main] or a worker. *)
Definition ended (s : process) : bool :=
  match main_at s with MainReturned | MainUndefined _ => true | _ => aborted s end.

Inductive process_step (s s' : process) : Prop :=
  | step_program : ended s = false → program_step s s' → process_step s s'
  | step_display : ended s = false → display_step s s' → process_step s s'
  | step_worker : ended s = false → worker_step s s' → process_step s s'
  | step_typing : ended s = false → typing_step s s' → process_step s s'
  | step_signal : ended s = false → s' = signal s → process_step s s'.
End Process.

(** A run in which [main] and the input thread make [k] steps, and nothing more is typed. *)
Inductive executes `{UnorderedIter} rang err opens : nat → process → process → Prop :=
  | executes_none s : executes rang err opens 0 s s
  | executes_program k s s1 s' : ended s = false → program_step rang err opens s s1 →
      executes rang err opens k s1 s' → executes rang err opens (S k) s s'
  | executes_other k s s1 s' : ended s = false → display_step s s1 ∨ worker_step s s1 ∨ s1 = signal s →
      executes rang err opens k s1 s' → executes rang err opens k s s'.

(** The display thread before its first step. *)
Abbreviation unstarted := (mkScreen AtWhile false 0).

(** The process when [main] has just started the input thread, on the program [n]. *)
Definition process_start (n : Net Cli) : process :=
  mkProcess n true MainWaits RunSets [] false None false unstarted.
