(* ===== verification/ProcessInv.v ===== *)
(** The process, step by step: what the steps of each thread change, the invariant of the
    reachable states, and the measures by which the program and its display thread run
    out of steps. [ProcessFacts] draws the theorems from it. *)

From S2P Require Import Prelude DisplayThread CxxText Message PeerManager PeerFile Network NetworkFacts Handshake Cli CliFacts Crypto CryptoFacts Main Process.

Implicit Types (n : Net Cli) (s : process) (d : screen).

(** ** Steps *)

(** [d'] is [d], perhaps notified. *)
Definition woken d d' : Prop := d' = d ∨ d' = wake d.

Lemma queues_inv n s s' : queues n s = Some s' → ∃ d, woken (shows s) d ∧ s' = set_shows d (set_net n s).
Proof.
  unfold queues. case_match; [case_match; [done|]|]; intros [= <-].
  - by exists (wake (shows s)); split; [right|].
  - exists (shows s). split; [by left|]. by destruct s.
Qed.
Lemma queues_some n s : display_holds (shows s) = false → ∃ s', queues n s = Some s'.
Proof. intros Hh. unfold queues. rewrite Hh. case_match; by eexists. Qed.

(** Nothing queued, or nobody waiting. *)
Lemma queues_none n s :
  length (displayQueue (client n)) = length (all_queued s) → queues n s = Some (set_net n s).
Proof. intros E. unfold queues. rewrite E. by rewrite Nat.ltb_irrefl. Qed.
Lemma queues_idle n s :
  display_holds (shows s) = false → display_at (shows s) ≠ Waiting → queues n s = Some (set_net n s).
Proof.
  intros Hh Hw. unfold queues. rewrite Hh. case_match; [|done]. unfold wake.
  destruct s as [? ? ? ? ? ? ? ? [p h t]]; cbn in *. by destruct p.
Qed.

Section Runs.
Context {A : Type} (m : stM (Net Cli) A) (u : ub → process → process) (k : A → process → process).

Lemma runs_Ok s a n : m (net s) = (Ok a, n) → runs m u k s = k a <$> queues n s.
Proof. intros E. unfold runs. by rewrite E. Qed.

Lemma runs_quiet s a n :
  m (net s) = (Ok a, n) → length (displayQueue (client n)) = length (all_queued s) →
  runs m u k s = Some (k a (set_net n s)).
Proof. intros E Hq. by rewrite (runs_Ok s a n E), queues_none. Qed.
Lemma runs_idle s a n :
  m (net s) = (Ok a, n) → display_holds (shows s) = false → display_at (shows s) ≠ Waiting →
  runs m u k s = Some (k a (set_net n s)).
Proof. intros E Hh Hw. by rewrite (runs_Ok s a n E), queues_idle. Qed.

Lemma runs_some s : display_holds (shows s) = false → ∃ s', runs m u k s = Some s'.
Proof.
  intros Hh. unfold runs. destruct (m (net s)) as [[a|e|x] n]; [|by eexists..].
  destruct (queues_some n s Hh) as [s' ->]. by eexists.
Qed.

Lemma runs_inv s s' :
  runs m u k s = Some s' →
  (∃ a n d, m (net s) = (Ok a, n) ∧ woken (shows s) d ∧ s' = k a (set_shows d (set_net n s))) ∨
  (∃ e n, m (net s) = (Throw e, n) ∧ s' = abort (set_net n s)) ∨
  (∃ x n, m (net s) = (Undefined x, n) ∧ s' = u x (set_net n s)).
Proof.
  unfold runs. destruct (m (net s)) as [[a|e|x] n].
  - intros (s1 & (d & Hd & ->)%queues_inv & ->)%fmap_Some. left. by exists a, n, d.
  - intros [= <-]. right; left. by exists e, n.
  - intros [= <-]. right; right. by exists x, n.
Qed.

Lemma runs_Ok_inv s s' a n :
  m (net s) = (Ok a, n) → runs m u k s = Some s' →
  ∃ d, woken (shows s) d ∧ s' = k a (set_shows d (set_net n s)).
Proof.
  intros E [(a' & n' & d & E' & Hd & ->)|[(e & n' & E' & _)|(x & n' & E' & _)]]%runs_inv;
    rewrite E in E'; simplify_eq. by exists d.
Qed.
End Runs.

(** Steps of the display thread and the workers leave everybody else where they are. *)
Definition aside s s' : Prop :=
  main_at s' = main_at s ∧ input_at s' = input_at s ∧ typed s' = typed s ∧ eof s' = eof s ∧
  saved s' = saved s ∧ g_running s' = g_running s.

Lemma display_aside s s' : display_step s s' → aside s s' ∧ net s' = net s ∧ aborted s' = aborted s.
Proof. by intros [s1 [d _ _]|_ _]. Qed.
Lemma display_runs_aside s s' : display_runs s s' → aside s s' ∧ net s' = net s ∧ aborted s' = aborted s.
Proof. by intros [d _ _]. Qed.
Lemma worker_aside `{UnorderedIter} s s' : worker_step s s' → aside s s'.
Proof. by intros [n s1 _ (d & _ & ->)%queues_inv|e n _|u n _ _]. Qed.

(** A notification moves nobody who holds the mutex. *)
Lemma woken_holds d d' :
  woken d d' → display_holds d = holds_mutex (display_at d) →
  display_holds d' = holds_mutex (display_at d') ∧ display_holds d' = display_holds d.
Proof. intros [->| ->]; [done|]. unfold wake. by destruct d as [[] h t]. Qed.

Lemma disp_put_holds s dp :
  display_next (disp_view s) = Some dp → display_holds (shows s) = holds_mutex (display_at (shows s)) →
  display_holds (shows (disp_put dp s)) = holds_mutex (display_at (shows (disp_put dp s))).
Proof. intros [_ Hk]%display_next_keeps Hh. exact (Hk Hh). Qed.

Lemma Run_setup_split err :
  Run_setup err = (on_cli (st_modify (set_running true));; Run_rest err).
Proof. done. Qed.

(** The handlers in place: none, or those of [Run]. *)
Definition unattached n : Prop := userMessageHandler_ n = None ∧ connectionHandler_ n = None.

(** What a completed worker pass leaves alone. *)
Definition quiet n n' : Prop :=
  same_sockets n n' ∧ mutex_ (peerManager_ n') = false ∧ ∃ ds, client n' = push_display ds (client n).

Lemma quiet_refl n : mutex_ (peerManager_ n) = false → quiet n n.
Proof.
  intros Hm. split_and!; [done..|]. exists []. destruct (client n). unfold push_display. cbn.
  by rewrite app_nil_r.
Qed.

(** Handlers that only add to the display queue. *)
Definition displaying {hm : option (MessageHandler Cli)} {hc} (C : Client hm hc) : Prop :=
  (∀ now id b pc, ∃ ds, (on_connection now id b pc).2 = push_display ds pc.2) ∧
  (∀ now id m pc, ∃ ds, (on_message now id m pc).2 = push_display ds pc.2).

Lemma push_display_app a b c : push_display b (push_display a c) = push_display (a ++ b) c.
Proof. unfold push_display. cbn. by rewrite <- app_assoc. Qed.
Lemma push_display_nil c : push_display [] c = c.
Proof. destruct c. unfold push_display. cbn. by rewrite app_nil_r. Qed.

Lemma no_client_displaying : displaying (@no_client Cli).
Proof. split; intros; exists []; cbn; by rewrite push_display_nil. Qed.
Lemma cli_client_displaying : displaying cli_client.
Proof. split; intros; by eexists. Qed.

Lemma handle_reference_quiet {hm hc} (C : Client hm hc) z now senderId msg n :
  displaying C → mutex_ (peerManager_ n) = false →
  quiet n (handle_reference z now senderId msg n).
Proof.
  intros [Hdc Hdm] Hm. unfold handle_reference. destruct (handshake_of msg) as [[peerId key]|].
  - destruct (sender_endpoint senderId) as [ep| |]; [|by apply quiet_refl..].
    destruct (after_handshake_registry z now senderId msg peerId key ep n) as (_ & _ & Hf & _).
    split_and!; [done|by rewrite Hf|]. unfold after_handshake. cbn [client put_captured].
    match goal with |- context [on_message ?a ?b ?c ?d] => destruct (Hdm a b c d) as [ds ->] end.
    match goal with |- context [on_connection ?a ?b ?c ?d] => destruct (Hdc a b c d) as [ds' ->] end.
    eexists. by rewrite push_display_app.
  - split_and!; [done|cbn; by rewrite on_message_registry|]. cbn [client put_captured].
    match goal with |- context [on_message ?a ?b ?c ?d] => destruct (Hdm a b c d) as [ds ->] end.
    by eexists.
Qed.

Lemma router_pass_quiet {hm hc} (C : Client hm hc) z now ev n n' :
  displaying C → userMessageHandler_ n = hm → connectionHandler_ n = hc →
  mutex_ (peerManager_ n) = false → RouteMessages_pass z now ev n = (Ok tt, n') → quiet n n'.
Proof.
  intros HC H1 H2 Hm. unfold RouteMessages_pass, RouteMessages_body. st_simpl.
  destruct (running_ n); cbn; [|intros [= <-]; by apply quiet_refl].
  destruct (routerSocket_ n); [|done].
  destruct ev as [|what| |frame0 data]; try (intros [= <-]; by apply quiet_refl).
  rewrite ProcessFrame_run by done. destruct (Deserialize data); [| |done].
  - intros [= <-]. by apply handle_reference_quiet.
  - intros [= <-]. by apply quiet_refl.
Qed.

Section Invariant.
Context (it : UnorderedIter) (rang : ostream → rang_code → string)
  (err : option string) (opens : bool).
Abbreviation pstep := (process_step rang err opens).

(** A pass between the calls of the other threads. *)
Lemma worker_quiet s r n :
  ready (net s) → unattached (net s) ∨ cli_attached (net s) → worker_pass s r n →
  running_ (net s) = true ∧ (r = Ok tt → quiet (net s) n).
Proof.
  intros [Hn Hm _] Ha Hw.
  assert (routerThread_ (net s) = true ∨ pollerThread_ (net s) = true → running_ (net s) = true) as Hrun.
  { intros Ht. destruct (running_ (net s)) eqn:Hr; [done|].
    destruct (ni_stopped _ Hn Hr) as (_ & H1 & H2). rewrite H1, H2 in Ht. by destruct Ht. }
  destruct Hw as [z now ev r n Ht E|z now e recv r n Ht E]; (split; [by auto|intros ->]).
  - destruct Ha as [[H1 H2]|[H1 H2]].
    + by eapply (router_pass_quiet no_client); [apply no_client_displaying|..|exact E].
    + by eapply (router_pass_quiet cli_client); [apply cli_client_displaying|..|exact E].
  - rewrite PollMessages_pass_idle in E by apply Hn. injection E as <-. by apply quiet_refl.
Qed.

(** ** The invariant *)

Definition early (i : input_pc) : bool := match i with RunSets | RunStarts => true | _ => false end.

(** Where [main] is: past [cliThread.join()], past the saving, past [network.Stop()]. *)
Definition past_join (m : main_pc) : bool :=
  match m with
  | MainClears l | MainNotifies l | MainJoinsDisplay l | MainStopsNetwork l | MainBlocked l => l
  | MainReturned => true
  | _ => false
  end.
Definition past_save (m : main_pc) : bool := match m with MainJoins => true | m => past_join m end.
Definition past_stop (m : main_pc) : bool := match m with MainSaves => true | m => past_save m end.

(** Past the last [running = false], and the last [displayThread.join()]. *)
Definition cleared (m : main_pc) : bool :=
  match m with MainNotifies l | MainJoinsDisplay l | MainStopsNetwork l => l | MainReturned => true | _ => false end.
Definition unscreened (m : main_pc) : bool :=
  match m with MainStopsNetwork l => l | MainReturned => true | _ => false end.

Record sound s : Prop := {
  so_ready : ready (net s);
  so_early : early (input_at s) = true → displayThread (client (net s)) = false ∧ unattached (net s);
  so_late : early (input_at s) = false → cli_attached (net s);
  so_stopped : past_stop (main_at s) = true → running_ (net s) = false;
  so_joined : past_join (main_at s) = true → input_at s = InputReturned;
  so_cleared : cleared (main_at s) = true → running (client (net s)) = false;
  so_unscreened : unscreened (main_at s) = true → displayThread (client (net s)) = false;
  so_unblocked : ∀ l, main_at s ≠ MainBlocked l;
  so_saved : if past_save (main_at s) then
      ∃ c, saved s = Some c ∧
        SavePeersToFile opens (peerManager_ (net s)) = (Ok c, peerManager_ (net s))
    else saved s = None;
  so_lowered : input_at s = InputReturned → g_running s = false;
  so_holds : display_holds (shows s) = holds_mutex (display_at (shows s));
  so_idle : displayThread (client (net s)) = false → display_holds (shows s) = false
}.

(** The input thread is stuck, [main] is undefined, or the process was ended. *)
Definition broken s : Prop :=
  (∃ u, input_at s = InputUndefined u) ∧ past_join (main_at s) = false ∨
  (∃ u, main_at s = MainUndefined u) ∨
  (aborted s = true ∧ main_at s ≠ MainReturned).

Lemma ended_returned s : ended s = false → main_at s ≠ MainReturned.
Proof. unfold ended. intros H E. by rewrite E in H. Qed.
Lemma ended_aborted s : ended s = false → aborted s = false.
Proof. unfold ended. by destruct (main_at s). Qed.

(** What [ready] depends on. *)
Lemma ready_same n n' :
  ready n → socketsMutex_ n' = socketsMutex_ n → dealerSockets_ n' = dealerSockets_ n →
  routerSocket_ n' = routerSocket_ n → running_ n' = running_ n →
  routerThread_ n' = routerThread_ n → pollerThread_ n' = pollerThread_ n →
  peerManager_ n' = peerManager_ n → commands (client n') = commands (client n) → ready n'.
Proof.
  intros [[H1 H2 H3 H4] Hm Ht] E1 E2 E3 E4 E5 E6 Ep Ec.
  split; [split|..]; rewrite ?E1, ?E2, ?E3, ?E4, ?E5, ?E6, ?Ep, ?Ec; done.
Qed.

Lemma Stop_ready n :
  ready n → Stop n = (Ok tt, if running_ n then stopped n else n) ∧
    ready (if running_ n then stopped n else n) ∧
    running_ (if running_ n then stopped n else n) = false.
Proof.
  intros [Hn Hm Ht]. destruct (running_ n) eqn:Hr.
  - split_and!; [apply Stop_run; [done|apply Hn]| |done]. split; [|done..]. by split; [apply Hn|..].
  - split_and!; [|by split|done]. unfold Stop. st_simpl. by rewrite Hr.
Qed.

Lemma Stop_total n :
  ready n →
  ∃ n', Stop n = (Ok tt, n') ∧ ready n' ∧ running_ n' = false ∧ peerManager_ n' = peerManager_ n.
Proof.
  intros Hr. destruct (Stop_ready n Hr) as (E & Hr' & Hf). eexists. split_and!; [exact E|done..|].
  by destruct (running_ n).
Qed.

Lemma Stop_queue n n' :
  ready n → Stop n = (Ok tt, n') → length (displayQueue (client n')) = length (displayQueue (client n)).
Proof. intros Hr E. destruct (Stop_ready n Hr) as (E' & _). rewrite E in E'. injection E' as ->. by destruct (running_ n). Qed.

Lemma Save_keeps pm r pm' :
  mutex_ pm = false → SavePeersToFile opens pm = (r, pm') → is_Undefined r = false → pm' = pm.
Proof.
  intros Hm. rewrite SavePeersToFile_run by done.
  destruct opens; [destruct (write_peers _)|]; by intros [= <- <-].
Qed.

(** The display thread, and notifications. *)
Lemma sound_shows s d :
  sound s → display_holds d = holds_mutex (display_at d) →
  (displayThread (client (net s)) = false → display_holds d = false) → sound (set_shows d s).
Proof. by intros []. Qed.

Lemma sound_woken s d : sound s → woken (shows s) d → sound (set_shows d s).
Proof.
  intros Hs Hw. destruct (woken_holds _ _ Hw (so_holds _ Hs)) as [H1 H2].
  apply sound_shows; [done..|]. rewrite H2. apply Hs.
Qed.

Lemma sound_display s s' : sound s → display_step s s' → sound s'.
Proof.
  intros Hs [s1 [dp Hd Hn]|_ _]; [|by apply sound_woken; [|right]].
  apply sound_shows; [done|by apply disp_put_holds, Hs|]. congruence.
Qed.

(** A thread whose statement completes. *)
Lemma sound_runs {A} (m : stM (Net Cli) A) u k s s' a n :
  runs m u k s = Some s' → m (net s) = (Ok a, n) →
  (∀ d s, k a (set_shows d s) = set_shows d (k a s)) →
  shows (k a (set_net n s)) = shows s → sound (k a (set_net n s)) → sound s'.
Proof.
  intros Hr E Hk Hsh Hs. destruct (runs_Ok_inv _ _ _ _ _ _ _ E Hr) as (d & Hd & ->).
  rewrite Hk. apply sound_woken; [done|by rewrite Hsh].
Qed.

Lemma network_sound s l :
  sound s → main_at s = MainStopsNetwork l →
  ∃ n, Stop (net s) = (Ok tt, n) ∧ sound (set_main (after_network l) (set_net n s)).
Proof.
  intros [Hr He Hl Hs Hj Hc Hu Hb Hv Hw Hh Hi] Hpc. rewrite Hpc in *.
  destruct (Stop_ready (net s) Hr) as (E & Hr' & Hrun'). eexists. split; [exact E|].
  destruct l; split; cbn in *; try done; destruct (running_ (net s)); auto.
Qed.

Lemma main_sound s s' :
  sound s → ended s = false → main_next opens s = Some s' → sound s' ∨ broken s'.
Proof.
  intros Hsound Hne. pose proof (ended_aborted s Hne) as Hab. unfold main_next.
  pose proof Hsound as [Hr He Hl Hs Hj Hc Hu Hb Hv Hw Hh Hi].
  destruct (main_at s) as [|l|l|l|l|l| | | |u] eqn:Hpc; try done.
  - destruct (g_running s) eqn:Hg; [done|]. intros [= <-]. left. by split.
  - intros E. left. eapply sound_runs; [exact E|reflexivity|done|done|].
    split; cbn in *; try done. by apply (ready_same (net s)).
  - intros [= <-]. left. change (sound (set_shows (wake (shows s)) (set_main (MainJoinsDisplay l) s))).
    apply sound_woken; [|by right]. by split.
  - destruct (displayThread (client (net s))) eqn:Hd;
      [|intros [= <-]; left; split; cbn in *; auto; by intros [_ ?]%He].
    destruct (display_at (shows s)) eqn:Hat; try done. intros E. left.
    eapply sound_runs; [exact E|reflexivity|done|done|].
    split; cbn in *; try done; [by apply (ready_same (net s))|by intros [_ ?]%He|by rewrite Hat].
  - rewrite (ni_free _ (rd_net _ Hr)), andb_false_r. intros E. left.
    destruct (network_sound s l Hsound Hpc) as (n & En & Hn).
    eapply sound_runs; [exact E|exact En|done|done|exact Hn].
  - by destruct (Hb l).
  - destruct (mutex_ _) eqn:Hm; [done|].
    destruct (SavePeersToFile opens (peerManager_ (net s))) as [r pm] eqn:E.
    pose proof (Save_keeps _ _ _ Hm E) as Hk. intros Hrun.
    destruct r as [c|e|u]; [specialize (Hk eq_refl) as ->..|].
    + left. eapply sound_runs; [exact Hrun|by apply on_pm_read|done|done|]. split; cbn; try done. by exists c.
    + right; right; right. revert Hrun. unfold runs. erewrite on_pm_read by exact E.
      intros [= <-]. cbn. by rewrite Hpc.
    + right; right; left. exists u. revert Hrun. unfold runs, on_pm, zoom. rewrite E. by intros [= <-].
  - destruct (input_at s) eqn:Hin; try done. intros [= <-]. left. by split; cbn; rewrite ?Hin.
Qed.

Lemma Run_rest_run n :
  displayThread (client n) = false →
  Run_rest err n =
    match err with
    | Some what => (Throw (system_error what), n)
    | None =>
      (Ok tt, put_handlers (Some message_handler) (Some connection_handler)
        (queued [SystemLine "P2P Chat System Started"; SystemLine "Type 'help' for available commands"]
          (put_captured (peerManager_ n, set_displayThread true (client n)) n)))
    end.
Proof.
  intros Hd. unfold Run_rest, startDisplayThread. st_simpl. destruct err; cbn; [done|]. rewrite Hd. cbn.
  unfold queued, push_display. cbn. by rewrite <- app_assoc.
Qed.

Lemma command_run z now line n :
  ready n →
  let m := if bool_decide (line = "") then mret tt else ProcessCommand rang z now line in
  (∃ fs ds quit, m n = (Ok tt, apply_effect fs ds quit n)) ∨ (∃ n', m n = (Undefined RelockOwnedMutex, n')).
Proof.
  intros Hr. cbn zeta. case_bool_decide.
  - left. exists [], [], false. by rewrite apply_shows, queued_nil.
  - pose proof (ProcessCommand_effect it rang z now line n Hr) as E.
    destruct (input_effect it rang z now line n) as [[[fs ds] quit]|]; unfold has_effect in E.
    + left. by exists fs, ds, quit.
    + right. destruct (ProcessCommand rang z now line n) as [r n'] eqn:Ep. cbn in E. subst r. by exists n'.
Qed.

Lemma input_sound z now s s' :
  sound s → ended s = false → input_next rang err z now s = Some s' → sound s' ∨ broken s'.
Proof.
  intros Hsound Hne. pose proof (ended_returned s Hne) as Hnr. unfold input_next.
  pose proof Hsound as [Hr He Hl Hs Hj Hc Hu Hb Hv Hw Hh Hi].
  assert (input_at s ≠ InputReturned → past_join (main_at s) = false) as Hnj.
  { intros Hin. destruct (past_join (main_at s)); [by specialize (Hj eq_refl)|done]. }
  assert (past_join (main_at s) = false → cleared (main_at s) = false ∧ unscreened (main_at s) = false) as Hcl.
  { by destruct (main_at s) as [|l|l|l|l|l| | | |u]; cbn; try destruct l. }
  destruct (input_at s) as [| | | |line| | |u] eqn:Hpc; cbn [early] in *; try done;
    specialize (Hnj ltac:(done)); destruct (Hcl Hnj) as [Hc0 Hu0].
  - intros E. left. eapply sound_runs; [exact E|reflexivity|done|done|].
    split; cbn; try done; auto; try congruence. by apply (ready_same (net s)).
  - destruct He as [Hd Hun]; [done|]. intros E. pose proof (Run_rest_run (net s) Hd) as Er.
    destruct err as [what|].
    + right; right; right. revert E. unfold runs. rewrite Er. by intros [= <-].
    + left. eapply sound_runs; [exact E|exact Er|done|done|].
      split; cbn; try done; try congruence. by apply (ready_same (net s)).
  - intros [= <-]. left. destruct (running _); split; cbn; try done; try congruence; auto.
  - destruct (typed s); [destruct (eof s); [|done]|]; intros [= <-]; left;
      split; cbn; try done; try congruence; auto.
  - intros E. destruct (command_run z now line (net s) Hr) as [(fs & ds & quit & Ec)|[n' Ec]].
    + left. specialize (Hl eq_refl). eapply sound_runs; [exact E|exact Ec|done|done|].
      split; cbn; try done; try congruence; [by apply apply_ready|by destruct quit..].
    + right. left. revert E. unfold runs. rewrite Ec. intros [= <-]. cbn. by split; [eexists|].
  - intros [= <-]. left. split; cbn; try done; try congruence; auto.
Qed.

Lemma worker_sound s s' : sound s → ended s = false → worker_step s s' → sound s' ∨ broken s'.
Proof.
  intros Hsound Hne Hstep. pose proof (ended_returned s Hne) as Hnr.
  destruct Hstep as [n s' Hw Hq|e n _|u n _ _]; [|by right; right; right..].
  left. apply queues_inv in Hq as (d & Hd & ->).
  change (sound (set_shows d (set_net n s))). apply sound_woken; [|done].
  pose proof Hsound as [Hr He Hl Hs Hj Hc Hu Hb Hv Hlo Hh Hi].
  assert (unattached (net s) ∨ cli_attached (net s)) as Ha.
  { destruct (early (input_at s)); [left; by apply He|right; by apply Hl]. }
  destruct (worker_quiet _ _ _ Hr Ha Hw) as (Hrun & Hquiet).
  destruct (Hquiet eq_refl) as (Hsame & Hf & ds & Hcl).
  assert (past_stop (main_at s) = false) as Hps.
  { destruct (past_stop (main_at s)); [|done]. rewrite Hs in Hrun; done. }
  assert (past_save (main_at s) = false ∧ past_join (main_at s) = false) as (H1 & H2).
  { destruct (main_at s) as [|l|l|l|l|l| | | |u]; cbn in *; try done; by destruct l. }
  pose proof Hsame as (_ & _ & _ & _ & _ & _ & _ & Hh1 & Hh2).
  split; cbn; rewrite ?Hcl, ?H1, ?H2, ?Hps in *; try done.
  - destruct Hr as [Hn _ Htab]. split; [by eapply same_sockets_inv|done|by rewrite Hcl].
  - intros Hea. destruct (He Hea) as [? [? ?]]. split; [done|]. split; congruence.
  - intros Hla. destruct (Hl Hla) as [? ?]. split; congruence.
Qed.

Lemma process_sound s s' : sound s → pstep s s' → sound s' ∨ broken s'.
Proof.
  intros Hs [Hne [s1 Hm|z now s1 Hi]|Hne Hd|Hne Hw|Hne [line He|He]|Hne ->].
  - by eapply main_sound.
  - by eapply input_sound.
  - left. by eapply sound_display.
  - by eapply worker_sound.
  - left. by destruct Hs.
  - left. by destruct Hs.
  - left. by destruct Hs.
Qed.

(** While the input thread is stuck, [main] does not get past joining it. *)
Definition stuck s : Prop := (∃ u, input_at s = InputUndefined u) ∧ past_join (main_at s) = false.

Lemma main_stuck s s' : stuck s → main_next opens s = Some s' → stuck s' ∨ ∃ u, main_at s' = MainUndefined u.
Proof.
  intros [[u Hu] Hj]. unfold main_next. rewrite Hu.
  destruct (main_at s) as [|l|l|l|l|l| | | |v] eqn:Hpc; try done; cbn in Hj; subst;
    repeat (case_match; try done); try (intros [= <-]; left; by split; [eexists|]);
    intros [(a & n & d & _ & _ & ->)|[(e & n & _ & ->)|(x & n & _ & ->)]]%runs_inv;
    try (right; by eexists); left; (split; [by eexists|cbn; by rewrite ?Hpc]).
Qed.

Lemma aside_stuck s s' : aside s s' → stuck s → stuck s'.
Proof. unfold stuck. by intros (-> & -> & _). Qed.

Lemma process_stuck s s' : stuck s → pstep s s' → stuck s' ∨ ∃ u, main_at s' = MainUndefined u.
Proof.
  intros Hst [Hne [s1 Hm|z now s1 Hi]|Hne Hd|Hne Hw|Hne [line He|He]|Hne ->]; try (by left).
  - by eapply main_stuck.
  - destruct Hst as [[u Hu] _]. unfold input_next in Hi. by rewrite Hu in Hi.
  - left. eapply aside_stuck; [by apply display_aside|done].
  - left. eapply aside_stuck; [by apply worker_aside|done].
Qed.

Lemma process_broken s s' : broken s → pstep s s' → broken s'.
Proof.
  intros [Hst|Hend] Hstep.
  - destruct (process_stuck s s' Hst Hstep) as [?|?]; [by left|by right; left].
  - exfalso. assert (ended s = false) as Hne by by destruct Hstep.
    destruct Hend as [[u Hu]|[Ha _]].
    + unfold ended in Hne. by rewrite Hu in Hne.
    + apply ended_aborted in Hne. congruence.
Qed.

(** What [main] hands over to the input thread. *)
Definition launchable n : Prop :=
  ready n ∧ unattached n ∧ displayThread (client n) = false.

Lemma process_reachable n s :
  launchable n → rtc pstep (process_start n) s → sound s ∨ broken s.
Proof.
  intros (Hr & Hu & Hd).
  apply (rtc_ind_r (λ s, sound s ∨ broken s)).
  - left. by split.
  - intros s1 s2 _ Hstep [Hs|Hb]; [by eapply process_sound|right; by eapply process_broken].
Qed.
End Invariant.
