(* ===== verification/ProcessFacts.v ===== *)
(** Theorems about the process: what holds whenever it has exited, that it makes
    progress towards its exit once its input ends, that a signal alone never ends it,
    that a [connect] that reaches a peer hangs it for good, and that the sequential
    [main] is one of its schedules. *)

From S2P Require Import Prelude DisplayThread CxxText Message PeerManager PeerFile Network NetworkFacts Handshake Cli CliFacts Crypto CryptoFacts Main Process ProcessInv.

Implicit Types (n : Net Cli) (s : process) (d : screen).

(** ** The display thread left alone *)

Definition display_rank s : nat := disp_rank (disp_view s).

Lemma display_runs_rank s s' : display_runs s s' → (display_rank s' < display_rank s)%nat.
Proof.
  intros [dp Hd Hn]. unfold display_rank. pose proof (display_next_rank _ _ Hn) as Hlt.
  destruct (display_next_keeps _ _ Hn) as [Hrun _].
  assert (length (DisplayThread.displayQueue dp) <= length (all_queued s))%nat as Hlen.
  { pose proof (display_next_queue _ _ Hn) as Hq. cbn in Hq. rewrite length_drop in Hq. lia. }
  eapply Nat.le_lt_trans; [|exact Hlt]. apply Nat.eq_le_incl, disp_rank_ext; [by rewrite Hrun| |done].
  cbn. change (all_queued (disp_put dp s)) with (all_queued s). rewrite length_drop. lia.
Qed.

(** It runs until it waits or ends; once [running] is false, and it has not blocked, it ends. *)
Lemma display_settles s :
  displayThread (client (net s)) = true → display_holds (shows s) = holds_mutex (display_at (shows s)) →
  ∃ d, rtc display_runs s (set_shows d s) ∧ display_holds d = holds_mutex (display_at d) ∧
    (display_at d = Waiting ∨ display_at d = Finished) ∧
    (running (client (net s)) = false → unblocked (display_at (shows s)) = true → display_at d = Finished).
Proof.
  remember (display_rank s) as r eqn:Er. revert s Er.
  induction (lt_wf r) as [r _ IH]. intros s -> Hd Hh.
  destruct (display_next (disp_view s)) as [dp|] eqn:En.
  - pose proof (display_makes s dp Hd En) as Hstep.
    destruct (IH _ (display_runs_rank _ _ Hstep) (disp_put dp s) eq_refl) as (d & Hrun & Hh' & Hat & Hfin);
      [done|by apply disp_put_holds|].
    exists d. split_and!; [by eapply rtc_l|done..|]. intros Hf Hu. apply Hfin; [done|].
    exact (display_next_unblocked (disp_view s) dp Hf Hu En).
  - exists (shows s). assert (set_shows (shows s) s = s) as -> by by destruct s.
    pose proof (display_next_stuck (disp_view s) Hh En) as Hat. cbn in Hat. split_and!; [done..|].
    intros _ Hu. by destruct Hat as [E|]; [rewrite E in Hu|].
Qed.

Section Facts.
Context (it : UnorderedIter) (rang : ostream → rang_code → string)
  (err : option string) (opens : bool).
Abbreviation pstep := (process_step rang err opens).

(** C7. Whatever happens to it, a process that has exited has left nothing behind: the input
    thread has returned, the network manager is stopped, with no socket and no
    thread, the interface is stopped, and the last peer file written is that of the
    final registry: nothing received or typed during the shutdown is missing from it. *)
Theorem process_exit n s :
  launchable n → rtc pstep (process_start n) s → main_at s = MainReturned →
  input_at s = InputReturned ∧
  running_ (net s) = false ∧ routerSocket_ (net s) = None ∧
  routerThread_ (net s) = false ∧ pollerThread_ (net s) = false ∧
  running (client (net s)) = false ∧ displayThread (client (net s)) = false ∧
  ∃ c, saved s = Some c ∧ SavePeersToFile opens (peerManager_ (net s)) = (Ok c, peerManager_ (net s)).
Proof.
  intros Hn Hrun Hm.
  destruct (process_reachable it rang err opens n s Hn Hrun) as [[Hr He Hl Hs Hj Hc Hu Hb Hv Hw Hh Hi]|Hb].
  - rewrite Hm in Hs, Hj, Hv, Hc, Hu. specialize (Hs eq_refl).
    destruct (ni_stopped _ (rd_net _ Hr) Hs) as (? & ? & ?).
    split_and!; try done; [by apply Hj|by apply Hc|by apply Hu].
  - destruct Hb as [[_ Hb]|[[u Hb]|[_ Hb]]]; rewrite Hm in Hb; done.
Qed.

(** ** Progress *)

Definition rank_main (m : main_pc) : nat :=
  match m with
  | MainWaits => 13
  | MainClears l => if l then 5 else 12
  | MainNotifies l => if l then 4 else 11
  | MainJoinsDisplay l => if l then 3 else 10
  | MainStopsNetwork l => if l then 2 else 9
  | MainBlocked l => if l then 1 else 8
  | MainSaves => 7 | MainJoins => 6
  | MainReturned | MainUndefined _ => 0
  end.
Definition rank_input (i : input_pc) (lines : nat) : nat :=
  match i with
  | RunSets => 3 * lines + 7 | RunStarts | Processing _ => 3 * lines + 6 | LoopTest => 3 * lines + 5
  | InInput => 3 * lines + 4 | Lowers => 1 | InputReturned | InputUndefined _ => 0
  end.
(** The steps that [main] and the input thread can still make. *)
Definition rank s : nat :=
  if aborted s then 0 else (rank_main (main_at s) + rank_input (input_at s) (length (typed s)))%nat.

Lemma rank_ext s s' : aside s s' → aborted s' = aborted s → rank s' = rank s.
Proof. unfold rank. by intros (-> & -> & -> & _) ->. Qed.

Lemma runs_rank {A} (m : stM (Net Cli) A) u k s s' r :
  runs m u k s = Some s' → (0 < r)%nat →
  (∀ x n, (rank (u x (set_net n s)) < r)%nat) → (∀ a n d, (rank (k a (set_shows d (set_net n s))) < r)%nat) →
  (rank s' < r)%nat.
Proof.
  intros [(a & n & d & _ & _ & ->)|[(e & n & _ & ->)|(x & n & _ & ->)]]%runs_inv Hr Hu Hk;
    [apply Hk| |apply Hu]. by unfold rank.
Qed.

Lemma runs_eof {A} (m : stM (Net Cli) A) u k s s' :
  runs m u k s = Some s' → (∀ x s, eof (u x s) = eof s) → (∀ a s, eof (k a s) = eof s) → eof s' = eof s.
Proof.
  by intros [(a & n & d & _ & _ & ->)|[(e & n & _ & ->)|(x & n & _ & ->)]]%runs_inv Hu Hk; rewrite ?Hu, ?Hk.
Qed.

Lemma program_rank s s' :
  ended s = false → program_step rang err opens s s' → (rank s' < rank s)%nat ∧ eof s' = eof s.
Proof.
  intros He. pose proof (ended_aborted s He) as Ha. intros [s1 Hm|z now s1 Hi].
  - unfold main_next in Hm. unfold rank at 2. rewrite Ha.
    destruct (main_at s) as [|l|l|l|l|l| | | |v] eqn:Hpc; try done; repeat (case_match; try done); simplify_eq.
    all: try (pose proof (runs_eof _ _ _ _ _ Hm ltac:(done) ltac:(done)) as Heof; split; [|done];
      eapply (runs_rank _ _ _ _ _ _ Hm); [cbn; try destruct l; cbn; lia|..];
      intros; unfold rank; cbn; rewrite Ha; try destruct l; cbn; lia).
    all: split; [|done]; unfold rank; cbn; rewrite Ha, ?H; try destruct l; cbn; lia.
  - unfold input_next in Hi. unfold rank at 2. rewrite Ha.
    destruct (input_at s) as [| | | |line| | |v] eqn:Hpc; try done; repeat (case_match; try done); simplify_eq.
    all: try (pose proof (runs_eof _ _ _ _ _ Hi ltac:(done) ltac:(done)) as Heof; split; [|done];
      eapply (runs_rank _ _ _ _ _ _ Hi); [cbn; lia|..];
      intros; unfold rank; cbn; rewrite Ha; cbn; lia).
    all: split; [|done]; unfold rank; cbn; rewrite Ha; repeat case_match; simplify_eq; cbn; lia.
Qed.

(** A step of the program's own threads. *)
Definition own_step s s' : Prop := ended s = false ∧ (program_step rang err opens s s' ∨ display_runs s s').

(** Left alone they stop. *)
Lemma own_steps_end s : sn own_step s.
Proof.
  remember (rank s) as r eqn:Er. revert s Er. induction (lt_wf r) as [r _ IHr]. intros s ->.
  remember (display_rank s) as q eqn:Eq. remember (rank s) as r eqn:Er in IHr. revert s Eq Er.
  induction (lt_wf q) as [q _ IHq]. intros s -> Er. constructor. intros s' [He [Hp|Hd]].
  - eapply IHr; [|reflexivity]. rewrite Er. by apply program_rank.
  - eapply IHq; [by apply display_runs_rank|reflexivity|]. rewrite Er. symmetry.
    by apply rank_ext; apply display_runs_aside.
Qed.

Lemma executes_rank k s s' :
  eof s = true → executes rang err opens k s s' →
  (k + rank s' <= rank s)%nat ∧ rtc pstep s s' ∧ eof s' = true.
Proof.
  intros He Hx. induction Hx as [s|k s s1 s' Hne Hp Hx IH|k s s1 s' Hne Ho Hx IH]; [by split_and!|..].
  - destruct (program_rank s s1 Hne Hp) as [Hr E]. destruct IH as (? & ? & ?); [by rewrite E|].
    split_and!; [lia| |done]. eapply rtc_l; [by apply step_program|done].
  - assert ((rank s1 <= rank s)%nat ∧ eof s1 = eof s ∧ pstep s s1) as (Hr & E & Hstep).
    { destruct Ho as [Hd|[Hw| ->]]; [| |by split_and!; [..|by apply step_signal]].
      - destruct (display_aside _ _ Hd) as (Ha & _ & Hab). rewrite (rank_ext _ _ Ha Hab).
        split_and!; [done|apply Ha|by apply step_display].
      - pose proof (worker_aside _ _ Hw) as Ha. split_and!; [|apply Ha|by apply step_worker].
        destruct (aborted s1) eqn:E1; [unfold rank at 1; rewrite E1; lia|].
        rewrite (rank_ext _ _ Ha); [done|]. rewrite E1. symmetry. by apply ended_aborted. }
    destruct IH as (? & ? & ?); [by rewrite E|]. split_and!; [lia| |done]. by eapply rtc_l.
Qed.

(** When the display thread does not move, nobody waits for its mutex. *)
Lemma quiet_screen s :
  sound it opens s → (∀ s', ¬ display_runs s s') →
  display_holds (shows s) = false ∧
  (displayThread (client (net s)) = true → display_at (shows s) = Waiting ∨ display_at (shows s) = Finished).
Proof.
  intros Hs Hstuck. pose proof (so_holds _ _ _ Hs) as Hh.
  destruct (displayThread (client (net s))) eqn:Hd; [|split; [by apply (so_idle _ _ _ Hs)|done]].
  destruct (display_next (disp_view s)) as [dp|] eqn:En; [by destruct (Hstuck _ (display_makes s dp Hd En))|].
  pose proof (display_next_stuck (disp_view s) Hh En) as Hat. cbn in Hat. split; [|done].
  rewrite Hh. by destruct Hat as [-> | ->].
Qed.

Lemma display_moves_or_not s : (∃ s', display_runs s s') ∨ (∀ s', ¬ display_runs s s').
Proof.
  destruct (displayThread (client (net s))) eqn:Hd; [|right; intros s' [dp Hd' _]; congruence].
  destruct (display_next (disp_view s)) as [dp|] eqn:En; [left; eexists; by apply display_makes|].
  right. intros s' [dp _ En']. congruence.
Qed.

Lemma input_moves s z now :
  display_holds (shows s) = false → eof s = true →
  input_at s = InputReturned ∨ (∃ u, input_at s = InputUndefined u) ∨
  ∃ s', input_next rang err z now s = Some s'.
Proof.
  intros Hh Heof. unfold input_next.
  destruct (input_at s) as [| | | |line| | |u]; eauto; right; right; try (by eapply runs_some).
  destruct (typed s); rewrite ?Heof; by eexists.
Qed.

Lemma main_moves s :
  sound it opens s → display_holds (shows s) = false → input_at s = InputReturned → ended s = false →
  (displayThread (client (net s)) = true → display_at (shows s) = Waiting ∨ display_at (shows s) = Finished) →
  (∃ s', main_next opens s = Some s') ∨
  (∃ leaving, main_at s = MainJoinsDisplay leaving) ∧ display_at (shows s) = Waiting.
Proof.
  intros Hs Hh Hi Hne Hat. pose proof (so_ready _ _ _ Hs) as Hr. unfold main_next.
  rewrite (so_lowered _ _ _ Hs Hi), Hi, (rd_free _ Hr), (ni_free _ (rd_net _ Hr)), andb_false_r.
  unfold ended in Hne. destruct (main_at s) as [|l|l|l|l|l| | | |v]; try done; try (left; by eapply runs_some);
    try (left; by eexists).
  destruct (displayThread (client (net s))); [|left; by eexists].
  destruct Hat as [E|E]; [done|right; split; [by eexists|done]|]. rewrite E. left. by eapply runs_some.
Qed.

Lemma sound_progress s :
  sound it opens s → eof s = true → ended s = false →
  (∃ s', own_step s s') ∨ (∃ u, input_at s = InputUndefined u) ∨
  (∃ leaving, main_at s = MainJoinsDisplay leaving) ∧ display_at (shows s) = Waiting.
Proof.
  intros Hs Heof Hne. destruct (display_moves_or_not s) as [[s' Hd]|Hstuck].
  { left. exists s'. split; [done|by right]. }
  destruct (quiet_screen s Hs Hstuck) as [Hh Hat].
  destruct (input_moves s zmq_all_good (λ _, 0) Hh Heof) as [Hi|[Hu|[s' E]]].
  - destruct (main_moves s Hs Hh Hi Hne Hat) as [[s' E]|H]; [|by right; right].
    left. exists s'. split; [done|left]. by apply step_main.
  - by right; left.
  - left. exists s'. split; [done|left]. by eapply step_input.
Qed.

(** C8. Shutting down. Once the user has closed the input, [main] and the input thread make
    only a bounded number of steps, whatever the display thread, the workers and the
    signals do meanwhile; these two and the display thread, left alone, come to a
    stop; and when none of them can move, the process has ended ([main] has returned, or
    a thread was undefined or threw), or the input thread is stuck in a command, or
    [main] joins a display thread that waits, having missed the notification. Nothing
    else can keep the process from ending. *)
Theorem process_shuts_down n s k s' :
  launchable n → rtc pstep (process_start n) s → eof s = true → executes rang err opens k s s' →
  (k <= rank s)%nat ∧ sn own_step s' ∧
  ((∀ s'', ¬ own_step s' s'') →
    ended s' = true ∨ (∃ u, input_at s' = InputUndefined u) ∨
    (∃ leaving, main_at s' = MainJoinsDisplay leaving) ∧ display_at (shows s') = Waiting).
Proof.
  intros Hn Hrun He Hx. destruct (executes_rank k s s' He Hx) as (Hk & Hs' & He').
  split_and!; [lia|apply own_steps_end|]. intros Hstuck.
  destruct (ended s') eqn:Hne; [by left|]. right.
  destruct (process_reachable it rang err opens n s' Hn) as [Hs|[[? _]|[[u Hu]|[Ha _]]]];
    [by etrans| |by left|by unfold ended in Hne; rewrite Hu in Hne|by rewrite (ended_aborted _ Hne) in Ha].
  destruct (sound_progress s' Hs He' Hne) as [[s'' H]|?]; [by destruct (Hstuck s'')|done].
Qed.

(** ** Stopping the interface *)

Lemma display_own s s' : ended s = false → rtc display_runs s s' → rtc own_step s s' ∧ ended s' = false.
Proof.
  intros He Hrun. induction Hrun as [s|s s1 s' Hstep _ IH]; [done|].
  assert (ended s1 = false) as He1.
  { destruct (display_runs_aside _ _ Hstep) as ((E & _) & _ & Ea). unfold ended in *. by rewrite E, Ea. }
  destruct (IH He1). split; [|done]. eapply rtc_l; [split; [done|by right]|done].
Qed.

Lemma main_own s s' : ended s = false → main_next opens s = Some s' → own_step s s'.
Proof. intros He Hm. split; [done|left]. by apply step_main. Qed.

(** When the display thread is scheduled in time, [CLIInterface::Stop] completes. *)
Lemma cli_stops s leaving :
  main_at s = MainClears leaving → aborted s = false →
  display_holds (shows s) = holds_mutex (display_at (shows s)) →
  ∃ d, rtc own_step s (set_main (MainStopsNetwork leaving) (set_shows d (set_net (cli_stopped (net s)) s))) ∧
    display_holds d = holds_mutex (display_at d).
Proof.
  intros Hm Ha Hh. set (n1 := put_captured (peerManager_ (net s), set_running false (client (net s))) (net s)).
  assert (ended s = false) as He by (unfold ended; by rewrite Hm).
  assert (∃ d0, rtc own_step s (set_shows d0 s) ∧ display_holds d0 = holds_mutex (display_at d0) ∧
    (displayThread (client (net s)) = true → unblocked (display_at (wake d0)) = true)) as (d0 & Hrun0 & Hh0 & Hu0).
  { destruct (displayThread (client (net s))) eqn:Hd.
    - destruct (display_settles s Hd Hh) as (d0 & Hrun & Hh0 & Hat & _). exists d0.
      split_and!; [by apply display_own|done|]. intros _. destruct d0 as [p h t]. cbn in Hat. by destruct Hat as [-> | ->].
    - exists (shows s). split_and!; [by destruct s|done..]. }
  set (s2 := set_main (MainJoinsDisplay leaving) (set_shows (wake d0) (set_net n1 s))).
  assert (rtc own_step s s2) as Hrun2.
  { etrans; [exact Hrun0|].
    eapply rtc_l; [apply main_own; [unfold ended; cbn; by rewrite Hm|]|].
    { unfold main_next. cbn [main_at set_shows]. rewrite Hm. by erewrite runs_quiet by reflexivity. }
    eapply rtc_l; [apply main_own; reflexivity || done|apply rtc_refl]. }
  assert (display_holds (wake d0) = holds_mutex (display_at (wake d0))) as Hh1
    by (apply (woken_holds d0); [by right|done]).
  destruct (displayThread (client (net s))) eqn:Hd.
  - destruct (display_settles s2 Hd Hh1) as (d & Hrun & Hhd & _ & Hfin).
    specialize (Hfin eq_refl (Hu0 eq_refl)). exists d. split; [|done].
    etrans; [exact Hrun2|]. etrans; [apply display_own; [done|exact Hrun]|].
    eapply rtc_l; [apply main_own; [done|]|apply rtc_refl].
    unfold main_next. cbn [main_at set_shows set_main s2 shows net set_net].
    assert (displayThread (client n1) = true) as -> by exact Hd. rewrite Hfin.
    by erewrite runs_quiet by reflexivity.
  - exists (wake d0). split; [|done]. etrans; [exact Hrun2|].
    eapply rtc_l; [apply main_own; [done|]|apply rtc_refl].
    unfold main_next. cbn [main_at set_shows set_main s2 shows net set_net].
    assert (displayThread (client n1) = false) as -> by exact Hd.
    assert (cli_stopped (net s) = n1) as ->; [|done].
    unfold cli_stopped, n1, set_displayThread, set_running. cbn. by rewrite Hd.
Qed.

(** ** Signals *)

(** A step in which the user types nothing. *)
Definition untyped_step s s' : Prop :=
  ended s = false ∧
  (program_step rang err opens s s' ∨ display_step s s' ∨ worker_step s s' ∨ s' = signal s).

Lemma own_untyped s s' : rtc own_step s s' → rtc untyped_step s s'.
Proof.
  intros Hrun. induction Hrun as [s|s s1 s' [He Hstep] _ IH]; [done|]. eapply rtc_l; [|done].
  split; [done|]. destruct Hstep as [Hp|Hd]; [by left|right; left]. by apply display_moves.
Qed.

(** The input thread is at its prompt and has nothing to read. *)
Definition prompting s : Prop := input_at s = InInput ∧ typed s = [] ∧ eof s = false.

Lemma aside_prompting s s' :
  aside s s' → prompting s → past_join (main_at s) = false → prompting s' ∧ past_join (main_at s') = false.
Proof. unfold prompting. by intros (-> & -> & -> & -> & _). Qed.

Lemma main_prompting s s' :
  prompting s → past_join (main_at s) = false → main_next opens s = Some s' →
  prompting s' ∧ past_join (main_at s') = false.
Proof.
  intros (Hi & Ht & He) Hj. unfold main_next, prompting. rewrite Hi.
  destruct (main_at s) as [|l|l|l|l|l| | | |v] eqn:Hpc; try done; cbn in Hj; subst;
    repeat (case_match; try done); try (by intros [= <-]);
    intros [(a & n & d & _ & _ & ->)|[(e & n & _ & ->)|(x & n & _ & ->)]]%runs_inv; cbn; by rewrite ?Hpc.
Qed.

Lemma untyped_prompting s s' :
  prompting s → past_join (main_at s) = false → untyped_step s s' →
  prompting s' ∧ past_join (main_at s') = false.
Proof.
  intros Hp Hj [Hne [[s1 Hm|z now s1 Hx]|[Hd|[Hw| ->]]]].
  - by eapply main_prompting.
  - destruct Hp as (Hi & Ht & He). unfold input_next in Hx. by rewrite Hi, Ht, He in Hx.
  - by eapply aside_prompting; [apply display_aside|..].
  - by eapply aside_prompting; [apply worker_aside|..].
  - done.
Qed.

(** C19. A signal does not end the program: while the input thread is at its prompt and
    nothing is typed, [main] never returns, whatever signals and messages arrive;
    it gets as far as joining that thread, with the network stopped and the peer
    file written, and waits there for a line. *)
Theorem signal_waits_for_input n s :
  launchable n → rtc pstep (process_start n) s → prompting s → main_at s = MainWaits →
  (∀ s', rtc untyped_step s s' → main_at s' ≠ MainReturned) ∧
  (∀ c, aborted s = false → SavePeersToFile opens (peerManager_ (net s)) = (Ok c, peerManager_ (net s)) →
    ∃ s', rtc untyped_step s s' ∧ prompting s' ∧ main_at s' = MainJoins ∧ saved s' = Some c ∧
      running_ (net s') = false).
Proof.
  intros Hn Hrun Hp Hm. split.
  - intros s' Hs' Hret.
    assert (past_join (main_at s) = false) as Hj by by rewrite Hm.
    assert (prompting s' ∧ past_join (main_at s') = false) as [_ H]; [|by rewrite Hret in H].
    clear Hret Hrun Hm. induction Hs' as [|s s1 s' Hstep _ IH]; [done|].
    destruct (untyped_prompting s s1 Hp Hj Hstep). by apply IH.
  - intros c Ha Hsave. pose proof Hp as (Hi & Ht & He).
    destruct (process_reachable it rang err opens n s Hn Hrun) as [Hs|[[[u Hu] _]|[[u Hu]|[Hab _]]]];
      [|congruence..].
    pose proof (so_ready _ _ _ Hs) as Hr.
    assert (ready (cli_stopped (net s))) as Hr1 by by apply (ready_same (net s)).
    destruct (Stop_total _ Hr1) as (n2 & Es & Hr2 & Hf & Epm). cbn in Epm.
    set (s1 := set_main (MainClears false) (signal s)).
    destruct (cli_stops s1 false eq_refl Ha (so_holds _ _ _ Hs)) as (d & Hstop & _).
    exists (set_main MainJoins (set_saved c (set_shows d (set_net n2 s1)))). split; [|by split_and!].
    assert (ended s = false) as Hes by (unfold ended; by rewrite Hm).
    eapply rtc_l; [split; [done|right; right; right; reflexivity]|].
    eapply rtc_l; [split; [unfold ended; cbn; by rewrite Hm|left; apply step_main]|].
    { unfold main_next. cbn. rewrite Hm. reflexivity. }
    apply own_untyped. etrans; [exact Hstop|].
    eapply rtc_l; [apply main_own; [done|]|].
    { unfold main_next. cbn [main_at set_main set_shows net set_net s1 signal set_g_running].
      rewrite (ni_free _ (rd_net _ Hr1)), andb_false_r.
      erewrite runs_quiet; [reflexivity|exact Es|]. apply (Stop_queue _ _ Hr1 Es). }
    eapply rtc_l; [apply main_own; [done|]|apply rtc_refl].
    unfold main_next. cbn [main_at net set_main set_net set_shows after_network]. rewrite (rd_free _ Hr2).
    rewrite <- Epm in Hsave. erewrite runs_quiet; [reflexivity|apply on_pm_read; exact Hsave|done].
Qed.

(** ** The self-deadlock of [connect], seen from outside *)

(** The network manager runs, or [main] waits in its [Stop], and the mutex is held. *)
Definition held s : Prop :=
  socketsMutex_ (net s) = true ∧ (running_ (net s) = true ∨ ∃ l, main_at s = MainBlocked l) ∧
  past_stop (main_at s) = false ∧ saved s = None.

Lemma worker_held s s' : held s → worker_step s s' → held s'.
Proof.
  intros (Hf & Hr & Hps & Hsv) Hw. pose proof (worker_aside _ _ Hw) as (Em & _ & _ & _ & Es & _).
  assert (∀ r n, worker_pass s r n → r ≠ Undefined RelockOwnedMutex →
    socketsMutex_ n = true ∧ running_ n = running_ (net s)) as Hpass.
  { intros r n [z now ev r' n' _ E|z now e recv r' n' _ E] Hne.
    - destruct (RouteMessages_pass_frames z now ev (net s)) as (E1 & _ & _ & E4 & _).
      rewrite E in E1, E4. cbn in E1, E4. split; congruence.
    - unfold PollMessages_pass, mbind, stM_bind in E. erewrite st_bind_Ok in E by reflexivity.
      destruct (running_ (net s)) eqn:Hrun; cbn [negb] in E; [|by injection E as <- <-].
      erewrite st_bind_Undefined in E by (by apply lock_guard_owned). congruence. }
  unfold held. rewrite Em, Es. destruct Hw as [n s1 Hw (d & _ & ->)%queues_inv|e n Hw|u n Hw Hne];
    (destruct (Hpass _ _ Hw) as [H1 H2]; [congruence|cbn; rewrite H1, H2; by split_and!]).
Qed.

Lemma main_held s s' : stuck s → held s → main_next opens s = Some s' → held s'.
Proof.
  intros [[u Hu] Hj] (Hf & Hr & Hps & Hsv). unfold main_next. rewrite Hu, Hf, andb_true_r.
  destruct (main_at s) as [|l|l|l|l|l| | | |v] eqn:Hpc; try done; cbn in Hj; try (subst l).
  1-4: destruct Hr as [Hr|[l' E]]; [|done].
  - case_match; [done|]. intros [= <-]. split_and!; [done|by left|done..].
  - intros Hrun. eapply runs_Ok_inv in Hrun as (d & _ & ->); [|reflexivity].
    split_and!; [done|by left|done..].
  - intros [= <-]. split_and!; [done|by left|done..].
  - case_match.
    + case_match; try done. intros Hrun. eapply runs_Ok_inv in Hrun as (d & _ & ->); [|reflexivity].
      split_and!; [done|by left|done..].
    + intros [= <-]. split_and!; [done|by left|done..].
  - destruct Hr as [Hr|[l' E]]; [|done]. rewrite Hr. intros Hrun.
    eapply runs_Ok_inv in Hrun as (d & _ & ->); [|reflexivity]. split_and!; [done|right; by eexists|done..].
Qed.

Lemma held_step s s' : stuck s → held s → pstep s s' → held s'.
Proof.
  intros Hst Hh [Hne [s1 Hm|z now s1 Hi]|Hne Hd|Hne Hw|Hne [line He|He]|Hne ->]; try done.
  - by eapply main_held.
  - destruct Hst as [[u Hu] _]. unfold input_next in Hi. by rewrite Hu in Hi.
  - destruct (display_aside _ _ Hd) as ((Em & _ & _ & _ & Es & _) & En & _).
    unfold held. by rewrite Em, Es, En.
  - by eapply worker_held.
Qed.

Lemma stuck_forever s s' : stuck s → rtc pstep s s' → main_at s' ≠ MainReturned ∧ (held s → saved s' = None).
Proof.
  intros Hst Hrun. revert Hst. induction Hrun as [s|s s1 s' Hstep Hrun IH]; intros Hst.
  - split; [|by intros (_ & _ & _ & Hsv)]. intros E. destruct Hst as [_ Hj]. by rewrite E in Hj.
  - destruct (process_stuck it rang err opens s s1 Hst Hstep) as [Hst1|[u Hu]].
    + destruct (IH Hst1) as [Hnr Hk]. split; [done|]. intros Hh. apply Hk. exact (held_step _ _ Hst Hh Hstep).
    + assert (s' = s1) as ->.
      { destruct Hrun as [|s1 s2 s3 Hstep1 _]; [done|]. exfalso.
        assert (ended s1 = false) as He by by destruct Hstep1. unfold ended in He. by rewrite Hu in He. }
      split; [congruence|]. intros Hh. by destruct (held_step _ _ Hst Hh Hstep) as (_ & _ & _ & ?).
Qed.

(** C13. A [connect] that reaches its peer hangs the process for good: the input thread
    never comes back from it, so no signal, message or further input ever lets
    [main] return; and if the network was running the peer file is never written. *)
Theorem connect_hangs_process n s z now line address p rest v :
  launchable n → rtc pstep (process_start n) s → ended s = false → input_at s = Processing line →
  words line = "connect" :: address :: p :: rest → stoul 10 p = Ok v →
  zmq_dealer z (pi_id (localPeer_ (peerManager_ (net s)))) = None →
  zmq_connect z ("tcp://" +:+ address +:+ ":" +:+ to_string (u16 v)) = None →
  ∃ s1, input_next rang err z now s = Some s1 ∧
    ∀ s', rtc pstep s1 s' →
      main_at s' ≠ MainReturned ∧ (running_ (net s) = true → saved s' = None).
Proof.
  intros Hn Hrun Hne Hi Hw Hv Hz1 Hz2.
  destruct (process_reachable it rang err opens n s Hn Hrun) as [Hs|[[[u Hu] _]|[[u Hu]|[Hab _]]]];
    [|congruence|by unfold ended in Hne; rewrite Hu in Hne|by rewrite (ended_aborted _ Hne) in Hab].
  pose proof (so_ready _ _ _ Hs) as Hr. pose proof (ni_free _ (rd_net _ Hr)) as Hf.
  assert (∃ n', ProcessCommand rang z now line (net s) = (Undefined RelockOwnedMutex, n') ∧
    running_ n' = running_ (net s) ∧ socketsMutex_ n' = true) as (n' & E & Er & Em).
  { rewrite (ProcessCommand_run it rang z now line _ _ (net s) Hr Hw).
    change (commands CLIInterface_new !! "connect") with (Some Connect). cbn [run_command].
    rewrite (HandleConnect_run z now _ (net s) Hr). cbn [length Nat.ltb Nat.leb arg nth]. rewrite Hv.
    rewrite (ConnectToPeer_run_relock (net s) z (now 0%nat) address (u16 v) Hf Hz1 Hz2). by eexists. }
  exists (set_input (InputUndefined RelockOwnedMutex) (set_net n' s)). split.
  { unfold input_next. rewrite Hi. rewrite bool_decide_eq_false_2 by (intros ->; discriminate Hw).
    unfold runs. by rewrite E. }
  intros s' Hs'.
  assert (past_join (main_at s) = false) as Hj.
  { destruct (past_join (main_at s)) eqn:Hj; [|done]. apply (so_joined _ _ _ Hs) in Hj. congruence. }
  match type of Hs' with rtc _ ?s1 _ => assert (stuck s1) as Hh by (split; [eexists; reflexivity|exact Hj]) end.
  destruct (stuck_forever _ s' Hh Hs') as [Hnr Hk]. split; [done|]. intros Hrunning. apply Hk.
  assert (past_stop (main_at s) = false) as Hps.
  { destruct (past_stop (main_at s)) eqn:Hps; [|done]. apply (so_stopped _ _ _ Hs) in Hps. congruence. }
  pose proof (so_saved _ _ _ Hs) as Hsv.
  split_and!; cbn; [done|by left; rewrite Er|done|]. revert Hsv Hps.
  by destruct (main_at s) as [|l|l|l|l|l| | | |w]; cbn; try destruct l.
Qed.
End Facts.

(** ** The sequential [main] is one of the schedules *)

Section Sequential.
Context (it : UnorderedIter) (rang : ostream → rang_code → string) (opens : bool).
Abbreviation pstep := (process_step rang None opens).

Lemma pstep_main s s' : ended s = false → main_next opens s = Some s' → pstep s s'.
Proof. intros He Hm. apply step_program; [done|by apply step_main]. Qed.
Lemma pstep_input z now s s' : ended s = false → input_next rang None z now s = Some s' → pstep s s'.
Proof. intros He Hm. apply step_program; [done|by eapply step_input]. Qed.

Lemma types_all lines l s :
  ended s = false → eof s = false → typed s = l →
  rtc pstep s (set_typed (l ++ lines) false s).
Proof.
  revert l s. induction lines as [|line lines IH]; intros l s He Hf Ht.
  - rewrite app_nil_r. destruct s; cbn in *; subst. apply rtc_refl.
  - eapply rtc_l; [apply step_typing, (types s line); done|]. rewrite Ht.
    pose proof (IH (l ++ [line]) (set_typed (l ++ [line]) false s) He eq_refl eq_refl) as H.
    by rewrite <- app_assoc in H.
Qed.

Lemma loop_simulated inputs n n' :
  Run_loop rang inputs n = (Ok tt, n') →
  ∃ l, rtc pstep (mkProcess n true MainWaits LoopTest (map snd inputs) true None false unstarted)
                 (mkProcess n' true MainWaits Lowers l true None false unstarted).
Proof.
  revert n. induction inputs as [|[[z now] line] inputs IH]; intros n; cbn [Run_loop];
    unfold mbind, stM_bind; erewrite st_bind_Ok by reflexivity;
    destruct (running (client n)) eqn:Hr; cbn [negb].
  - intros [= <-]. eexists.
    eapply rtc_l; [eapply (pstep_input zmq_all_good (λ _, 0)); [done|cbn; rewrite Hr; reflexivity]|].
    eapply rtc_l; [eapply (pstep_input zmq_all_good (λ _, 0)); [done|reflexivity]|]. apply rtc_refl.
  - intros [= <-]. eexists.
    eapply rtc_l; [eapply (pstep_input zmq_all_good (λ _, 0)); [done|cbn; rewrite Hr; reflexivity]|].
    apply rtc_refl.
  - unfold st_bind. match goal with |- context [match ?m n with _ => _ end] =>
      destruct (m n) as [[[]| |] n1] eqn:E; [|done..] end.
    intros Hl. destruct (IH n1 Hl) as [l Hrun]. exists l.
    eapply rtc_l; [eapply (pstep_input z now); [done|cbn; rewrite Hr; reflexivity]|].
    eapply rtc_l; [eapply (pstep_input z now); [done|reflexivity]|].
    eapply rtc_l; [eapply (pstep_input z now); [done|]|exact Hrun].
    unfold input_next. cbn [input_at set_typed set_input]. by erewrite runs_idle by (exact E || done).
  - intros [= <-]. eexists.
    eapply rtc_l; [eapply (pstep_input zmq_all_good (λ _, 0)); [done|cbn; rewrite Hr; reflexivity]|].
    apply rtc_refl.
Qed.

Lemma own_pstep s s' : rtc (own_step it rang None opens) s s' → rtc pstep s s'.
Proof.
  intros Hrun. induction Hrun as [s|s s1 s' [He Hstep] _ IH]; [done|]. eapply rtc_l; [|done].
  destruct Hstep; [by apply step_program|by apply step_display, display_moves].
Qed.

Lemma shutdown_simulated n n2 c l :
  ready n → Stop (cli_stopped n) = (Ok tt, n2) →
  SavePeersToFile opens (peerManager_ n) = (Ok c, peerManager_ n) →
  ∃ d, rtc pstep (mkProcess n true MainWaits Lowers l true None false unstarted)
                 (mkProcess (cli_stopped n2) false MainReturned InputReturned l true (Some c) false d).
Proof.
  intros Hr Es Hsave.
  assert (ready (cli_stopped n)) as Hr1 by by apply (ready_same n).
  destruct (Stop_total _ Hr1) as (n2' & Es' & Hr2 & Hf & Epm). rewrite Es in Es'. injection Es' as <-.
  change (peerManager_ (cli_stopped n)) with (peerManager_ n) in Epm. rewrite <- Epm in Hsave.
  destruct (cli_stops it rang None opens (mkProcess n false (MainClears false) InputReturned l true None false unstarted)
    false eq_refl eq_refl eq_refl) as (d1 & Hstop1 & Hd1).
  destruct (cli_stops it rang None opens
    (mkProcess n2 false (MainClears true) InputReturned l true (Some c) false d1)
    true eq_refl eq_refl Hd1) as (d2 & Hstop2 & _). exists d2.
  eapply rtc_l; [eapply (pstep_input zmq_all_good (λ _, 0)); [done|reflexivity]|].
  eapply rtc_l; [eapply pstep_main; [done|reflexivity]|].
  etrans; [exact (own_pstep _ _ Hstop1)|].
  eapply rtc_l; [eapply pstep_main; [done|]|].
  { unfold main_next. cbn [main_at net set_main set_net set_shows].
    rewrite (ni_free _ (rd_net _ Hr1)), andb_false_r.
    erewrite runs_quiet; [reflexivity|exact Es|by apply Stop_queue]. }
  eapply rtc_l; [eapply pstep_main; [done|]|].
  { unfold main_next. cbn [main_at net set_main set_net set_shows after_network]. rewrite (rd_free _ Hr2).
    erewrite runs_quiet; [reflexivity|apply on_pm_read; exact Hsave|done]. }
  eapply rtc_l; [eapply pstep_main; [done|reflexivity]|].
  etrans; [exact (own_pstep _ _ Hstop2)|].
  eapply rtc_l; [eapply pstep_main; [done|]|apply rtc_refl].
  unfold main_next. cbn [main_at net set_main set_net set_shows].
  match goal with |- context [if ?b then _ else _] => assert (b = false) as -> by (cbn; by rewrite Hf) end.
  assert (Stop (cli_stopped n2) = (Ok tt, cli_stopped n2)) as E2 by (unfold Stop; st_simpl; by rewrite Hf).
  erewrite runs_quiet; [reflexivity|exact E2|done].
Qed.

Lemma sequential_run n inputs n1 n2 c :
  launchable n → Run rang None inputs n = (Ok tt, n1) → Stop (cli_stopped n1) = (Ok tt, n2) →
  SavePeersToFile opens (peerManager_ n1) = (Ok c, peerManager_ n1) →
  ∃ l d, rtc pstep (process_start n)
         (mkProcess (cli_stopped n2) false MainReturned InputReturned l true (Some c) false d).
Proof.
  intros (Hr & Hu & Hd) Hrun Es Hsave. unfold Run in Hrun. rewrite Run_setup_split in Hrun.
  set (n0 := put_captured (peerManager_ n, set_running true (client n)) n) in *.
  assert (displayThread (client n0) = false) as Hd0 by done.
  destruct (Run_rest None n0) as [r n0'] eqn:E0. pose proof (Run_rest_run None n0 Hd0) as E0'.
  rewrite E0 in E0'. injection E0' as -> En0'.
  assert (Run_loop rang inputs n0' = (Ok tt, n1)) as Hl.
  { unfold mbind, stM_bind, st_bind in Hrun.
    change (on_cli _ n) with (Ok tt : outcome unit, n0) in Hrun. cbn match in Hrun. by rewrite E0 in Hrun. }
  assert (ready n0') as Hr0 by (subst n0'; by apply (ready_same n)).
  destruct (loop_simulated inputs n0' n1 Hl) as [l Hloop]. exists l.
  assert (ready n1) as Hr1 by (eapply Run_loop_ready; [exact Hr0|exact Hl]).
  destruct (shutdown_simulated n1 n2 c l Hr1 Es Hsave) as [d Hend]. exists d.
  etrans; [apply (types_all (map snd inputs) [] (process_start n)); done|].
  eapply rtc_l; [apply step_typing, closes; done|].
  eapply rtc_l; [eapply (pstep_input zmq_all_good (λ _, 0)); [done|]|].
  { unfold input_next. cbn [input_at set_typed process_start]. by erewrite runs_quiet by reflexivity. }
  eapply rtc_l; [eapply (pstep_input zmq_all_good (λ _, 0)); [done|]|].
  { unfold input_next. cbn [input_at set_input]. by erewrite runs_idle by (exact E0 || done). }
  etrans; [exact Hloop|exact Hend].
Qed.
End Sequential.

(** What [main] does up to the input thread, when nothing fails, can be launched. *)
Lemma started_launchable p pm flag :
  mutex_ pm = false → launchable (started p (with_registry pm (program_new flag))).
Proof. intros Hm. split_and!; [|done..]. split; [|done..]. apply started_inv, program_new_inv. Qed.

(** C16. The sequential [main], in which the input thread runs to its end before anything
    else happens, is one of the interleavings of the process: whatever lines are
    typed, when that [main] returns 0 the process can return with the same peer file
    and leave the program in the same state. *)
Theorem main_is_a_schedule {Key} (ssl : OpenSSL Key) (it : UnorderedIter) rang
    z lc cc opts file inputs opens w l1 n1 c l2 n2 :
  help opts = false → startup ssl z lc cc opts file w = (Ok tt, (l1, n1)) → launchable n1 →
  main ssl z lc cc (Ok opts) file (on_net (Run rang None inputs)) opens w = (Ok (0, c), (l2, n2)) →
  ∃ s, rtc (process_step rang None opens) (process_start n1) s ∧
    main_at s = MainReturned ∧ saved s = Some c ∧ net s = n2.
Proof.
  intros Hh Est Hn Em. unfold main, st_catch, mbind, stM_bind in Em.
  erewrite st_bind_Ok in Em by reflexivity. rewrite Hh in Em.
  erewrite st_bind_Ok in Em by exact Est.
  destruct (Run rang None inputs n1) as [r n3] eqn:Er. pose proof (on_net_run _ (l1, n1) _ _ Er) as E.
  destruct r as [[]|e|u]; cycle 1.
  { erewrite st_bind_Throw in Em by exact E. cbn [catch_all] in Em. unfold st_bind in Em. by repeat case_match. }
  { by erewrite st_bind_Undefined in Em by exact E. }
  erewrite st_bind_Ok in Em by exact E. cbn [fst] in Em. clear E.
  assert (ready n3) as Hr3.
  { destruct Hn as (Hr & _ & Hd). unfold Run in Er. unfold mbind, stM_bind, st_bind in Er.
    destruct (Run_setup None n1) as [[[]| |] n1'] eqn:Es; [|done..].
    eapply Run_loop_ready; [|exact Er]. rewrite Run_setup_split in Es. unfold mbind, stM_bind in Es.
    erewrite st_bind_Ok in Es by reflexivity. rewrite Run_rest_run in Es by done.
    injection Es as <-. by apply (ready_same n1). }
  assert (ready (cli_stopped n3)) as Hrc by by apply (ready_same n3).
  destruct (Stop_total _ Hrc) as (n4 & Es & Hr4 & Hf4 & Epm).
  assert (shutdown opens (l1, n3) =
    on_net (on_pm (SavePeersToFile opens)) (l1, n4)) as Eshut.
  { unfold shutdown, mbind, stM_bind. erewrite st_bind_Ok by (apply on_net_run; reflexivity).
    by erewrite st_bind_Ok by (apply on_net_run; exact Es). }
  change (peerManager_ (cli_stopped n3)) with (peerManager_ n3) in Epm.
  destruct (SavePeersToFile opens (peerManager_ n3)) as [r pm] eqn:Esave.
  pose proof (Save_keeps it opens _ _ _ (rd_free _ Hr3) Esave) as Hk.
  assert (shutdown opens (l1, n3) = (r, (l1, put_captured (pm, client n4) n4))) as Eshut'.
  { rewrite Eshut. apply on_net_run, on_pm_run. cbn [snd]. by rewrite Epm. }
  destruct r as [c'|e|u]; cycle 1.
  { erewrite st_bind_Throw in Em by exact Eshut'. cbn [catch_all] in Em. unfold st_bind in Em. by repeat case_match. }
  { by erewrite st_bind_Undefined in Em by exact Eshut'. }
  specialize (Hk eq_refl) as ->.
  assert (put_captured (peerManager_ n3, client n4) n4 = n4) as Eid by (rewrite <- Epm; by destruct n4).
  rewrite Eid in Eshut'. erewrite st_bind_Ok in Em by exact Eshut'.
  assert (Stop n4 = (Ok tt, n4)) as E4 by (unfold Stop; st_simpl; by rewrite Hf4).
  erewrite st_bind_Ok in Em by (apply on_net_run; exact E4). injection Em as <- <- <-.
  destruct (sequential_run it rang opens n1 inputs n3 n4 c' Hn Er Es Esave) as (l & d & Hrun).
  eexists. split_and!; [exact Hrun|done..|]. cbn [net].
  assert (n4 = if running_ (cli_stopped n3) then stopped (cli_stopped n3) else cli_stopped n3) as ->.
  { destruct (Stop_ready _ Hrc) as (Es' & _). rewrite Es in Es'. by injection Es'. }
  by destruct (running_ (cli_stopped n3)).
Qed.

(** * Witnesses *)

Definition example_net : Net Cli :=
  started 9090 (with_registry (mkPM false ∅ (mkPeer "me" "0.0.0.0" (Some 9090) [Byte.x01] true 0))
    (program_new false)).

Lemma example_launchable : launchable example_net.
Proof. by apply started_launchable. Qed.

Definition quit_line : list (Zmq * Clock * string) := [(zmq_all_good, λ _, 0, "quit")].

Lemma quit_run (it : UnorderedIter) rang n :
  launchable n →
  ∃ n1, Run rang None quit_line n = (Ok tt, n1) ∧ ready n1 ∧ peerManager_ n1 = peerManager_ n ∧
    running_ n1 = running_ n.
Proof.
  intros (Hr & _ & Hd). unfold Run, quit_line. rewrite Run_setup_split. unfold mbind, stM_bind.
  eexists. split.
  - erewrite st_bind_Ok; [|erewrite st_bind_Ok by reflexivity; by rewrite Run_rest_run].
    cbn [Run_loop]. unfold mbind, stM_bind. erewrite st_bind_Ok by reflexivity.
    match goal with |- context [running (client ?m)] =>
      assert (running (client m) = true) as -> by reflexivity;
      assert (ready m) as Hm by (by apply (ready_same n));
      pose proof (ProcessCommand_effect it rang zmq_all_good (λ _, 0) "quit" m Hm) as E;
      assert (input_effect it rang zmq_all_good (λ _, 0) "quit" m =
        Some ([], [SystemLine "Shutting down..."], true)) as Hi by reflexivity end.
    rewrite Hi in E. cbn [negb]. rewrite bool_decide_eq_false_2 by done.
    erewrite st_bind_Ok by exact E. reflexivity.
  - split; [|done]. by apply (ready_same n).
Qed.

Lemma quit_exits (it : UnorderedIter) rang opens n c :
  launchable n → SavePeersToFile opens (peerManager_ n) = (Ok c, peerManager_ n) →
  ∃ s, rtc (process_step rang None opens) (process_start n) s ∧ main_at s = MainReturned ∧ saved s = Some c.
Proof.
  intros Hn Hsave. destruct (quit_run it rang n Hn) as (n1 & E & Hr & Epm & _). rewrite <- Epm in Hsave.
  assert (ready (cli_stopped n1)) as Hr1 by by apply (ready_same n1).
  destruct (Stop_total _ Hr1) as (n2 & Es & _).
  destruct (sequential_run it rang opens n quit_line n1 n2 c Hn E Es Hsave) as (l & d & Hl).
  eexists. by split_and!; [exact Hl|..].
Qed.

Lemma process_exit_witness :
  ∃ s, rtc (@process_step tree_order no_style None true) (process_start example_net) s ∧
    main_at s = MainReturned ∧ running_ (net s) = false.
Proof.
  destruct (quit_exits tree_order no_style true example_net (Some "") example_launchable eq_refl)
    as (s & Hrun & Hm & _). exists s. split_and!; [exact Hrun|exact Hm|].
  apply (process_exit tree_order no_style None true example_net s example_launchable Hrun Hm).
Defined.

Lemma process_shuts_down_witness :
  (1 <= rank (set_typed [] true (process_start example_net)))%nat.
Proof.
  eapply (process_shuts_down tree_order no_style None true example_net
    (set_typed [] true (process_start example_net)) 1); [exact example_launchable| |reflexivity|].
  - eapply rtc_l; [apply step_typing, closes; reflexivity|apply rtc_refl].
  - eapply executes_program; [reflexivity| |apply executes_none].
    apply (step_input _ _ _ _ zmq_all_good (λ _, 0)). reflexivity.
Defined.

(** The prompt is reached. *)
Lemma prompt_reachable (it : UnorderedIter) rang opens n :
  launchable n →
  ∃ n', rtc (process_step rang None opens) (process_start n)
      (mkProcess n' true MainWaits InInput [] false None false unstarted) ∧
    peerManager_ n' = peerManager_ n ∧ running_ n' = running_ n.
Proof.
  intros (Hr & Hu & Hd).
  pose proof (Run_rest_run None (put_captured (peerManager_ n, set_running true (client n)) n) Hd) as E.
  cbn match in E. eexists. split.
  - eapply rtc_l; [eapply (pstep_input it rang opens zmq_all_good (λ _, 0)); [done|]|].
    { unfold input_next. cbn [input_at process_start]. by erewrite runs_quiet by reflexivity. }
    eapply rtc_l; [eapply (pstep_input it rang opens zmq_all_good (λ _, 0)); [done|]|].
    { unfold input_next. cbn [input_at set_input]. by erewrite runs_idle by (exact E || done). }
    eapply rtc_l; [eapply (pstep_input it rang opens zmq_all_good (λ _, 0)); [done|reflexivity]|].
    apply rtc_refl.
  - done.
Qed.

Lemma signal_waits_for_input_witness :
  ∃ s, rtc (@process_step tree_order no_style None true) (process_start example_net) s ∧
    ∀ s', rtc (@untyped_step tree_order no_style None true) s s' → main_at s' ≠ MainReturned.
Proof.
  destruct (prompt_reachable tree_order no_style true example_net example_launchable) as (n & Hrun & _).
  eexists. split; [exact Hrun|].
  apply (signal_waits_for_input tree_order no_style None true example_net _ example_launchable Hrun);
    [split_and!; reflexivity|reflexivity].
Defined.

Lemma connect_hangs_process_witness :
  ∃ s, rtc (@process_step tree_order no_style None true) (process_start example_net) s ∧
    ∀ s', rtc (@process_step tree_order no_style None true) s s' → main_at s' ≠ MainReturned.
Proof.
  destruct (prompt_reachable tree_order no_style true example_net example_launchable)
    as (n & Hrun & Epm & _).
  set (line := "connect localhost 9091").
  assert (rtc (@process_step tree_order no_style None true) (process_start example_net)
    (mkProcess n true MainWaits (Processing line) [] false None false unstarted)) as Hrun'.
  { etrans; [exact Hrun|]. eapply rtc_l; [apply step_typing, (types _ line); reflexivity|].
    eapply rtc_l; [|apply rtc_refl].
    apply (pstep_input tree_order no_style true zmq_all_good (λ _, 0)); reflexivity. }
  destruct (connect_hangs_process tree_order no_style None true example_net _ zmq_all_good (λ _, 0) line
    "localhost" "9091" [] 9091 example_launchable Hrun') as (s1 & E & Hs1); [reflexivity..|].
  exists s1. split.
  - etrans; [exact Hrun'|]. eapply rtc_l; [|apply rtc_refl].
    eapply (pstep_input tree_order no_style true zmq_all_good (λ _, 0)); [reflexivity|exact E].
  - intros s' Hs'. by apply Hs1.
Defined.

Lemma main_is_a_schedule_witness :
  ∃ n1 s, rtc (@process_step tree_order no_style None true) (process_start n1) s ∧
    main_at s = MainReturned ∧ saved s = Some (Some "").
Proof.
  destruct (GenerateKeyPair_wp toy (live no_objects) no_objects eq_refl no_objects_fresh)
    as (kp & l1 & Ek & _).
  set (n1 := started 9090 (with_registry (identified toy kp 9090) (program_new false))).
  assert (startup toy zmq_all_good (λ _, 0) 0 (test_options None) no_file (no_objects, program_new false)
    = (Ok tt, (l1, n1))) as Est.
  { rewrite (startup_ok toy zmq_all_good (λ _, 0) 0 (test_options None) no_file false no_objects kp l1
      (identified toy kp 9090) Ek eq_refl); [reflexivity|by split_and!]. }
  assert (launchable n1) as Hn by by apply started_launchable.
  destruct (quit_run tree_order no_style n1 Hn) as (n3 & Er & Hr & Epm & Hrun).
  assert (SavePeersToFile (H := tree_order) true (peerManager_ n3)
    = (Ok (Some ""), peerManager_ n3)) as Esave by by rewrite Epm.
  destruct (main_is_a_schedule toy tree_order no_style zmq_all_good (λ _, 0) 0 (test_options None)
    no_file quit_line true (no_objects, program_new false) l1 n1 (Some "") l1
    (with_registry (peerManager_ n3) (stopped (cli_stopped n3))) eq_refl Est Hn) as (s & Hs & Hm & Hsv & _).
  - unfold main, st_catch, mbind, stM_bind. erewrite st_bind_Ok by reflexivity.
    change (help (test_options None)) with false. cbn match.
    erewrite st_bind_Ok by exact Est. erewrite st_bind_Ok by (apply on_net_run; exact Er).
    erewrite st_bind_Ok by (apply shutdown_run; [apply (rd_net _ Hr)|exact Hrun|exact Esave]).
    erewrite st_bind_Ok by (apply on_net_run; reflexivity). reflexivity.
  - by exists n1, s.
Defined.
