(* ===== verification/Session.v ===== *)
(** The coroutine version of the network manager:
    [Source/Network_coroutines_wip.cpp], which the build does not include.

    Sessions are objects of a heap, shared by the table [sessions_], the message
    handlers and the coroutines. Asio is a parameter: the bytes a socket delivers
    before it closes, and whether it still has a remote endpoint, are data; a
    coroutine handed to [co_spawn] is logged as a task. *)

From Stdlib Require Import Strings.Ascii.
From S2P Require Import Prelude CxxText Message PeerManager Network.

(** ** [Session] *)

Record session := mkSession {
  open_ : bool;                               (** [socket_] *)
  remote_endpoint : option (string * Z);      (** [None]: asking for it throws *)
  peerId_ : string;
  isOutgoing_ : bool
}.

Definition HasPeerId (s : session) : bool := negb (bool_decide (peerId_ s = "")).
Definition SetPeerId (id : string) (s : session) : session :=
  mkSession (open_ s) (remote_endpoint s) id (isOutgoing_ s).
Definition close_socket (s : session) : session :=
  mkSession false (remote_endpoint s) (peerId_ s) (isOutgoing_ s).

(** The coroutines handed to [co_spawn]. *)
Inductive task :=
  | SendTask (session : nat) (data : list byte)
  | StartTask (session : nat)
  | AcceptTask
  | ConnectTask (address : string) (port : Z).

#[export] Instance task_eq_dec : EqDecision task.
Proof. solve_decision. Defined.

(** [async_read] of [n] bytes from what is left of a stream; at its end it throws. *)
Definition async_read (n : nat) (stream : list byte) : outcome (list byte * list byte) :=
  if (n <=? length stream)%nat then Ok (take n stream, drop n stream)
  else Throw (system_error "End of file").

Definition header_size : nat := 13.
Definition max_payload : Z := 1024 * 1024 * 10.

(** The loop of [Session::Run] on the bytes that arrive. It never returns: it ends
    with an exception, or is undefined. [Ok] says that the fuel has run out; every
    iteration but the last consumes a header of 13 bytes, so one unit of fuel for each
    13 bytes and one more suffice. *)
Fixpoint Session_Run {S} (fuel : nat) (handler : Message → stM S unit) (stream : list byte) : stM S unit :=
  match fuel with
  | O => mret tt
  | Datatypes.S fuel =>
    '(headerBuffer, stream) ← st_lift (async_read header_size stream);
    let payloadSize := read_payload_size headerBuffer in
    if max_payload <? payloadSize then mthrow (runtime_error "Message too large")
    else
      '(payload, stream) ← st_lift (async_read (Z.to_nat payloadSize) stream);
      let fullMessage := headerBuffer ++ payload in
      msg ← st_lift (Deserialize fullMessage);
      handler msg;;
      Session_Run fuel handler stream
  end.

(** ** The manager *)

Record Co (U : Type) := mkCo {
  co_registry : PeerManager;
  co_client : U;
  co_messageHandler : option (MessageHandler U);
  co_connectionHandler : option (ConnectionHandler U);
  co_heap : gmap nat session;
  co_sessions : gmap string nat;
  co_mutex : bool;
  co_running : bool;
  co_acceptor : option bool;        (** [Some b]: constructed, open or not *)
  co_accepting : nat;               (** [AcceptLoop] coroutines suspended in [async_accept] *)
  co_spawned : list task;
  co_awaited : list (nat * list byte)   (** what coroutines sent on a session and waited for *)
}.
Arguments mkCo {_}.
Arguments co_registry {_}. Arguments co_client {_}. Arguments co_messageHandler {_}.
Arguments co_connectionHandler {_}. Arguments co_heap {_}. Arguments co_sessions {_}.
Arguments co_mutex {_}. Arguments co_running {_}. Arguments co_acceptor {_}. Arguments co_accepting {_}.
Arguments co_spawned {_}. Arguments co_awaited {_}.

Section Coroutines.
Context {U : Type}.
Implicit Types c : Co U.

Definition co_with_captured (pc : PeerManager * U) c : Co U :=
  mkCo pc.1 pc.2 (co_messageHandler c) (co_connectionHandler c) (co_heap c) (co_sessions c)
    (co_mutex c) (co_running c) (co_acceptor c) (co_accepting c) (co_spawned c) (co_awaited c).
Definition co_with_heap (h : gmap nat session) c : Co U :=
  mkCo (co_registry c) (co_client c) (co_messageHandler c) (co_connectionHandler c) h (co_sessions c)
    (co_mutex c) (co_running c) (co_acceptor c) (co_accepting c) (co_spawned c) (co_awaited c).
Definition co_with_sessions (t : gmap string nat) c : Co U :=
  mkCo (co_registry c) (co_client c) (co_messageHandler c) (co_connectionHandler c) (co_heap c) t
    (co_mutex c) (co_running c) (co_acceptor c) (co_accepting c) (co_spawned c) (co_awaited c).
Definition co_with_mutex (b : bool) c : Co U :=
  mkCo (co_registry c) (co_client c) (co_messageHandler c) (co_connectionHandler c) (co_heap c)
    (co_sessions c) b (co_running c) (co_acceptor c) (co_accepting c) (co_spawned c) (co_awaited c).
Definition co_with_acceptor (running : bool) (a : option bool) c : Co U :=
  mkCo (co_registry c) (co_client c) (co_messageHandler c) (co_connectionHandler c) (co_heap c)
    (co_sessions c) (co_mutex c) running a (co_accepting c) (co_spawned c) (co_awaited c).
Definition co_with_handlers (m : option (MessageHandler U)) (h : option (ConnectionHandler U)) c : Co U :=
  mkCo (co_registry c) (co_client c) m h (co_heap c) (co_sessions c) (co_mutex c) (co_running c)
    (co_acceptor c) (co_accepting c) (co_spawned c) (co_awaited c).
Definition co_spawn (t : task) : stM (Co U) unit := st_modify (λ c,
  mkCo (co_registry c) (co_client c) (co_messageHandler c) (co_connectionHandler c) (co_heap c)
    (co_sessions c) (co_mutex c) (co_running c) (co_acceptor c) (co_accepting c) (co_spawned c ++ [t]) (co_awaited c)).

#[export, program] Instance Co_Mutex : Mutex (Co U) := {|
  locked := co_mutex;
  set_locked := co_with_mutex
|}.
Solve Obligations with by intros; repeat match goal with x : Co U |- _ => destruct x end.

Definition co_on_registry {A} (m : stM PeerManager A) : stM (Co U) A :=
  zoom co_registry (λ pm c, co_with_captured (pm, co_client c) c) m.
Definition co_on_captured {A} (m : stM (PeerManager * U) A) : stM (Co U) A :=
  zoom (λ c, (co_registry c, co_client c)) co_with_captured m.

(** [co_await session->SendMessage(message)]: it swallows the errors of the socket, so that
    the caller goes on in any case. *)
Definition co_await_SendMessage (s : nat) (message : Message) : stM (Co U) unit := st_modify (λ c,
  mkCo (co_registry c) (co_client c) (co_messageHandler c) (co_connectionHandler c) (co_heap c)
    (co_sessions c) (co_mutex c) (co_running c) (co_acceptor c) (co_accepting c) (co_spawned c)
    (co_awaited c ++ [(s, Serialize message)])).

(** A session through a [shared_ptr], which keeps it alive. *)
Definition get_session (s : nat) c : session := default (mkSession false None "" false) (co_heap c !! s).
Definition put_session (s : nat) (f : session → session) : stM (Co U) unit :=
  st_modify (λ c, co_with_heap (alter f s (co_heap c)) c).

Definition co_call_connection (now : Clock) (peerId : string) (connected : bool) : stM (Co U) unit :=
  h ← st_gets co_connectionHandler;
  match h with Some h => co_on_captured (h now peerId connected) | None => mret tt end.

Definition HandleSessionHandshake (s : nat) (now : Clock) (msg : Message) : stM (Co U) unit :=
  ses ← st_gets (get_session s);
  if bool_decide (type_ msg = HANDSHAKE) && negb (HasPeerId ses) then
    match parse_handshake (payload_ msg) with
    | None => mret tt
    | Some (peerId, publicKey) =>
      put_session s (SetPeerId peerId);;
      lock_guard (st_modify (λ c, co_with_sessions (<[peerId := s]> (co_sessions c)) c));;
      st_catch
        (match remote_endpoint ses with
         | Some (address, port) =>
           co_on_registry (AddPeer (mkPeer peerId address (Some port) publicKey true (now 0%nat)))
         | None => mthrow (system_error "Transport endpoint is not connected")
         end)
        (catch_all (λ _, mret tt));;
      co_call_connection (later 1 now) peerId true;;
      if isOutgoing_ ses then mret tt
      else
        localPeer ← co_on_registry GetLocalPeer;
        co_spawn (SendTask s (Serialize
          (CreateHandshakeMessage (now 2%nat) (pi_id localPeer) (pi_publicKey localPeer))))
    end
  else mret tt.

Definition HandleSessionMessage (s : nat) (now : Clock) (msg : Message) : stM (Co U) unit :=
  HandleSessionHandshake s now msg;;
  ses ← st_gets (get_session s);
  h ← st_gets co_messageHandler;
  match h with
  | Some h => if HasPeerId ses then co_on_captured (h (later 3 now) (peerId_ ses) msg) else mret tt
  | None => mret tt
  end.

Definition handleError (s : nat) (now : Clock) : stM (Co U) unit :=
  ses ← st_gets (get_session s);
  (if HasPeerId ses then co_call_connection now (peerId_ ses) false else mret tt);;
  put_session s close_socket.

(** [Session::Start] on the bytes [stream] that its peer sends. *)
Definition Session_Start (s : nat) (clocks : Message → Clock) (now : Clock) (stream : list byte) : stM (Co U) unit :=
  st_catch
    (Session_Run (Datatypes.S (length stream)) (λ m, HandleSessionMessage s (clocks m) m) stream)
    (catch_all (λ _, handleError s now)).

(** A connection: a new session on the heap, not yet in the table. *)
Definition make_session (s : nat) (endpoint : option (string * Z)) (isOutgoing : bool) : stM (Co U) unit :=
  st_modify (λ c, co_with_heap (<[s := mkSession true endpoint "" isOutgoing]> (co_heap c)) c).

Definition set_accepting (k : nat) : stM (Co U) unit := st_modify (λ c,
  mkCo (co_registry c) (co_client c) (co_messageHandler c) (co_connectionHandler c) (co_heap c)
    (co_sessions c) (co_mutex c) (co_running c) (co_acceptor c) k (co_spawned c) (co_awaited c)).

(** [AcceptLoop] from its test to its suspension in [async_accept], or to its end. *)
Definition AcceptLoop : stM (Co U) unit :=
  go ← st_gets (λ c, co_running c && bool_decide (co_acceptor c = Some true));
  if go : bool then
    k ← st_gets co_accepting;
    set_accepting (S k)
  else mret tt.

(** The same from the completion of [async_accept] to the next suspension, or to its end:
    [accepted] is the endpoint of the connection, for the new object [s], or [None] when
    [async_accept] throws. The test is not repeated before the session is made. *)
Definition AcceptLoop_resumed (s : nat) (accepted : option (option (string * Z))) : stM (Co U) unit :=
  k ← st_gets co_accepting;
  match k with
  | O => mret tt
  | S k =>
    set_accepting k;;
    match accepted with
    | Some endpoint => make_session s endpoint false;; co_spawn (StartTask s)
    | None => mret tt
    end;;
    AcceptLoop
  end.

Definition Start (port : Z) (bind_error : option string) : stM (Co U) unit :=
  match bind_error with
  | Some what => mthrow (system_error what)
  | None =>
    st_modify (λ c, co_with_acceptor true (Some true) c);;
    co_spawn AcceptTask
  end.

Definition Stop `{UnorderedIter} : stM (Co U) unit :=
  st_modify (λ c, co_with_acceptor false (option_map (λ _, false) (co_acceptor c)) c);;
  lock_guard (
    sessions ← st_gets (λ c, iter (co_sessions c));
    st_for sessions (λ '(_, s), put_session s close_socket);;
    st_modify (co_with_sessions ∅)).

Definition ConnectToPeer (address : string) (port : Z) : stM (Co U) unit :=
  co_spawn (ConnectTask address port).

Definition SetMessageHandler (h : option (MessageHandler U)) : stM (Co U) unit :=
  st_modify (λ c, co_with_handlers h (co_connectionHandler c) c).
Definition SetConnectionHandler (h : option (ConnectionHandler U)) : stM (Co U) unit :=
  st_modify (λ c, co_with_handlers (co_messageHandler c) h c).

(** The coroutine it spawns, for the new object [s]: [connected] is the endpoint reached,
    [None] when resolving or connecting throws, and [stream] what the peer sends. *)
Definition ConnectToPeer_coroutine (s : nat) (clocks : Message → Clock) (now : Clock)
    (connected : option (option (string * Z))) (stream : list byte) : stM (Co U) unit :=
  match connected with
  | None => mret tt
  | Some endpoint =>
    make_session s endpoint true;;
    localPeer ← co_on_registry GetLocalPeer;
    co_await_SendMessage s (CreateHandshakeMessage (now 0%nat) (pi_id localPeer) (pi_publicKey localPeer));;
    st_catch (Session_Start s clocks (later 1 now) stream) (catch_all (λ _, mret tt))
  end.

Definition DisconnectPeer (now : Clock) (peerId : string) : stM (Co U) unit :=
  lock_guard (
    it ← st_gets (λ c, co_sessions c !! peerId);
    match it with
    | Some _ =>
      st_modify (λ c, co_with_sessions (delete peerId (co_sessions c)) c);;
      co_call_connection now peerId false
    | None => mret tt
    end).

Definition SendMessage (peerId : string) (message : Message) : stM (Co U) unit :=
  session ← lock_guard (st_gets (λ c, co_sessions c !! peerId));
  match session with
  | Some s => co_spawn (SendTask s (Serialize message))
  | None => mret tt
  end.

Definition BroadcastMessage `{UnorderedIter} (message : Message) : stM (Co U) unit :=
  sessions ← lock_guard (st_gets (λ c,
    foldl (λ sessions '(_, s), sessions ++ [s]) [] (iter (co_sessions c))));
  st_for sessions (λ s, co_spawn (SendTask s (Serialize message))).

Definition GetConnectedPeers `{UnorderedIter} : stM (Co U) (list string) :=
  lock_guard (st_gets (λ c,
    foldl (λ peers '(peerId, _), peers ++ [peerId]) [] (iter (co_sessions c)))).
End Coroutines.
