(* ===== verification/SessionFacts.v ===== *)
(** Theorems about the coroutine network manager: the framing of the byte stream, the
    end of a session's loop, and the identification of sessions. *)

From Stdlib Require Import Strings.Ascii.
From S2P Require Import Prelude CxxText Message PeerManager Network Handshake Session.

(** ** Framing *)

Lemma async_read_app (a b : list byte) n : n = length a → async_read n (a ++ b) = Ok (a, b).
Proof.
  intros ->. unfold async_read. rewrite (proj2 (Nat.leb_le _ _)) by (rewrite length_app; lia).
  by rewrite take_app_length, drop_app_length.
Qed.

Lemma async_read_short (l : list byte) n :
  (length l < n)%nat → async_read n l = Throw (system_error "End of file").
Proof. intros Hl. unfold async_read. by rewrite (proj2 (Nat.leb_gt _ _)). Qed.

(** A serialised message is its header followed by its payload. *)
Lemma Serialize_header m :
  ∃ h, Serialize m = h ++ payload_ m ∧ length h = header_size ∧
    read_payload_size h = u32 (Z.of_nat (length (payload_ m))).
Proof.
  rewrite Serialize_layout.
  exists (byte_of_Z (type_to_u8 (type_ m)) :: be_encode 4 (u32 (Z.of_nat (length (payload_ m))))
          ++ be_encode 8 (to_ms (timestamp_ m))).
  split_and!; [by cbn [app]; rewrite <- app_assoc|done|].
  set (n := Z.of_nat (length (payload_ m))). cbn [be_encode app]. rewrite read_payload_size_be.
  change [_; _; _; _] with (be_encode 4 (u32 n)). rewrite be_decode_encode.
  unfold u32. change (8 * Z.of_nat 4) with 32. by rewrite Zmod_mod.
Qed.

(** What the reader hands over for a message the peer serialised. *)
Definition delivered (m : Message) : Message :=
  mkMessage (type_ m) (payload_ m) (to_ms (timestamp_ m) * ns_per_ms).

(** What one iteration reads: a message and the rest of the stream. *)
Definition next_message (stream : list byte) : outcome (Message * list byte) :=
  '(h, stream) ← async_read header_size stream;
  if max_payload <? read_payload_size h then Throw (runtime_error "Message too large")
  else
    '(payload, stream) ← async_read (Z.to_nat (read_payload_size h)) stream;
    msg ← Deserialize (h ++ payload);
    Ok (msg, stream).

Lemma next_message_consumes stream msg rest :
  next_message stream = Ok (msg, rest) → (header_size + length rest <= length stream)%nat.
Proof.
  unfold next_message, async_read, header_size.
  destruct (Nat.leb_spec 13 (length stream)) as [Hl|]; [|done].
  cbn [mbind outcome_mbind outcome_bind]. destruct (max_payload <? _); [done|].
  destruct (_ <=? _)%nat; [|done]. cbn [mbind outcome_mbind outcome_bind].
  destruct (Deserialize _); intros [= _ <-]. rewrite !length_drop. lia.
Qed.

(** An iteration needs a whole header. *)
Lemma next_message_short stream :
  (length stream < header_size)%nat → next_message stream = Throw (system_error "End of file").
Proof. intros Hl. unfold next_message. by rewrite async_read_short. Qed.

(** The only undefined reading is a time stamp that overflows. *)
Lemma next_message_undefined stream u : next_message stream = Undefined u → u = SignedOverflow.
Proof.
  unfold next_message, async_read.
  destruct (Nat.leb_spec header_size (length stream)) as [Hl|]; [|done].
  cbn [mbind outcome_mbind outcome_bind].
  set (h := take header_size stream). set (rest := drop header_size stream).
  destruct (Z.ltb_spec max_payload (read_payload_size h)) as [|Hmax]; [done|].
  destruct (_ <=? _)%nat; [|done]. cbn [mbind outcome_mbind outcome_bind].
  destruct (Deserialize _) as [| |u1] eqn:Ed; [done..|]. intros [= <-].
  apply Deserialize_undefined_cases in Ed as [_ [[-> _]|(_ & _ & Hbig & _)]]; [done|].
  exfalso. revert Hbig. enough (read_payload_size (h ++ take (Z.to_nat (read_payload_size h)) rest)
    = read_payload_size h) as -> by (unfold max_payload in Hmax; lia).
  assert (length h = 13%nat) as Hh by (unfold h; rewrite length_take; unfold header_size in *; lia).
  do 5 (destruct h as [|? h]; [done|]). done.
Qed.

Section Framing.
Context {S : Type}.
Implicit Types (handler : Message → stM S unit) (stream : list byte).

Lemma Session_Run_step fuel handler stream s :
  Session_Run (Datatypes.S fuel) handler stream s =
    match next_message stream with
    | Ok (msg, rest) => st_bind (λ _, Session_Run fuel handler rest) (handler msg) s
    | Throw e => (Throw e, s)
    | Undefined u => (Undefined u, s)
    end.
Proof.
  cbn [Session_Run]. unfold next_message, st_lift, mthrow, stM_throw, st_throw.
  unfold mbind, stM_bind, outcome_mbind, st_bind at 1, outcome_bind at 1.
  destruct (async_read _ stream) as [[h r]| |]; [|done..]. cbv zeta. cbn match.
  destruct (max_payload <? _); [done|]. unfold st_bind at 1, outcome_bind at 1.
  destruct (async_read _ r) as [[p r']| |]; [|done..]. unfold st_bind at 1, outcome_bind at 1.
  by destruct (Deserialize _).
Qed.

(** One message at the head of the stream. *)
Lemma next_message_Serialize m stream :
  Message_wf m = true → Z.of_nat (length (payload_ m)) <= max_payload →
  next_message (Serialize m ++ stream) = Ok (delivered m, stream).
Proof.
  intros Hwf Hlen. destruct (Serialize_header m) as (h & E & Hh & Hsize).
  assert (u32 (Z.of_nat (length (payload_ m))) = Z.of_nat (length (payload_ m))) as Hu.
  { unfold u32. apply Z.mod_small. unfold max_payload in Hlen. lia. }
  rewrite Hu in Hsize. unfold next_message. rewrite E, <- app_assoc, async_read_app by done.
  cbn [mbind outcome_mbind outcome_bind]. rewrite Hsize, (proj2 (Z.ltb_ge _ _)) by done.
  rewrite Nat2Z.id, async_read_app by done. cbn [mbind outcome_mbind outcome_bind].
  rewrite <- E, <- (app_nil_r (Serialize m)), decode_encode; [done|done|].
  unfold max_payload in Hlen. lia.
Qed.

(** The loop never returns: it throws or is undefined, as soon as the fuel exceeds the
    number of headers the stream has room for, and more fuel changes nothing. *)
Lemma Session_Run_fuel handler fuel fuel' stream s :
  (length stream < header_size * fuel)%nat → (length stream < header_size * fuel')%nat →
  Session_Run fuel handler stream s = Session_Run fuel' handler stream s ∧
  ∀ s', Session_Run fuel handler stream s ≠ (Ok tt, s').
Proof.
  revert fuel' stream s. induction fuel as [|fuel IH]; intros fuel' stream s Hf Hf'; [lia|].
  destruct fuel' as [|fuel']; [lia|]. rewrite !Session_Run_step.
  destruct (next_message stream) as [[msg rest]| |] eqn:En; [|done..].
  apply next_message_consumes in En.
  unfold st_bind. destruct (handler msg s) as [[[]| |] s1]; [|done..]. apply IH; lia.
Qed.
End Framing.

Lemma Session_Run_delivers {S} (handler : Message → stM S unit) ms rest fuel s :
  Forall (λ m, Message_wf m = true ∧ Z.of_nat (length (payload_ m)) <= max_payload) ms →
  (length rest < header_size)%nat →
  (length (concat (map Serialize ms) ++ rest) < fuel)%nat →
  Session_Run fuel handler (concat (map Serialize ms) ++ rest) s =
    st_bind (λ _, st_throw (system_error "End of file"))
      (st_for (map delivered ms) handler) s.
Proof.
  intros Hms Hrest. revert fuel s. induction Hms as [|m ms [Hwf Hlen] _ IH]; intros fuel s Hfuel.
  - destruct fuel as [|fuel]; [lia|]. cbn [map concat app st_for].
    rewrite Session_Run_step. by rewrite next_message_short.
  - destruct fuel as [|fuel]; [lia|]. cbn [map concat]. cbn [map concat] in Hfuel.
    rewrite <- app_assoc in *. rewrite Session_Run_step, next_message_Serialize by done.
    rewrite length_app in Hfuel. rewrite Serialize_length in Hfuel.
    cbn [st_for]. unfold st_bind at 1 2 3. destruct (handler (delivered m) s) as [[[]| |] s1]; [|done..].
    by rewrite IH by lia.
Qed.

(** Framing. A peer that sends well-formed messages of at most 10 MB, one after the
    other, followed by fewer bytes than a header and the end of the stream: the
    session hands each message to its handler, once and in order, with the time
    stamp cut to milliseconds, and then ends with the end-of-file exception. *)
Theorem Session_Run_frames {S} (handler : Message → stM S unit) ms rest fuel s :
  Forall (λ m, Message_wf m = true ∧ Z.of_nat (length (payload_ m)) <= max_payload) ms →
  (length rest < header_size)%nat →
  (length (concat (map Serialize ms) ++ rest) < fuel)%nat →
  Session_Run fuel handler (concat (map Serialize ms) ++ rest) s =
    st_bind (λ _, st_throw (system_error "End of file"))
      (st_for (map delivered ms) handler) s.
Proof. apply Session_Run_delivers. Qed.

Lemma Session_Run_frames_witness :
  Session_Run 200 (λ m, st_modify (λ l, l ++ [payload_ m]))
    (concat (map Serialize [mkMessage TEXT [Byte.x68; Byte.x69] 5; mkMessage PING [] 7]) ++ [Byte.x00]) []
  = (Throw (system_error "End of file"), [[Byte.x68; Byte.x69]; []]).
Proof.
  rewrite (Session_Run_frames (λ m, st_modify (λ l, l ++ [payload_ m]))
    [mkMessage TEXT [Byte.x68; Byte.x69] 5; mkMessage PING [] 7] [Byte.x00] 200 []).
  - reflexivity.
  - repeat constructor; done.
  - cbn. unfold header_size. lia.
  - vm_compute. lia.
Defined.

(** C35. Termination and bounds. On every stream the loop of [Run] ends, with an
    exception or undefined behaviour, within one iteration per 13 bytes and one more,
    and its result does not depend on the fuel beyond that; the buffer it hands to
    [Deserialize] is always as long as the header says, so that no byte past it is
    read: unless the handler itself is undefined, only a time stamp that overflows is. *)
Theorem Session_Run_ends {S} (handler : Message → stM S unit) stream fuel s :
  (length stream / 13 < fuel)%nat →
  (∀ s', Session_Run fuel handler stream s ≠ (Ok tt, s')) ∧
  Session_Run fuel handler stream s = Session_Run (Datatypes.S (length stream / 13)) handler stream s ∧
  ((∀ m s, is_Undefined (handler m s).1 = false) →
   ∀ u s', Session_Run fuel handler stream s = (Undefined u, s') → u = SignedOverflow).
Proof.
  intros Hf.
  assert (∀ k, (length stream / 13 < k)%nat → (length stream < header_size * k)%nat) as Hk.
  { intros k Hk. unfold header_size. pose proof (Nat.div_mod_eq (length stream) 13).
    pose proof (Nat.mod_upper_bound (length stream) 13). lia. }
  split_and!.
  - apply (Session_Run_fuel handler fuel fuel stream s (Hk _ Hf) (Hk _ Hf)).
  - apply Session_Run_fuel; apply Hk; [done|lia].
  - intros Hh u s'. clear Hf Hk. revert stream s. induction fuel as [|fuel IH]; intros stream s; [done|].
    rewrite Session_Run_step.
    destruct (next_message stream) as [[msg rest]|e|u1] eqn:En; [|done|].
    + unfold st_bind. specialize (Hh msg s). destruct (handler msg s) as [[[]| |] s1]; [apply IH|done..].
    + intros [= <- _]. by eapply next_message_undefined.
Qed.

Lemma Session_Run_ends_witness :
  (Session_Run 2 (λ _, st_ret tt) (replicate 14 Byte.xff) tt).1 ≠ Ok tt.
Proof.
  intros E. destruct (Session_Run_ends (λ _, st_ret tt) (replicate 14 Byte.xff) 2 tt) as [H _].
  - vm_compute. lia.
  - apply (H tt). apply injective_projections; [exact E|by destruct (Session_Run _ _ _ _) as [? []]].
Defined.

(** ** Identification *)

Section Identification.
Context {U : Type} {hm : option (MessageHandler U)} {hc : option (ConnectionHandler U)}.
Context `{!Client hm hc}.
Implicit Types c : Co U.

Definition co_free c : Prop := co_mutex c = false ∧ mutex_ (co_registry c) = false.
Definition co_attached c : Prop := co_messageHandler c = hm ∧ co_connectionHandler c = hc.

Lemma co_call_connection_run now id b c :
  co_attached c → mutex_ (co_registry c) = false →
  co_call_connection now id b c =
    (Ok tt, co_with_captured (on_connection now id b (co_registry c, co_client c)) c).
Proof.
  intros [_ Hc] Hm. pose proof (on_connection_runs now id b (co_registry c, co_client c) Hm) as E.
  unfold co_call_connection. st_simpl. rewrite Hc. destruct hc as [h|]; cbn in *.
  - unfold co_on_captured, zoom. by rewrite E.
  - injection E as E. unfold mret, stM_ret, st_ret. rewrite <- E. by destruct c.
Qed.

Lemma co_forward_run now id msg c :
  co_attached c → mutex_ (co_registry c) = false →
  match co_messageHandler c with Some h => co_on_captured (h now id msg) c | None => (Ok tt, c) end
  = (Ok tt, co_with_captured (on_message now id msg (co_registry c, co_client c)) c).
Proof.
  intros [Hh _] Hm. pose proof (on_message_runs now id msg (co_registry c, co_client c) Hm) as E.
  rewrite Hh. destruct hm as [h|]; cbn in *.
  - unfold co_on_captured, zoom. by rewrite E.
  - injection E as E. rewrite <- E. by destruct c.
Qed.

(** The table entry of a session, made under the lock. *)
Definition filed (s : nat) (id : string) (ses : session) c : Co U :=
  co_with_sessions (<[id := s]> (co_sessions c)) (co_with_heap (<[s := SetPeerId id ses]> (co_heap c)) c).

Definition registered (now : Clock) (id : string) (key : list byte) (ses : session) c : Co U :=
  match remote_endpoint ses with
  | Some (address, port) =>
    co_with_captured
      (set_peers (<[id := mkPeer id address (Some port) key true (now 0%nat)]> (peers_ (co_registry c)))
         (co_registry c), co_client c) c
  | None => c
  end.

Lemma HandleSessionHandshake_run s now msg id key ses c :
  co_attached c → co_free c → co_heap c !! s = Some ses → peerId_ ses = "" →
  type_ msg = HANDSHAKE → parse_handshake (payload_ msg) = Some (id, key) →
  let c1 := registered now id key ses (filed s id ses c) in
  let c2 := co_with_captured (on_connection (later 1 now) id true (co_registry c1, co_client c1)) c1 in
  let me := localPeer_ (co_registry c) in
  HandleSessionHandshake s now msg c =
    if isOutgoing_ ses then (Ok tt, c2)
    else co_spawn (SendTask s (Serialize
           (CreateHandshakeMessage (now 2%nat) (pi_id me) (pi_publicKey me)))) c2.
Proof.
  intros Ha [Hf Hm] Hs He Ht Hp c1 c2 me. unfold HandleSessionHandshake, mbind, stM_bind.
  erewrite st_bind_Ok by reflexivity.
  assert (get_session s c = ses) as -> by (unfold get_session; by rewrite Hs).
  rewrite bool_decide_eq_true_2 by done. unfold HasPeerId. rewrite bool_decide_eq_true_2 by done.
  cbn [negb andb]. rewrite Hp.
  erewrite st_bind_Ok by reflexivity.
  assert (alter (SetPeerId id) s (co_heap c) = <[s := SetPeerId id ses]> (co_heap c)) as Halter.
  { apply map_eq. intros i. rewrite lookup_alter, lookup_insert. case_decide; by simplify_map_eq. }
  rewrite Halter. erewrite st_bind_Ok; [|eapply lock_guard_run; [done|reflexivity|done]].
  match goal with |- st_bind _ _ ?s0 = _ => replace s0 with (filed s id ses c) end.
  2: { unfold filed. destruct c; cbn in *. by subst. }
  erewrite (st_bind_Ok _ _ _ _ c1).
  2: { unfold st_catch, c1, registered. destruct (remote_endpoint ses) as [[address port]|]; [|done].
       unfold co_on_registry, zoom. by rewrite AddPeer_run. }
  assert (co_attached c1 ∧ mutex_ (co_registry c1) = false ∧ localPeer_ (co_registry c1) = me)
    as (Ha1 & Hm1 & Hl1) by (unfold c1, registered; by destruct (remote_endpoint ses) as [[??]|]).
  erewrite st_bind_Ok by (by apply co_call_connection_run). fold c2.
  destruct (isOutgoing_ ses); [done|].
  pose proof (on_connection_registry (later 1 now) id true (co_registry c1, co_client c1))
    as [_ Hl]%status_updated_keeps.
  erewrite (st_bind_Ok _ _ _ me c2); [reflexivity|].
  unfold co_on_registry, zoom, GetLocalPeer, st_gets. cbn [co_registry co_with_captured c2].
  cbn [fst] in Hl. rewrite Hl, Hl1. by destruct (on_connection _ _ _ _).
Qed.

Lemma HandleSessionHandshake_identified s now msg ses c :
  co_heap c !! s = Some ses → peerId_ ses ≠ "" → HandleSessionHandshake s now msg c = (Ok tt, c).
Proof.
  intros Hs He. unfold HandleSessionHandshake. st_simpl. unfold get_session. rewrite Hs. cbn.
  unfold HasPeerId. rewrite (bool_decide_eq_false_2 _ He). cbn. by rewrite andb_false_r.
Qed.

(** Forwarding leaves the sessions, the tasks and the registry alone. *)
Lemma HandleSessionMessage_forwards s now msg c c1 :
  HandleSessionHandshake s now msg c = (Ok tt, c1) →
  co_attached c1 → mutex_ (co_registry c1) = false →
  ∃ c', HandleSessionMessage s now msg c = (Ok tt, c') ∧ co_heap c' = co_heap c1 ∧
    co_sessions c' = co_sessions c1 ∧ co_mutex c' = co_mutex c1 ∧ co_registry c' = co_registry c1 ∧
    co_spawned c' = co_spawned c1.
Proof.
  intros E Ha Hm. unfold HandleSessionMessage, mbind, stM_bind. erewrite st_bind_Ok by exact E.
  do 2 erewrite st_bind_Ok by reflexivity.
  pose proof (co_forward_run (later 3 now) (peerId_ (get_session s c1)) msg c1 Ha Hm) as Ef.
  destruct (co_messageHandler c1); [|by exists c1].
  destruct (HasPeerId _); [|by exists c1]. rewrite Ef. eexists. split; [reflexivity|].
  cbn. rewrite on_message_registry. by split_and!.
Qed.

Lemma SendMessage_filed id s m c :
  co_mutex c = false → co_sessions c !! id = Some s →
  SendMessage id m c = co_spawn (SendTask s (Serialize m)) c.
Proof.
  intros Hf Hs. unfold SendMessage, mbind, stM_bind.
  erewrite st_bind_Ok by (eapply lock_guard_run; [exact Hf|reflexivity|done]).
  cbn [co_sessions set_locked Co_Mutex co_with_mutex]. rewrite Hs.
  f_equal. destruct c; cbn in *; by subst.
Qed.
End Identification.

(** Identification. The first handshake on a session names it: the session carries
    the announced id, the table maps the id to it, the registry has the peer with
    the remote endpoint and the key, an incoming session (and only such) is
    answered, and from then on a message sent to that id goes to that session.
    Once a session has an id, no message changes the sessions or the table. *)
Theorem session_identified {U hm hc} `{!@Client U hm hc} s now msg id key ses (c : Co U) :
  co_messageHandler c = hm → co_connectionHandler c = hc →
  co_mutex c = false → mutex_ (co_registry c) = false →
  co_heap c !! s = Some ses → type_ msg = HANDSHAKE → parse_handshake (payload_ msg) = Some (id, key) →
  let answer := Serialize (CreateHandshakeMessage (now 2%nat) (pi_id (localPeer_ (co_registry c)))
                  (pi_publicKey (localPeer_ (co_registry c)))) in
  ∃ c', HandleSessionMessage s now msg c = (Ok tt, c') ∧
    (peerId_ ses = "" →
       co_heap c' = <[s := SetPeerId id ses]> (co_heap c) ∧
       co_sessions c' = <[id := s]> (co_sessions c) ∧
       co_spawned c' = co_spawned c ++ (if isOutgoing_ ses then [] else [SendTask s answer]) ∧
       (∀ address port, remote_endpoint ses = Some (address, port) →
          ∃ seen, peers_ (co_registry c') !! id = Some (mkPeer id address (Some port) key true seen)) ∧
       (∀ m, SendMessage id m c' = co_spawn (SendTask s (Serialize m)) c')) ∧
    (peerId_ ses ≠ "" → co_heap c' = co_heap c ∧ co_sessions c' = co_sessions c ∧
       co_spawned c' = co_spawned c).
Proof.
  intros H1 H2 Hf Hm Hs Ht Hp answer.
  destruct (decide (peerId_ ses = "")) as [He|He].
  - pose proof (HandleSessionHandshake_run s now msg id key ses c (conj H1 H2) (conj Hf Hm) Hs He Ht Hp) as E.
    cbn zeta in E. fold answer in E.
    set (c1 := registered now id key ses (filed s id ses c)) in *.
    set (told := on_connection (later 1 now) id true (co_registry c1, co_client c1)) in *.
    pose proof (on_connection_registry (later 1 now) id true (co_registry c1, co_client c1)) as Hst.
    fold told in Hst. cbn [fst] in Hst. pose proof (status_updated_keeps _ _ _ _ Hst) as [Hm2 _].
    assert (mutex_ (co_registry c1) = false ∧ co_mutex c1 = false ∧ co_messageHandler c1 = hm ∧
      co_connectionHandler c1 = hc ∧ co_heap c1 = <[s := SetPeerId id ses]> (co_heap c) ∧
      co_sessions c1 = <[id := s]> (co_sessions c) ∧ co_spawned c1 = co_spawned c)
      as (Hm1 & Hf1 & Hh1 & Hc1 & Hheap & Htab & Hsp).
    { unfold c1, registered. by destruct (remote_endpoint ses) as [[??]|]. }
    assert (∃ c3, HandleSessionHandshake s now msg c = (Ok tt, c3) ∧ co_heap c3 = co_heap c1 ∧
      co_sessions c3 = co_sessions c1 ∧ co_mutex c3 = false ∧ co_registry c3 = told.1 ∧
      co_messageHandler c3 = hm ∧ co_connectionHandler c3 = hc ∧
      co_spawned c3 = co_spawned c ++ (if isOutgoing_ ses then [] else [SendTask s answer])) as
      (c3 & E3 & Hheap3 & Htab3 & Hf3 & Hreg3 & Hh3 & Hc3 & Hsp3).
    { rewrite E. destruct (isOutgoing_ ses); eexists; (split; [reflexivity|]); cbn;
        rewrite Hsp, ?app_nil_r; by split_and!. }
    assert (mutex_ (co_registry c3) = false) as Hm3 by (by rewrite Hreg3, Hm2).
    destruct (HandleSessionMessage_forwards s now msg c c3 E3 (conj Hh3 Hc3) Hm3)
      as (c' & E' & Hheap' & Htab' & Hf' & Hreg' & Hsp').
    exists c'. split; [done|]. split; [|done]. intros _. rewrite Hheap', Htab', Hsp', Hheap3, Htab3.
    split_and!; [done..| |].
    + intros address port Hep. rewrite Hreg', Hreg3.
      assert (peers_ (co_registry c1) !! id = Some (mkPeer id address (Some port) key true (now 0%nat))) as Hin.
      { unfold c1, registered. rewrite Hep. cbn. by rewrite lookup_insert_eq. }
      destruct (status_updated_lookup _ _ _ _ id Hst) as [->|(t & _ & ->)]; rewrite Hin; by eexists.
    + intros m. apply SendMessage_filed; [by rewrite Hf'|].
      by rewrite Htab', Htab3, Htab, lookup_insert_eq.
  - pose proof (HandleSessionHandshake_identified s now msg ses c Hs He) as E.
    destruct (HandleSessionMessage_forwards s now msg c c E (conj H1 H2) Hm)
      as (c' & E' & ? & ? & _ & _ & ?). by exists c'.
Qed.

Definition test_session : Co unit :=
  mkCo (mkPM false ∅ (mkPeer "me" "0.0.0.0" (Some 9090) [Byte.x01] true 0)) tt None None
    {[ 0%nat := mkSession true (Some ("10.0.0.2", 51000)) "" false ]} ∅ false true (Some true) 1 [] [].

Lemma session_identified_witness :
  ∃ c', HandleSessionMessage 0 (λ _, 7) (CreateHandshakeMessage 5 "bob" [Byte.x02]) test_session = (Ok tt, c').
Proof.
  destruct (session_identified (hm := None) (hc := None) 0 (λ _, 7)
    (CreateHandshakeMessage 5 "bob" [Byte.x02]) "bob" [Byte.x02]
    (mkSession true (Some ("10.0.0.2", 51000)) "" false) test_session)
    as (c' & E & _); [reflexivity..|by exists c'].
Defined.
