(* ===== verification/SessionLife.v ===== *)
(** The life of the coroutine network manager: what its public calls and its sessions
    keep in every reachable state, a session from its first byte to its end, and the
    coroutines that write to a session's socket. *)

From Stdlib Require Import Strings.Ascii.
From S2P Require Import Prelude CxxText Message PeerManager Network Handshake Session SessionFacts.

(** ** Writing

    [Session::SendMessage] is a coroutine that hands one serialised message to
    [async_write]; every caller of [NetworkManager::SendMessage] spawns one of its own.
    [async_write] is a composed operation: it calls the socket's [async_write_some] with
    what is left of its buffer until nothing is. Which sizes a call may transfer is a
    parameter, [async_write_some]. A coroutine that fails, and swallows the error, is
    one that makes no further step. *)
Record socket_out := mkOut {
  writers : list (list byte);   (** what each coroutine still has to write *)
  written : list byte
}.

Definition Session_SendMessage (m : Message) (o : socket_out) : socket_out :=
  mkOut (writers o ++ [Serialize m]) (written o).

Definition idle_out (o : socket_out) : Prop := Forall (λ w, w = []) (writers o).

Section Writing.
(** A call with this buffer may transfer so many bytes. *)
Variable async_write_some : list byte → nat → Prop.

(** One of them transfers some bytes. *)
Inductive write_step (o : socket_out) : socket_out → Prop :=
  | writes_some i data n :
      writers o !! i = Some data → data ≠ [] → async_write_some data n →
      write_step o (mkOut (<[i := drop n data]> (writers o)) (written o ++ take n data)).

(** Messages sent one after the other, each when the previous one is written. *)
Inductive sends_in_turn : list Message → socket_out → socket_out → Prop :=
  | turn_over o : sends_in_turn [] o o
  | turn_next m ms o o1 o2 :
      rtc write_step (Session_SendMessage m o) o1 → idle_out o1 → sends_in_turn ms o1 o2 →
      sends_in_turn (m :: ms) o o2.
End Writing.

(** ** The transitions of the manager *)

(** A completed call, or a completed turn of a coroutine. *)
Inductive co_call (U : Type) :=
  | CoStart (port : Z) (bind_error : option string)
  | CoStop (it : UnorderedIter)
  | CoConnect (address : string) (port : Z)
  | CoDisconnect (now : Clock) (peerId : string)
  | CoSend (peerId : string) (message : Message)
  | CoBroadcast (it : UnorderedIter) (message : Message)
  | CoGetConnected (it : UnorderedIter)
  | CoSetMessageHandler (h : option (MessageHandler U))
  | CoSetConnectionHandler (h : option (ConnectionHandler U))
  | CoAcceptLoop
  | CoAccepted (s : nat) (accepted : option (option (string * Z)))
  | CoSession (s : nat) (clocks : Message → Clock) (now : Clock) (stream : list byte)
  | CoMessage (s : nat) (now : Clock) (msg : Message)
  | CoError (s : nat) (now : Clock)
  | CoConnected (s : nat) (clocks : Message → Clock) (now : Clock)
      (connected : option (option (string * Z))) (stream : list byte).
Arguments CoStart {_}. Arguments CoStop {_}. Arguments CoConnect {_}. Arguments CoDisconnect {_}.
Arguments CoSend {_}. Arguments CoBroadcast {_}. Arguments CoGetConnected {_}.
Arguments CoSetMessageHandler {_}. Arguments CoSetConnectionHandler {_}. Arguments CoAcceptLoop {_}. Arguments CoAccepted {_}.
Arguments CoSession {_}. Arguments CoMessage {_}. Arguments CoError {_}. Arguments CoConnected {_}.

Definition run_co {U} (x : co_call U) : stM (Co U) unit :=
  match x with
  | CoStart port e => Start port e
  | CoStop it => Stop
  | CoConnect address port => ConnectToPeer address port
  | CoDisconnect now peerId => DisconnectPeer now peerId
  | CoSend peerId message => SendMessage peerId message
  | CoBroadcast it message => BroadcastMessage message
  | CoGetConnected it => _ ← GetConnectedPeers; mret tt
  | CoSetMessageHandler h => SetMessageHandler h
  | CoSetConnectionHandler h => SetConnectionHandler h
  | CoAcceptLoop => AcceptLoop
  | CoAccepted s accepted => AcceptLoop_resumed s accepted
  | CoSession s clocks now stream => Session_Start s clocks now stream
  | CoMessage s now msg => HandleSessionMessage s now msg
  | CoError s now => handleError s now
  | CoConnected s clocks now connected stream => ConnectToPeer_coroutine s clocks now connected stream
  end.

(** The object a call makes, and the one it works on. *)
Definition makes {U} (x : co_call U) : option nat :=
  match x with CoAccepted s _ | CoConnected s _ _ _ _ => Some s | _ => None end.
Definition uses {U} (x : co_call U) : option nat :=
  match x with CoSession s _ _ _ | CoMessage s _ _ | CoError s _ => Some s | _ => None end.

(** A new object is at an address not in use; a coroutine works on an object it holds. *)
Inductive co_step {U} (c : Co U) : Co U → Prop :=
  | co_step_call x :
      (∀ s, makes x = Some s → co_heap c !! s = None) →
      (∀ s, uses x = Some s → is_Some (co_heap c !! s)) →
      is_Undefined (run_co x c).1 = false → co_step c (run_co x c).2
  | co_step_world pm u : co_step c (co_with_captured (pm, u) c).

Definition Co_new {U} (pm : PeerManager) (u : U) : Co U :=
  mkCo pm u None None ∅ ∅ false false None 0 [] [].

(** Between calls: the mutex is free, and the session filed under an id is an object
    that carries this id. *)
Record co_inv {U} (c : Co U) : Prop := {
  ci_free : co_mutex c = false;
  ci_table : map_Forall (λ id s, ∃ ses, co_heap c !! s = Some ses ∧ (id ≠ "" → peerId_ ses = id)) (co_sessions c)
}.

(** * Lemmas *)

Section Invariant.
Context {U : Type}.
Implicit Types c : Co U.

(** [m] keeps [P] unless it is undefined. *)
Definition keeps (P : Co U → Prop) {A} (m : stM (Co U) A) : Prop :=
  ∀ c, P c → is_Undefined (m c).1 = false → P (m c).2.

Lemma keeps_ret P {A} (a : A) : keeps P (st_ret a).
Proof. by intros c. Qed.
Lemma keeps_mret P {A} (a : A) : keeps P (mret a).
Proof. by intros c. Qed.
Lemma keeps_throw P {A} (e : exn) : keeps P (mthrow e : stM (Co U) A).
Proof. by intros c. Qed.
Lemma keeps_gets P {A} (f : Co U → A) : keeps P (st_gets f).
Proof. by intros c. Qed.
Lemma keeps_lift P {A} (r : outcome A) : keeps P (st_lift r).
Proof. by intros c. Qed.
Lemma keeps_modify P f : (∀ c, P c → P (f c)) → keeps P (st_modify f).
Proof. intros Hf c Hc _. by apply Hf. Qed.

Lemma keeps_bind P {A B} (f : A → stM (Co U) B) m :
  keeps P m → (∀ a, keeps P (f a)) → keeps P (st_bind f m).
Proof.
  intros Hm Hf c Hc. unfold st_bind. specialize (Hm c Hc).
  destruct (m c) as [[a|e|u] c1]; cbn in *; [apply Hf; by apply Hm|by intros; apply Hm|done].
Qed.

Lemma keeps_catch P {A} (m : stM (Co U) A) h :
  keeps P m → (∀ e, keeps P (h e)) → keeps P (st_catch m (catch_all h)).
Proof.
  intros Hm Hh c Hc. unfold st_catch. specialize (Hm c Hc).
  destruct (m c) as [[a|e|u] c1]; cbn in *; [by intros; apply Hm|apply Hh; by apply Hm|done].
Qed.

Lemma keeps_for P {X} (xs : list X) f : (∀ x, keeps P (f x)) → keeps P (st_for xs f).
Proof. intros Hf. induction xs as [|x xs IH]; [apply keeps_ret|]. by apply keeps_bind. Qed.

(** Under the lock only the table matters. *)
Definition tabled c : Prop :=
  map_Forall (λ id s, ∃ ses, co_heap c !! s = Some ses ∧ (id ≠ "" → peerId_ ses = id)) (co_sessions c).

Lemma keeps_lock {A} (m : stM (Co U) A) : keeps tabled m → keeps co_inv (lock_guard m).
Proof.
  intros Hm c [Hf Ht]. unfold lock_guard. cbn [locked Co_Mutex]. rewrite Hf.
  specialize (Hm (set_locked true c) Ht).
  destruct (m (set_locked true c)) as [[a|e|u] c1]; cbn in *; [..|done]; intros _;
    (split; [done|]); intros id s Hs; by apply Hm.
Qed.

(** Code that only reaches the registry, the client and the list of tasks. *)
Definition apart {A} (m : stM (Co U) A) : Prop := ∀ c,
  co_heap (m c).2 = co_heap c ∧ co_sessions (m c).2 = co_sessions c ∧ co_mutex (m c).2 = co_mutex c.

Lemma apart_inv {A} (m : stM (Co U) A) : apart m → keeps co_inv m.
Proof.
  intros Hm c [Hf Ht] _. destruct (Hm c) as (E1 & E2 & E3).
  split; [by rewrite E3|by rewrite E1, E2].
Qed.
Lemma apart_tabled {A} (m : stM (Co U) A) : apart m → keeps tabled m.
Proof. intros Hm c Ht _. destruct (Hm c) as (E1 & E2 & E3). unfold tabled. by rewrite E1, E2. Qed.

Lemma apart_captured {A} (m : stM (PeerManager * U) A) : apart (co_on_captured m).
Proof. intros c. unfold co_on_captured, zoom. by destruct (m _). Qed.
Lemma apart_registry {A} (m : stM PeerManager A) : apart (co_on_registry m).
Proof. intros c. unfold co_on_registry, zoom. by destruct (m _). Qed.
Lemma apart_spawn t : apart (@co_spawn U t).
Proof. by intros c. Qed.
Lemma apart_await s m : apart (@co_await_SendMessage U s m).
Proof. by intros c. Qed.
Lemma apart_connection now id b : apart (@co_call_connection U now id b).
Proof. intros c. unfold co_call_connection. st_simpl. destruct (co_connectionHandler c); [apply apart_captured|done]. Qed.

(** A coroutine holds the object it works on. *)
Definition holding (s : nat) c : Prop := co_inv c ∧ is_Some (co_heap c !! s).

Lemma apart_holding s {A} (m : stM (Co U) A) : apart m → keeps (holding s) m.
Proof.
  intros Hm c [Hi Hs] Hu. split; [by apply apart_inv|]. destruct (Hm c) as (-> & _). done.
Qed.

Lemma close_keeps_tabled s : keeps tabled (put_session s close_socket).
Proof.
  apply keeps_modify. intros c Ht id i Hi. destruct (Ht id i Hi) as (ses & Hs & Hid). cbn.
  destruct (decide (s = i)) as [->|Hne].
  - exists (close_socket ses). by rewrite lookup_alter_eq, Hs.
  - exists ses. by rewrite lookup_alter_ne.
Qed.

Lemma close_keeps_holding s : keeps (holding s) (put_session s close_socket).
Proof.
  intros c [[Hf Ht] Hs] Hu. pose proof (close_keeps_tabled s c Ht eq_refl). split; [by split|].
  cbn. rewrite lookup_alter, decide_True by done. by apply fmap_is_Some.
Qed.
End Invariant.

Create HintDb coroutine.
#[export] Hint Resolve apart_captured apart_registry apart_spawn apart_await apart_connection apart_inv
  apart_tabled apart_holding keeps_ret keeps_mret keeps_throw keeps_gets keeps_lift close_keeps_tabled close_keeps_holding : coroutine.
Ltac keep := repeat first
  [ apply keeps_bind; [|intros] | apply keeps_catch; [|intros] | progress auto with coroutine | case_match ].

Section Calls.
Context {U : Type}.
Implicit Types c : Co U.

(** Naming a session that has no id: no entry of the table loses its session. *)
Lemma naming_keeps s id ses c :
  co_inv c → co_heap c !! s = Some ses → peerId_ ses = "" →
  co_inv (co_with_sessions (<[id := s]> (co_sessions c)) (co_with_heap (alter (SetPeerId id) s (co_heap c)) c)).
Proof.
  intros [Hf Ht] Hs He. split; [done|]. cbn. apply map_Forall_insert_2.
  - exists (SetPeerId id ses). rewrite lookup_alter, decide_True, Hs by done. done.
  - intros i s' Hi. destruct (Ht i s' Hi) as (ses' & Hs' & Hid).
    destruct (decide (s = s')) as [<-|Hne].
    + exists (SetPeerId id ses). rewrite lookup_alter_eq, Hs. split; [done|]. intros Hne.
      simplify_eq. by rewrite Hid in He.
    + exists ses'. by rewrite lookup_alter_ne.
Qed.

Lemma HandleSessionHandshake_keeps s now msg : keeps (holding s) (@HandleSessionHandshake U s now msg).
Proof.
  intros c Hh. pose proof Hh as [Hi [ses Hs]]. unfold HandleSessionHandshake, mbind, stM_bind.
  erewrite st_bind_Ok by reflexivity.
  assert (get_session s c = ses) as -> by (unfold get_session; by rewrite Hs).
  destruct (bool_decide (type_ msg = HANDSHAKE) && negb (HasPeerId ses)) eqn:Hgo; [|done].
  destruct (parse_handshake (payload_ msg)) as [[id key]|]; [|done].
  apply andb_true_iff in Hgo as [_ Hid]. unfold HasPeerId in Hid. rewrite negb_involutive in Hid.
  apply bool_decide_eq_true in Hid.
  erewrite st_bind_Ok by reflexivity.
  erewrite st_bind_Ok; [|eapply lock_guard_run; [apply Hi|reflexivity|done]].
  match goal with |- is_Undefined (?m ?c1).1 = _ → _ =>
    assert (holding s c1) as H1; [|assert (keeps (holding s) m) as Hm; [|by apply Hm]] end.
  - split.
    + pose proof (naming_keeps s id ses c Hi Hs Hid) as [Hf' Ht']. by split.
    + cbn. rewrite lookup_alter, decide_True by done. by rewrite Hs.
  - keep.
Qed.

Lemma HandleSessionMessage_keeps s now msg : keeps (holding s) (@HandleSessionMessage U s now msg).
Proof.
  apply keeps_bind; [apply HandleSessionHandshake_keeps|]. intros _. keep.
Qed.

Lemma handleError_keeps s now : keeps (holding s) (@handleError U s now).
Proof. unfold handleError. keep. Qed.

Lemma Session_Run_keeps s fuel clocks stream :
  keeps (holding s) (@Session_Run (Co U) fuel (λ m, HandleSessionMessage s (clocks m) m) stream).
Proof.
  revert stream. induction fuel as [|fuel IH]; intros stream c Hc; [done|].
  rewrite Session_Run_step. destruct (next_message stream) as [[msg rest]| |]; [|done..].
  revert c Hc. change (keeps (holding s) (st_bind (λ _, Session_Run fuel (λ m, @HandleSessionMessage U s (clocks m) m) rest)
    (HandleSessionMessage s (clocks msg) msg))).
  apply keeps_bind; [apply HandleSessionMessage_keeps|intros _; apply IH].
Qed.

Lemma Session_Start_keeps s clocks now stream : keeps (holding s) (@Session_Start U s clocks now stream).
Proof.
  apply keeps_catch; [apply Session_Run_keeps|]. intros _. apply handleError_keeps.
Qed.

Lemma make_session_holding s ep out c :
  co_inv c → co_heap c !! s = None →
  holding s (co_with_heap (<[s := mkSession true ep "" out]> (co_heap c)) c).
Proof.
  intros [Hf Ht] Hs. split; [split; [done|]|cbn; by rewrite lookup_insert_eq].
  intros id i Hi. destruct (Ht id i Hi) as (ses & Hses & Hid). cbn.
  rewrite lookup_insert_ne by congruence. by exists ses.
Qed.

Lemma set_accepting_keeps k : keeps co_inv (@set_accepting U k).
Proof. apply keeps_modify. by intros c []. Qed.

Lemma AcceptLoop_keeps : keeps co_inv (@AcceptLoop U).
Proof.
  apply keeps_bind; [keep|]. intros [|]; [|keep]. apply keeps_bind; [keep|]. intros k. apply set_accepting_keeps.
Qed.

Lemma AcceptLoop_resumed_keeps s acc c :
  co_inv c → co_heap c !! s = None → co_inv (AcceptLoop_resumed s acc c).2.
Proof.
  intros Hi Hs. unfold AcceptLoop_resumed, mbind, stM_bind. erewrite st_bind_Ok by reflexivity.
  destruct (co_accepting c) as [|k]; [done|]. erewrite st_bind_Ok by reflexivity.
  set (c1 := mkCo _ _ _ _ _ _ _ _ _ _ _ _).
  assert (co_inv c1) as Hi1 by by destruct Hi.
  destruct acc as [ep|].
  - erewrite st_bind_Ok by reflexivity. apply AcceptLoop_keeps; [|by unfold AcceptLoop; st_simpl; case_match].
    destruct (make_session_holding s ep false c1 Hi1 Hs) as [[? ?] _]. by split.
  - erewrite st_bind_Ok by reflexivity. apply AcceptLoop_keeps; [done|]. by unfold AcceptLoop; st_simpl; case_match.
Qed.

Lemma run_co_keeps (x : co_call U) c :
  co_inv c → (∀ s, makes x = Some s → co_heap c !! s = None) →
  (∀ s, uses x = Some s → is_Some (co_heap c !! s)) →
  is_Undefined (run_co x c).1 = false → co_inv (run_co x c).2.
Proof.
  intros Hi Hnew Hold. destruct x as [port e|it|address port|now id|id m|it m|it|h|h| |s acc|s clocks now stream|s now m|s now|s clocks now con stream];
    cbn [run_co makes uses] in *.
  - unfold Start. destruct e; [done|]. st_simpl. intros _. by destruct Hi.
  - revert c Hi Hnew Hold. unfold Stop. intros c Hi _ _. revert c Hi.
    apply (keeps_bind co_inv); [apply keeps_modify; by intros c []|]. intros _.
    apply keeps_lock, keeps_bind; [keep|]. intros l. apply keeps_bind; [apply keeps_for; intros []; keep|].
    intros _. apply keeps_modify. intros c _. by intros ? ? ?.
  - by apply apart_inv.
  - clear Hnew Hold. revert c Hi. apply keeps_lock, keeps_bind; [keep|]. intros [s|]; [|keep].
    apply keeps_bind; [|keep]. apply keeps_modify. intros c Ht. by apply map_Forall_delete.
  - clear Hnew Hold. revert c Hi. apply keeps_bind; [apply keeps_lock; keep|]. intros [s|]; keep.
  - clear Hnew Hold. revert c Hi. apply keeps_bind; [apply keeps_lock; keep|]. intros l. apply keeps_for. intros s. keep.
  - clear Hnew Hold. revert c Hi. apply keeps_bind; [apply keeps_lock; keep|]. intros l. keep.
  - intros _. by destruct Hi.
  - intros _. by destruct Hi.
  - by apply AcceptLoop_keeps.
  - intros _. apply AcceptLoop_resumed_keeps; [done|by apply Hnew].
  - intros Hu. apply (Session_Start_keeps s clocks now stream); [by split; auto|done].
  - intros Hu. apply (HandleSessionMessage_keeps s now m); [by split; auto|done].
  - intros Hu. apply (handleError_keeps s now); [by split; auto|done].
  - unfold ConnectToPeer_coroutine. destruct con as [ep|]; [|done].
    unfold mbind, stM_bind. erewrite st_bind_Ok by reflexivity. intros Hu.
    match type of Hu with is_Undefined (?m _).1 = _ => assert (keeps (holding s) m) as Hk end.
    { apply keeps_bind; [keep|]. intros lp. apply keeps_bind; [keep|]. intros _.
      apply keeps_catch; [apply Session_Start_keeps|keep]. }
    apply Hk; [|done]. by apply make_session_holding; auto.
Qed.
End Calls.

(** C15. In every state the coroutine manager can reach, whatever is called, accepted and
    received and whatever its handlers do, its mutex is free between calls and the
    table is sound: the session filed under a non-empty id exists and carries that
    id, so that a message for a peer is written to the session this peer named. *)
Theorem co_reachable_inv {U} pm u (c : Co U) :
  rtc co_step (Co_new pm u) c →
  co_mutex c = false ∧
  ∀ id s, id ≠ "" → co_sessions c !! id = Some s →
    ∃ ses, co_heap c !! s = Some ses ∧ peerId_ ses = id.
Proof.
  intros Hrun. assert (co_inv (Co_new pm u)) as H0 by (split; [done|apply map_Forall_empty]).
  assert (co_inv c) as [Hf Ht].
  { revert H0 Hrun. generalize (Co_new pm u). intros c0 H0 Hrun.
    induction Hrun as [|c0 c1 c2 Hstep _ IH]; [done|]. apply IH.
    destruct Hstep as [x Hnew Hold Hu|pm' u']; [by apply run_co_keeps|by destruct H0]. }
  split; [done|]. intros id s Hne Hs. destruct (Ht id s Hs) as (ses & ? & Hid). exists ses. auto.
Qed.

Lemma co_reachable_inv_witness :
  co_mutex (HandleSessionMessage 0 (λ _, 7) (CreateHandshakeMessage 5 "bob" [Byte.x02])
    (AcceptLoop_resumed 0 (Some (Some ("10.0.0.2", 51000)))
      (AcceptLoop (Start 9090 None (Co_new (mkPM false ∅ (mkPeer "me" "" None [] true 0)) tt)).2).2).2).2 = false.
Proof.
  apply (co_reachable_inv (mkPM false ∅ (mkPeer "me" "" None [] true 0)) tt).
  eapply rtc_l; [apply (co_step_call _ (CoStart 9090 None)); done|].
  eapply rtc_l; [apply (co_step_call _ CoAcceptLoop); done|].
  eapply rtc_l; [apply (co_step_call _ (CoAccepted 0 (Some (Some ("10.0.0.2", 51000))))); [|done..]|].
  { intros s [= <-]. reflexivity. }
  eapply rtc_l; [apply (co_step_call _ (CoMessage 0 (λ _, 7) (CreateHandshakeMessage 5 "bob" [Byte.x02])));
    [done| |reflexivity]|apply rtc_refl].
  intros s [= <-]. by eexists.
Defined.

(** ** From the first byte to the last *)

Section Life.
Context {U : Type} {hm : option (MessageHandler U)} {hc : option (ConnectionHandler U)}.
Context `{!Client hm hc}.
Implicit Types c : Co U.

Definition co_captured c : PeerManager * U := (co_registry c, co_client c).
Abbreviation co_ready c := (@co_attached U hm hc c ∧ mutex_ (co_registry c) = false).

(** What the client is told of messages from [id]. *)
Definition hears (clocks : Message → Clock) (id : string) (ms : list Message) (pc : PeerManager * U) :=
  foldl (λ pc m, on_message (later 3 (clocks m)) id m pc) pc ms.

Lemma co_captured_put pc c : co_captured (co_with_captured pc c) = pc.
Proof. by destruct pc. Qed.

Lemma hears_registry clocks id ms pc : (hears clocks id ms pc).1 = pc.1.
Proof.
  revert pc. induction ms as [|m ms IH]; intros pc; [done|].
  change (hears clocks id (m :: ms) pc) with (hears clocks id ms (on_message (later 3 (clocks m)) id m pc)).
  by rewrite IH, on_message_registry.
Qed.

Lemma message_forwarded s now msg ses c c1 :
  HandleSessionHandshake s now msg c = (Ok tt, c1) → co_ready c1 →
  co_heap c1 !! s = Some ses → peerId_ ses ≠ "" →
  HandleSessionMessage s now msg c =
    (Ok tt, co_with_captured (on_message (later 3 now) (peerId_ ses) msg (co_captured c1)) c1).
Proof.
  intros E [Ha Hm] Hs Hne. unfold HandleSessionMessage, mbind, stM_bind. erewrite st_bind_Ok by exact E.
  do 2 erewrite st_bind_Ok by reflexivity.
  assert (get_session s c1 = ses) as -> by (unfold get_session; by rewrite Hs).
  pose proof (co_forward_run (later 3 now) (peerId_ ses) msg c1 Ha Hm) as Ef.
  unfold HasPeerId. rewrite (bool_decide_eq_false_2 _ Hne). cbn [negb].
  by destruct (co_messageHandler c1).
Qed.

Lemma messages_forwarded s clocks ms ses c :
  co_ready c → co_heap c !! s = Some ses → peerId_ ses ≠ "" →
  st_for ms (λ m, HandleSessionMessage s (clocks m) m) c =
    (Ok tt, co_with_captured (hears clocks (peerId_ ses) ms (co_captured c)) c).
Proof.
  revert c. induction ms as [|m ms IH]; intros c [Ha Hm] Hs Hne; [by destruct c|].
  cbn [st_for]. erewrite st_bind_Ok.
  2: { eapply message_forwarded; [|by split|exact Hs|exact Hne].
       by eapply HandleSessionHandshake_identified. }
  rewrite IH; [by rewrite co_captured_put| |done..]. split; [done|]. cbn. by rewrite on_message_registry.
Qed.

(** The state once the session has been named. *)
Definition named (s : nat) (now : Clock) (id : string) (key : list byte) (ses : session) c : Co U :=
  let c1 := registered now id key ses (filed s id ses c) in
  co_with_captured (on_connection (later 1 now) id true (co_captured c1)) c1.

(** The answer to the handshake, on incoming sessions only. *)
Definition answer_task (s : nat) (now : Clock) (ses : session) c : list task :=
  let me := localPeer_ (co_registry c) in
  if isOutgoing_ ses then []
  else [SendTask s (Serialize (CreateHandshakeMessage (now 2%nat) (pi_id me) (pi_publicKey me)))].

Lemma first_handshake s now msg id key ses c :
  co_ready c → co_mutex c = false → co_heap c !! s = Some ses → peerId_ ses = "" →
  type_ msg = HANDSHAKE → parse_handshake (payload_ msg) = Some (id, key) → id ≠ "" →
  ∃ c', HandleSessionMessage s now msg c = (Ok tt, c') ∧ co_ready c' ∧
    co_heap c' !! s = Some (SetPeerId id ses) ∧ co_sessions c' = <[id := s]> (co_sessions c) ∧
    co_captured c' = on_message (later 3 now) id msg (co_captured (named s now id key ses c)) ∧
    co_spawned c' = co_spawned c ++ answer_task s now ses c.
Proof.
  intros [Ha Hm] Hf Hs He Ht Hp Hne.
  pose proof (HandleSessionHandshake_run s now msg id key ses c Ha (conj Hf Hm) Hs He Ht Hp) as E.
  cbn zeta in E. fold (named s now id key ses c) in E.
  assert (co_ready (named s now id key ses c) ∧
    co_heap (named s now id key ses c) = <[s := SetPeerId id ses]> (co_heap c) ∧
    co_sessions (named s now id key ses c) = <[id := s]> (co_sessions c) ∧
    co_spawned (named s now id key ses c) = co_spawned c) as (Hr & Hh & Htab & Hsp).
  { unfold named. set (c1 := registered now id key ses (filed s id ses c)).
    assert (@co_attached U hm hc c1 ∧ mutex_ (co_registry c1) = false ∧ co_heap c1 = <[s := SetPeerId id ses]> (co_heap c) ∧
      co_sessions c1 = <[id := s]> (co_sessions c) ∧ co_spawned c1 = co_spawned c) as (H1 & H2 & H3 & H4 & H5).
    { unfold c1, registered. by destruct (remote_endpoint ses) as [[??]|]. }
    split; [split; [exact H1|by apply on_connection_free]|]. by split. }
  assert (∃ c3, HandleSessionHandshake s now msg c = (Ok tt, c3) ∧ co_ready c3 ∧
    co_heap c3 = co_heap (named s now id key ses c) ∧ co_sessions c3 = co_sessions (named s now id key ses c) ∧
    co_captured c3 = co_captured (named s now id key ses c) ∧
    co_spawned c3 = co_spawned c ++ answer_task s now ses c) as (c3 & E3 & Hr3 & Hh3 & Ht3 & Hc3 & Hsp3).
  { rewrite E. unfold answer_task. destruct (isOutgoing_ ses); eexists; (split; [reflexivity|]);
      rewrite <- Hsp, ?app_nil_r; split_and!; (apply Hr || done). }
  eexists. split; [eapply (message_forwarded s now msg (SetPeerId id ses)); [exact E3|exact Hr3|..]|].
  - by rewrite Hh3, Hh, lookup_insert_eq.
  - done.
  - split_and!.
    + apply Hr3.
    + cbn. rewrite on_message_registry. apply Hr3.
    + cbn. by rewrite Hh3, Hh, lookup_insert_eq.
    + cbn. by rewrite Ht3.
    + by rewrite co_captured_put, Hc3.
    + exact Hsp3.
Qed.
End Life.

(** C12. The life of a session, from its first byte to the end of its stream. A peer that
    sends a handshake, then messages, then fewer bytes than a header: the client is
    told of the connection, then of each message, in order and under the announced
    id, then of the disconnection, once each; the registry learns the peer; at the
    end the socket is closed. The table keeps the dead session: messages for this
    peer are still handed to it. *)
Theorem session_lifetime {U hm hc} `{!@Client U hm hc} s clocks now hs id key ms rest ses (c : Co U) :
  co_messageHandler c = hm → co_connectionHandler c = hc →
  co_mutex c = false → mutex_ (co_registry c) = false →
  co_heap c !! s = Some ses → peerId_ ses = "" →
  Forall (λ m, Message_wf m = true ∧ Z.of_nat (length (payload_ m)) <= max_payload) (hs :: ms) →
  type_ hs = HANDSHAKE → parse_handshake (payload_ hs) = Some (id, key) → id ≠ "" →
  (length rest < header_size)%nat →
  ∃ c', Session_Start s clocks now (concat (map Serialize (hs :: ms)) ++ rest) c = (Ok tt, c') ∧
    co_captured c' =
      on_connection now id false
        (hears clocks id (map delivered (hs :: ms))
          (co_captured (named s (clocks (delivered hs)) id key ses c))) ∧
    co_spawned c' = co_spawned c ++ answer_task s (clocks (delivered hs)) ses c ∧
    co_heap c' !! s = Some (close_socket (SetPeerId id ses)) ∧ co_sessions c' !! id = Some s.
Proof.
  intros H1 H2 Hf Hm Hs He Hms Ht Hp Hne Hrest.
  destruct (first_handshake s (clocks (delivered hs)) (delivered hs) id key ses c
    (conj (conj H1 H2) Hm) Hf Hs He Ht Hp Hne) as (c1 & E1 & [Ha1 Hm1] & Hs1 & Ht1 & Hc1 & Hsp1).
  pose proof (messages_forwarded s clocks (map delivered ms) _ c1 (conj Ha1 Hm1) Hs1 Hne) as E2.
  cbn [peerId_ SetPeerId] in E2.
  set (c2 := co_with_captured (hears clocks id (map delivered ms) (co_captured c1)) c1) in *.
  assert (mutex_ (co_registry c2) = false) as Hm2.
  { change (mutex_ (hears clocks id (map delivered ms) (co_captured c1)).1 = false). by rewrite hears_registry. }
  pose proof (co_call_connection_run now id false c2 Ha1 Hm2) as E3.
  assert (get_session s c2 = SetPeerId id ses) as Hg.
  { unfold get_session. change (co_heap c2) with (co_heap c1). by rewrite Hs1. }
  eexists. split.
  - unfold Session_Start, st_catch. rewrite Session_Run_delivers; [|done|done|lia].
    cbn [map st_for]. unfold st_bind at 1. erewrite st_bind_Ok by exact E1. rewrite E2.
    cbn [st_throw catch_all]. unfold handleError, mbind, stM_bind. erewrite st_bind_Ok by reflexivity.
    rewrite Hg. unfold HasPeerId. cbn [peerId_ SetPeerId]. rewrite (bool_decide_eq_false_2 _ Hne).
    cbn [negb]. erewrite st_bind_Ok by exact E3. reflexivity.
  - split_and!.
    + match goal with |- co_captured (_ _ (co_with_captured ?pc ?c3)) = _ =>
        change (co_captured (co_with_captured pc c3) = on_connection now id false
          (hears clocks id (map delivered ms) (on_message (later 3 (clocks (delivered hs))) id (delivered hs)
            (co_captured (named s (clocks (delivered hs)) id key ses c))))) end.
      rewrite co_captured_put, <- Hc1. f_equal. apply (co_captured_put _ c1).
    + exact Hsp1.
    + cbn. rewrite lookup_alter_eq. by rewrite Hs1.
    + cbn. by rewrite Ht1, lookup_insert_eq.
Qed.

Lemma session_lifetime_witness :
  ∃ c', Session_Start 0 (λ _ _, 7) (λ _, 9)
    (concat (map Serialize [CreateHandshakeMessage 5000000 "bob" [Byte.x02]; CreateTextMessage 0 "hi"]) ++ [Byte.x00])
    test_session = (Ok tt, c') ∧ co_sessions c' !! "bob" = Some 0%nat.
Proof.
  destruct (session_lifetime (hm := None) (hc := None) 0 (λ _ _, 7) (λ _, 9)
    (CreateHandshakeMessage 5000000 "bob" [Byte.x02]) "bob" [Byte.x02] [CreateTextMessage 0 "hi"] [Byte.x00]
    (mkSession true (Some ("10.0.0.2", 51000)) "" false) test_session) as (c' & E & _ & _ & _ & Ht);
    [reflexivity..| |reflexivity|reflexivity|discriminate| |by exists c'].
  - repeat constructor; done.
  - vm_compute. lia.
Defined.

(** ** What the peer receives *)

Section Received.
Context (async_write_some : list byte → nat → Prop).

Lemma lone_writer ws w data o :
  Forall (λ w, w = []) ws → rtc (write_step async_write_some) (mkOut (ws ++ [data]) w) o →
  ∃ rest, writers o = ws ++ [rest] ∧ written o ++ rest = w ++ data.
Proof.
  intros Hws Hrun. remember (mkOut (ws ++ [data]) w) as o0 eqn:E0.
  assert (∃ rest, writers o0 = ws ++ [rest] ∧ written o0 ++ rest = w ++ data) as H0.
  { subst. by exists data. }
  clear E0. induction Hrun as [o0|o0 o1 o2 Hstep _ IH]; [done|]. apply IH. clear IH.
  destruct H0 as (rest0 & Hw & Hd). destruct Hstep as [i left n Hi Hne _].
  rewrite Hw in Hi. cbn. destruct (decide (i < length ws)%nat) as [Hlt|Hge].
  - rewrite lookup_app_l in Hi by done. rewrite Forall_lookup in Hws. by apply Hws in Hi.
  - rewrite lookup_app_r in Hi by lia.
    destruct (i - length ws)%nat as [|k] eqn:Ek; [|done]. injection Hi as ->.
    exists (drop n left). split; [|by rewrite <- app_assoc, take_drop].
    rewrite Hw. replace i with (length ws + 0)%nat by lia. by rewrite insert_app_r.
Qed.

Lemma sends_in_turn_written ms o o' :
  idle_out o → sends_in_turn async_write_some ms o o' →
  written o' = written o ++ concat (map Serialize ms).
Proof.
  intros Hi Hs. revert Hi. induction Hs as [o|m ms o o1 o2 Hrun Hidle _ IH]; intros Hi.
  - by rewrite app_nil_r.
  - rewrite IH by done. destruct (lone_writer _ _ _ _ Hi Hrun) as (rest & Hw & E).
    unfold idle_out in Hidle. rewrite Hw in Hidle. apply Forall_app in Hidle as [_ Hidle].
    inversion Hidle; subst. rewrite app_nil_r in E. rewrite E. cbn [map concat]. by rewrite <- app_assoc.
Qed.
End Received.

(** C22. One connection, both ends. Messages that are sent one after the other arrive: however
    the socket cuts them into pieces, the session at the other end hands exactly these
    messages to its handler, once each and in order. *)
Theorem sends_in_turn_arrive {S} async_write_some (handler : Message → stM S unit) ms o fuel s :
  sends_in_turn async_write_some ms (mkOut [] []) o →
  Forall (λ m, Message_wf m = true ∧ Z.of_nat (length (payload_ m)) <= max_payload) ms →
  (length (written o) < fuel)%nat →
  Session_Run fuel handler (written o) s =
    st_bind (λ _, st_throw (system_error "End of file")) (st_for (map delivered ms) handler) s.
Proof.
  intros Hs Hms Hfuel.
  pose proof (sends_in_turn_written _ ms (mkOut [] []) o (Forall_nil_2 _) Hs) as E.
  cbn in E. rewrite <- (app_nil_r (concat _)) in E. rewrite E in *.
  apply Session_Run_delivers; [done|unfold header_size; cbn; lia|done].
Qed.

(** Two messages, and a socket whose calls transfer any positive number of bytes. *)
Definition greeting : Message := mkMessage TEXT [Byte.x68; Byte.x69] 0.
Definition farewell : Message := mkMessage TEXT [Byte.x62; Byte.x79; Byte.x65] 0.
Definition some_bytes (data : list byte) (n : nat) : Prop := (1 <= n <= length data)%nat.

Lemma sends_in_turn_arrive_witness :
  Session_Run 100 (λ m, st_modify (λ l, l ++ [payload_ m])) (Serialize greeting ++ Serialize farewell) []
  = (Throw (system_error "End of file"), [payload_ greeting; payload_ farewell]).
Proof.
  assert (∀ i data n (o : socket_out), writers o !! i = Some data → (1 <= n <= length data)%nat →
    write_step some_bytes o (mkOut (<[i := drop n data]> (writers o)) (written o ++ take n data))) as Hw.
  { intros i data n o Hi Hn. apply writes_some; [done| |done]. intros ->. cbn in Hn. lia. }
  etrans; [apply (sends_in_turn_arrive some_bytes (λ m, st_modify (λ l, l ++ [payload_ m])) [greeting; farewell]
    (mkOut [[]; []] (Serialize greeting ++ Serialize farewell)) 100 [])|reflexivity].
  - apply (turn_next _ _ _ _ (mkOut [[]] (Serialize greeting))); [|unfold idle_out; by repeat constructor|].
    { eapply rtc_l; [apply (Hw 0%nat (Serialize greeting) 4%nat); [reflexivity|vm_compute; lia]|].
      eapply rtc_l; [|apply rtc_refl].
      apply (Hw 0%nat (drop 4 (Serialize greeting)) 11%nat (mkOut [_] (take 4 (Serialize greeting))));
        [reflexivity|vm_compute; lia]. }
    apply (turn_next _ _ _ _ (mkOut [[]; []] (Serialize greeting ++ Serialize farewell)));
      [|unfold idle_out; by repeat constructor|apply turn_over].
    eapply rtc_l; [|apply rtc_refl].
    apply (Hw 1%nat (Serialize farewell) 16%nat (mkOut [[]; _] (Serialize greeting)));
      [reflexivity|vm_compute; lia].
  - repeat constructor; done.
  - vm_compute. lia.
Defined.

(** A header whose size bytes are zero, with a large time stamp. *)
Lemma large_timestamp b0 b1 b2 b3 b4 t0 t1 t2 t3 t4 t5 t6 t7 :
  1 <= Z_of_byte t0 < 128 →
  fits_i64 (read_timestamp [b0; b1; b2; b3; b4; t0; t1; t2; t3; t4; t5; t6; t7] * ns_per_ms) = false.
Proof.
  intros Ht. rewrite read_timestamp_be, be_decode_cons.
  pose proof (be_decode_range [t1; t2; t3; t4; t5; t6; t7]) as Hr.
  set (x := be_decode [t1; t2; t3; t4; t5; t6; t7]) in *. clearbody x. cbn [length] in *.
  replace (2 ^ (8 * Z.of_nat 7)) with (2 ^ 56) in * by done.
  rewrite i64_small by lia. apply not_true_iff_false. rewrite fits_i64_spec. unfold ns_per_ms. lia.
Qed.

Lemma empty_message_overflows b t0 t1 t2 t3 t4 t5 t6 t7 :
  1 <= Z_of_byte t0 < 128 →
  Deserialize [b; Byte.x00; Byte.x00; Byte.x00; Byte.x00; t0; t1; t2; t3; t4; t5; t6; t7]
  = Undefined SignedOverflow.
Proof.
  intros Ht. apply Deserialize_undefined_cases. rewrite read_payload_size_be.
  change (be_decode [Byte.x00; Byte.x00; Byte.x00; Byte.x00]) with 0.
  split; [cbn [length]; lia|]. left.
  split; [done|]. split; [by apply large_timestamp|right; cbn [length]; lia].
Qed.

(** A message without a payload, as the reader takes it. *)
Lemma next_message_empty h rest :
  length h = header_size → read_payload_size h = 0 →
  next_message (h ++ rest) = msg ← Deserialize h; Ok (msg, rest).
Proof.
  intros Hl Hs. unfold next_message. rewrite async_read_app by done.
  cbn [mbind outcome_mbind outcome_bind]. rewrite Hs.
  rewrite (proj2 (Z.ltb_ge _ _)) by (unfold max_payload; lia).
  change (async_read (Z.to_nat 0) rest) with (Ok ([] : list byte, rest)).
  cbn [mbind outcome_mbind outcome_bind]. by rewrite app_nil_r.
Qed.

(** What a reader makes of a text message one byte late: its size is zero, and the length
    of the text is the first byte of its time stamp. *)
Lemma next_message_late b m rest :
  type_ m = TEXT → (1 <= length (payload_ m) < 128)%nat →
  next_message (b :: Serialize m ++ rest) = Undefined SignedOverflow.
Proof.
  intros Ht Hlen. rewrite Serialize_layout, Ht. set (l := Z.of_nat (length (payload_ m))).
  assert (u32 l = l) as -> by (unfold u32; apply Z.mod_small; lia).
  assert (be_encode 4 l = [Byte.x00; Byte.x00; Byte.x00; byte_of_Z l]) as ->.
  { cbn [be_encode]. rewrite !(Z.div_small l) by (cbn; lia).
    change (8 * Z.of_nat 0) with 0. by rewrite Z.pow_0_r, Z.div_1_r. }
  cbn [be_encode app].
  match goal with |- next_message (?a :: ?b :: ?c :: ?d :: ?e :: ?t0 :: ?t1 :: ?t2 :: ?t3 :: ?t4 :: ?t5 :: ?t6 :: ?t7 :: ?r) = _ =>
    pose proof (next_message_empty [a; b; c; d; e; t0; t1; t2; t3; t4; t5; t6; t7] r eq_refl) as E end.
  cbn [app] in E. rewrite E by (by rewrite read_payload_size_be). rewrite empty_message_overflows; [done|].
  rewrite Z_of_byte_of_Z. unfold u8. rewrite Z.mod_small; lia.
Qed.

(** C24. Nothing makes the coroutines take turns. Of two messages sent to one peer at the same
    time, the second a text of 1 to 127 bytes, the socket may transfer one byte of the
    first, then the second, then the rest of the first; then whatever its handler does,
    the session at the other end hands it nothing: it reads a header that nobody sent,
    whose time stamp overflows, which is undefined. In turn they would have arrived
    ([sends_in_turn_arrive]). *)
Theorem concurrent_sends_interleave {S} (async_write_some : list byte → nat → Prop)
    (handler : Message → stM S unit) m1 m2 fuel s :
  type_ m2 = TEXT → (1 <= length (payload_ m2) < 128)%nat →
  async_write_some (Serialize m1) 1%nat →
  async_write_some (Serialize m2) (length (Serialize m2)) →
  async_write_some (drop 1 (Serialize m1)) (length (drop 1 (Serialize m1))) →
  (0 < fuel)%nat →
  ∃ o, rtc (write_step async_write_some) (Session_SendMessage m2 (Session_SendMessage m1 (mkOut [] []))) o ∧
    idle_out o ∧ Session_Run fuel handler (written o) s = (Undefined SignedOverflow, s).
Proof.
  intros Ht Hlen H1 H2 H3 Hfuel.
  assert (∃ b r, Serialize m1 = b :: r ∧ r ≠ []) as (b & r & E1 & Hr).
  { rewrite Serialize_layout. do 2 eexists. split; [reflexivity|]. done. }
  assert (Serialize m2 ≠ []) as Hne by by rewrite Serialize_layout.
  rewrite E1 in H1, H3. cbn [drop] in H3.
  exists (mkOut [[]; []] (b :: Serialize m2 ++ r)). split; [|split; [unfold idle_out; by repeat constructor|]].
  - unfold Session_SendMessage. cbn [writers written app]. rewrite E1.
    eapply rtc_l; [eapply (writes_some _ _ 0 (b :: r) 1); done|].
    eapply rtc_l; [eapply (writes_some _ _ 1 (Serialize m2)); done|].
    eapply rtc_l; [eapply (writes_some _ _ 0 r); done|].
    cbn. rewrite !drop_all, !firstn_all. apply rtc_refl.
  - destruct fuel as [|fuel]; [lia|]. rewrite Session_Run_step. cbn [written]. by rewrite next_message_late.
Qed.

Lemma concurrent_sends_interleave_witness :
  ∃ o, rtc (write_step some_bytes) (Session_SendMessage farewell (Session_SendMessage greeting (mkOut [] []))) o ∧
    idle_out o ∧
    Session_Run 9 (λ m, st_modify (λ l, l ++ [payload_ m])) (written o) [] = (Undefined SignedOverflow, []).
Proof.
  apply (concurrent_sends_interleave some_bytes (λ m, st_modify (λ l, l ++ [payload_ m])) greeting farewell);
    try reflexivity; unfold some_bytes; vm_compute; lia.
Defined.
